(* ===== verification/_CoqProject ===== *)
-Q . S2P
Prelude.v
Syntax.v
TreeNodes.v
TreeMath.v
Cipher.v
ToyCrypto.v
RatchetTree.v
TreeSync.v
TreeKEM.v
LeafSwap.v
KeySchedule.v
Sequencer.v
Esp.v
Credential.v
Framing.v
GroupMessages.v
Group.v
GroupProposals.v
GroupSync.v
GroupKeys.v
GroupLed.v
GroupJoin.v
GroupExternal.v
Interop.v
GroupRuns.v
Controller.v
ControllerSync.v
Bench.v
Scaling.v
SimSched.v
SimNet.v
SimClient.v
SimWindow.v
SimWorld.v
SimRun.v
Metalsim.v
