(* ===== verification/Prelude.v ===== *)
(** * mls-go: a verification library for an MLS implementation in Go

    The repository implements Messaging Layer Security (RFC 9420) under
    [src/mls], a key-agreement service for network segments (VNIs) on top of
    it under [src/ironcore], a deterministic simulation of a fleet of such
    services under [src/sim], and a server that lets other implementations talk
    to this one under [src/interop].  This library translates them into
    executable definitions and proves that they do what is needed of them.

    ** The program and its model

    The packages call each other from the bottom up, and so do the files:

    - [Prelude] (this file): machine integers with their wrap-around, bytes, and
      [outcome], the result of a Go function: a value, an error, a panic, or a
      loop that did not end; the notation [let!], the tactics and the lemmas all
      files share.
    - [Syntax], package [mls/syntax]: variable-length integers, [Builder] and
      [Cursor], vectors.  The class [Wire] is the interface of every codec of
      the library: what the writer emits the reader gives back, and the reader
      accepts nothing else.
    - [TreeNodes], [TreeMath], [RatchetTree], [TreeSync], [TreeKEM], package
      [mls/tree]: node codecs ([credential.go], [leaf.go], [parent.go],
      [updatepath.go]), index arithmetic ([math.go]), the node array and its
      mutations ([node.go], [mutate.go], [generate.go]), resolutions, tree and
      parent hashes and leaf validation ([treesync.go], [validation.go]), and
      update paths ([treekem.go]).  [LeafSwap] has the lemmas on what an update
      path does not see of its sender's leaf.
    - [Cipher], package [mls/cipher]: the suites and the labelled operations.
      The cryptography of the Go standard library is not part of the
      repository: it is the class [StdCrypto] with the documented laws
      [StdCryptoLaws] (decryption inverts encryption, signatures verify, output
      lengths, serialization of keys); [ToyCrypto] gives an executable instance
      of both, on which all witnesses run.
    - [KeySchedule], package [mls/keyschedule]: group context, epoch secrets,
      pre-shared keys, the secret tree, transcript hashes.
    - [Framing], package [mls/framing]: framed content, public and private
      messages, the [MLSMessage] envelope.
    - [GroupMessages] and [Group], package [mls/group]: key packages, proposals,
      commits, group infos and welcomes with their codecs; then the group state
      machine itself, the record [Group] with creation, proposals,
      [Group_Commit], [ProcessCommit], [JoinFromWelcome], [ExternalCommit],
      [processExternalCommit] and application messages.  A method that assigns
      to the group is a computation of the state monad [GM].
    - [GroupProposals], [GroupSync], [GroupKeys], [GroupLed], [GroupJoin],
      [GroupExternal], [GroupRuns]: the theorems on the state machine.
    - [Interop], package [interop/server] ([server.go]): the groups and key
      packages of a server under their handles, every remote call as a
      computation of the monad [RM], sequences of calls, and the theorems on
      servers that talk to each other.
    - [Sequencer], package [ironcore/sequencer]: the register that decides one
      commit per epoch, leases and fencing tokens, fork detection, tie-breaking.
      The class [Ordering] is what they promise to their clients.
    - [Esp], package [ironcore] ([vni.go], [sa.go]): group identifiers and the
      ESP security associations exported from an epoch.
    - [Credential], package [ironcore] ([credential.go]): the PKI and SPIFFE
      validators, over the class [X509] for certificates, chain verification
      and URLs.
    - [Controller], package [ironcore] ([controller.go], [recovery.go],
      [group.go]): the membership controller.  Its methods are computations of
      the monad [CM] over the controller and the ordering service, which is a
      parameter.  [ControllerSync] has the theorems.
    - [SimSched] ([event.go], [scheduler.go]), [SimNet] ([metrics.go],
      [fault.go], [bus.go], [ds.go]), [SimClient] ([client.go] and the directory
      of [sim.go]) and [SimWorld] ([sim.go], [scenario.go], [invariant.go]),
      package [sim]: the event queue with the heap of [container/heap], the
      faulty network, the reflectors that order commits, the clients with two
      controllers per segment, and the world that runs a scenario.  What actors
      share through pointers is one record ([Net], [Host]) that every operation
      takes and returns.  [SimWindow] and [SimRun] have the theorems.
    - [Bench], package [bench]: the groups whose messages are measured.
      [Scaling], package [scaling] and [run] of [cmd/scalebench]: projections of
      the load in IEEE arithmetic, and the verdicts of a sweep.  [Metalsim],
      [cmd/metalsim]: the command that runs the scenarios, and its exit code.

    ** What the theorems show

    - Codecs: every decoder returns on every input and accepts exactly the
      encodings of well-formed values ([varint_canonical], [mls_message_codec],
      [handshake_body_codec]); copying a tree through the wire changes nothing
      ([clone_identity]).
    - The tree: the array with its unmerged leaves and blank nodes refines a map
      from leaf indices to leaves ([tree_refines_roster]); every reachable tree
      is well formed ([reachable_trees_well_formed], [merge_well_formed]); the
      root hash commits to the whole tree, up to a collision of the hash
      ([tree_hash_commits]); resolutions cover all members
      ([resolution_covers]).
    - Agreement: all members of a path's tree derive the committer's secret
      ([members_agree_on_commit]), all members of the group that process a
      commit reach the committer's epoch ([members_follow_commit]), those it
      adds reach it through the Welcome ([welcome_joiner_in_epoch]), newcomers
      that join by an external commit are followed by the members
      ([newcomer_shares_epoch]), though not into a group without a commit yet
      ([new_group_rejects_newcomer]), and messages of the epoch are read by all
      of them
      ([private_message_delivery], [application_delivery]).
    - Authenticity and validation: what is accepted was signed for the group's
      epoch and confirmed ([unprotect_authenticates],
      [accepted_commits_authentic]), joiners install only what they validated
      ([join_installs_validated_state]), and the validators accept exactly the
      credentials they describe ([validators_exact]).
    - Errors: a failed commit changes nothing ([commits_are_atomic]).
    - Keys over time: what a member needs to follow the next commit, when it has
      it ([keys_after_commit]); groups of two never get stuck
      ([pairs_never_stranded]), nor do groups of any size in which the commits
      come from one leader, who may be replaced by a member that removes it
      ([led_group_stays_together]); and a run in which members of a group of
      four without a leader do ([honest_members_stranded]).
    - The interop server: a commit answered by one server is followed on
      another ([servers_follow_commit]), so is a newcomer's
      ([external_join_served]), and the groups on a server do not see each other
      ([sessions_independent]).
    - Ordering: at most one commit per epoch is ever accepted, also when leases
      expire and writers are delayed ([fenced_sequencers_agree],
      [lease_exclusion]); hence no two controllers win one epoch
      ([one_winner_per_epoch]), and no reflector forks its channels
      ([reflector_never_forks]).
    - The controller: the associations follow the commits and fit together
      ([associations_follow_commits], [inbound_sas_distinct]); one member
      commits a change of membership ([reconcile_one_committer]), and one
      commit reaches the desired membership ([reconcile_converges]).
    - The data plane: the replay window is exact ([replay_window_exact]), and a
      client can decrypt what was sent in an epoch until it is more than the
      overlap ahead ([make_before_break]).
    - The simulation: events come out in one total order
      ([scheduler_total_order]), every run ends ([simulation_terminates]), and
      its verdict means what it says ([evaluate_exact]); so does the exit code of
      the command ([metalsim_gate]).
    - Measurements: a measured group has the members asked for
      ([built_group_exact]), and a sweep is complete, in order, and judged by its
      least point over the budget ([sweep_exact], [verdicts_exact],
      [packets_exact]).

    ** Conventions and bounds

    Integers are [Z], reduced modulo [2^w] wherever the Go expression of width
    [w] can leave its range; the theorems carry the ranges they need
    ([is_u32] and the like).  Trees have at most [2^30] leaves in the theorems,
    so that node indices fit 32 bits.  Loops over levels of the tree run on the
    fuel [tree_fuel] (33): a [uint32] index has at most 32 levels, and the
    theorems show that the fuel is enough on trees of at most [2^30] leaves;
    fuel that runs out is [Diverge], never a value.  Loops over input bytes run
    on the length of the input; the sifting loops of the heap on the length of
    the heap, more than their number of steps.  The main loop of the simulation
    runs on fuel that is an argument, and some amount of it is proved to be
    enough.  Randomness and the time are arguments; the counters of the metrics
    are unbounded.  Error
    values carry the innermost message of the Go error, without the prefixes
    added on the way up.  Slices and maps that the code may alias are copied by
    the code before they are mutated ([Clone] goes through the wire form); where
    that is not so the file says how the aliasing is represented.

    ** Not modelled

    Of the commands, the parsing of flags and lists and the printing of tables,
    CSV and JSON; the benchmarks of [bench], which are tests and read the clock;
    of [sim/metrics.go] the measured CPU times and the reports made of the
    counters.  Of [interop] the generated gRPC bindings and the main function
    that listens on a port; [mls/internal/katutil], which loads test vectors.
    Wall-clock access ([SystemClock]), the [context.Context] arguments and
    logging are left out. *)

From Stdlib Require Import ZArith Lia Strings.Byte.
From stdpp Require Import base list gmap strings numbers.

#[global] Open Scope Z_scope.

(** * Bytes and machine integers

    A Go [byte] is Rocq's [byte]; [byte_of_Z] is the conversion [byte(v)],
    which keeps the low eight bits.  Unsigned integers of width [w] are [Z]
    values below [2^w]; every operation that can leave the range is followed
    by the wrap-around of its width. *)

Abbreviation byte := Byte.byte.
Abbreviation bytes := (list Byte.byte).

Definition Z_of_byte (b : byte) : Z := Z.of_N (Byte.to_N b).

Definition byte_of_Z (z : Z) : byte :=
  match Byte.of_N (Z.to_N (z mod 256)) with
  | Some b => b
  | None => Byte.x00
  end.

Definition u8 (z : Z) : Z := z mod 2 ^ 8.
Definition u16 (z : Z) : Z := z mod 2 ^ 16.
Definition u32 (z : Z) : Z := z mod 2 ^ 32.
Definition u64 (z : Z) : Z := z mod 2 ^ 64.

Definition is_u8 (z : Z) : Prop := 0 <= z < 2 ^ 8.
Definition is_u16 (z : Z) : Prop := 0 <= z < 2 ^ 16.
Definition is_u32 (z : Z) : Prop := 0 <= z < 2 ^ 32.
Definition is_u64 (z : Z) : Prop := 0 <= z < 2 ^ 64.

(** [len(b)] *)
Definition len {A} (l : list A) : Z := Z.of_nat (length l).

Lemma Z_of_byte_range b : 0 <= Z_of_byte b < 256.
Proof. unfold Z_of_byte. pose proof (Byte.to_N_bounded b). lia. Qed.

Lemma byte_of_Z_of_byte b : byte_of_Z (Z_of_byte b) = b.
Proof.
  unfold byte_of_Z. rewrite Z.mod_small by apply Z_of_byte_range.
  unfold Z_of_byte. by rewrite N2Z.id, Byte.of_to_N.
Qed.

Lemma Z_of_byte_of_Z z : Z_of_byte (byte_of_Z z) = z mod 256.
Proof.
  unfold byte_of_Z, Z_of_byte.
  pose proof (Z.mod_pos_bound z 256 ltac:(lia)).
  destruct (Byte.of_N _) as [b|] eqn:E.
  - apply Byte.to_of_N in E. rewrite E. lia.
  - apply Byte.of_N_None_iff in E. lia.
Qed.

Lemma Z_of_byte_inj b1 b2 : Z_of_byte b1 = Z_of_byte b2 -> b1 = b2.
Proof.
  intros H. rewrite <- (byte_of_Z_of_byte b1), <- (byte_of_Z_of_byte b2). by f_equal.
Qed.

#[global] Instance byte_eq_dec : EqDecision byte := Byte.byte_eq_dec.
#[global] Program Instance byte_countable : Countable byte :=
  inj_countable' Byte.to_N (fun n => match Byte.of_N n with Some b => b | None => Byte.x00 end) _.
Next Obligation. intros b. cbv beta. by rewrite Byte.of_to_N. Qed.

(** [bytes.Equal] *)
Definition bytes_Equal (a b : bytes) : bool := bool_decide (a = b).

Lemma bytes_Equal_spec a b : bytes_Equal a b = true <-> a = b.
Proof. apply bool_decide_eq_true. Qed.

(** [make([]byte, n)] *)
Definition zero_bytes (n : nat) : bytes := replicate n Byte.x00.

(** [lia] with the equations of division and remainder by constants. *)
Ltac zlia := Z.to_euclidean_division_equations; lia.

(** The bytes of a Go string constant. *)
Definition bytes_of_string (s : string) : bytes := String.list_byte_of_string s.

Lemma len_nonneg {A} (l : list A) : 0 <= len l.
Proof. unfold len. lia. Qed.

Lemma len_app {A} (l k : list A) : len (l ++ k) = len l + len k.
Proof. unfold len. rewrite length_app. lia. Qed.

Lemma len_cons {A} (x : A) l : len (x :: l) = 1 + len l.
Proof. unfold len. simpl length. lia. Qed.

(** * Bit operations as arithmetic *)

Lemma lor_disjoint a n x : 0 <= n -> 0 <= x < 2 ^ n -> Z.lor (Z.shiftl a n) x = a * 2 ^ n + x.
Proof.
  intros Hn Hx.
  assert (Z.land (Z.shiftl a n) x = 0) as H.
  { apply Z.bits_inj'. intros i Hi. rewrite Z.land_spec, Z.bits_0, Z.shiftl_spec by lia.
    destruct (Z.lt_ge_cases i n) as [?|Hin]; [by rewrite Z.testbit_neg_r by lia|].
    destruct (Z.eq_dec x 0) as [->|]; [by rewrite Z.bits_0, andb_false_r|].
    rewrite (Z.bits_above_log2 x), andb_false_r; [done|lia|].
    eapply Z.lt_le_trans; [|exact Hin]. apply Z.log2_lt_pow2; lia. }
  rewrite <- Z.shiftl_mul_pow2 by lia. by rewrite Z.add_nocarry_lxor, Z.lxor_lor.
Qed.

Lemma land_low a n : 0 <= n -> Z.land a (2 ^ n - 1) = a mod 2 ^ n.
Proof. intros. by rewrite <- Z.land_ones, Z.ones_equiv, <- Z.sub_1_r by lia. Qed.

(** * Outcomes of Go code

    A call returns a value, returns a non-nil [error], panics (an index or
    slice expression out of range, a nil dereference, an explicit [panic]) or
    does not return.  [Diverge] is what a loop modelled with fuel yields when
    the fuel is spent; the theorems show which loops never reach it. *)

Inductive outcome (A : Type) : Type :=
| Ok (a : A)
| Err (e : string)
| Panic
| Diverge.
Arguments Ok {A} a.
Arguments Err {A} e.
Arguments Panic {A}.
Arguments Diverge {A}.

Definition obind {A B} (m : outcome A) (k : A -> outcome B) : outcome B :=
  match m with
  | Ok a => k a
  | Err e => Err e
  | Panic => Panic
  | Diverge => Diverge
  end.

(** [fmt.Errorf("...: %w", err)] *)
Definition owrap {A} (s : string) (m : outcome A) : outcome A :=
  match m with
  | Err e => Err (s ++ ": " ++ e)
  | _ => m
  end.

Definition is_ok {A} (m : outcome A) : bool := match m with Ok _ => true | _ => false end.
Definition is_err {A} (m : outcome A) : bool := match m with Err _ => true | _ => false end.

(** The call returned, with a value or with an error. *)
Definition returns {A} (m : outcome A) : Prop :=
  match m with Ok _ | Err _ => True | _ => False end.

Declare Scope go_scope.
Delimit Scope go_scope with go.
Notation "'let!' x := m 'in' k" := (obind m (fun x => k))
  (at level 10, x pattern, m at level 100, k at level 200) : go_scope.
Notation "'check' b 'else' e 'then' k" := (if b then k else Err e)
  (at level 10, b at level 100, e at level 100, k at level 200) : go_scope.
#[global] Open Scope go_scope.

Lemma is_ok_inv {A} (m : outcome A) : is_ok m = true -> exists a, m = Ok a.
Proof. destruct m; [eauto|done..]. Qed.

Lemma Ok_inj {A} (a b : A) : Ok a = Ok b -> a = b.
Proof. by intros [= ->]. Qed.

Lemma obind_ok {A B} (m : outcome A) (k : A -> outcome B) b :
  obind m k = Ok b <-> exists a, m = Ok a /\ k a = Ok b.
Proof. destruct m; simpl; naive_solver. Qed.

Lemma obind_assoc {A B C} (m : outcome A) (f : A -> outcome B) (g : B -> outcome C) :
  obind (obind m f) g = obind m (fun a => obind (f a) g).
Proof. by destruct m. Qed.

Lemma obind_ext {A B} (m : outcome A) (k k' : A -> outcome B) :
  (forall a, k a = k' a) -> obind m k = obind m k'.
Proof. intros H. destruct m; simpl; auto. Qed.

Lemma returns_obind {A B} (m : outcome A) (k : A -> outcome B) :
  returns m -> (forall a, m = Ok a -> returns (k a)) -> returns (obind m k).
Proof. destruct m; simpl; auto. Qed.

Lemma owrap_ok {A} s (m : outcome A) a : owrap s m = Ok a <-> m = Ok a.
Proof. by destruct m. Qed.

Lemma returns_owrap {A} s (m : outcome A) : returns (owrap s m) <-> returns m.
Proof. by destruct m. Qed.

(** * Slices *)

(** [l[i]] *)
Definition index {A} (l : list A) (i : Z) : outcome A :=
  if i <? 0 then Panic else
  match l !! Z.to_nat i with Some a => Ok a | None => Panic end.

(** [l[i] = v] *)
Definition set_index {A} (l : list A) (i : Z) (v : A) : outcome (list A) :=
  if (i <? 0) || (len l <=? i) then Panic else Ok (<[Z.to_nat i := v]> l).

(** [l[lo:hi]], with the bound [hi <= len(l)] that the code establishes. *)
Definition slice {A} (l : list A) (lo hi : Z) : outcome (list A) :=
  if (0 <=? lo) && (lo <=? hi) && (hi <=? len l)
  then Ok (take (Z.to_nat (hi - lo)) (drop (Z.to_nat lo) l)) else Panic.

Lemma index_ok {A} (l : list A) i a : index l i = Ok a <-> 0 <= i /\ l !! Z.to_nat i = Some a.
Proof.
  unfold index. destruct (Z.ltb_spec i 0); [naive_solver lia|].
  destruct (l !! Z.to_nat i); naive_solver.
Qed.

Lemma index_in_range {A} (l : list A) i : 0 <= i < len l -> exists a, index l i = Ok a.
Proof.
  unfold len. intros [H1 H2].
  destruct (lookup_lt_is_Some_2 l (Z.to_nat i)) as [a Ha]; [lia|].
  exists a. apply index_ok. auto.
Qed.

Lemma set_index_ok {A} (l : list A) i v l' :
  set_index l i v = Ok l' <-> 0 <= i < len l /\ l' = <[Z.to_nat i := v]> l.
Proof.
  unfold set_index.
  destruct (Z.ltb_spec i 0), (Z.leb_spec (len l) i); simpl; naive_solver lia.
Qed.

Lemma set_index_len {A} (l : list A) i v l' : set_index l i v = Ok l' -> length l' = length l.
Proof. intros [_ ->]%set_index_ok. apply length_insert. Qed.

(** * Tactics *)

(** Opens every [obind] hypothesis that succeeded. *)
Ltac inv_ok :=
  repeat match goal with
  | H : obind _ _ = Ok _ |- _ =>
      let a := fresh "a" in let Ha := fresh "Ha" in
      apply obind_ok in H as (a & Ha & H);
      (try match type of a with (_ * _)%type =>
         let v := fresh "v" in let c := fresh "c" in destruct a as [v c] end);
      cbv beta match in H
  | H : owrap _ _ = Ok _ |- _ => apply owrap_ok in H
  | H : Ok _ = Ok _ |- _ => injection H as H; try subst
  | H : Err _ = Ok _ |- _ => discriminate H
  | H : Panic = Ok _ |- _ => discriminate H
  | H : Diverge = Ok _ |- _ => discriminate H
  | H : (_, _) = (_, _) |- _ => injection H as H; try subst
  end.

Ltac destruct_if H :=
  match type of H with context [if ?b then _ else _] => destruct b eqn:? end.

Create HintDb go.
#[export] Hint Resolve returns_obind Z_of_byte_range len_nonneg : go.
