(* ===== verification/Syntax.v ===== *)
(** [mls/syntax]: the RFC 9420 presentation language.

    [varint.go] (variable-length integers and [opaque<V>]), [codec.go] (the
    append-only [Builder] and the consuming [Cursor], both structs with the
    single field [buf], modelled by that field) and [vector.go] ([<V>]
    vectors and [optional<T>]).  A method that mutates its receiver takes and
    returns the buffer.

    The interface that every wire structure of the library offers to its
    clients is the class [Wire]: a writer that only appends, a reader that
    inverts it, and the converse, that the reader accepts nothing but what the
    writer produces. *)

From Stdlib Require Import ZArith Lia Strings.Byte.
From stdpp Require Import base list numbers strings.
From S2P Require Import Prelude.

(** * varint.go *)

(* mls/syntax/varint.go:9-9 MaxVarint *)
Definition MaxVarint : Z := Z.shiftl 1 30 - 1.

(* mls/syntax/varint.go:12-23 WriteVarint *)
Definition WriteVarint (v : Z) : outcome bytes :=
  if v <? Z.shiftl 1 6 then Ok [byte_of_Z v]
  else if v <? Z.shiftl 1 14 then
    Ok [byte_of_Z (Z.lor 64 (u8 (Z.shiftr v 8))); byte_of_Z v]
  else if v <=? MaxVarint then
    Ok [byte_of_Z (Z.lor 128 (u8 (Z.shiftr v 24)));
        byte_of_Z (Z.shiftr v 16); byte_of_Z (Z.shiftr v 8); byte_of_Z v]
  else Err "syntax: varint exceeds max".

(** The loop [for i := 1; i < length; i++ { v = (v << 8) | uint64(b[i]) }],
    with [n] iterations left. *)
(* mls/syntax/varint.go:41-43 ReadVarint *)
Fixpoint ReadVarint_loop (b : bytes) (n : nat) (i v : Z) : outcome Z :=
  match n with
  | O => Ok v
  | S n =>
      let! x := index b i in
      ReadVarint_loop b n (i + 1) (Z.lor (u64 (Z.shiftl v 8)) (Z_of_byte x))
  end.

(* mls/syntax/varint.go:28-50 ReadVarint *)
Definition ReadVarint (b : bytes) : outcome (Z * Z) :=
  if len b =? 0 then Err "syntax: empty varint" else
  let! b0 := index b 0 in
  let prefix := Z.shiftr (Z_of_byte b0) 6 in
  if prefix =? 3 then Err "syntax: 8-byte varint not allowed in MLS" else
  let length := Z.shiftl 1 prefix in
  if len b <? length then Err "syntax: short varint" else
  let! v := ReadVarint_loop b (Z.to_nat (length - 1)) 1 (Z.land (Z_of_byte b0) 63) in
  let canon := match WriteVarint v with Ok c => c | _ => [] end in
  if negb (len canon =? length) then Err "syntax: non-minimal varint encoding" else
  Ok (v, length).

(* mls/syntax/varint.go:53-59 WriteOpaqueV *)
Definition WriteOpaqueV_bytes (b : bytes) : outcome bytes :=
  let! hdr := WriteVarint (len b) in
  Ok (hdr ++ b).

(* mls/syntax/varint.go:64-74 ReadOpaqueV *)
Definition ReadOpaqueV_bytes (b : bytes) : outcome (bytes * Z) :=
  let! (n, hdrLen) := ReadVarint b in
  let total := hdrLen + n in
  if len b <? total then Err "syntax: short opaque<V>" else
  let! s := slice b hdrLen total in
  Ok (s, total).

(** * codec.go *)

(* mls/syntax/codec.go:9-11 Builder *)
Definition Builder : Type := bytes.

(* mls/syntax/codec.go:14-14 NewBuilder *)
Definition NewBuilder : Builder := [].

(** [binary.BigEndian.AppendUint16] and friends: the [n] low bytes of [v],
    most significant first. *)
Fixpoint be_bytes (n : nat) (v : Z) : bytes :=
  match n with
  | O => []
  | S n => byte_of_Z (Z.shiftr v (8 * Z.of_nat n)) :: be_bytes n v
  end.

(** [binary.BigEndian.Uint16] and friends. *)
Definition be_uint (b : bytes) : Z :=
  fold_left (fun acc x => acc * 256 + Z_of_byte x) b 0.

(* mls/syntax/codec.go:16-16 Builder.WriteUint8 *)
Definition WriteUint8 (v : Z) (b : Builder) : outcome Builder := Ok (b ++ be_bytes 1 v).
(* mls/syntax/codec.go:17-17 Builder.WriteUint16 *)
Definition WriteUint16 (v : Z) (b : Builder) : outcome Builder := Ok (b ++ be_bytes 2 v).
(* mls/syntax/codec.go:18-18 Builder.WriteUint32 *)
Definition WriteUint32 (v : Z) (b : Builder) : outcome Builder := Ok (b ++ be_bytes 4 v).
(* mls/syntax/codec.go:19-19 Builder.WriteUint64 *)
Definition WriteUint64 (v : Z) (b : Builder) : outcome Builder := Ok (b ++ be_bytes 8 v).

(* mls/syntax/codec.go:22-22 Builder.WriteRaw *)
Definition WriteRaw (p : bytes) (b : Builder) : outcome Builder := Ok (b ++ p).

(* mls/syntax/codec.go:25-32 Builder.WriteVarint *)
Definition Builder_WriteVarint (v : Z) (b : Builder) : outcome Builder :=
  let! enc := WriteVarint v in
  Ok (b ++ enc).

(* mls/syntax/codec.go:35-41 Builder.WriteOpaqueV *)
Definition WriteOpaqueV (p : bytes) (b : Builder) : outcome Builder :=
  let! b := Builder_WriteVarint (len p) b in
  Ok (b ++ p).

(* mls/syntax/codec.go:45-45 Builder.Bytes *)
Definition Bytes (b : Builder) : bytes := b.

(* mls/syntax/codec.go:48-50 Cursor *)
Definition Cursor : Type := bytes.

(* mls/syntax/codec.go:53-53 NewCursor *)
Definition NewCursor (b : bytes) : Cursor := b.

(* mls/syntax/codec.go:56-56 Cursor.Remaining *)
Definition Remaining (c : Cursor) : Z := len c.

(* mls/syntax/codec.go:59-59 Cursor.Empty *)
Definition Empty (c : Cursor) : bool := len c =? 0.

(* mls/syntax/codec.go:61-68 Cursor.take *)
Definition cur_take (n : Z) (c : Cursor) : outcome (bytes * Cursor) :=
  if (n <? 0) || (len c <? n) then Err "syntax: short read" else
  let! p := slice c 0 n in
  let! c' := slice c n (len c) in
  Ok (p, c').

(* mls/syntax/codec.go:70-76 Cursor.ReadUint8 *)
Definition ReadUint8 (c : Cursor) : outcome (Z * Cursor) :=
  let! (p, c) := cur_take 1 c in
  let! x := index p 0 in
  Ok (Z_of_byte x, c).

(* mls/syntax/codec.go:78-84 Cursor.ReadUint16 *)
Definition ReadUint16 (c : Cursor) : outcome (Z * Cursor) :=
  let! (p, c) := cur_take 2 c in
  Ok (be_uint p, c).

(* mls/syntax/codec.go:86-92 Cursor.ReadUint32 *)
Definition ReadUint32 (c : Cursor) : outcome (Z * Cursor) :=
  let! (p, c) := cur_take 4 c in
  Ok (be_uint p, c).

(* mls/syntax/codec.go:94-100 Cursor.ReadUint64 *)
Definition ReadUint64 (c : Cursor) : outcome (Z * Cursor) :=
  let! (p, c) := cur_take 8 c in
  Ok (be_uint p, c).

(* mls/syntax/codec.go:104-104 Cursor.ReadRaw *)
Definition ReadRaw (n : Z) (c : Cursor) : outcome (bytes * Cursor) := cur_take n c.

(* mls/syntax/codec.go:107-114 Cursor.ReadVarint *)
Definition Cursor_ReadVarint (c : Cursor) : outcome (Z * Cursor) :=
  let! (v, n) := ReadVarint c in
  let! c' := slice c n (len c) in
  Ok (v, c').

(* mls/syntax/codec.go:118-118 Cursor.Rest *)
Definition Rest (c : Cursor) : bytes := c.

(* mls/syntax/codec.go:121-127 Cursor.ReadOpaqueV *)
Definition ReadOpaqueV (c : Cursor) : outcome (bytes * Cursor) :=
  let! (n, c) := Cursor_ReadVarint c in
  cur_take n c.

(** * vector.go *)

(* mls/syntax/vector.go:9-13 WriteVectorV *)
Fixpoint write_items {T} (enc : T -> Builder -> outcome Builder) (items : list T) (inner : Builder)
  : outcome Builder :=
  match items with
  | [] => Ok inner
  | it :: items => let! inner := enc it inner in write_items enc items inner
  end.

(* mls/syntax/vector.go:7-15 WriteVectorV *)
Definition WriteVectorV {T} (enc : T -> Builder -> outcome Builder) (items : list T) (b : Builder)
  : outcome Builder :=
  let! inner := write_items enc items NewBuilder in
  WriteOpaqueV (Bytes inner) b.

(** The loop [for !sub.Empty()].  The fuel bounds the number of elements: one
    more than the bytes of the body, so it is spent only by an element decoder
    that succeeds without consuming anything. *)
(* mls/syntax/vector.go:26-33 ReadVectorV *)
Fixpoint read_items {T} (dec : Cursor -> outcome (T * Cursor)) (fuel : nat) (sub : Cursor) (out : list T)
  : outcome (list T) :=
  if Empty sub then Ok out else
  match fuel with
  | O => Diverge
  | S fuel =>
      let! (v, sub) := dec sub in
      read_items dec fuel sub (out ++ [v])
  end.

(* mls/syntax/vector.go:20-35 ReadVectorV *)
Definition ReadVectorV {T} (dec : Cursor -> outcome (T * Cursor)) (c : Cursor)
  : outcome (list T * Cursor) :=
  let! (body, c) := ReadOpaqueV c in
  let! out := read_items dec (S (length body)) (NewCursor body) [] in
  Ok (out, c).

(* mls/syntax/vector.go:39-46 WriteOptional *)
Definition WriteOptional {T} (enc : T -> Builder -> outcome Builder) (v : option T) (b : Builder)
  : outcome Builder :=
  match v with
  | None => WriteUint8 0 b
  | Some v => let! b := WriteUint8 1 b in enc v b
  end.

(* mls/syntax/vector.go:49-66 ReadOptional *)
Definition ReadOptional {T} (dec : Cursor -> outcome (T * Cursor)) (c : Cursor)
  : outcome (option T * Cursor) :=
  let! (present, c) := ReadUint8 c in
  if present =? 0 then Ok (None, c)
  else if present =? 1 then
    let! (v, c) := dec c in Ok (Some v, c)
  else Err "syntax: invalid optional presence byte".

(** * Big-endian integers *)

Lemma length_be_bytes n v : length (be_bytes n v) = n.
Proof. induction n; simpl; congruence. Qed.

Lemma fold_be_uint b acc :
  fold_left (fun acc x => acc * 256 + Z_of_byte x) b acc = acc * 256 ^ len b + be_uint b.
Proof.
  unfold be_uint. revert acc. induction b as [|x b IH]; intros acc; cbn [fold_left].
  - change (len []) with 0. lia.
  - rewrite IH, (IH (0 * 256 + Z_of_byte x)), len_cons, Z.pow_add_r by (pose proof (len_nonneg b); lia).
    lia.
Qed.

Lemma be_uint_cons x b : be_uint (x :: b) = Z_of_byte x * 256 ^ len b + be_uint b.
Proof. unfold be_uint at 1. cbn [fold_left]. rewrite fold_be_uint. lia. Qed.

Lemma be_uint_range b : 0 <= be_uint b < 256 ^ len b.
Proof.
  induction b as [|x b IH]; [cbv; split; congruence|].
  rewrite be_uint_cons, len_cons, Z.pow_add_r by (pose proof (len_nonneg b); lia).
  pose proof (Z_of_byte_range x). nia.
Qed.

Lemma be_uint_be_bytes n v : be_uint (be_bytes n v) = v mod 256 ^ Z.of_nat n.
Proof.
  induction n as [|n IH]; [symmetry; apply Z.mod_1_r|].
  cbn [be_bytes]. rewrite be_uint_cons, IH, Z_of_byte_of_Z. unfold len. rewrite length_be_bytes.
  rewrite Z.shiftr_div_pow2, Z.pow_mul_r by lia. change (2 ^ 8) with 256.
  rewrite Nat2Z.inj_succ, Z.pow_succ_r by lia.
  assert (0 < 256 ^ Z.of_nat n) by lia.
  rewrite (Z.mul_comm 256), Z.rem_mul_r by lia. lia.
Qed.

Lemma be_bytes_mod n v : be_bytes n (v mod 256 ^ Z.of_nat n) = be_bytes n v.
Proof.
  assert (forall m, (n <= m)%nat -> be_bytes n (v mod 256 ^ Z.of_nat m) = be_bytes n v) as H; [|by apply H].
  induction n as [|n IH]; intros m Hm; [done|]. cbn [be_bytes]. rewrite IH by lia. f_equal.
  apply Z_of_byte_inj. rewrite !Z_of_byte_of_Z, !Z.shiftr_div_pow2 by lia.
  change 256 with (2 ^ 8). rewrite <- Z.pow_mul_r by lia.
  rewrite <- !Z.land_ones, <- !Z.shiftr_div_pow2 by lia.
  apply Z.bits_inj'. intros i Hi. rewrite !Z.land_spec, !Z.shiftr_spec, Z.land_spec by lia.
  destruct (Z.lt_ge_cases i 8).
  - rewrite !(Z.ones_spec_low _ _) by lia. by rewrite andb_true_r.
  - rewrite (Z.ones_spec_high 8) by lia. by rewrite !andb_false_r.
Qed.

Lemma be_bytes_be_uint b : be_bytes (length b) (be_uint b) = b.
Proof.
  induction b as [|x b IH]; [done|]. cbn [length be_bytes].
  pose proof (be_uint_range b) as Hb. unfold len in Hb.
  rewrite be_uint_cons. f_equal.
  - apply Z_of_byte_inj. rewrite Z_of_byte_of_Z, Z.shiftr_div_pow2, Z.pow_mul_r by lia.
    change (2 ^ 8) with 256. unfold len.
    rewrite Z.div_add_l, (Z.div_small (be_uint b)), Z.add_0_r by lia.
    apply Z.mod_small, Z_of_byte_range.
  - rewrite <- be_bytes_mod, Z.add_comm. unfold len.
    rewrite Z.mod_add, be_bytes_mod by lia. apply IH.
Qed.

(** * Cursor primitives *)

Lemma cur_take_app p c : cur_take (len p) (p ++ c) = Ok (p, c).
Proof.
  unfold cur_take, slice. pose proof (len_nonneg p). pose proof (len_nonneg c).
  rewrite len_app, (proj2 (Z.ltb_ge _ _)), (proj2 (Z.ltb_ge (_ + _) _)) by lia. simpl.
  rewrite !(proj2 (Z.leb_le _ _)) by lia. simpl.
  change (Z.to_nat 0) with 0%nat. unfold len. rewrite Z.sub_0_r, !Nat2Z.id, drop_0.
  rewrite take_app_length, drop_app_length, take_ge by lia. done.
Qed.

Lemma cur_take_inv n c p c' : cur_take n c = Ok (p, c') -> c = p ++ c' /\ len p = n.
Proof.
  unfold cur_take, slice. intros H.
  destruct (Z.ltb_spec n 0), (Z.ltb_spec (len c) n); simpl in H; try discriminate.
  rewrite !(proj2 (Z.leb_le _ _)) in H by lia. simpl in H. inv_ok.
  change (Z.to_nat 0) with 0%nat. rewrite Z.sub_0_r, drop_0. unfold len in *. split.
  - rewrite (take_ge (drop _ _)) by (rewrite length_drop; lia). by rewrite take_drop.
  - rewrite length_take. lia.
Qed.

Lemma cur_take_returns n c : returns (cur_take n c).
Proof.
  unfold cur_take, slice.
  destruct (Z.ltb_spec n 0), (Z.ltb_spec (len c) n); simpl; try done.
  by rewrite !(proj2 (Z.leb_le _ _)) by lia.
Qed.

(** * Variable-length integers *)

Lemma varint_step v x : 0 <= v < 2 ^ 56 ->
  Z.lor (u64 (Z.shiftl v 8)) (Z_of_byte x) = v * 256 + Z_of_byte x.
Proof.
  intros Hv. pose proof (Z_of_byte_range x). unfold u64.
  rewrite Z.mod_small by (rewrite Z.shiftl_mul_pow2; lia).
  rewrite lor_disjoint by lia. lia.
Qed.

Lemma WriteVarint_ok v e : 0 <= v -> WriteVarint v = Ok e ->
  v <= MaxVarint /\
  ((v < 64 /\ e = [byte_of_Z v]) \/
   (64 <= v < 16384 /\ e = [byte_of_Z (64 + v / 256); byte_of_Z v]) \/
   (16384 <= v /\ e = [byte_of_Z (128 + v / 16777216); byte_of_Z (v / 65536); byte_of_Z (v / 256); byte_of_Z v])).
Proof.
  unfold WriteVarint, u8. change MaxVarint with 1073741823.
  change (Z.shiftl 1 6) with 64. change (Z.shiftl 1 14) with 16384. intros Hv.
  destruct (Z.ltb_spec v 64); [intros; inv_ok; split; [lia|]; naive_solver|].
  destruct (Z.ltb_spec v 16384).
  - intros. inv_ok. split; [lia|]. right; left. split; [lia|].
    rewrite Z.shiftr_div_pow2 by lia. change (Z.lor 64) with (Z.lor (Z.shiftl 1 6)).
    change (2 ^ 8) with 256. rewrite Z.mod_small, lor_disjoint by (try change (2 ^ 6) with 64; zlia). done.
  - destruct (Z.leb_spec v 1073741823); [|discriminate].
    intros. inv_ok. split; [lia|]. right; right. split; [lia|].
    rewrite !Z.shiftr_div_pow2 by lia. change (Z.lor 128) with (Z.lor (Z.shiftl 1 7)).
    change (2 ^ 8) with 256. change (2 ^ 16) with 65536. change (2 ^ 24) with 16777216.
    rewrite Z.mod_small, lor_disjoint by (try change (2 ^ 7) with 128; zlia). done.
Qed.

Lemma WriteVarint_total v : 0 <= v <= MaxVarint -> exists e, WriteVarint v = Ok e.
Proof.
  unfold WriteVarint. intros [H0 H1].
  repeat case_match; eauto. by apply Z.leb_gt in H3; lia.
Qed.

Lemma index_0 {A} (a : A) l : index (a :: l) 0 = Ok a.
Proof. done. Qed.

Lemma ReadVarint_loop_2 b0 b1 r v : 0 <= v < 64 ->
  ReadVarint_loop (b0 :: b1 :: r) (Z.to_nat (2 - 1)) 1 v = Ok (v * 256 + Z_of_byte b1).
Proof.
  intros Hv. transitivity (Ok (Z.lor (u64 (Z.shiftl v 8)) (Z_of_byte b1))); [done|].
  by rewrite varint_step by lia.
Qed.

Lemma ReadVarint_loop_4 b0 b1 b2 b3 r v : 0 <= v < 64 ->
  ReadVarint_loop (b0 :: b1 :: b2 :: b3 :: r) (Z.to_nat (4 - 1)) 1 v =
  Ok (((v * 256 + Z_of_byte b1) * 256 + Z_of_byte b2) * 256 + Z_of_byte b3).
Proof.
  intros Hv. pose proof (Z_of_byte_range b1). pose proof (Z_of_byte_range b2).
  transitivity (Ok (Z.lor (u64 (Z.shiftl (Z.lor (u64 (Z.shiftl (Z.lor (u64 (Z.shiftl v 8))
    (Z_of_byte b1)) 8)) (Z_of_byte b2)) 8)) (Z_of_byte b3))); [done|].
  by rewrite (varint_step v), (varint_step (v * 256 + _)), varint_step by lia.
Qed.

(** The first byte of a varint: its two top bits and the six others. *)
Lemma varint_prefix b0 : Z.shiftr (Z_of_byte b0) 6 = Z_of_byte b0 / 64 /\
  Z.land (Z_of_byte b0) 63 = Z_of_byte b0 mod 64.
Proof.
  rewrite Z.shiftr_div_pow2 by lia. change 63 with (2 ^ 6 - 1). by rewrite land_low.
Qed.

(** The minimality check at the end of [ReadVarint]. *)
Lemma varint_check w n v m :
  0 <= w ->
  (if negb (len (match WriteVarint w with Ok c => c | _ => [] end) =? n)
   then Err "syntax: non-minimal varint encoding" else Ok (w, n)) = Ok (v, m) ->
  0 < n -> v = w /\ m = n /\ v <= MaxVarint /\ exists c, WriteVarint w = Ok c /\ len c = n /\
  ((n = 1 /\ c = [byte_of_Z w]) \/
   (n = 2 /\ c = [byte_of_Z (64 + w / 256); byte_of_Z w]) \/
   (n = 4 /\ c = [byte_of_Z (128 + w / 16777216); byte_of_Z (w / 65536); byte_of_Z (w / 256); byte_of_Z w])).
Proof.
  intros Hw H Hn. destruct (WriteVarint w) as [c| | |] eqn:E; cycle 1;
    [destruct (Z.eqb_spec (len (@nil byte)) n) as [Hl|]; [change (0 = n) in Hl; lia|discriminate]..|].
  destruct (Z.eqb_spec (len c) n) as [Hl|]; [|discriminate]. cbn [negb] in H. inv_ok.
  destruct (WriteVarint_ok _ _ Hw E) as [? HE]. split_and!; [done..|]. exists c. split_and!; [done..|].
  unfold len. destruct HE as [[_ ->]|[[_ ->]|[_ ->]]]; eauto.
Qed.

(** Writing then reading a varint gives the value back and consumes exactly
    the bytes written. *)
Lemma ReadVarint_WriteVarint v e r :
  0 <= v -> WriteVarint v = Ok e -> ReadVarint (e ++ r) = Ok (v, len e).
Proof.
  intros Hv He. pose proof (WriteVarint_ok v e Hv He) as [Hmax Hcases].
  change MaxVarint with 1073741823 in Hmax.
  unfold ReadVarint. pose proof (len_nonneg r).
  destruct Hcases as [[? ->]|[[? ->]|[? ->]]]; cbn [app];
    rewrite !len_cons, (proj2 (Z.eqb_neq _ 0)) by lia; rewrite index_0; cbn [obind];
    rewrite (proj1 (varint_prefix _)), (proj2 (varint_prefix _)), Z_of_byte_of_Z.
  - replace (v mod 256 / 64) with 0 by zlia. cbn [Z.eqb].
    change (Z.shiftl 1 0) with 1. rewrite (proj2 (Z.ltb_ge _ _)) by lia.
    replace (v mod 256 mod 64) with v by zlia.
    change (Z.to_nat (1 - 1)) with 0%nat. cbn [ReadVarint_loop obind]. by rewrite He.
  - replace ((64 + v / 256) mod 256 / 64) with 1 by zlia. cbn [Z.eqb Pos.eqb].
    change (Z.shiftl 1 1) with 2. rewrite (proj2 (Z.ltb_ge _ _)) by lia.
    rewrite ReadVarint_loop_2, Z_of_byte_of_Z by zlia. cbn [obind].
    replace (_ * 256 + _) with v by zlia. by rewrite He.
  - replace ((128 + v / 16777216) mod 256 / 64) with 2 by zlia. cbn [Z.eqb Pos.eqb].
    change (Z.shiftl 1 2) with 4. rewrite (proj2 (Z.ltb_ge _ _)) by lia.
    rewrite ReadVarint_loop_4, !Z_of_byte_of_Z by zlia. cbn [obind].
    replace (_ * 256 + _) with v by zlia. by rewrite He.
Qed.

Ltac varint_bytes :=
  repeat f_equal; apply Z_of_byte_inj; rewrite Z_of_byte_of_Z; zlia.

(** A varint that is read was written by [WriteVarint]: the reader rejects
    every non-minimal encoding. *)
Lemma ReadVarint_sound b v n :
  ReadVarint b = Ok (v, n) ->
  0 <= v <= MaxVarint /\ exists e r, b = e ++ r /\ len e = n /\ WriteVarint v = Ok e.
Proof.
  unfold ReadVarint. destruct b as [|b0 b]; [discriminate|].
  rewrite len_cons, (proj2 (Z.eqb_neq _ 0)), index_0 by (pose proof (len_nonneg b); lia). cbn [obind].
  pose proof (Z_of_byte_range b0) as H0. destruct (varint_prefix b0) as [-> ->].
  assert (Z_of_byte b0 / 64 = 0 \/ Z_of_byte b0 / 64 = 1 \/ Z_of_byte b0 / 64 = 2 \/ Z_of_byte b0 / 64 = 3)
    as [E|[E|[E|E]]] by zlia; rewrite E; cbn [Z.eqb Pos.eqb]; [..|discriminate].
  - change (Z.shiftl 1 0) with 1. destruct (_ <? _); [discriminate|].
    change (Z.to_nat (1 - 1)) with 0%nat. cbn [ReadVarint_loop obind].
    intros (-> & -> & Hm & c & -> & Hl & HE)%varint_check; [|zlia..].
    destruct HE as [[_ ->]|[[? _]|[? _]]]; [|lia..]. split; [zlia|].
    exists [b0], b. split_and!; [done..|]. varint_bytes.
  - change (Z.shiftl 1 1) with 2. destruct b as [|b1 b]; [discriminate|].
    destruct (_ <? _); [discriminate|].
    rewrite ReadVarint_loop_2 by zlia. cbn [obind]. pose proof (Z_of_byte_range b1).
    intros (-> & -> & Hm & c & -> & Hl & HE)%varint_check; [|zlia..].
    destruct HE as [[? _]|[[_ ->]|[? _]]]; [lia| |lia]. split; [zlia|].
    exists [b0; b1], b. split_and!; [done..|]. varint_bytes.
  - change (Z.shiftl 1 2) with 4.
    destruct b as [|b1 [|b2 [|b3 b]]]; [discriminate..|].
    destruct (_ <? _); [discriminate|].
    rewrite ReadVarint_loop_4 by zlia. cbn [obind].
    pose proof (Z_of_byte_range b1). pose proof (Z_of_byte_range b2). pose proof (Z_of_byte_range b3).
    intros (-> & -> & Hm & c & -> & Hl & HE)%varint_check; [|zlia..].
    destruct HE as [[? _]|[[? _]|[_ ->]]]; [lia..|]. split; [zlia|].
    exists [b0; b1; b2; b3], b. split_and!; [done..|]. varint_bytes.
Qed.

(** * The wire interface *)

(** [w] appends exactly [e], whatever the buffer holds. *)
Definition emits (w : Builder -> outcome Builder) (e : bytes) : Prop :=
  forall b, w b = Ok (b ++ e).

(** What a wire structure of type [A] promises: [w] is its [marshal] method,
    [r] its decoder, and [ok] singles out the values whose fields that are not
    written are zero and whose integers fit their width.
    - [wire_append]: marshalling appends and does not read the buffer;
    - [wire_decode]: the decoder inverts it and leaves what follows untouched;
    - [wire_sound]: what the decoder accepts is the encoding of an [ok] value,
      is not empty, and is the only encoding of that value;
    - [wire_returns]: the decoder neither panics nor diverges, on any input. *)
Class Wire {A} (ok : A -> Prop) (w : A -> Builder -> outcome Builder)
    (r : Cursor -> outcome (A * Cursor)) : Prop := {
  wire_append : forall x b b', w x b = Ok b' -> exists e, emits (w x) e /\ b' = b ++ e;
  wire_decode : forall x e c, ok x -> emits (w x) e -> r (e ++ c) = Ok (x, c);
  wire_sound : forall c x c', r c = Ok (x, c') ->
    ok x /\ exists e, e <> [] /\ c = e ++ c' /\ emits (w x) e;
  wire_returns : forall c, returns (r c)
}.
#[global] Hint Mode Wire - - ! - : typeclass_instances.
#[global] Hint Mode Wire - - - ! : typeclass_instances.

(** The writer part alone: it only appends. *)
Definition appends (w : Builder -> outcome Builder) : Prop :=
  forall b b', w b = Ok b' -> exists e, emits w e /\ b' = b ++ e.

Create HintDb wire.

Lemma emits_det w e1 e2 : emits w e1 -> emits w e2 -> e1 = e2.
Proof. intros H1 H2. specialize (H1 []). rewrite (H2 []) in H1. by injection H1. Qed.

Lemma emits_ok e : emits (fun b => Ok (b ++ e)) e.
Proof. by intros b. Qed.

Lemma emits_nil : emits (fun b => Ok b) [].
Proof. intros b. by rewrite app_nil_r. Qed.

Lemma emits_bind w1 w2 e1 e2 :
  emits w1 e1 -> emits w2 e2 -> emits (fun b => let! b := w1 b in w2 b) (e1 ++ e2).
Proof. intros H1 H2 b. rewrite H1. simpl. by rewrite H2, app_assoc. Qed.

Lemma appends_emits w e : emits w e -> appends w.
Proof. intros H b b' Hb. rewrite H in Hb. inv_ok. eauto. Qed.

Lemma appends_err s : appends (fun _ => Err s).
Proof. intros b b' H. discriminate. Qed.

Lemma appends_bind w1 w2 :
  appends w1 -> appends w2 -> appends (fun b => let! b := w1 b in w2 b).
Proof.
  intros H1 H2 b b' H. inv_ok.
  apply H1 in Ha as (e1 & He1 & ->). apply H2 in H as (e2 & He2 & ->).
  exists (e1 ++ e2). split; [by apply emits_bind|]. by rewrite app_assoc.
Qed.

Lemma emits_bind_inv w1 w2 e :
  appends w1 -> appends w2 -> emits (fun b => let! b := w1 b in w2 b) e ->
  exists e1 e2, e = e1 ++ e2 /\ emits w1 e1 /\ emits w2 e2.
Proof.
  intros H1 H2 H. specialize (H []). cbv beta in H. inv_ok.
  apply H1 in Ha as (e1 & He1 & ->). apply H2 in H as (e2 & He2 & Heq).
  by exists e1, e2.
Qed.

Lemma wire_appends {A} {ok : A -> Prop} {w r} `{!Wire ok w r} x : appends (w x).
Proof. intros b b'. apply wire_append. Qed.

#[export] Hint Resolve emits_ok emits_nil emits_bind appends_bind appends_err wire_appends : wire.
#[export] Hint Extern 4 (appends _) => eapply appends_emits; eauto with wire : wire.

(** A decoder reads a prefix and is indifferent to what follows it. *)
Lemma wire_local {A} {ok : A -> Prop} {w r} `{!Wire ok w r} c x c' d :
  r c = Ok (x, c') -> exists e, e <> [] /\ c = e ++ c' /\ r (e ++ d) = Ok (x, d).
Proof.
  intros (Hok & e & Hne & -> & He)%wire_sound. exists e. split_and!; [done..|].
  by apply wire_decode.
Qed.

Lemma wire_progress {A} {ok : A -> Prop} {w r} `{!Wire ok w r} c x c' :
  r c = Ok (x, c') -> (length c' < length c)%nat.
Proof.
  intros (_ & e & Hne & -> & _)%wire_sound. rewrite length_app.
  destruct e; [done|]. simpl. lia.
Qed.

(** ** Instances for the primitives *)

Lemma cur_take_uint n c v c' :
  (0 < n)%nat ->
  (let! (p, c) := cur_take (Z.of_nat n) c in Ok (be_uint p, c)) = Ok (v, c') ->
  0 <= v < 256 ^ Z.of_nat n /\ be_bytes n v <> [] /\ c = be_bytes n v ++ c'.
Proof.
  intros Hn H. inv_ok.
  apply cur_take_inv in Ha as [-> Hl]. pose proof (be_uint_range v0) as Hr. rewrite Hl in Hr.
  split; [done|]. assert (length v0 = n) as <- by (unfold len in Hl; lia).
  rewrite be_bytes_be_uint. split; [|done]. intros ->. simpl in Hn. lia.
Qed.

Lemma cur_take_be_bytes n v c :
  0 <= v < 256 ^ Z.of_nat n ->
  (let! (p, c) := cur_take (Z.of_nat n) (be_bytes n v ++ c) in Ok (be_uint p, c)) = Ok (v, c).
Proof.
  intros Hv. replace (Z.of_nat n) with (len (be_bytes n v)) at 1
    by (unfold len; by rewrite length_be_bytes).
  rewrite cur_take_app. simpl. by rewrite be_uint_be_bytes, Z.mod_small.
Qed.

Lemma wire_uint n (w : Z -> Builder -> outcome Builder) (r : Cursor -> outcome (Z * Cursor)) :
  (0 < n)%nat ->
  (forall v b, w v b = Ok (b ++ be_bytes n v)) ->
  (forall c, r c = let! (p, c) := cur_take (Z.of_nat n) c in Ok (be_uint p, c)) ->
  Wire (fun v => 0 <= v < 256 ^ Z.of_nat n) w r.
Proof.
  intros Hn Hw Hr.
  assert (forall v, emits (w v) (be_bytes n v)) as He by (intros v b; apply Hw).
  split.
  - intros v. by eapply appends_emits.
  - intros v e c Hv Hem. rewrite (emits_det _ _ _ Hem (He v)), Hr. by apply cur_take_be_bytes.
  - intros c v c' H. rewrite Hr in H. apply cur_take_uint in H as (? & ? & ?); [|done]. eauto.
  - intros c. rewrite Hr. pose proof (cur_take_returns (Z.of_nat n) c).
    by destruct (cur_take _ _) as [[]| | |].
Qed.

Lemma ReadUint8_be c :
  ReadUint8 c = let! (p, c) := cur_take 1 c in Ok (be_uint p, c).
Proof.
  unfold ReadUint8. destruct (cur_take 1 c) as [[p c']| | |] eqn:E; [|done..]. simpl.
  apply cur_take_inv in E as [_ Hl]. destruct p as [|x [|y p]]; [discriminate Hl|done|].
  rewrite !len_cons in Hl. pose proof (len_nonneg p). lia.
Qed.

#[global] Instance wire_u8 : Wire is_u8 WriteUint8 ReadUint8.
Proof. apply (wire_uint 1); [lia|done|apply ReadUint8_be]. Qed.
#[global] Instance wire_u16 : Wire is_u16 WriteUint16 ReadUint16.
Proof. apply (wire_uint 2); [lia|done..]. Qed.
#[global] Instance wire_u32 : Wire is_u32 WriteUint32 ReadUint32.
Proof. apply (wire_uint 4); [lia|done..]. Qed.
#[global] Instance wire_u64 : Wire is_u64 WriteUint64 ReadUint64.
Proof. apply (wire_uint 8); [lia|done..]. Qed.

Lemma WriteOpaqueV_ok p b b' : WriteOpaqueV p b = Ok b' ->
  exists h, WriteVarint (len p) = Ok h /\ b' = b ++ (h ++ p) /\ emits (WriteOpaqueV p) (h ++ p).
Proof.
  unfold WriteOpaqueV, Builder_WriteVarint. intros H. inv_ok. exists a0.
  split_and!; [done|by rewrite app_assoc|].
  intros b0. rewrite Ha0. simpl. by rewrite app_assoc.
Qed.

Lemma WriteVarint_nonempty v e : 0 <= v -> WriteVarint v = Ok e -> e <> [].
Proof. intros Hv He. by destruct (WriteVarint_ok v e Hv He) as [_ [[_ ->]|[[_ ->]|[_ ->]]]]. Qed.

Lemma slice_app_r (h t : bytes) n : n = len h -> slice (h ++ t) n (len (h ++ t)) = Ok t.
Proof.
  intros ->. unfold slice. pose proof (len_nonneg h). pose proof (len_nonneg t).
  rewrite len_app, !(proj2 (Z.leb_le _ _)) by lia. simpl. unfold len.
  rewrite Nat2Z.id, drop_app_length, take_ge by lia. done.
Qed.

Lemma Cursor_ReadVarint_app v h t :
  0 <= v -> WriteVarint v = Ok h -> Cursor_ReadVarint (h ++ t) = Ok (v, t).
Proof.
  intros Hv Hh. unfold Cursor_ReadVarint. rewrite (ReadVarint_WriteVarint v h t Hv Hh).
  cbn [obind]. by rewrite slice_app_r.
Qed.

Lemma Cursor_ReadVarint_sound c v c' : Cursor_ReadVarint c = Ok (v, c') ->
  0 <= v <= MaxVarint /\ exists h, c = h ++ c' /\ WriteVarint v = Ok h.
Proof.
  unfold Cursor_ReadVarint. intros H. inv_ok.
  apply ReadVarint_sound in Ha as (Hv & h & t & -> & <- & Hh).
  rewrite slice_app_r in Ha0 by done. inv_ok. eauto.
Qed.

Lemma ReadVarint_loop_returns b n i v :
  0 <= i -> i + Z.of_nat n <= len b -> returns (ReadVarint_loop b n i v).
Proof.
  revert i v. induction n as [|n IH]; intros i v Hi Hl; [done|]. cbn [ReadVarint_loop].
  destruct (index_in_range b i) as [x ->]; [lia|]. cbn [obind]. apply IH; lia.
Qed.

(** Reading a varint returns a value or an error on every input. *)
Lemma ReadVarint_returns b : returns (ReadVarint b).
Proof.
  unfold ReadVarint. destruct (Z.eqb_spec (len b) 0); [done|].
  destruct (index_in_range b 0) as [b0 ->]; [pose proof (len_nonneg b); lia|]. cbn [obind].
  rewrite (proj1 (varint_prefix b0)).
  destruct (Z.eqb_spec (Z_of_byte b0 / 64) 3); [done|].
  destruct (Z.ltb_spec (len b) (Z.shiftl 1 (Z_of_byte b0 / 64))) as [|Hl]; [done|].
  apply returns_obind; [|intros; by repeat case_match].
  apply ReadVarint_loop_returns; [lia|].
  enough (0 < Z.shiftl 1 (Z_of_byte b0 / 64)) by lia.
  pose proof (Z_of_byte_range b0). rewrite Z.shiftl_1_l. apply Z.pow_pos_nonneg; [lia|].
  apply Z.div_pos; lia.
Qed.

Lemma Cursor_ReadVarint_returns c : returns (Cursor_ReadVarint c).
Proof.
  unfold Cursor_ReadVarint. apply returns_obind; [apply ReadVarint_returns|].
  intros [v n] (_ & h & t & -> & <- & _)%ReadVarint_sound. by rewrite slice_app_r.
Qed.

#[global] Instance wire_opaque : Wire (fun _ => True) WriteOpaqueV ReadOpaqueV.
Proof.
  split.
  - intros p b b' H. apply WriteOpaqueV_ok in H as (h & _ & -> & He). eauto.
  - intros p e c _ He. pose proof (He []) as H. apply WriteOpaqueV_ok in H as (h & Hh & He' & _).
    simpl in He'. subst e. unfold ReadOpaqueV. rewrite <- app_assoc.
    rewrite (Cursor_ReadVarint_app (len p)) by (done || apply len_nonneg). cbn [obind].
    apply cur_take_app.
  - intros c p c' H. unfold ReadOpaqueV in H. inv_ok.
    apply Cursor_ReadVarint_sound in Ha as (Hv & h & -> & Hh).
    apply cur_take_inv in H as [-> Hl]. subst v. split; [done|]. exists (h ++ p). split_and!.
    + intros [Hn _]%app_eq_nil. by apply (WriteVarint_nonempty _ _ (len_nonneg p) Hh).
    + by rewrite app_assoc.
    + intros b. unfold WriteOpaqueV, Builder_WriteVarint. rewrite Hh. cbn [obind].
      by rewrite app_assoc.
  - intros c. unfold ReadOpaqueV. apply returns_obind; [apply Cursor_ReadVarint_returns|].
    intros [v d] _. apply cur_take_returns.
Qed.

(** ** Vectors and optionals *)

Section vector.
Context {T : Type} {ok : T -> Prop} {enc : T -> Builder -> outcome Builder}
  {dec : Cursor -> outcome (T * Cursor)} `{W : !Wire ok enc dec}.

Definition emit_all (items : list T) (es : list bytes) : Prop :=
  Forall2 (fun x e => emits (enc x) e) items es.

Lemma write_items_ok items b b' : write_items enc items b = Ok b' ->
  exists es, emit_all items es /\ b' = b ++ concat es.
Proof.
  revert b. induction items as [|x items IH]; intros b H; simpl in H.
  - inv_ok. exists []. split; [constructor|]. by rewrite app_nil_r.
  - inv_ok. apply wire_append in Ha as (e & He & ->). apply IH in H as (es & Hes & ->).
    exists (e :: es). split; [by constructor|]. simpl. by rewrite app_assoc.
Qed.

Lemma write_items_emits items es b : emit_all items es ->
  write_items enc items b = Ok (b ++ concat es).
Proof.
  intros H. revert b. induction H as [|x e items es He _ IH]; intros b; simpl.
  - by rewrite app_nil_r.
  - rewrite He. simpl. by rewrite IH, <- app_assoc.
Qed.

Lemma emits_nonempty x e : ok x -> emits (enc x) e -> e <> [].
Proof.
  intros Hx He. pose proof (wire_decode x e [] Hx He) as H.
  apply wire_sound in H as (_ & e' & Hne & Heq & _). rewrite !app_nil_r in Heq. congruence.
Qed.

Lemma read_items_emits items es fuel out :
  Forall ok items -> emit_all items es -> (length (concat es) < fuel)%nat ->
  read_items dec fuel (concat es) out = Ok (out ++ items).
Proof.
  intros Hok Hes. revert fuel out. induction Hes as [|x e items es He Hes IH]; intros fuel out Hf.
  - destruct fuel; simpl; by rewrite app_nil_r.
  - inversion_clear Hok as [|? ? Hx Hok']. destruct fuel as [|fuel]; [lia|]. cbn [concat read_items].
    pose proof (emits_nonempty x e Hx He) as Hne. simpl in Hf. rewrite length_app in Hf.
    destruct e as [|b0 e]; [done|]. unfold Empty. rewrite (proj2 (Z.eqb_neq _ 0));
      [|cbn [app]; rewrite len_cons; pose proof (len_nonneg (e ++ concat es)); lia].
    rewrite (wire_decode x) by done. cbn [obind]. rewrite IH; [by rewrite <- app_assoc|done|].
    simpl in Hf. lia.
Qed.

Lemma read_items_sound fuel sub out items' : read_items dec fuel sub out = Ok items' ->
  exists items es, items' = out ++ items /\ Forall ok items /\ emit_all items es /\ sub = concat es.
Proof.
  revert sub out. induction fuel as [|fuel IH]; intros sub out H; simpl in H;
    destruct (Empty sub) eqn:E; try discriminate.
  1,2: inv_ok; exists [], []; rewrite app_nil_r; split_and!; [done|constructor..|];
    apply Z.eqb_eq in E; destruct sub; [done|rewrite len_cons in E; pose proof (len_nonneg sub); lia].
  inv_ok. apply wire_sound in Ha as (Hv & e & _ & -> & He).
  apply IH in H as (items & es & -> & ? & ? & ->).
  exists (v :: items), (e :: es). rewrite <- app_assoc. split_and!; [done|by constructor..|done].
Qed.

Lemma read_items_returns fuel sub out :
  (length sub < fuel)%nat -> returns (read_items dec fuel sub out).
Proof.
  revert sub out. induction fuel as [|fuel IH]; intros sub out Hf; [lia|]. cbn [read_items].
  destruct (Empty sub); [done|]. apply returns_obind; [apply wire_returns|].
  intros [v sub'] Hd. apply IH. apply wire_progress in Hd. lia.
Qed.

#[global] Instance wire_vector : Wire (Forall ok) (WriteVectorV enc) (ReadVectorV dec).
Proof.
  split.
  - intros items b b' H. unfold WriteVectorV in H. inv_ok.
    pose proof (wire_append _ _ _ H) as (e & He & ->). exists e. split; [|done].
    intros b0. unfold WriteVectorV. rewrite Ha. simpl. apply He.
  - intros items e c Hok He. pose proof (He []) as H. unfold WriteVectorV in H. inv_ok.
    pose proof (wire_append _ _ _ H) as (e' & He' & Heq). simpl in Heq. subst e'.
    apply write_items_ok in Ha as (es & Hes & ->). unfold ReadVectorV.
    rewrite (wire_decode _ e c I He'). cbn [obind Bytes NewBuilder app].
    rewrite (read_items_emits items es) by (done || lia). done.
  - intros c items c' H. unfold ReadVectorV in H. inv_ok.
    apply wire_sound in Ha as (_ & e & Hne & -> & He).
    apply read_items_sound in Ha0 as (items' & es & -> & Hok & Hes & Hv).
    unfold NewCursor in Hv. subst v. split; [done|].
    exists e. split_and!; [done..|]. intros b. unfold WriteVectorV.
    rewrite (write_items_emits _ es) by done. cbn [obind]. apply He.
  - intros c. unfold ReadVectorV. apply returns_obind; [apply wire_returns|].
    intros [body d] _. apply returns_obind; [apply read_items_returns; unfold NewCursor; lia|done].
Qed.

#[global] Instance wire_optional :
  Wire (fun v => match v with Some x => ok x | None => True end) (WriteOptional enc) (ReadOptional dec).
Proof.
  split.
  - intros [x|]; [|apply (wire_append (w := WriteUint8))].
    exact (appends_bind (WriteUint8 1) (enc x) (wire_appends 1) (wire_appends x)).
  - intros [x|] e c Hok He; unfold ReadOptional.
    + apply (emits_bind_inv (WriteUint8 1) (enc x)) in He as (e1 & e2 & -> & H1 & H2);
        [|apply wire_appends..].
      rewrite <- app_assoc, (wire_decode (r := ReadUint8) 1) by done. cbn [obind Z.eqb Pos.eqb].
      by rewrite (wire_decode x).
    + by rewrite (wire_decode (r := ReadUint8) 0).
  - intros c o c' H. unfold ReadOptional in H. inv_ok.
    apply wire_sound in Ha as (_ & e & Hne & -> & He).
    destruct (Z.eqb_spec v 0) as [->|]; [inv_ok; eauto|].
    destruct (Z.eqb_spec v 1) as [->|]; [|discriminate]. inv_ok.
    apply wire_sound in Ha as (Hx & e' & _ & -> & He'). split; [done|].
    exists (e ++ e'). rewrite app_assoc. split_and!; [|done|].
    + by intros [-> _]%app_eq_nil.
    + apply (emits_bind (WriteUint8 1)); done.
  - intros c. unfold ReadOptional. apply returns_obind; [apply wire_returns|].
    intros [present d] _. repeat case_match; [done| |done].
    apply returns_obind; [apply wire_returns|]. by intros [].
Qed.
End vector.

(** * Top-level encodings

    Every wire type has the same [MarshalMLS] and [UnmarshalMLS] pair around
    its [marshal] method and its decoder. *)

Definition marshal_mls {A} (w : A -> Builder -> outcome Builder) (x : A) : outcome bytes :=
  let! b := w x NewBuilder in
  Ok (Bytes b).

Definition unmarshal_mls {A} (r : Cursor -> outcome (A * Cursor)) (trailing : string) (data : bytes)
  : outcome A :=
  let! (v, c) := r (NewCursor data) in
  if negb (Empty c) then Err trailing else Ok v.

Lemma Empty_true c : Empty c = true <-> c = [].
Proof.
  unfold Empty. rewrite Z.eqb_eq. destruct c; [done|].
  rewrite len_cons. pose proof (len_nonneg c). split; [lia|done].
Qed.

Lemma marshal_mls_ok {A} {ok : A -> Prop} {w r} `{!Wire ok w r} x e :
  marshal_mls w x = Ok e <-> emits (w x) e.
Proof.
  unfold marshal_mls. split.
  - intros H. inv_ok. apply wire_append in Ha as (e & He & ->). done.
  - intros H. by rewrite (H NewBuilder).
Qed.

Lemma unmarshal_marshal {A} {ok : A -> Prop} {w r} `{!Wire ok w r} s x e :
  ok x -> marshal_mls w x = Ok e -> unmarshal_mls r s e = Ok x.
Proof.
  intros Hx He%marshal_mls_ok. unfold unmarshal_mls, NewCursor.
  rewrite <- (app_nil_r e), (wire_decode x) by done. done.
Qed.

Lemma marshal_unmarshal {A} {ok : A -> Prop} {w r} `{!Wire ok w r} s x e :
  unmarshal_mls r s e = Ok x -> ok x /\ marshal_mls w x = Ok e.
Proof.
  unfold unmarshal_mls, NewCursor. intros H. inv_ok.
  destruct (Empty c) eqn:E; [|discriminate]. cbn [negb] in H. inv_ok.
  apply Empty_true in E as ->. apply wire_sound in Ha as (Hx & e' & _ & -> & He).
  rewrite app_nil_r. split; [done|]. by apply marshal_mls_ok.
Qed.

Lemma unmarshal_returns {A} {ok : A -> Prop} {w r} `{!Wire ok w r} s e :
  returns (unmarshal_mls r s e).
Proof.
  unfold unmarshal_mls. apply returns_obind; [apply wire_returns|].
  intros [v c] _. by case_match.
Qed.

(** Encodings are prefix-free: what follows a field does not depend on how the
    field is read. *)
Lemma wire_prefix_inj {A} {ok : A -> Prop} {w r} `{!Wire ok w r} x y e e' t t' :
  ok x -> ok y -> emits (w x) e -> emits (w y) e' -> e ++ t = e' ++ t' -> x = y /\ t = t'.
Proof.
  intros Hx Hy He He' E. pose proof (wire_decode x e t Hx He) as H.
  rewrite E, (wire_decode y e' t' Hy He') in H. by injection H.
Qed.

(** Writers return: they panic on no value. *)
Class WriteReturns {A} (w : A -> Builder -> outcome Builder) : Prop :=
  write_returns : forall x b, returns (w x b).
#[global] Hint Mode WriteReturns - ! : typeclass_instances.

Lemma WriteVarint_returns v : returns (WriteVarint v).
Proof. unfold WriteVarint. by repeat case_match. Qed.

#[global] Instance WriteOpaqueV_returns : WriteReturns WriteOpaqueV.
Proof.
  intros p b. unfold WriteOpaqueV, Builder_WriteVarint.
  apply returns_obind; [apply returns_obind; [apply WriteVarint_returns|done]|done].
Qed.

#[global] Instance WriteVectorV_returns {T} (enc : T -> Builder -> outcome Builder) `{!WriteReturns enc} : WriteReturns (WriteVectorV enc).
Proof.
  intros items b. unfold WriteVectorV. apply returns_obind; [|intros; apply WriteOpaqueV_returns].
  generalize NewBuilder. induction items as [|x items IH]; intros inner; simpl; [done|].
  apply returns_obind; [apply write_returns|intros; apply IH].
Qed.

#[global] Instance WriteOptional_returns {T} (enc : T -> Builder -> outcome Builder) `{!WriteReturns enc} : WriteReturns (WriteOptional enc).
Proof. intros [x|] b; simpl; [apply write_returns|done]. Qed.

#[global] Instance WriteUint8_returns : WriteReturns WriteUint8.
Proof. done. Qed.
#[global] Instance WriteUint16_returns : WriteReturns WriteUint16.
Proof. done. Qed.
#[global] Instance WriteUint32_returns : WriteReturns WriteUint32.
Proof. done. Qed.
#[global] Instance WriteUint64_returns : WriteReturns WriteUint64.
Proof. done. Qed.

(** [write_returns] of a record's marshal method. *)
Ltac writes w :=
  let x := fresh "x" in let b := fresh "b" in
  intros x b; unfold w;
  repeat first
    [ done
    | match goal with |- returns (?f ?y ?c) => apply (write_returns (w := f) y c) end
    | apply returns_obind; [|intros ? _]
    | case_match ].

(** * Proof automation for wire structures *)

(** Goals [appends w] for a sequence of field writes. *)
Ltac appends_tac :=
  repeat lazymatch goal with
  | |- appends (fun b => obind (@?w1 b) (fun x => @?w2 b x)) => apply appends_bind
  | |- appends (fun b => Err _) => apply appends_err
  | |- appends (fun b => Ok b) => apply (appends_emits _ []), emits_nil
  | |- appends (fun b => if ?c then @?w1 b else @?w2 b) => destruct c
  | |- appends (fun b => ?w ?x b) => apply (wire_appends (w := w) x)
  | |- appends (?w ?x) => apply (wire_appends (w := w) x)
  end.

(** Splits the encoding of a sequence of field writes into those of the fields. *)
Ltac emits_split H :=
  repeat lazymatch type of H with
  | emits (fun b => obind (@?w1 b) (fun x => @?w2 b x)) _ =>
      apply emits_bind_inv in H as (? & ? & -> & ? & H); [|appends_tac..]
  end.

(** Reads back one field after the other. *)
Ltac decode_fields :=
  repeat match goal with
  | E : emits (fun b => ?w b) ?e |- _ => change (emits w e) in E
  end;
  repeat first
    [ progress rewrite <- ?app_assoc
    | match goal with
      | H : emits (?w ?x) ?e |- context [ _ (?e ++ ?c) ] =>
          rewrite (wire_decode (w := w) x e c) by (done || assumption); cbn [obind]
      end ].

(** Replaces every successful field read by the encoding it consumed. *)
Ltac sound_fields :=
  repeat match goal with
  | H : ?r ?c = Ok (_, _) |- _ =>
      apply (wire_sound (r := r)) in H as (? & ? & ? & -> & ?)
  end.

(** The encoding of the whole from those of the fields. *)
Ltac emits_join :=
  repeat first
    [ eassumption
    | lazymatch goal with
      | |- emits (fun b => obind (@?w1 b) (fun x => @?w2 b x)) _ => apply emits_bind
      | |- emits (fun b => Ok b) _ => apply emits_nil
      end ].

Ltac app_nonempty :=
  repeat match goal with
  | |- _ ++ _ <> [] => let E := fresh in intros E; apply app_eq_nil in E as [? ?]; congruence
  | |- _ <> [] => assumption
  end.

Ltac sound_join :=
  eexists; split; [|split; cycle 1; [emits_join|rewrite <- ?app_assoc; reflexivity]]; app_nonempty.

Ltac returns_fields :=
  repeat first
    [ done
    | apply wire_returns
    | apply returns_obind; [|intros [] _]
    | case_match ].

(** * Properties *)

(** C39: the variable-length integer codec is canonical: [ReadVarint] accepts
    exactly the inputs that start with the encoding [WriteVarint] produces,
    returns the value and the length of that encoding, and no input makes it
    panic. *)
Theorem varint_canonical b v n :
  returns (ReadVarint b) /\
  (ReadVarint b = Ok (v, n) <->
   0 <= v <= MaxVarint /\ exists e r, b = e ++ r /\ len e = n /\ WriteVarint v = Ok e).
Proof.
  split; [apply ReadVarint_returns|]. split; [apply ReadVarint_sound|].
  intros (Hv & e & r & -> & <- & He). apply ReadVarint_WriteVarint; [lia|done].
Qed.

(** Reading a length-prefixed vector inverts writing one, for every
    element codec that is a [Wire]: a reader consumes exactly the bytes the
    writer emits and leaves the rest, and accepts no other encoding. *)
Theorem vector_canonical {T} (ok : T -> Prop) enc dec `{!Wire ok enc dec} c xs c' :
  ReadVectorV dec c = Ok (xs, c') <->
  Forall ok xs /\ exists e, emits (WriteVectorV enc xs) e /\ c = e ++ c'.
Proof.
  split.
  - intros H. apply wire_sound in H as (Hok & e & _ & -> & He). eauto.
  - intros (Hok & e & He & ->). by apply wire_decode.
Qed.

Lemma vector_canonical_witness :
  ReadVectorV ReadUint16 [byte_of_Z 4; byte_of_Z 1; byte_of_Z 2; byte_of_Z 0; byte_of_Z 7; byte_of_Z 9]
  = Ok ([258; 7], [byte_of_Z 9]).
Proof.
  apply (vector_canonical is_u16 WriteUint16 ReadUint16). split; [repeat constructor; unfold is_u16; lia|].
  exists [byte_of_Z 4; byte_of_Z 1; byte_of_Z 2; byte_of_Z 0; byte_of_Z 7]. split; [|done]. by apply marshal_mls_ok.
Defined.
