(* ===== verification/TreeNodes.v ===== *)
(** [mls/tree]: the wire structures of the ratchet tree.

    [credential.go], [leaf.go], [parent.go], [updatepath.go] and the [Node] of
    [node.go]: records with the source's fields, their [marshal] methods and
    decoders, and for each the [Wire] instance that its clients (the ratchet
    tree, framing, the group messages) rely on.  The [ok] predicate of an
    instance says that the fields the discriminant leaves out are zero. *)

From Stdlib Require Import ZArith Lia Strings.Byte.
From stdpp Require Import base list numbers strings.
From S2P Require Import Prelude Syntax.

(** * credential.go *)

(* mls/tree/credential.go:12-15 CredentialTypeBasic *)
Definition CredentialTypeBasic : Z := 1.
(* mls/tree/credential.go:12-15 CredentialTypeX509 *)
Definition CredentialTypeX509 : Z := 2.

(* mls/tree/credential.go:18-20 Certificate *)
Record Certificate := mkCertificate { CertData : bytes }.

(* mls/tree/credential.go:24-28 Credential *)
Record Credential := mkCredential {
  CredentialType : Z;
  Identity : bytes;
  Certificates : list Certificate
}.

Definition Certificate_marshal (cert : Certificate) (b : Builder) : outcome Builder :=
  WriteOpaqueV (CertData cert) b.

Definition decodeCertificate (c : Cursor) : outcome (Certificate * Cursor) :=
  let! (data, c) := ReadOpaqueV c in
  Ok (mkCertificate data, c).

(* mls/tree/credential.go:30-42 Credential.marshal *)
Definition Credential_marshal (cr : Credential) (b : Builder) : outcome Builder :=
  let! b := WriteUint16 (CredentialType cr) b in
  if CredentialType cr =? CredentialTypeBasic then WriteOpaqueV (Identity cr) b
  else if CredentialType cr =? CredentialTypeX509 then
    WriteVectorV Certificate_marshal (Certificates cr) b
  else Err "tree: unsupported credential type".

(* mls/tree/credential.go:44-68 decodeCredential *)
Definition decodeCredential (c : Cursor) : outcome (Credential * Cursor) :=
  let! (ct, c) := ReadUint16 c in
  if ct =? CredentialTypeBasic then
    let! (identity, c) := ReadOpaqueV c in
    Ok (mkCredential ct identity [], c)
  else if ct =? CredentialTypeX509 then
    let! (certs, c) := ReadVectorV decodeCertificate c in
    Ok (mkCredential ct [] certs, c)
  else Err "tree: unsupported credential type".

(* mls/tree/credential.go:71-77 Credential.MarshalMLS *)
Definition Credential_MarshalMLS := marshal_mls Credential_marshal.
(* mls/tree/credential.go:80-91 Credential.UnmarshalMLS *)
Definition Credential_UnmarshalMLS := unmarshal_mls decodeCredential "tree: trailing bytes after Credential".

(** * leaf.go *)

(* mls/tree/leaf.go:11-14 ProtocolVersionMLS10 *)
Definition ProtocolVersionMLS10 : Z := 1.

(* mls/tree/leaf.go:25-30 LeafNodeSourceKeyPackage *)
Definition LeafNodeSourceKeyPackage : Z := 1.
(* mls/tree/leaf.go:25-30 LeafNodeSourceUpdate *)
Definition LeafNodeSourceUpdate : Z := 2.
(* mls/tree/leaf.go:25-30 LeafNodeSourceCommit *)
Definition LeafNodeSourceCommit : Z := 3.

(* mls/tree/leaf.go:33-39 Capabilities *)
Record Capabilities := mkCapabilities {
  cap_Versions : list Z;
  cap_CipherSuites : list Z;
  cap_Extensions : list Z;
  cap_Proposals : list Z;
  cap_Credentials : list Z
}.

(* mls/tree/leaf.go:41-70 Capabilities.marshal *)
Definition Capabilities_marshal (cp : Capabilities) (b : Builder) : outcome Builder :=
  let! b := WriteVectorV WriteUint16 (cap_Versions cp) b in
  let! b := WriteVectorV WriteUint16 (cap_CipherSuites cp) b in
  let! b := WriteVectorV WriteUint16 (cap_Extensions cp) b in
  let! b := WriteVectorV WriteUint16 (cap_Proposals cp) b in
  WriteVectorV WriteUint16 (cap_Credentials cp) b.

(* mls/tree/leaf.go:72-106 decodeCapabilities *)
Definition decodeCapabilities (c : Cursor) : outcome (Capabilities * Cursor) :=
  let! (versions, c) := ReadVectorV ReadUint16 c in
  let! (suites, c) := ReadVectorV ReadUint16 c in
  let! (exts, c) := ReadVectorV ReadUint16 c in
  let! (props, c) := ReadVectorV ReadUint16 c in
  let! (creds, c) := ReadVectorV ReadUint16 c in
  Ok (mkCapabilities versions suites exts props creds, c).

(* mls/tree/leaf.go:109-112 Lifetime *)
Record Lifetime := mkLifetime { NotBefore : Z; NotAfter : Z }.

(* mls/tree/leaf.go:114-117 Lifetime.marshal *)
Definition Lifetime_marshal (l : Lifetime) (b : Builder) : outcome Builder :=
  let! b := WriteUint64 (NotBefore l) b in
  WriteUint64 (NotAfter l) b.

(* mls/tree/leaf.go:119-129 decodeLifetime *)
Definition decodeLifetime (c : Cursor) : outcome (Lifetime * Cursor) :=
  let! (nb, c) := ReadUint64 c in
  let! (na, c) := ReadUint64 c in
  Ok (mkLifetime nb na, c).

(* mls/tree/leaf.go:132-135 Extension *)
Record Extension := mkExtension { ExtensionType : Z; ExtensionData : bytes }.

(* mls/tree/leaf.go:137-140 Extension.marshal *)
Definition Extension_marshal (e : Extension) (b : Builder) : outcome Builder :=
  let! b := WriteUint16 (ExtensionType e) b in
  WriteOpaqueV (ExtensionData e) b.

(* mls/tree/leaf.go:142-152 decodeExtension *)
Definition decodeExtension (c : Cursor) : outcome (Extension * Cursor) :=
  let! (et, c) := ReadUint16 c in
  let! (data, c) := ReadOpaqueV c in
  Ok (mkExtension et data, c).

(* mls/tree/leaf.go:164-174 LeafNode *)
Record LeafNode := mkLeafNode {
  ln_EncryptionKey : bytes;
  ln_SignatureKey : bytes;
  ln_Credential : Credential;
  ln_Capabilities : Capabilities;
  ln_LeafNodeSource : Z;
  ln_Lifetime : option Lifetime;
  ln_ParentHash : bytes;
  ln_Extensions : list Extension;
  ln_Signature : bytes
}.

(** The [switch l.LeafNodeSource] of [marshalContents]. *)
(* mls/tree/leaf.go:192-206 LeafNode.marshalContents *)
Definition marshalSource (l : LeafNode) (b : Builder) : outcome Builder :=
  if ln_LeafNodeSource l =? LeafNodeSourceKeyPackage then
    match ln_Lifetime l with
    | None => Err "tree: key_package leaf node missing lifetime"
    | Some lt => Lifetime_marshal lt b
    end
  else if ln_LeafNodeSource l =? LeafNodeSourceUpdate then Ok b
  else if ln_LeafNodeSource l =? LeafNodeSourceCommit then WriteOpaqueV (ln_ParentHash l) b
  else Err "tree: invalid leaf_node_source".

(* mls/tree/leaf.go:178-210 LeafNode.marshalContents *)
Definition marshalContents (l : LeafNode) (b : Builder) : outcome Builder :=
  let! b := WriteOpaqueV (ln_EncryptionKey l) b in
  let! b := WriteOpaqueV (ln_SignatureKey l) b in
  let! b := Credential_marshal (ln_Credential l) b in
  let! b := Capabilities_marshal (ln_Capabilities l) b in
  let! b := WriteUint8 (ln_LeafNodeSource l) b in
  let! b := marshalSource l b in
  WriteVectorV Extension_marshal (ln_Extensions l) b.

(* mls/tree/leaf.go:212-217 LeafNode.marshal *)
Definition LeafNode_marshal (l : LeafNode) (b : Builder) : outcome Builder :=
  let! b := marshalContents l b in
  WriteOpaqueV (ln_Signature l) b.

(** The [switch l.LeafNodeSource] of [decodeLeafNode]: the fields
    [Lifetime] and [ParentHash]. *)
(* mls/tree/leaf.go:239-254 decodeLeafNode *)
Definition decodeSource (src : Z) (c : Cursor) : outcome ((option Lifetime * bytes) * Cursor) :=
  if src =? LeafNodeSourceKeyPackage then
    let! (lt, c) := decodeLifetime c in Ok ((Some lt, []), c)
  else if src =? LeafNodeSourceUpdate then Ok ((None, []), c)
  else if src =? LeafNodeSourceCommit then
    let! (ph, c) := ReadOpaqueV c in Ok ((None, ph), c)
  else Err "tree: invalid leaf_node_source".

(* mls/tree/leaf.go:219-262 decodeLeafNode *)
Definition decodeLeafNode (c : Cursor) : outcome (LeafNode * Cursor) :=
  let! (ek, c) := ReadOpaqueV c in
  let! (sk, c) := ReadOpaqueV c in
  let! (cred, c) := decodeCredential c in
  let! (caps, c) := decodeCapabilities c in
  let! (src, c) := ReadUint8 c in
  let! (lp, c) := decodeSource src c in
  let! (exts, c) := ReadVectorV decodeExtension c in
  let! (sig, c) := ReadOpaqueV c in
  Ok (mkLeafNode ek sk cred caps src (fst lp) (snd lp) exts sig, c).

(* mls/tree/leaf.go:266-279 LeafNode.tbs *)
Definition LeafNode_tbs (l : LeafNode) (groupID : bytes) (leafIndex : Z) : outcome bytes :=
  let! b := marshalContents l NewBuilder in
  if (ln_LeafNodeSource l =? LeafNodeSourceUpdate) || (ln_LeafNodeSource l =? LeafNodeSourceCommit) then
    let! b := WriteOpaqueV groupID b in
    let! b := WriteUint32 leafIndex b in
    Ok (Bytes b)
  else Ok (Bytes b).

(* mls/tree/leaf.go:304-310 LeafNode.MarshalMLS *)
Definition LeafNode_MarshalMLS := marshal_mls LeafNode_marshal.
(* mls/tree/leaf.go:313-324 LeafNode.UnmarshalMLS *)
Definition LeafNode_UnmarshalMLS := unmarshal_mls decodeLeafNode "tree: trailing bytes after LeafNode".

(** * parent.go *)

(* mls/tree/parent.go:10-14 ParentNode *)
Record ParentNode := mkParentNode {
  pn_EncryptionKey : bytes;
  pn_ParentHash : bytes;
  pn_UnmergedLeaves : list Z
}.

(* mls/tree/parent.go:16-27 ParentNode.marshal *)
Definition ParentNode_marshal (p : ParentNode) (b : Builder) : outcome Builder :=
  let! b := WriteOpaqueV (pn_EncryptionKey p) b in
  let! b := WriteOpaqueV (pn_ParentHash p) b in
  WriteVectorV WriteUint32 (pn_UnmergedLeaves p) b.

(* mls/tree/parent.go:29-44 decodeParentNode *)
Definition decodeParentNode (c : Cursor) : outcome (ParentNode * Cursor) :=
  let! (ek, c) := ReadOpaqueV c in
  let! (ph, c) := ReadOpaqueV c in
  let! (ul, c) := ReadVectorV ReadUint32 c in
  Ok (mkParentNode ek ph ul, c).

(* mls/tree/parent.go:47-53 ParentNode.MarshalMLS *)
Definition ParentNode_MarshalMLS := marshal_mls ParentNode_marshal.
(* mls/tree/parent.go:56-67 ParentNode.UnmarshalMLS *)
Definition ParentNode_UnmarshalMLS := unmarshal_mls decodeParentNode "tree: trailing bytes after ParentNode".

(** * updatepath.go *)

(* mls/tree/updatepath.go:11-14 HPKECiphertext *)
Record HPKECiphertext := mkHPKECiphertext { KemOutput : bytes; Ciphertext : bytes }.

(* mls/tree/updatepath.go:16-21 HPKECiphertext.marshal *)
Definition HPKECiphertext_marshal (h : HPKECiphertext) (b : Builder) : outcome Builder :=
  let! b := WriteOpaqueV (KemOutput h) b in
  WriteOpaqueV (Ciphertext h) b.

(* mls/tree/updatepath.go:23-33 decodeHPKECiphertext *)
Definition decodeHPKECiphertext (c : Cursor) : outcome (HPKECiphertext * Cursor) :=
  let! (k, c) := ReadOpaqueV c in
  let! (ct, c) := ReadOpaqueV c in
  Ok (mkHPKECiphertext k ct, c).

(* mls/tree/updatepath.go:47-50 UpdatePathNode *)
Record UpdatePathNode := mkUpdatePathNode {
  upn_EncryptionKey : bytes;
  upn_EncryptedPathSecret : list HPKECiphertext
}.

(* mls/tree/updatepath.go:52-59 UpdatePathNode.marshal *)
Definition UpdatePathNode_marshal (n : UpdatePathNode) (b : Builder) : outcome Builder :=
  let! b := WriteOpaqueV (upn_EncryptionKey n) b in
  WriteVectorV HPKECiphertext_marshal (upn_EncryptedPathSecret n) b.

(* mls/tree/updatepath.go:61-71 decodeUpdatePathNode *)
Definition decodeUpdatePathNode (c : Cursor) : outcome (UpdatePathNode * Cursor) :=
  let! (ek, c) := ReadOpaqueV c in
  let! (cts, c) := ReadVectorV decodeHPKECiphertext c in
  Ok (mkUpdatePathNode ek cts, c).

(* mls/tree/updatepath.go:75-78 UpdatePath *)
Record UpdatePath := mkUpdatePath { up_LeafNode : LeafNode; up_Nodes : list UpdatePathNode }.

(* mls/tree/updatepath.go:80-87 UpdatePath.marshal *)
Definition UpdatePath_marshal (u : UpdatePath) (b : Builder) : outcome Builder :=
  let! b := LeafNode_marshal (up_LeafNode u) b in
  WriteVectorV UpdatePathNode_marshal (up_Nodes u) b.

(* mls/tree/updatepath.go:89-99 decodeUpdatePath *)
Definition decodeUpdatePath (c : Cursor) : outcome (UpdatePath * Cursor) :=
  let! (ln, c) := decodeLeafNode c in
  let! (nodes, c) := ReadVectorV decodeUpdatePathNode c in
  Ok (mkUpdatePath ln nodes, c).

(* mls/tree/updatepath.go:106-112 UpdatePath.MarshalMLS *)
Definition UpdatePath_MarshalMLS := marshal_mls UpdatePath_marshal.
(* mls/tree/updatepath.go:115-126 UpdatePath.UnmarshalMLS *)
Definition UpdatePath_UnmarshalMLS := unmarshal_mls decodeUpdatePath "tree: trailing bytes after UpdatePath".

(** * Well-formed values *)

Definition Credential_ok (cr : Credential) : Prop :=
  is_u16 (CredentialType cr) /\
  (CredentialType cr = CredentialTypeBasic -> Certificates cr = []) /\
  (CredentialType cr = CredentialTypeX509 -> Identity cr = []).

Definition Capabilities_ok (cp : Capabilities) : Prop :=
  Forall is_u16 (cap_Versions cp) /\ Forall is_u16 (cap_CipherSuites cp) /\
  Forall is_u16 (cap_Extensions cp) /\ Forall is_u16 (cap_Proposals cp) /\
  Forall is_u16 (cap_Credentials cp).

Definition Lifetime_ok (l : Lifetime) : Prop := is_u64 (NotBefore l) /\ is_u64 (NotAfter l).

Definition Extension_ok (e : Extension) : Prop := is_u16 (ExtensionType e).

Definition Source_ok (src : Z) (lt : option Lifetime) (ph : bytes) : Prop :=
  (src = LeafNodeSourceKeyPackage -> from_option Lifetime_ok True lt) /\
  (src <> LeafNodeSourceKeyPackage -> lt = None) /\
  (src <> LeafNodeSourceCommit -> ph = []).

Definition LeafNode_ok (l : LeafNode) : Prop :=
  Credential_ok (ln_Credential l) /\ Capabilities_ok (ln_Capabilities l) /\
  is_u8 (ln_LeafNodeSource l) /\
  Source_ok (ln_LeafNodeSource l) (ln_Lifetime l) (ln_ParentHash l) /\
  Forall Extension_ok (ln_Extensions l).

Definition ParentNode_ok (p : ParentNode) : Prop := Forall is_u32 (pn_UnmergedLeaves p).

Definition UpdatePath_ok (u : UpdatePath) : Prop := LeafNode_ok (up_LeafNode u).

(** * Wire instances *)

Lemma Forall_trivial {A} (P : A -> Prop) l : (forall x, P x) -> Forall P l.
Proof. intros H. induction l; auto. Qed.

(** A record written field after field: [wire_record marshal decode]. *)
Ltac wire_record wm rd :=
  split;
  [ intros x; change (appends (wm x)); unfold wm; appends_tac
  | intros x e c Hok He; unfold wm in He; emits_split He; unfold rd; decode_fields
  | intros c x c' H; unfold rd in H; inv_ok; sound_fields
  | intros c; unfold rd; returns_fields ].

#[global] Instance wire_Certificate : Wire (fun _ => True) Certificate_marshal decodeCertificate.
Proof.
  wire_record Certificate_marshal decodeCertificate.
  - by destruct x.
  - split; [done|]. sound_join.
Qed.

#[global] Instance wire_Capabilities : Wire Capabilities_ok Capabilities_marshal decodeCapabilities.
Proof.
  wire_record Capabilities_marshal decodeCapabilities.
  - destruct Hok as (? & ? & ? & ? & ?). decode_fields. by destruct x.
  - split; [done|]. unfold Capabilities_marshal. sound_join.
Qed.

#[global] Instance wire_Lifetime : Wire Lifetime_ok Lifetime_marshal decodeLifetime.
Proof.
  wire_record Lifetime_marshal decodeLifetime.
  - destruct Hok. decode_fields. by destruct x.
  - split; [done|]. unfold Lifetime_marshal. sound_join.
Qed.

#[global] Instance wire_Extension : Wire Extension_ok Extension_marshal decodeExtension.
Proof.
  wire_record Extension_marshal decodeExtension.
  - by destruct x.
  - split; [done|]. unfold Extension_marshal. sound_join.
Qed.

#[global] Instance wire_ParentNode : Wire ParentNode_ok ParentNode_marshal decodeParentNode.
Proof.
  wire_record ParentNode_marshal decodeParentNode.
  - by destruct x.
  - split; [done|]. unfold ParentNode_marshal. sound_join.
Qed.

#[global] Instance wire_HPKECiphertext :
  Wire (fun _ => True) HPKECiphertext_marshal decodeHPKECiphertext.
Proof.
  wire_record HPKECiphertext_marshal decodeHPKECiphertext.
  - by destruct x.
  - split; [done|]. unfold HPKECiphertext_marshal. sound_join.
Qed.

#[global] Instance wire_UpdatePathNode :
  Wire (fun _ => True) UpdatePathNode_marshal decodeUpdatePathNode.
Proof.
  wire_record UpdatePathNode_marshal decodeUpdatePathNode.
  - rewrite (wire_decode (r := ReadVectorV decodeHPKECiphertext) _ _ c (Forall_trivial (fun _ => True) _ (fun _ => I)) He).
    by destruct x.
  - split; [done|]. unfold UpdatePathNode_marshal. sound_join.
Qed.

#[global] Instance wire_Credential : Wire Credential_ok Credential_marshal decodeCredential.
Proof.
  wire_record Credential_marshal decodeCredential.
  - destruct Hok as (Ht & Hb & Hx). decode_fields. revert He.
    destruct (Z.eqb_spec (CredentialType x) CredentialTypeBasic) as [E|]; intros He.
    { emits_split He. decode_fields. specialize (Hb E). destruct x; simpl in *. by subst. }
    destruct (Z.eqb_spec (CredentialType x) CredentialTypeX509) as [E|]; [|discriminate (He [])].
    rewrite (wire_decode (r := ReadVectorV decodeCertificate) _ _ c (Forall_trivial (fun _ => True) _ (fun _ => I)) He).
    specialize (Hx E). destruct x; simpl in *. by subst.
  - destruct (Z.eqb_spec v CredentialTypeBasic) as [->|].
    { inv_ok. sound_fields. split; [done|]. unfold Credential_marshal. sound_join. }
    destruct (Z.eqb_spec v CredentialTypeX509) as [->|]; [|discriminate].
    inv_ok. sound_fields. split; [done|]. unfold Credential_marshal. sound_join.
Qed.

(** The part of a leaf node selected by [leaf_node_source] may be empty, so it
    has the laws of [Wire] but the one that something is consumed. *)
Lemma marshalSource_appends l : appends (marshalSource l).
Proof.
  unfold marshalSource. destruct (_ =? _); [|appends_tac].
  destruct (ln_Lifetime l); appends_tac.
Qed.

Lemma decodeSource_marshal l e c :
  Source_ok (ln_LeafNodeSource l) (ln_Lifetime l) (ln_ParentHash l) -> emits (marshalSource l) e ->
  decodeSource (ln_LeafNodeSource l) (e ++ c) = Ok ((ln_Lifetime l, ln_ParentHash l), c).
Proof.
  intros (H1 & H2 & H3). unfold marshalSource, decodeSource.
  destruct (Z.eqb_spec (ln_LeafNodeSource l) LeafNodeSourceKeyPackage) as [E|E].
  { specialize (H1 E). rewrite H3 by (rewrite E; done).
    destruct (ln_Lifetime l) as [lt|]; intros He; [|discriminate (He [])].
    simpl in H1. by decode_fields. }
  rewrite H2 by done.
  destruct (Z.eqb_spec (ln_LeafNodeSource l) LeafNodeSourceUpdate) as [E'|E'].
  { intros He. rewrite (emits_det _ _ _ He emits_nil), H3 by (rewrite E'; done). done. }
  destruct (Z.eqb_spec (ln_LeafNodeSource l) LeafNodeSourceCommit) as [E''|E''];
    intros He; [|discriminate (He [])].
  by decode_fields.
Qed.

Lemma decodeSource_sound src c lt ph c' :
  decodeSource src c = Ok ((lt, ph), c') ->
  Source_ok src lt ph /\
  exists e, c = e ++ c' /\ forall l, ln_LeafNodeSource l = src -> ln_Lifetime l = lt ->
    ln_ParentHash l = ph -> emits (marshalSource l) e.
Proof.
  unfold decodeSource, marshalSource, Source_ok. intros H.
  destruct (Z.eqb_spec src LeafNodeSourceKeyPackage) as [->|E].
  { inv_ok. sound_fields. split; [by split_and!|]. eexists. split; [done|].
    intros l -> -> _. done. }
  destruct (Z.eqb_spec src LeafNodeSourceUpdate) as [->|E'].
  { inv_ok. split; [by split_and!|]. exists []. split; [done|].
    intros l -> _ _. apply emits_nil. }
  destruct (Z.eqb_spec src LeafNodeSourceCommit) as [->|E'']; [|discriminate].
  inv_ok. sound_fields. split; [by split_and!|]. eexists. split; [done|].
  intros l -> _ ->. done.
Qed.

Lemma decodeSource_returns src c : returns (decodeSource src c).
Proof. unfold decodeSource. returns_fields. Qed.

Lemma marshalContents_appends l : appends (marshalContents l).
Proof.
  unfold marshalContents. do 6 (apply appends_bind; [first [apply marshalSource_appends|appends_tac]|]).
  appends_tac.
Qed.

#[global] Instance wire_LeafNode : Wire LeafNode_ok LeafNode_marshal decodeLeafNode.
Proof.
  split.
  - intros l. change (appends (LeafNode_marshal l)). unfold LeafNode_marshal.
    apply appends_bind; [apply marshalContents_appends|appends_tac].
  - intros l e c (Hc & Hp & Hu & Hs & Hx) He. unfold LeafNode_marshal in He.
    apply emits_bind_inv in He as (e1 & e2 & -> & H1 & H2); [|apply marshalContents_appends|appends_tac].
    unfold marshalContents in H1.
    do 6 (apply emits_bind_inv in H1 as (? & ? & -> & ? & H1);
      [|first [apply marshalSource_appends|appends_tac]
       |first [apply marshalContents_appends|
          repeat (apply appends_bind; [first [apply marshalSource_appends|appends_tac]|]); appends_tac]]).
    emits_split H1. unfold decodeLeafNode. decode_fields.
    rewrite (decodeSource_marshal l) by done. cbn [obind fst snd]. decode_fields. by destruct l.
  - intros c l c' H. unfold decodeLeafNode in H. inv_ok.
    match goal with E : decodeSource _ _ = Ok (?p, _) |- _ =>
      destruct p as [lt ph]; apply decodeSource_sound in E as (Hs & es & -> & Hem) end.
    sound_fields. split; [by split_and!|]. unfold LeafNode_marshal, marshalContents.
    eexists. split; cycle 1. split; cycle 1.
    + apply emits_bind; [|eassumption]. do 5 (apply emits_bind; [eassumption|]).
      apply emits_bind; [by apply Hem|eassumption].
    + by rewrite <- !app_assoc.
    + rewrite <- !app_assoc. app_nonempty.
  - intros c. unfold decodeLeafNode.
    repeat first [done|apply wire_returns|apply decodeSource_returns|apply returns_obind; [|intros [] _]].
Qed.

#[global] Instance wire_UpdatePath : Wire UpdatePath_ok UpdatePath_marshal decodeUpdatePath.
Proof.
  wire_record UpdatePath_marshal decodeUpdatePath.
  - rewrite (wire_decode (r := ReadVectorV decodeUpdatePathNode) _ _ c
      (Forall_trivial (fun _ => True) _ (fun _ => I)) He).
    by destruct x.
  - split; [done|]. unfold UpdatePath_marshal. sound_join.
Qed.

(** * Writers return *)

#[global] Instance Certificate_marshal_returns : WriteReturns Certificate_marshal.
Proof. writes Certificate_marshal. Qed.

#[global] Instance Credential_marshal_returns : WriteReturns Credential_marshal.
Proof. writes Credential_marshal. Qed.

#[global] Instance Capabilities_marshal_returns : WriteReturns Capabilities_marshal.
Proof. writes Capabilities_marshal. Qed.

#[global] Instance Extension_marshal_returns : WriteReturns Extension_marshal.
Proof. writes Extension_marshal. Qed.

#[global] Instance Lifetime_marshal_returns : WriteReturns Lifetime_marshal.
Proof. writes Lifetime_marshal. Qed.

#[global] Instance marshalSource_returns : WriteReturns marshalSource.
Proof. writes marshalSource. Qed.

#[global] Instance marshalContents_returns : WriteReturns marshalContents.
Proof. writes marshalContents. Qed.

#[global] Instance LeafNode_marshal_returns : WriteReturns LeafNode_marshal.
Proof. writes LeafNode_marshal. Qed.

#[global] Instance ParentNode_marshal_returns : WriteReturns ParentNode_marshal.
Proof. writes ParentNode_marshal. Qed.

(** * Properties *)

(** [LeafNode.UnmarshalMLS] accepts exactly the encodings [MarshalMLS]
    gives of well-formed leaf nodes (known credential type, lifetime or parent
    hash as the source demands, integers in range), and returns on every
    input. *)
Theorem leaf_node_codec data l :
  returns (LeafNode_UnmarshalMLS data) /\
  (LeafNode_UnmarshalMLS data = Ok l <-> LeafNode_ok l /\ LeafNode_MarshalMLS l = Ok data).
Proof.
  split; [apply unmarshal_returns|]. split; [apply marshal_unmarshal|].
  intros [Hok H]. by eapply unmarshal_marshal.
Qed.

(** [UpdatePath.UnmarshalMLS] accepts exactly the encodings [MarshalMLS]
    gives of update paths with a well-formed leaf, and returns on every
    input. *)
Theorem update_path_codec data u :
  returns (UpdatePath_UnmarshalMLS data) /\
  (UpdatePath_UnmarshalMLS data = Ok u <-> UpdatePath_ok u /\ UpdatePath_MarshalMLS u = Ok data).
Proof.
  split; [apply unmarshal_returns|]. split; [apply marshal_unmarshal|].
  intros [Hok H]. by eapply unmarshal_marshal.
Qed.
