(* ===== verification/TreeMath.v ===== *)
(** [mls/tree/math.go]: node-index arithmetic of the left-balanced tree.

    Indices are [uint32]; every shift, product and sum is reduced modulo
    [2^32] where the Go expression is.  The reference for the whole file is
    the coordinate view of the complete binary tree: the node of level [k]
    and position [j] has index [(2j+1)*2^k - 1], its parent is
    [(k+1, j/2)], its children are [(k-1, 2j)] and [(k-1, 2j+1)]. *)

From Stdlib Require Import ZArith Lia.
From stdpp Require Import base list numbers strings.
From S2P Require Import Prelude.

(* mls/tree/math.go:9-14 NodeWidth *)
Definition NodeWidth (nLeaves : Z) : Z :=
  if nLeaves =? 0 then 0 else u32 (u32 (2 * u32 (nLeaves - 1)) + 1).

(** [uint32(bits.Len32(x)) - 1] is [Z.log2 x] for [x > 0]. *)
(* mls/tree/math.go:17-22 log2 *)
Definition log2 (x : Z) : Z := if x =? 0 then 0 else Z.log2 x.

(** The loop [for (x>>k)&1 == 1 { k++ }]; a [uint32] has at most 32 trailing
    ones, and the shift by 32 yields 0. *)
(* mls/tree/math.go:31-34 level *)
Fixpoint level_loop (fuel : nat) (x k : Z) : Z :=
  match fuel with
  | O => k
  | S fuel => if Z.land (Z.shiftr x k) 1 =? 1 then level_loop fuel x (k + 1) else k
  end.

(* mls/tree/math.go:27-36 level *)
Definition level (x : Z) : Z :=
  if Z.land x 1 =? 0 then 0 else level_loop 33 x 0.

(* mls/tree/math.go:39-42 Root *)
Definition Root (nLeaves : Z) : Z :=
  let w := NodeWidth nLeaves in
  u32 (u32 (Z.shiftl 1 (log2 w)) - 1).

(** [(r, true)] is [Some r] and [(0, false)] is [None]. *)
(* mls/tree/math.go:45-51 Left *)
Definition Left (x : Z) : option Z :=
  let k := level x in
  if k =? 0 then None else Some (Z.lxor x (u32 (Z.shiftl 1 (k - 1)))).

(** [r, _ = Left(r)]: the value that is bound when [ok] is false is 0. *)
(* mls/tree/math.go:63-65 Right *)
Fixpoint Right_loop (fuel : nat) (r w : Z) : outcome Z :=
  if w <=? r then
    match fuel with
    | O => Diverge
    | S fuel => Right_loop fuel (default 0 (Left r)) w
    end
  else Ok r.

(** The loop descends at most 32 levels. *)
Definition tree_fuel : nat := 33.

(* mls/tree/math.go:57-68 Right *)
Definition Right (x nLeaves : Z) : outcome (option Z) :=
  let k := level x in
  if k =? 0 then Ok None else
  let r := Z.lxor x (u32 (Z.shiftl 3 (k - 1))) in
  let w := NodeWidth nLeaves in
  let! r := Right_loop tree_fuel r w in
  Ok (Some r).

(* mls/tree/math.go:73-77 parentStep *)
Definition parentStep (x : Z) : Z :=
  let k := level x in
  let b := Z.land (Z.shiftr x (k + 1)) 1 in
  Z.lxor (Z.lor x (u32 (Z.shiftl 1 k))) (u32 (Z.shiftl b (k + 1))).

(* mls/tree/math.go:88-90 Parent *)
Fixpoint Parent_loop (fuel : nat) (p w : Z) : outcome Z :=
  if w <=? p then
    match fuel with
    | O => Diverge
    | S fuel => Parent_loop fuel (parentStep p) w
    end
  else Ok p.

(* mls/tree/math.go:83-93 Parent *)
Definition Parent (x nLeaves : Z) : outcome (option Z) :=
  if x =? Root nLeaves then Ok None else
  let w := NodeWidth nLeaves in
  let! p := Parent_loop tree_fuel (parentStep x) w in
  Ok (Some p).

(* mls/tree/math.go:98-109 Sibling *)
Definition Sibling (x nLeaves : Z) : outcome (option Z) :=
  let! p := Parent x nLeaves in
  match p with
  | None => Ok None
  | Some p =>
      let l := default 0 (Left p) in
      let! r := Right p nLeaves in
      if l =? x then Ok (Some (default 0 r)) else Ok (Some l)
  end.

(* mls/tree/validation.go:61-64 subtreeContains *)
Definition subtreeContains (root node : Z) : bool :=
  let half := u32 (u32 (Z.shiftl 1 (level root)) - 1) in
  (u32 (root - half) <=? node) && (node <=? u32 (root + half)).

(** * The coordinate view *)

(** The index of the node of level [k] and position [j]. *)
Definition node (k j : Z) : Z := (2 * j + 1) * 2 ^ k - 1.

Lemma pow2_pos k : 0 <= k -> 0 < 2 ^ k.
Proof. intros. apply Z.pow_pos_nonneg; lia. Qed.

Lemma pow2_S k : 0 <= k -> 2 ^ (k + 1) = 2 * 2 ^ k.
Proof. intros. by rewrite Z.pow_add_r, Z.mul_comm by lia. Qed.

Lemma node_eq k j : 0 <= k -> node k j = j * 2 ^ (k + 1) + (2 ^ k - 1).
Proof. intros. unfold node. rewrite pow2_S by lia. ring. Qed.

Lemma node_nonneg k j : 0 <= k -> 0 <= j -> 0 <= node k j.
Proof. intros. rewrite node_eq by lia. pose proof (pow2_pos k). pose proof (pow2_pos (k + 1)). nia. Qed.

Lemma node_inj k j k' j' : 0 <= k -> 0 <= k' -> node k j = node k' j' -> k = k' /\ j = j'.
Proof.
  assert (forall k j k' j', 0 <= k < k' -> node k j <> node k' j') as Hne.
  { clear. intros k j k' j' Hk E. unfold node in E.
    replace (2 ^ k') with (2 * 2 ^ (k' - k - 1) * 2 ^ k) in E.
    - pose proof (pow2_pos k). set (b := 2 ^ (k' - k - 1)) in *.
      assert (2 * j + 1 = 2 * ((2 * j' + 1) * b)); [|lia].
      apply (Z.mul_reg_r _ _ (2 ^ k)); lia.
    - rewrite <- pow2_S, <- Z.pow_add_r by lia. f_equal. lia. }
  intros Hk Hk' E. destruct (Z.lt_trichotomy k k') as [H|[->|H]].
  - by destruct (Hne k j k' j').
  - split; [done|]. unfold node in E. pose proof (pow2_pos k'). nia.
  - by destruct (Hne k' j' k j).
Qed.

Lemma node_leaf l : node 0 l = 2 * l.
Proof. unfold node. rewrite Z.pow_0_r. lia. Qed.

(** Every index has coordinates. *)
Lemma node_surj x : 0 <= x -> exists k j, 0 <= k /\ 0 <= j /\ x = node k j.
Proof.
  intros Hx. induction (Z.lt_wf 0 x) as [x _ IH].
  destruct (Z.eq_dec (x mod 2) 0).
  - exists 0, (x / 2). unfold node. rewrite Z.pow_0_r. split_and!; zlia.
  - destruct (IH (x / 2)) as (k & j & Hk & Hj & E); [zlia..|].
    exists (k + 1), j. split_and!; [lia..|]. unfold node in *. rewrite pow2_S by lia.
    replace x with (2 * (x / 2) + 1) by zlia. rewrite E. ring.
Qed.

Lemma node_testbit_low k j i : 0 <= i < k -> Z.testbit (node k j) i = true.
Proof.
  intros Hi. rewrite node_eq by lia. rewrite <- Z.shiftl_mul_pow2 by lia.
  replace (Z.shiftl j (k + 1) + (2 ^ k - 1)) with (Z.lor (Z.shiftl j (k + 1)) (Z.ones k)).
  - rewrite Z.lor_spec, Z.ones_spec_low by lia. apply orb_true_r.
  - rewrite Z.ones_equiv, <- Z.sub_1_r, lor_disjoint, Z.shiftl_mul_pow2; [done|lia..|].
    rewrite pow2_S by lia. pose proof (pow2_pos k). lia.
Qed.

Lemma node_testbit_high k j i : 0 <= k -> k < i -> Z.testbit (node k j) i = Z.testbit j (i - k - 1).
Proof.
  intros Hk Hi. rewrite node_eq by lia.
  rewrite <- (lor_disjoint j (k + 1) (2 ^ k - 1)) by (rewrite ?pow2_S by lia; pose proof (pow2_pos k); lia).
  rewrite Z.lor_spec, Z.shiftl_spec by lia.
  replace (2 ^ k - 1) with (Z.ones k) by (rewrite Z.ones_equiv; lia).
  rewrite Z.ones_spec_high, orb_false_r by lia. f_equal. lia.
Qed.

Lemma node_testbit_eq k j : 0 <= k -> Z.testbit (node k j) k = false.
Proof.
  intros Hk. rewrite node_eq by lia.
  rewrite <- (lor_disjoint j (k + 1) (2 ^ k - 1)) by (rewrite ?pow2_S by lia; pose proof (pow2_pos k); lia).
  rewrite Z.lor_spec, Z.shiftl_spec_low by lia.
  replace (2 ^ k - 1) with (Z.ones k) by (rewrite Z.ones_equiv; lia).
  by rewrite Z.ones_spec_high by lia.
Qed.

Lemma land_1_bit x k : 0 <= k -> Z.land (Z.shiftr x k) 1 = Z.b2z (Z.testbit x k).
Proof.
  intros. change 1 with (2 ^ 1 - 1) at 1. rewrite land_low by lia.
  rewrite Z.shiftr_div_pow2 by lia. by rewrite Z.testbit_spec' by lia.
Qed.

Lemma level_loop_node fuel k j i :
  0 <= i <= k -> k - i < Z.of_nat fuel -> level_loop fuel (node k j) i = k.
Proof.
  revert i. induction fuel as [|fuel IH]; intros i Hi Hf; [lia|]. cbn [level_loop].
  rewrite land_1_bit by lia. destruct (Z.eq_dec i k) as [->|].
  - by rewrite node_testbit_eq by lia.
  - rewrite node_testbit_low by lia. cbn [Z.b2z Z.eqb Pos.eqb]. apply IH; lia.
Qed.

Lemma level_node k j : 0 <= k <= 32 -> level (node k j) = k.
Proof.
  intros Hk. unfold level. rewrite <- (Z.shiftr_0_r (node k j)) at 1. rewrite land_1_bit by lia.
  destruct (Z.eq_dec k 0) as [->|].
  - by rewrite node_testbit_eq by lia.
  - rewrite node_testbit_low by lia. cbn [Z.b2z Z.eqb]. apply level_loop_node; lia.
Qed.

Lemma node_lt_pow k j n : 0 <= k -> 0 <= j -> 0 <= n -> node k j < 2 ^ n -> k <= n.
Proof.
  intros Hk Hj Hn H. destruct (Z.le_gt_cases k n); [done|].
  assert (2 ^ (n + 1) <= 2 ^ k) by (apply Z.pow_le_mono_r; lia).
  rewrite pow2_S in * by lia. pose proof (pow2_pos n Hn).
  rewrite node_eq in H by lia. pose proof (pow2_pos (k + 1)). nia.
Qed.

Lemma lxor_set x n : 0 <= n -> Z.testbit x n = true -> Z.lxor x (2 ^ n) = x - 2 ^ n.
Proof.
  intros Hn Hb. rewrite Z.sub_nocarry_ldiff.
  - apply Z.bits_inj'. intros i Hi. rewrite Z.lxor_spec, Z.ldiff_spec, Z.pow2_bits_eqb by lia.
    destruct (Z.eqb_spec n i) as [->|]; [by rewrite Hb|]. by destruct (Z.testbit x i).
  - apply Z.bits_inj'. intros i Hi. rewrite Z.ldiff_spec, Z.bits_0, Z.pow2_bits_eqb by lia.
    destruct (Z.eqb_spec n i) as [->|]; [by rewrite Hb|done].
Qed.

Lemma lxor_unset x n : 0 <= n -> Z.testbit x n = false -> Z.lxor x (2 ^ n) = x + 2 ^ n.
Proof.
  intros Hn Hb. rewrite Z.add_nocarry_lxor; [done|].
  apply Z.bits_inj'. intros i Hi. rewrite Z.land_spec, Z.bits_0, Z.pow2_bits_eqb by lia.
  destruct (Z.eqb_spec n i) as [->|]; [by rewrite Hb|by rewrite andb_false_r].
Qed.

Lemma u32_small z : 0 <= z < 2 ^ 32 -> u32 z = z.
Proof. intros. by apply Z.mod_small. Qed.

Lemma u32_pow2 k : 0 <= k < 32 -> u32 (2 ^ k) = 2 ^ k.
Proof.
  intros. apply u32_small. split; [apply Z.pow_nonneg; lia|]. apply Z.pow_lt_mono_r; lia.
Qed.

(** [Left], [Right] before its clamping, and [parentStep] are the moves of the
    complete tree. *)
Lemma Left_node k j : 0 < k <= 32 -> Left (node k j) = Some (node (k - 1) (2 * j)).
Proof.
  intros Hk. unfold Left. rewrite level_node by lia. rewrite (proj2 (Z.eqb_neq k 0)) by lia.
  rewrite Z.shiftl_1_l, u32_pow2, lxor_set by (try apply node_testbit_low; lia). f_equal.
  unfold node. replace k with (k - 1 + 1) at 1 by lia. rewrite pow2_S by lia. ring.
Qed.

Lemma Left_leaf j : Left (node 0 j) = None.
Proof. unfold Left. by rewrite level_node by lia. Qed.

Lemma Right_step k j : 0 < k < 32 ->
  Z.lxor (node k j) (u32 (Z.shiftl 3 (k - 1))) = node (k - 1) (2 * j + 1).
Proof.
  intros Hk. assert (2 ^ k = 2 * 2 ^ (k - 1)) as E by (rewrite <- pow2_S by lia; f_equal; lia).
  pose proof (pow2_pos (k - 1)).
  replace (u32 (Z.shiftl 3 (k - 1))) with (Z.lxor (2 ^ k) (2 ^ (k - 1))).
  - assert (Z.testbit (node k j + 2 ^ k) (k - 1) = true) as Hb.
    { rewrite <- lxor_unset by (try apply node_testbit_eq; lia).
      by rewrite Z.lxor_spec, node_testbit_low, Z.pow2_bits_false by lia. }
    rewrite <- Z.lxor_assoc, (lxor_unset (node k j)) by (try apply node_testbit_eq; lia).
    rewrite lxor_set by (done || lia).
    unfold node. rewrite E. ring.
  - rewrite Z.shiftl_mul_pow2 by lia. rewrite lxor_unset; [|lia|apply Z.pow2_bits_false; lia].
    assert (2 ^ k <= 2 ^ 31) by (apply Z.pow_le_mono_r; lia). rewrite u32_small by lia. lia.
Qed.

Lemma parentStep_node k j : 0 <= k < 31 -> 0 <= j -> parentStep (node k j) = node (k + 1) (j / 2).
Proof.
  intros Hk Hj. unfold parentStep. rewrite level_node, land_1_bit by lia.
  rewrite Z.shiftl_1_l, u32_pow2 by lia.
  rewrite node_testbit_high by lia. replace (k + 1 - k - 1) with 0 by lia.
  assert (Z.lor (node k j) (2 ^ k) = node k j + 2 ^ k) as ->.
  { rewrite <- lxor_unset by (try apply node_testbit_eq; lia). rewrite Z.lxor_lor; [done|].
    apply Z.bits_inj'. intros i Hi. rewrite Z.land_spec, Z.bits_0, Z.pow2_bits_eqb by lia.
    destruct (Z.eqb_spec k i) as [->|]; [by rewrite node_testbit_eq|by rewrite andb_false_r]. }
  rewrite Z.bit0_mod. pose proof (Z.div_mod j 2 ltac:(lia)).
  pose proof (Z.mod_pos_bound j 2 ltac:(lia)). rewrite Z.shiftl_mul_pow2 by lia.
  assert (Z.testbit (node k j + 2 ^ k) (k + 1) = Z.odd j) as Hb.
  { rewrite <- lxor_unset, Z.lxor_spec, node_testbit_high, Z.pow2_bits_false by
      (try apply node_testbit_eq; lia).
    replace (k + 1 - k - 1) with 0 by lia. rewrite Z.bit0_odd. apply xorb_false_r. }
  rewrite Zmod_odd in *. destruct (Z.odd j).
  - rewrite Z.mul_1_l, u32_pow2, lxor_set by (done || lia). unfold node. rewrite !pow2_S by lia. nia.
  - rewrite Z.mul_0_l. change (u32 0) with 0. rewrite Z.lxor_0_r. unfold node. rewrite !pow2_S by lia. nia.
Qed.

(** * Trees of [n] leaves *)

Section tree.
Context (n : Z) (Hn : 1 <= n <= 2 ^ 31).

(** The width and the level of the root. *)
Definition wid : Z := 2 * n - 1.
Definition top : Z := Z.log2 wid.

Lemma NodeWidth_wid : NodeWidth n = wid.
Proof using Hn.
  unfold NodeWidth, wid. rewrite (proj2 (Z.eqb_neq n 0)) by lia.
  rewrite (u32_small (n - 1)), (u32_small (2 * _)), u32_small by lia. lia.
Qed.

Lemma top_spec : 0 <= top < 32 /\ 2 ^ top <= wid < 2 ^ (top + 1).
Proof using Hn.
  unfold top, wid. pose proof (Z.log2_nonneg (2 * n - 1)).
  pose proof (Z.log2_spec (2 * n - 1) ltac:(lia)) as Hs. rewrite <- Z.add_1_r in Hs.
  split; [|lia]. split; [lia|]. apply Z.log2_lt_pow2; lia.
Qed.

Lemma Root_node : Root n = node top 0.
Proof using Hn.
  destruct top_spec as [? ?]. unfold Root, log2. rewrite NodeWidth_wid.
  rewrite (proj2 (Z.eqb_neq wid 0)) by (unfold wid; lia).
  rewrite Z.shiftl_1_l. fold top. rewrite u32_pow2 by lia.
  pose proof (pow2_pos top). pose proof (Z.pow_lt_mono_r 2 top 32).
  rewrite u32_small by lia. unfold node. lia.
Qed.

(** The coordinates of the nodes of the tree: below the root. *)
Lemma node_in_tree k j : 0 <= k -> 0 <= j -> node k j < wid -> k <= top /\ j < 2 ^ (top - k).
Proof using Hn.
  intros Hk Hj Hw. destruct top_spec as [Ht [_ Hu]].
  assert (k <= top) as Hkt.
  { assert (k <= top + 1) by (eapply node_lt_pow; eauto; lia).
    destruct (Z.eq_dec k (top + 1)) as [->|]; [|lia].
    rewrite node_eq in Hw by lia. pose proof (pow2_pos (top + 1 + 1)). unfold wid in *. nia. }
  split; [done|]. rewrite node_eq in Hw by lia. pose proof (pow2_pos k). pose proof (pow2_pos (top - k)).
  assert (2 ^ (top + 1) = 2 ^ (top - k) * 2 ^ (k + 1)) as E
    by (rewrite <- Z.pow_add_r by lia; f_equal; lia).
  pose proof (pow2_pos (k + 1)). nia.
Qed.

Lemma root_in_tree : node top 0 < wid.
Proof using Hn. destruct top_spec as [? [? _]]. unfold node. lia. Qed.

(** The climb of [Parent]: it stops at the first ancestor that is in the
    tree, within [top - k] steps. *)
Lemma Parent_loop_spec fuel k j :
  0 <= k <= top -> 0 <= j < 2 ^ (top - k) -> top - k <= Z.of_nat fuel ->
  exists k', k <= k' <= top /\ Parent_loop fuel (node k j) wid = Ok (node k' (j / 2 ^ (k' - k))) /\
    node k' (j / 2 ^ (k' - k)) < wid /\
    forall m, k <= m < k' -> wid <= node m (j / 2 ^ (m - k)).
Proof using Hn.
  revert k j. induction fuel as [|fuel IH]; intros k j Hk Hj Hf; cbn [Parent_loop];
    destruct (Z.leb_spec wid (node k j)) as [Hw|Hw].
  - exfalso. assert (k = top) as -> by lia. rewrite Z.sub_diag in Hj.
    assert (j = 0) as -> by lia. pose proof root_in_tree. lia.
  - exists k. rewrite Z.sub_diag, Z.pow_0_r, Z.div_1_r. split_and!; [lia..|done|done|lia].
  - destruct (Z.eq_dec k top) as [->|Hkt].
    { rewrite Z.sub_diag in Hj. assert (j = 0) as -> by lia. pose proof root_in_tree. lia. }
    destruct top_spec as [? _]. rewrite parentStep_node by lia.
    destruct (IH (k + 1) (j / 2)) as (k' & Hk' & -> & Hlt & Hsk); [lia| |lia|].
    { split; [apply Z.div_pos; lia|]. apply Z.div_lt_upper_bound; [lia|].
      rewrite <- Z.pow_succ_r by lia. replace (Z.succ (top - (k + 1))) with (top - k) by lia. lia. }
    assert (forall m, k + 1 <= m -> j / 2 / 2 ^ (m - (k + 1)) = j / 2 ^ (m - k)) as E.
    { intros m Hm. rewrite Z.div_div by (try apply pow2_pos; lia). f_equal.
      rewrite <- Z.pow_succ_r by lia. f_equal. lia. }
    rewrite E in * by lia. exists k'. split_and!; [lia..|done|done|].
    intros m Hm. destruct (Z.eq_dec m k) as [->|].
    + by rewrite Z.sub_diag, Z.pow_0_r, Z.div_1_r.
    + rewrite <- E by lia. apply Hsk. lia.
  - exists k. rewrite Z.sub_diag, Z.pow_0_r, Z.div_1_r. split_and!; [lia..|done|done|lia].
Qed.

(** The descent of [Right] along the left spine of the child. *)
Lemma Right_loop_spec fuel k j :
  0 <= k < 32 -> 0 <= j -> node 0 (j * 2 ^ k) < wid -> k <= Z.of_nat fuel ->
  exists k', 0 <= k' <= k /\ Right_loop fuel (node k j) wid = Ok (node k' (j * 2 ^ (k - k'))) /\
    node k' (j * 2 ^ (k - k')) < wid /\
    forall m, k' < m <= k -> wid <= node m (j * 2 ^ (k - m)).
Proof using Hn.
  revert k j. induction fuel as [|fuel IH]; intros k j Hk Hj Hl Hf; cbn [Right_loop];
    destruct (Z.leb_spec wid (node k j)) as [Hw|Hw].
  - exfalso. assert (k = 0) as -> by lia. rewrite Z.pow_0_r, Z.mul_1_r in Hl. lia.
  - exists k. rewrite Z.sub_diag, Z.pow_0_r, Z.mul_1_r. split_and!; [lia..|done|done|lia].
  - destruct (Z.eq_dec k 0) as [->|Hk0].
    { rewrite Z.pow_0_r, Z.mul_1_r in Hl. lia. }
    rewrite Left_node by lia. cbn [default from_option].
    assert (forall m, m <= k - 1 -> 2 * j * 2 ^ (k - 1 - m) = j * 2 ^ (k - m)) as E.
    { intros m Hm. replace (k - m) with (k - 1 - m + 1) by lia. rewrite pow2_S by lia. ring. }
    destruct (IH (k - 1) (2 * j)) as (k' & Hk' & Hr & Hlt & Hsk); [lia|lia| |lia|].
    { specialize (E 0 ltac:(lia)). rewrite !Z.sub_0_r in E. by rewrite E. }
    unfold default, id in *. rewrite Hr. rewrite E in * by lia.
    exists k'. split_and!; [lia..|done|done|].
    intros m Hm. destruct (Z.eq_dec m k) as [->|].
    + by rewrite Z.sub_diag, Z.pow_0_r, Z.mul_1_r.
    + rewrite <- E by lia. apply Hsk. lia.
  - exists k. rewrite Z.sub_diag, Z.pow_0_r, Z.mul_1_r. split_and!; [lia..|done|done|lia].
Qed.

(** [Parent] of a node other than the root. *)
Lemma Parent_ok k j :
  0 <= k -> 0 <= j -> node k j < wid -> node k j <> Root n ->
  exists k', k < k' <= top /\ Parent (node k j) n = Ok (Some (node k' (j / 2 ^ (k' - k)))) /\
    node k' (j / 2 ^ (k' - k)) < wid /\
    forall m, k < m < k' -> wid <= node m (j / 2 ^ (m - k)).
Proof using Hn.
  intros Hk Hj Hw Hr. destruct (node_in_tree k j Hk Hj Hw) as [Hkt Hjt]. destruct top_spec as [? _].
  assert (k < top).
  { destruct (Z.eq_dec k top) as [->|]; [|lia]. rewrite Z.sub_diag in Hjt.
    assert (j = 0) as -> by lia. by rewrite Root_node in Hr. }
  unfold Parent. rewrite (proj2 (Z.eqb_neq _ _)), NodeWidth_wid, parentStep_node by (done || lia).
  destruct (Parent_loop_spec tree_fuel (k + 1) (j / 2)) as (k' & Hk' & -> & Hlt & Hsk);
    [lia| |unfold tree_fuel; lia|].
  { split; [apply Z.div_pos; lia|]. apply Z.div_lt_upper_bound; [lia|].
    rewrite <- Z.pow_succ_r by lia. replace (Z.succ (top - (k + 1))) with (top - k) by lia. lia. }
  assert (forall m, k + 1 <= m -> j / 2 / 2 ^ (m - (k + 1)) = j / 2 ^ (m - k)) as E.
  { intros m Hm. rewrite Z.div_div by (try apply pow2_pos; lia). f_equal.
    rewrite <- Z.pow_succ_r by lia. f_equal. lia. }
  rewrite E in * by lia. exists k'. split_and!; [lia..|done|done|].
  intros m Hm. rewrite <- E by lia. apply Hsk. lia.
Qed.

(** The parent is the lowest ancestor that is in the tree. *)
Lemma Parent_unique k j K :
  0 <= k -> 0 <= j -> node k j < wid -> k < K -> node K (j / 2 ^ (K - k)) < wid ->
  (forall m, k < m < K -> wid <= node m (j / 2 ^ (m - k))) ->
  Parent (node k j) n = Ok (Some (node K (j / 2 ^ (K - k)))).
Proof using Hn.
  intros Hk Hj Hw HK Hlt Hsk. destruct top_spec as [? _].
  assert (0 <= j / 2 ^ (K - k)) by (apply Z.div_pos; [lia|apply pow2_pos; lia]).
  destruct (node_in_tree K (j / 2 ^ (K - k))) as [HKt _]; [lia|done|done|].
  destruct (Parent_ok k j Hk Hj Hw) as (k' & Hk' & -> & Hlt' & Hsk').
  { rewrite Root_node. intros E. assert (level (node k j) = level (node top 0)) as E' by congruence.
    rewrite !level_node in E' by lia. lia. }
  assert (k' = K) as ->; [|done].
  destruct (Z.lt_trichotomy k' K) as [HH|[HH|HH]]; [|done|].
  - specialize (Hsk k' ltac:(lia)). lia.
  - specialize (Hsk' K ltac:(lia)). lia.
Qed.

Lemma Right_ok k j :
  0 < k -> 0 <= j -> node k j < wid ->
  exists k', 0 <= k' < k /\ Right (node k j) n = Ok (Some (node k' ((2 * j + 1) * 2 ^ (k - 1 - k')))) /\
    node k' ((2 * j + 1) * 2 ^ (k - 1 - k')) < wid /\
    forall m, k' < m < k -> wid <= node m ((2 * j + 1) * 2 ^ (k - 1 - m)).
Proof using Hn.
  intros Hk Hj Hw. destruct (node_in_tree k j) as [Hkt _]; [lia..|done|]. destruct top_spec as [? _].
  unfold Right. rewrite level_node, (proj2 (Z.eqb_neq k 0)), Right_step, NodeWidth_wid by lia.
  destruct (Right_loop_spec tree_fuel (k - 1) (2 * j + 1)) as (k' & Hk' & -> & Hlt & Hsk);
    [lia|lia| |unfold tree_fuel; lia|].
  { unfold node in *. rewrite Z.pow_0_r. assert (2 ^ k = 2 * 2 ^ (k - 1)) as E
      by (rewrite <- pow2_S by lia; f_equal; lia).
    unfold wid in *. rewrite E in Hw. lia. }
  exists k'. split_and!; [lia..|done|done|]. intros m Hm. apply Hsk. lia.
Qed.

Lemma div_spine j d : 0 <= d -> (2 * j + 1) * 2 ^ d / 2 ^ (d + 1) = j.
Proof.
  intros Hd. rewrite pow2_S, Z.div_mul_cancel_r by (pose proof (pow2_pos d); lia). zlia.
Qed.

Lemma div_spine_low a d e : 0 <= e <= d -> a * 2 ^ d / 2 ^ e = a * 2 ^ (d - e).
Proof.
  intros He. replace d with (d - e + e) at 1 by lia.
  rewrite Z.pow_add_r, Z.mul_assoc, Z.div_mul by (try apply Z.pow_nonzero; lia). done.
Qed.

(** The children of an internal node are in the tree, and it is their parent. *)
Lemma children_parent x :
  0 <= x < wid -> level x <> 0 ->
  exists l r, Left x = Some l /\ Right x n = Ok (Some r) /\ 0 <= l < x /\ x < r < wid /\
    Parent l n = Ok (Some x) /\ Parent r n = Ok (Some x).
Proof using Hn.
  intros [Hx Hw] Hlev. destruct (node_surj x Hx) as (k & j & Hk & Hj & ->).
  destruct (node_in_tree k j Hk Hj Hw) as [Hkt _]. destruct top_spec as [? _].
  rewrite level_node in Hlev by lia. assert (0 < k) by lia.
  destruct (Right_ok k j) as (k' & Hk' & HR & Hlt & Hsk); [done..|].
  exists (node (k - 1) (2 * j)), (node k' ((2 * j + 1) * 2 ^ (k - 1 - k'))).
  assert (2 ^ k = 2 * 2 ^ (k - 1)) as E by (rewrite <- pow2_S by lia; f_equal; lia).
  pose proof (pow2_pos (k - 1)). pose proof (pow2_pos k'). pose proof (pow2_pos (k - 1 - k')).
  assert (2 ^ (k - 1) = 2 ^ (k - 1 - k') * 2 ^ k') as E2 by (rewrite <- Z.pow_add_r by lia; f_equal; lia).
  assert (0 <= node (k - 1) (2 * j) < node k j) as Hl by (unfold node; nia).
  split_and!; [apply Left_node; lia|done|lia|lia| |done| |].
  - unfold node. rewrite E, E2. nia.
  - assert (2 * j / 2 ^ (k - (k - 1)) = j) as Ej
      by (replace (k - (k - 1)) with 1 by lia; rewrite Z.pow_1_r; zlia).
    rewrite (Parent_unique (k - 1) (2 * j) k) by (rewrite ?Ej; lia). by rewrite Ej.
  - assert ((2 * j + 1) * 2 ^ (k - 1 - k') / 2 ^ (k - k') = j) as Ej.
    { replace (k - k') with (k - 1 - k' + 1) by lia. apply div_spine. lia. }
    rewrite (Parent_unique k' _ k); [by rewrite Ej|lia|nia|done|lia|by rewrite Ej|].
    intros m Hm. rewrite div_spine_low by lia.
    replace (k - 1 - k' - (m - k')) with (k - 1 - m) by lia. apply Hsk. lia.
Qed.

(** A node all of whose ancestors up to level [k + i] are cut off lies on
    the left spine of the topmost of them. *)
Lemma cut_off_spine k j i :
  0 <= k -> 0 <= j -> node k j < wid -> (0 <= i)%Z ->
  (forall m, k < m <= k + i -> wid <= node m (j / 2 ^ (m - k))) ->
  j = (j / 2 ^ i) * 2 ^ i.
Proof.
  intros Hk Hj Hw Hi. revert i Hi. apply (natlike_ind (fun i => _ -> _)).
  - intros _. rewrite Z.pow_0_r, Z.div_1_r. lia.
  - intros i Hi IH Hsk. specialize (IH ltac:(intros m Hm; apply Hsk; lia)).
    specialize (Hsk (k + Z.succ i) ltac:(lia)). replace (k + Z.succ i - k) with (Z.succ i) in Hsk by lia.
    rewrite Z.pow_succ_r, (Z.mul_comm 2), <- Z.div_div in * by (try apply pow2_pos; lia).
    set (a := j / 2 ^ i) in *. pose proof (Z.div_mod a 2 ltac:(lia)). pose proof (Z.mod_pos_bound a 2 ltac:(lia)).
    assert (a mod 2 = 0); [|lia].
    destruct (Z.eq_dec (a mod 2) 0); [done|]. exfalso. unfold node in *.
    replace (2 ^ (k + Z.succ i)) with (2 * 2 ^ i * 2 ^ k) in Hsk
      by (rewrite <- Z.pow_succ_r, <- Z.pow_add_r by lia; f_equal; lia).
    pose proof (pow2_pos i Hi). pose proof (pow2_pos k Hk). nia.
Qed.

(** Every node but the root is the left or the right child of its parent. *)
Lemma parent_children x :
  0 <= x < wid -> x <> Root n ->
  exists p, Parent x n = Ok (Some p) /\ 0 <= p < wid /\ level x < level p /\
    (Left p = Some x \/ Right p n = Ok (Some x)).
Proof using Hn.
  intros [Hx Hw] Hr. destruct (node_surj x Hx) as (k & j & Hk & Hj & ->).
  destruct (Parent_ok k j Hk Hj Hw Hr) as (k' & Hk' & HP & Hlt & Hsk). destruct top_spec as [? _].
  pose proof (pow2_pos (k' - k)). assert (0 <= j / 2 ^ (k' - k)) by (apply Z.div_pos; lia).
  exists (node k' (j / 2 ^ (k' - k))). split_and!; [done|apply node_nonneg; lia|done| |].
  { rewrite !level_node by lia. lia. }
  assert (j / 2 ^ (k' - k) = j / 2 ^ (k' - 1 - k) / 2) as E.
  { rewrite Z.div_div by (try apply pow2_pos; lia).
    replace (k' - k) with (k' - 1 - k + 1) by lia. by rewrite pow2_S, Z.mul_comm by lia. }
  rewrite E in *. set (c := j / 2 ^ (k' - 1 - k)) in *.
  assert (0 <= c) by (apply Z.div_pos; [lia|apply pow2_pos; lia]).
  assert (j = c * 2 ^ (k' - 1 - k)) as Ej.
  { apply (cut_off_spine k); [lia..|]. intros m Hm. apply Hsk. lia. }
  pose proof (Z.div_mod c 2 ltac:(lia)). pose proof (Z.mod_pos_bound c 2 ltac:(lia)).
  assert (2 ^ k' = 2 * 2 ^ (k' - 1)) as E2 by (rewrite <- pow2_S by lia; f_equal; lia).
  destruct (Z.eq_dec (c mod 2) 0).
  - left. rewrite Left_node by lia. f_equal. replace (2 * (c / 2)) with c by lia.
    destruct (Z.eq_dec k (k' - 1)) as [->|].
    + rewrite Z.sub_diag, Z.pow_0_r in Ej. f_equal. lia.
    + exfalso. specialize (Hsk (k' - 1) ltac:(lia)). fold c in Hsk.
      unfold node in *. pose proof (pow2_pos (k' - 1)). nia.
  - right. destruct (Right_ok k' (c / 2)) as (K & HK & -> & HKlt & HKsk); [lia..|done|].
    replace (2 * (c / 2) + 1) with c in * by lia. do 2 f_equal. assert (K = k) as ->; [|by rewrite <- Ej].
    destruct (Z.lt_trichotomy K k) as [HH|[HH|HH]]; [|done|].
    + specialize (HKsk k ltac:(lia)). rewrite <- Ej in HKsk. lia.
    + specialize (Hsk K ltac:(lia)). rewrite Ej, div_spine_low in Hsk by lia.
      replace (k' - 1 - k - (K - k)) with (k' - 1 - K) in Hsk by lia. lia.
Qed.

(** [Sibling] returns for every node, [None] for the root only, and is an
    involution without fixed point. *)
Lemma Sibling_ok x :
  0 <= x < wid -> x <> Root n ->
  exists s p, Sibling x n = Ok (Some s) /\ Parent x n = Ok (Some p) /\ Parent s n = Ok (Some p) /\
    0 <= s < wid /\ s <> x /\ Sibling s n = Ok (Some x) /\
    ((Left p = Some x /\ Right p n = Ok (Some s)) \/ (Left p = Some s /\ Right p n = Ok (Some x))).
Proof using Hn.
  intros Hx Hr. destruct (parent_children x Hx Hr) as (p & HP & Hp & Hlev & Hc).
  assert (level p <> 0) as Hp0.
  { assert (0 <= level x); [|lia]. destruct (node_surj x ltac:(lia)) as (k & j & ? & ? & ->).
    destruct (node_in_tree k j) as [? _]; [lia..|]. destruct top_spec as [? _]. rewrite level_node; lia. }
  destruct (children_parent p Hp Hp0) as (l & r & HL & HR & Hl & Hrr & HPl & HPr).
  assert (Sibling l n = Ok (Some r)) as Sl
    by (unfold Sibling; rewrite HPl; cbn [obind]; rewrite HL, HR; cbn; by rewrite Z.eqb_refl).
  assert (Sibling r n = Ok (Some l)) as Sr.
  { unfold Sibling. rewrite HPr. cbn [obind]. rewrite HL, HR. cbn. by rewrite (proj2 (Z.eqb_neq l r)) by lia. }
  rewrite HL, HR in Hc. destruct Hc as [[= ->]|[= ->]].
  - exists r, p. split_and!; auto; lia.
  - exists l, p. split_and!; auto; lia.
Qed.
End tree.

(** * Complete trees

    The ratchet tree always has a complete width, so that the clamping loops
    of [Right] and [Parent] do not run and the functions are the coordinate
    maps. *)

Section complete.
Context (d : Z) (Hd : 0 <= d <= 30).

Lemma complete_bound : 1 <= 2 ^ d <= 2 ^ 31.
Proof using Hd. split; [pose proof (pow2_pos d); lia|]. apply Z.pow_le_mono_r; lia. Qed.

Lemma complete_width : NodeWidth (2 ^ d) = 2 ^ (d + 1) - 1.
Proof using Hd.
  rewrite NodeWidth_wid by apply complete_bound. unfold wid. rewrite pow2_S by lia. lia.
Qed.

Lemma complete_top : top (2 ^ d) = d.
Proof using Hd.
  destruct (top_spec (2 ^ d) complete_bound) as [H1 H2]. unfold wid in H2.
  rewrite pow2_S in H2 by lia.
  destruct (Z.lt_trichotomy (top (2 ^ d)) d) as [Hl|[->|Hl]]; [|done|].
  - assert (2 ^ (top (2 ^ d) + 1) <= 2 ^ d) by (apply Z.pow_le_mono_r; lia).
    rewrite pow2_S in * by lia. pose proof (pow2_pos (top (2 ^ d))). lia.
  - assert (2 ^ (d + 1) <= 2 ^ top (2 ^ d)) by (apply Z.pow_le_mono_r; lia).
    rewrite pow2_S in * by lia. pose proof (pow2_pos d). lia.
Qed.

Lemma complete_Root : Root (2 ^ d) = node d 0.
Proof using Hd. rewrite Root_node by apply complete_bound. by rewrite complete_top. Qed.

Lemma complete_in k j : 0 <= k -> 0 <= j ->
  node k j < 2 ^ (d + 1) - 1 <-> k <= d /\ j < 2 ^ (d - k).
Proof using Hd.
  intros Hk Hj. split.
  - intros Hw. pose proof (node_in_tree (2 ^ d) complete_bound k j) as H.
    rewrite complete_top in H. destruct H as [H1 H2]; [done..| |lia].
    unfold wid. rewrite pow2_S in Hw by lia. lia.
  - intros [Hkd Hjd]. unfold node.
    assert (2 ^ (d + 1) = 2 * (2 ^ (d - k) * 2 ^ k)) as ->
      by (rewrite <- Z.pow_add_r, pow2_S by lia; do 2 f_equal; lia).
    pose proof (pow2_pos k). nia.
Qed.

Lemma half_in k j : 0 <= k < d -> 0 <= j < 2 ^ (d - k) -> 0 <= j / 2 < 2 ^ (d - (k + 1)).
Proof using Hd.
  intros Hk Hj. split; [apply Z.div_pos; lia|]. apply Z.div_lt_upper_bound; [lia|].
  rewrite <- pow2_S by lia. replace (d - (k + 1) + 1) with (d - k) by lia. lia.
Qed.

Lemma complete_Parent k j : 0 <= k < d -> 0 <= j < 2 ^ (d - k) ->
  Parent (node k j) (2 ^ d) = Ok (Some (node (k + 1) (j / 2))).
Proof using Hd.
  intros Hk Hj. pose proof (half_in k j Hk Hj) as Hh.
  assert (j / 2 ^ (k + 1 - k) = j / 2) as E by (f_equal; replace (k + 1 - k) with 1 by lia; done).
  rewrite <- E in Hh |- *. apply Parent_unique; [apply complete_bound|lia|lia| |lia| |lia].
  - enough (node k j < 2 ^ (d + 1) - 1) by (unfold wid; rewrite pow2_S in * by lia; lia).
    apply complete_in; lia.
  - enough (node (k + 1) (j / 2 ^ (k + 1 - k)) < 2 ^ (d + 1) - 1) by (unfold wid; rewrite pow2_S in * by lia; lia).
    apply complete_in; lia.
Qed.

Lemma complete_Right k j : 0 < k <= d -> 0 <= j < 2 ^ (d - k) ->
  Right (node k j) (2 ^ d) = Ok (Some (node (k - 1) (2 * j + 1))).
Proof using Hd.
  intros Hk Hj.
  assert (2 ^ (d - (k - 1)) = 2 * 2 ^ (d - k)) as E by (rewrite <- pow2_S by lia; f_equal; lia).
  assert (forall k j, node k j < 2 ^ (d + 1) - 1 -> node k j < wid (2 ^ d)) as Hw
    by (intros; unfold wid; rewrite pow2_S in * by lia; lia).
  destruct (Right_ok (2 ^ d) complete_bound k j) as (k' & Hk' & -> & Hlt & Hsk); [lia..| |].
  { apply Hw, complete_in; lia. }
  destruct (Z.eq_dec k' (k - 1)) as [->|].
  - by rewrite Z.sub_diag, Z.pow_0_r, Z.mul_1_r.
  - specialize (Hsk (k - 1) ltac:(lia)). rewrite Z.sub_diag, Z.pow_0_r, Z.mul_1_r in Hsk.
    pose proof (Hw (k - 1) (2 * j + 1)) as Hx. rewrite complete_in in Hx by lia. lia.
Qed.

Lemma complete_Sibling k j : 0 <= k < d -> 0 <= j < 2 ^ (d - k) ->
  Sibling (node k j) (2 ^ d) = Ok (Some (node k (if Z.even j then j + 1 else j - 1))).
Proof using Hd.
  intros Hk Hj. pose proof (half_in k j Hk Hj). unfold Sibling.
  rewrite complete_Parent by lia. cbn [obind].
  rewrite complete_Right, Left_node by lia. cbn [obind default].
  replace (k + 1 - 1) with k by lia. unfold id.
  assert (j = 2 * (j / 2) + if Z.even j then 0 else 1) as Ej.
  { pose proof (Zmod_even j) as Hm. destruct (Z.even j); zlia. }
  pose proof (pow2_pos k). destruct (Z.even j).
  - rewrite (proj2 (Z.eqb_eq _ _)); do 2 f_equal; f_equal; lia.
  - rewrite (proj2 (Z.eqb_neq _ _)); [do 2 f_equal; f_equal; lia|]. unfold node. nia.
Qed.

(** [subtreeContains] is the ancestor relation. *)
Lemma subtreeContains_ok k j k' j' : 0 <= k <= d -> 0 <= j < 2 ^ (d - k) -> 0 <= k' -> 0 <= j' ->
  subtreeContains (node k j) (node k' j') = true <-> k' <= k /\ j' / 2 ^ (k - k') = j.
Proof using Hd.
  intros Hk Hj Hk' Hj'. unfold subtreeContains. rewrite level_node by lia.
  pose proof (pow2_pos k). assert (2 ^ k <= 2 ^ 30) by (apply Z.pow_le_mono_r; lia).
  assert (node k j + 2 ^ k <= 2 ^ (d + 1) - 1) as Hhi.
  { unfold node. assert (2 ^ (d + 1) = 2 * (2 ^ (d - k) * 2 ^ k)) as ->
      by (rewrite <- Z.pow_add_r, pow2_S by lia; do 2 f_equal; lia). nia. }
  assert (2 ^ (d + 1) <= 2 ^ 31) by (apply Z.pow_le_mono_r; lia).
  assert (2 ^ k - 1 <= node k j) as Hlo by (unfold node; nia).
  rewrite Z.shiftl_1_l, !u32_small by (rewrite ?u32_small; rewrite ?u32_small; lia).
  rewrite andb_true_iff, !Z.leb_le. pose proof (pow2_pos k'). unfold node.
  destruct (Z.le_gt_cases k' k) as [Hle|Hgt].
  - assert (2 ^ k = 2 ^ (k - k') * 2 ^ k') as E by (rewrite <- Z.pow_add_r by lia; f_equal; lia).
    pose proof (pow2_pos (k - k') ltac:(lia)) as He. set (e := 2 ^ (k - k')) in *. set (q := 2 ^ k') in *.
    pose proof (Z.div_mod j' e ltac:(lia)) as Hdm. pose proof (Z.mod_pos_bound j' e He) as Hm.
    split.
    + intros [Ha Hb]. split; [done|]. rewrite E in Ha, Hb. symmetry.
      apply (Z.div_unique j' e j (j' - e * j)); nia.
    + intros [_ <-]. rewrite E. nia.
  - split; [|lia]. intros [Ha Hb]. exfalso.
    assert (2 ^ k' = 2 ^ (k' - k - 1) * (2 * 2 ^ k)) as E
      by (rewrite <- pow2_S, <- Z.pow_add_r by lia; f_equal; lia).
    pose proof (pow2_pos (k' - k - 1) ltac:(lia)). rewrite E in Ha, Hb.
    assert (exists z, (2 * j' + 1) * 2 ^ (k' - k - 1) = z) as [z Hz] by eauto.
    assert ((2 * j' + 1) * (2 ^ (k' - k - 1) * (2 * 2 ^ k)) = z * (2 * 2 ^ k)) as Hz2 by (rewrite <- Hz; ring).
    rewrite Hz2 in Ha, Hb. assert (j < z < j + 1); [|lia]. nia.
Qed.
End complete.

(** * Properties *)

(** The array navigation of RFC 9420 is a binary tree for every number of
    leaves the node indices can address: a node other than the root has a
    sibling and a parent, the parent's two children are the node and its
    sibling, and the sibling of the sibling is the node. *)
Lemma tree_navigation n x :
  1 <= n <= 2 ^ 31 -> 0 <= x < NodeWidth n -> x <> Root n ->
  exists s p, Sibling x n = Ok (Some s) /\ Sibling s n = Ok (Some x) /\ s <> x /\
    Parent x n = Ok (Some p) /\ Parent s n = Ok (Some p) /\ 0 <= s < NodeWidth n /\ 0 <= p < NodeWidth n /\
    ((Left p = Some x /\ Right p n = Ok (Some s)) \/ (Left p = Some s /\ Right p n = Ok (Some x))).
Proof.
  intros Hn Hx Hr. rewrite NodeWidth_wid in * by done.
  destruct (Sibling_ok n Hn x Hx Hr) as (s & p & Hs & Hp & Hps & Hsr & Hne & Hss & Hc).
  destruct (parent_children n Hn x Hx Hr) as (p' & Hp' & Hr' & _).
  assert (p' = p) as -> by congruence. exists s, p. split_and!; solve [done | lia].
Qed.

(** In a complete tree of [2 ^ d] leaves, with nodes named by level and
    position, [Parent], [Left], [Right] and [Sibling] are the coordinate maps
    and [subtreeContains] is the ancestor relation. *)
Theorem complete_navigation d k j : 0 <= d <= 30 -> 0 <= k <= d -> 0 <= j < 2 ^ (d - k) ->
  (k < d -> Parent (node k j) (2 ^ d) = Ok (Some (node (k + 1) (j / 2)))) /\
  (0 < k -> Left (node k j) = Some (node (k - 1) (2 * j)) /\
            Right (node k j) (2 ^ d) = Ok (Some (node (k - 1) (2 * j + 1)))) /\
  forall k' j', 0 <= k' -> 0 <= j' ->
    subtreeContains (node k j) (node k' j') = true <-> k' <= k /\ j' / 2 ^ (k - k') = j.
Proof.
  intros Hd Hk Hj. split_and!.
  - intros ?. apply complete_Parent; lia.
  - intros ?. split; [apply Left_node; lia|apply complete_Right; lia].
  - intros k' j' ? ?. by apply (subtreeContains_ok d).
Qed.

Lemma complete_navigation_witness :
  Parent (node 1 1) (2 ^ 2) = Ok (Some (node 2 0)) /\ Left (node 1 1) = Some (node 0 2) /\
  (subtreeContains (node 1 1) (node 0 3) = true <-> 0 <= 1 /\ 3 / 2 ^ (1 - 0) = 1).
Proof.
  destruct (complete_navigation 2 1 1) as (HP & HL & HS); [lia..|cbn; lia|].
  split_and!; [by apply HP|by apply HL|by apply HS].
Defined.

(** On a node outside the tree [Parent] does not return: the climb from
    node 2 of a one-leaf tree reaches the index [2^32 - 1], a fixed point of
    [parentStep] that never falls below the width. *)
Lemma Parent_outside_diverges fuel : Parent_loop fuel (parentStep 2) (NodeWidth 1) = Diverge.
Proof.
  assert (forall fuel, Parent_loop fuel 4294967295 1 = Diverge) as Hfix.
  { intros f. induction f as [|f IH]; [done|]. cbn [Parent_loop Z.leb Z.compare Pos.compare Pos.compare_cont].
    by replace (parentStep 4294967295) with 4294967295. }
  change (NodeWidth 1) with 1. replace (parentStep 2) with 1 by done.
  do 32 (destruct fuel as [|fuel]; [by vm_compute|]; cbn [Parent_loop Z.leb Z.compare Pos.compare Pos.compare_cont];
    match goal with |- context [parentStep ?x] => let y := eval vm_compute in (parentStep x) in
      replace (parentStep x) with y by done end; try apply Hfix).
Qed.
