(* ===== verification/Cipher.v ===== *)
(** [mls/cipher]: the ciphersuite registry and the labelled cryptography.

    The Go standard library's cryptographic packages are an interface, the
    class [StdCrypto]: their types and functions, with the laws their
    documentation gives in [StdCryptoLaws].  Functions that draw randomness
    take it as an argument of type [Rand].  Everything of the package itself,
    from the label prefix to the X-Wing combiner, is defined here.

    [suite.go], [suite_pq.go], [labeled.go], [keyschedule.go], [aead.go],
    [extinit.go], [xwing.go], [errors.go]. *)

From Stdlib Require Import ZArith Lia Strings.Byte.
From stdpp Require Import base list numbers strings gmap.
From S2P Require Import Prelude Syntax.

(** * The standard library *)

(** The dynamic type of [crypto.Signer.Public()], as the type switches of the
    code distinguish it. *)
Inductive PublicKeyKind (EcdsaKey : Type) : Type :=
| PkEd25519 (raw : bytes)
| PkEcdsa (pk : EcdsaKey)
| PkOther.
Arguments PkEd25519 {EcdsaKey} raw.
Arguments PkEcdsa {EcdsaKey} pk.
Arguments PkOther {EcdsaKey}.

Class StdCrypto : Type := {
  Rand : Type;
  (** crypto/sha256, crypto/hmac, crypto/hkdf *)
  HashFn : Type;
  sha256_New : HashFn;
  hash_Size : HashFn -> Z;
  hash_Sum : HashFn -> bytes -> bytes;
  hmac_Sum : HashFn -> bytes -> bytes -> bytes;
  hkdf_Extract : HashFn -> bytes -> bytes -> outcome bytes;
  hkdf_Expand : HashFn -> bytes -> bytes -> Z -> outcome bytes;
  (** crypto/hpke *)
  KEM : Type;
  KDF : Type;
  HpkeAEAD : Type;
  KemPriv : Type;
  KemPub : Type;
  Sender : Type;
  Recipient : Type;
  hpke_DHKEM_X25519 : KEM;
  hpke_DHKEM_P256 : KEM;
  hpke_MLKEM768X25519 : KEM;
  hpke_HKDFSHA256 : KDF;
  hpke_AES128GCM : HpkeAEAD;
  hpke_AES256GCM : HpkeAEAD;
  kem_ID : KEM -> Z;
  aead_ID : HpkeAEAD -> Z;
  kem_GenerateKey : KEM -> Rand -> outcome KemPriv;
  kem_DeriveKeyPair : KEM -> bytes -> outcome KemPriv;
  kem_NewPublicKey : KEM -> bytes -> outcome KemPub;
  kem_NewPrivateKey : KEM -> bytes -> outcome KemPriv;
  kempriv_Bytes : KemPriv -> outcome bytes;
  kempriv_PublicKey : KemPriv -> KemPub;
  kempub_Bytes : KemPub -> bytes;
  hpke_NewSender : Rand -> KemPub -> KDF -> HpkeAEAD -> bytes -> outcome (bytes * Sender);
  sender_Seal : Sender -> bytes -> bytes -> outcome bytes;
  hpke_NewRecipient : bytes -> KemPriv -> KDF -> HpkeAEAD -> bytes -> outcome Recipient;
  recipient_Open : Recipient -> bytes -> bytes -> outcome bytes;
  (** crypto/aes, crypto/cipher *)
  GCM : Type;
  gcm_New : bytes -> outcome GCM;
  gcm_NonceSize : GCM -> Z;
  gcm_Seal : GCM -> bytes -> bytes -> bytes -> bytes;
  gcm_Open : GCM -> bytes -> bytes -> bytes -> outcome bytes;
  (** crypto/ed25519, crypto/ecdsa, crypto.Signer *)
  EcdsaKey : Type;
  Signer : Type;
  signer_Public : Signer -> PublicKeyKind EcdsaKey;
  signer_Sign : Signer -> bytes -> outcome bytes;
  ed25519_Verify : bytes -> bytes -> bytes -> bool;
  ecdsa_ParseUncompressedPublicKey : bytes -> outcome EcdsaKey;
  ecdsa_VerifyASN1 : EcdsaKey -> bytes -> bytes -> bool;
  ecdsa_ECDH_Bytes : EcdsaKey -> outcome bytes;
  (** crypto/ecdh *)
  Curve : Type;
  EcdhPriv : Type;
  EcdhPub : Type;
  ecdh_X25519 : Curve;
  ecdh_P256 : Curve;
  curve_NewPublicKey : Curve -> bytes -> outcome EcdhPub;
  curve_NewPrivateKey : Curve -> bytes -> outcome EcdhPriv;
  curve_GenerateKey : Curve -> Rand -> outcome EcdhPriv;
  ecdh_ECDH : EcdhPriv -> EcdhPub -> outcome bytes;
  ecdh_PublicKey : EcdhPriv -> EcdhPub;
  ecdhpub_Bytes : EcdhPub -> bytes;
  (** crypto/mlkem, crypto/sha3 *)
  EncapKey : Type;
  DecapKey : Type;
  mlkem_NewEncapsulationKey768 : bytes -> outcome EncapKey;
  mlkem_NewDecapsulationKey768 : bytes -> outcome DecapKey;
  mlkem_Encapsulate : Rand -> EncapKey -> bytes * bytes;
  mlkem_Decapsulate : DecapKey -> bytes -> outcome bytes;
  sha3_Sum256 : bytes -> bytes;
  sha3_SumSHAKE256 : bytes -> Z -> bytes
}.

(** [mlkem.EncapsulationKeySize768], [mlkem.CiphertextSize768],
    [ed25519.PublicKeySize]. *)
Definition EncapsulationKeySize768 : Z := 1184.
Definition CiphertextSize768 : Z := 1088.
Definition ed25519_PublicKeySize : Z := 32.

(** The laws of the standard library the theorems use: what its documentation
    promises and no more. *)
Class StdCryptoLaws (C : StdCrypto) : Prop := {
  hash_Sum_len : forall h d, len (hash_Sum h d) = hash_Size h;
  hash_Size_range : forall h, 0 < hash_Size h <= 64;
  hpke_aead_ids : aead_ID hpke_AES128GCM = 1 /\ aead_ID hpke_AES256GCM = 2;
  hmac_Sum_len : forall h k d, len (hmac_Sum h k d) = hash_Size h;
  hkdf_Expand_len : forall h prk info n out, hkdf_Expand h prk info n = Ok out -> len out = n;
  hkdf_Expand_returns : forall h prk info n, returns (hkdf_Expand h prk info n);
  hkdf_Extract_returns : forall h s t, returns (hkdf_Extract h s t);
  gcm_Open_Seal : forall key g nonce pt aad,
    gcm_New key = Ok g -> len nonce = gcm_NonceSize g -> gcm_Open g nonce (gcm_Seal g nonce pt aad) aad = Ok pt;
  hpke_open_seal : forall k r skb sk pk kdf aead info enc snd ct aad pt,
    kempriv_Bytes sk = Ok skb ->
    kem_NewPublicKey k (kempub_Bytes (kempriv_PublicKey sk)) = Ok pk ->
    kem_NewPrivateKey k skb = Ok sk ->
    hpke_NewSender r pk kdf aead info = Ok (enc, snd) -> sender_Seal snd aad pt = Ok ct ->
    exists rcp, hpke_NewRecipient enc sk kdf aead info = Ok rcp /\ recipient_Open rcp aad ct = Ok pt;
  ed25519_correct : forall s pub msg sig, signer_Public s = PkEd25519 pub -> signer_Sign s msg = Ok sig ->
    len pub = ed25519_PublicKeySize /\ ed25519_Verify pub msg sig = true;
  ecdsa_correct : forall s pk b digest sig, signer_Public s = PkEcdsa pk -> ecdsa_ECDH_Bytes pk = Ok b ->
    signer_Sign s digest = Ok sig ->
    ecdsa_ParseUncompressedPublicKey b = Ok pk /\ ecdsa_VerifyASN1 pk digest sig = true;
  ecdh_commutes : forall c a b pa pb,
    curve_NewPublicKey c (ecdhpub_Bytes (ecdh_PublicKey a)) = Ok pa ->
    curve_NewPublicKey c (ecdhpub_Bytes (ecdh_PublicKey b)) = Ok pb ->
    ecdh_ECDH a pb = ecdh_ECDH b pa
}.

(** * suite.go, suite_pq.go *)

(* mls/cipher/suite.go:25-28 X25519_AES128GCM_SHA256_Ed25519 *)
Definition X25519_AES128GCM_SHA256_Ed25519 : Z := 1.
(* mls/cipher/suite.go:25-28 P256_AES128GCM_SHA256_P256 *)
Definition P256_AES128GCM_SHA256_P256 : Z := 2.
(* mls/cipher/suite_pq.go:13-13 XWING_AES256GCM_SHA256_Ed25519 *)
Definition XWING_AES256GCM_SHA256_Ed25519 : Z := 61441.

(* mls/cipher/suite.go:31-36 SignatureScheme *)
Inductive SignatureScheme := SigEd25519 | SigECDSAP256.

Section cipher.
Context {C : StdCrypto}.

(* mls/cipher/suite.go:39-49 Suite *)
Record Suite := mkSuite {
  suite_ID : Z;
  NewHash : HashFn;
  Sig : SignatureScheme;
  kem : KEM;
  kdf : KDF;
  aead : HpkeAEAD;
  curve : option Curve
}.

(* mls/cipher/suite.go:51-70 registry *)
Definition registry_classical : gmap Z Suite :=
  <[X25519_AES128GCM_SHA256_Ed25519 :=
      mkSuite X25519_AES128GCM_SHA256_Ed25519 sha256_New SigEd25519
        hpke_DHKEM_X25519 hpke_HKDFSHA256 hpke_AES128GCM (Some ecdh_X25519)]>
  (<[P256_AES128GCM_SHA256_P256 :=
      mkSuite P256_AES128GCM_SHA256_P256 sha256_New SigECDSAP256
        hpke_DHKEM_P256 hpke_HKDFSHA256 hpke_AES128GCM (Some ecdh_P256)]> ∅).

(** The registry once [init] of suite_pq.go has run. *)
(* mls/cipher/suite_pq.go:15-24 init *)
Definition registry : gmap Z Suite :=
  <[XWING_AES256GCM_SHA256_Ed25519 :=
      mkSuite XWING_AES256GCM_SHA256_Ed25519 sha256_New SigEd25519
        hpke_MLKEM768X25519 hpke_HKDFSHA256 hpke_AES256GCM None]> registry_classical.

(* mls/cipher/suite.go:73-76 Lookup *)
Definition Lookup (id : Z) : option Suite := registry !! id.

Context (s : Suite).

(* mls/cipher/suite.go:79-79 Suite.HashLen *)
Definition HashLen : Z := hash_Size (NewHash s).

(* mls/cipher/suite.go:82-86 Suite.Hash *)
Definition Suite_Hash (data : bytes) : bytes := hash_Sum (NewHash s) data.

(* mls/cipher/suite.go:89-93 Suite.MAC *)
Definition MAC (key data : bytes) : bytes := hmac_Sum (NewHash s) key data.

(* mls/cipher/suite.go:96-98 Suite.kdfExpand *)
Definition kdfExpand (secret info : bytes) (length : Z) : outcome bytes :=
  hkdf_Expand (NewHash s) secret info length.

(* mls/cipher/suite.go:102-116 Suite.verifyClassical *)
Definition verifyClassical (pub message sig : bytes) : bool :=
  match Sig s with
  | SigEd25519 => (len pub =? ed25519_PublicKeySize) && ed25519_Verify pub message sig
  | SigECDSAP256 =>
      match ecdsa_ParseUncompressedPublicKey pub with
      | Ok pk => ecdsa_VerifyASN1 pk (Suite_Hash message) sig
      | _ => false
      end
  end.

(* mls/cipher/suite.go:121-131 Suite.GenerateHPKEKeyPair *)
Definition GenerateHPKEKeyPair (r : Rand) : outcome (bytes * bytes) :=
  let! sk := kem_GenerateKey (kem s) r in
  let! privBytes := kempriv_Bytes sk in
  Ok (privBytes, kempub_Bytes (kempriv_PublicKey sk)).

(* mls/cipher/suite.go:135-145 Suite.signClassical *)
Definition signClassical (priv : Signer) (message : bytes) : outcome bytes :=
  match Sig s with
  | SigEd25519 => signer_Sign priv message
  | SigECDSAP256 => signer_Sign priv (Suite_Hash message)
  end.

(** * labeled.go *)

(* mls/cipher/labeled.go:14-15 mlsLabelPrefix *)
Definition mlsLabelPrefix : bytes := bytes_of_string "MLS 1.0 ".

(* mls/cipher/labeled.go:20-30 Suite.RefHash *)
Definition RefHash (label : string) (value : bytes) : outcome bytes :=
  let! lbl := WriteOpaqueV_bytes (bytes_of_string label) in
  let! val := WriteOpaqueV_bytes value in
  Ok (Suite_Hash (lbl ++ val)).

(** The [KDFLabel] structure of [ExpandWithLabel]. *)
(* mls/cipher/labeled.go:40-51 Suite.ExpandWithLabel *)
Definition kdfLabel (label : string) (context : bytes) (length : Z) : outcome bytes :=
  let buf := be_bytes 2 length in
  let! lbl := WriteOpaqueV_bytes (mlsLabelPrefix ++ bytes_of_string label) in
  let! ctx := WriteOpaqueV_bytes context in
  Ok (buf ++ lbl ++ ctx).

(* mls/cipher/labeled.go:36-53 Suite.ExpandWithLabel *)
Definition ExpandWithLabel (secret : bytes) (label : string) (context : bytes) (length : Z) : outcome bytes :=
  if (length <? 0) || (65535 <? length) then Err "cipher: ExpandWithLabel: length out of range" else
  let! buf := kdfLabel label context length in
  kdfExpand secret buf length.

(* mls/cipher/labeled.go:58-60 Suite.DeriveSecret *)
Definition DeriveSecret (secret : bytes) (label : string) : outcome bytes :=
  ExpandWithLabel secret label [] HashLen.

(* mls/cipher/labeled.go:66-69 Suite.DeriveTreeSecret *)
Definition DeriveTreeSecret (secret : bytes) (label : string) (generation length : Z) : outcome bytes :=
  ExpandWithLabel secret label (be_bytes 4 generation) length.

(* mls/cipher/labeled.go:74-84 Suite.labeledContext *)
Definition labeledContext (label : string) (data : bytes) : outcome bytes :=
  let! lbl := WriteOpaqueV_bytes (mlsLabelPrefix ++ bytes_of_string label) in
  let! body := WriteOpaqueV_bytes data in
  Ok (lbl ++ body).

Definition errUnsupportedScheme : string := "cipher: unsupported signature scheme".

(* mls/cipher/labeled.go:89-113 Suite.SignaturePublicKey *)
Definition SignaturePublicKey (signer : Signer) : outcome bytes :=
  match Sig s with
  | SigEd25519 =>
      match signer_Public signer with PkEd25519 pub => Ok pub | _ => Err errUnsupportedScheme end
  | SigECDSAP256 =>
      match signer_Public signer with PkEcdsa pub => ecdsa_ECDH_Bytes pub | _ => Err errUnsupportedScheme end
  end.

(* mls/cipher/labeled.go:116-122 Suite.SignWithLabel *)
Definition SignWithLabel (priv : Signer) (label : string) (content : bytes) : outcome bytes :=
  let! tbs := labeledContext label content in
  signClassical priv tbs.

(* mls/cipher/labeled.go:125-131 Suite.VerifyWithLabel *)
Definition VerifyWithLabel (pub : bytes) (label : string) (content sig : bytes) : bool :=
  match labeledContext label content with
  | Ok tbs => verifyClassical pub tbs sig
  | _ => false
  end.

(* mls/cipher/labeled.go:141-159 Suite.EncryptWithLabel *)
Definition EncryptWithLabel (r : Rand) (pub : bytes) (label : string) (context plaintext : bytes)
  : outcome (bytes * bytes) :=
  let! pk := kem_NewPublicKey (kem s) pub in
  let! info := labeledContext label context in
  let! (enc, sender) := hpke_NewSender r pk (kdf s) (aead s) info in
  let! ct := sender_Seal sender [] plaintext in
  Ok (enc, ct).

(* mls/cipher/labeled.go:163-177 Suite.DecryptWithLabel *)
Definition DecryptWithLabel (priv : bytes) (label : string) (context kemOutput ciphertext : bytes)
  : outcome bytes :=
  let! sk := kem_NewPrivateKey (kem s) priv in
  let! info := labeledContext label context in
  let! recipient := hpke_NewRecipient kemOutput sk (kdf s) (aead s) info in
  recipient_Open recipient [] ciphertext.

(** * keyschedule.go *)

(* mls/cipher/keyschedule.go:14-16 Suite.Extract *)
Definition Extract (salt ikm : bytes) : outcome bytes := hkdf_Extract (NewHash s) ikm salt.

(* mls/cipher/keyschedule.go:20-29 Suite.AEADKeySize *)
Definition AEADKeySize : outcome Z :=
  if aead_ID (aead s) =? 1 then Ok 16
  else if aead_ID (aead s) =? 2 then Ok 32
  else Panic.

(* mls/cipher/keyschedule.go:33-40 Suite.AEADNonceSize *)
Definition AEADNonceSize : outcome Z :=
  if (aead_ID (aead s) =? 1) || (aead_ID (aead s) =? 2) then Ok 12 else Panic.

(* mls/cipher/keyschedule.go:46-56 Suite.DeriveKeyPair *)
Definition DeriveKeyPair (ikm : bytes) : outcome (bytes * bytes) :=
  let! sk := kem_DeriveKeyPair (kem s) ikm in
  let! privBytes := kempriv_Bytes sk in
  Ok (privBytes, kempub_Bytes (kempriv_PublicKey sk)).

(** * aead.go *)

(* mls/cipher/aead.go:14-25 Suite.aeadCipher *)
Definition aeadCipher (key : bytes) : outcome GCM :=
  if (aead_ID (aead s) =? 1) || (aead_ID (aead s) =? 2) then gcm_New key
  else Err "cipher: raw AEAD seal/open unsupported for AEAD id".

(* mls/cipher/aead.go:30-39 Suite.Seal *)
Definition Seal (key nonce aad plaintext : bytes) : outcome bytes :=
  let! a := aeadCipher key in
  if negb (len nonce =? gcm_NonceSize a) then Err "cipher: nonce length" else
  Ok (gcm_Seal a nonce plaintext aad).

(* mls/cipher/aead.go:44-53 Suite.Open *)
Definition Open (key nonce aad ciphertext : bytes) : outcome bytes :=
  let! a := aeadCipher key in
  if negb (len nonce =? gcm_NonceSize a) then Err "cipher: nonce length" else
  gcm_Open a nonce ciphertext aad.

(** * extinit.go *)

(* mls/cipher/extinit.go:16-18 Suite.kemSuiteID *)
Definition kemSuiteID : bytes := bytes_of_string "KEM" ++ be_bytes 2 (kem_ID (kem s)).

(* mls/cipher/extinit.go:22-27 Suite.labeledExtract *)
Definition labeledExtract (salt : bytes) (label : string) (ikm : bytes) : outcome bytes :=
  let labeledIKM := bytes_of_string "HPKE-v1" ++ kemSuiteID in
  let labeledIKM := labeledIKM ++ bytes_of_string label in
  let labeledIKM := labeledIKM ++ ikm in
  hkdf_Extract (NewHash s) labeledIKM salt.

(* mls/cipher/extinit.go:31-39 Suite.labeledExpand *)
Definition labeledExpand (prk : bytes) (label : string) (info : bytes) (length : Z) : outcome bytes :=
  let li := be_bytes 2 length in
  let li := li ++ bytes_of_string "HPKE-v1" in
  let li := li ++ kemSuiteID in
  let li := li ++ bytes_of_string label in
  let li := li ++ info in
  kdfExpand prk li length.

(* mls/cipher/extinit.go:43-49 Suite.extractAndExpand *)
Definition extractAndExpand (dh kemContext : bytes) : outcome bytes :=
  let! eaePrk := labeledExtract [] "eae_prk" dh in
  labeledExpand eaePrk "shared_secret" kemContext HashLen.

(** * xwing.go *)

(* mls/cipher/xwing.go:11-13 xwingKEMID *)
Definition xwingKEMID : Z := 25722.

(* mls/cipher/xwing.go:15-16 xWingLabel *)
Definition xWingLabel : bytes := map byte_of_Z [92; 46; 47; 47; 94; 92].

(* mls/cipher/xwing.go:19-28 xwingCombiner *)
Definition xwingCombiner (ssM ssX ctX pkX : bytes) : bytes :=
  sha3_Sum256 (ssM ++ ssX ++ ctX ++ pkX ++ xWingLabel).

(* mls/cipher/xwing.go:33-44 xwingExpandSeed *)
Definition xwingExpandSeed (seed : bytes) : outcome (DecapKey * EcdhPriv) :=
  let exp := sha3_SumSHAKE256 seed 96 in
  let! d := slice exp 0 64 in
  let! dkM := mlkem_NewDecapsulationKey768 d in
  let! x := slice exp 64 96 in
  let! skX := curve_NewPrivateKey ecdh_X25519 x in
  Ok (dkM, skX).

(* mls/cipher/xwing.go:49-74 xwingEncap *)
Definition xwingEncap (r1 r2 : Rand) (externalPub : bytes) : outcome (bytes * bytes) :=
  if negb (len externalPub =? EncapsulationKeySize768 + 32) then Err "cipher: xwing: external_pub len" else
  let! pm := slice externalPub 0 EncapsulationKeySize768 in
  let! pkM := mlkem_NewEncapsulationKey768 pm in
  let! pkXb := slice externalPub EncapsulationKeySize768 (len externalPub) in
  let! pkX := curve_NewPublicKey ecdh_X25519 pkXb in
  let (ssM, ctM) := mlkem_Encapsulate r1 pkM in
  let! ek := curve_GenerateKey ecdh_X25519 r2 in
  let ctX := ecdhpub_Bytes (ecdh_PublicKey ek) in
  let! ssX := ecdh_ECDH ek pkX in
  let ss := xwingCombiner ssM ssX ctX pkXb in
  Ok (ctM ++ ctX, ss).

(* mls/cipher/xwing.go:78-102 xwingDecap *)
Definition xwingDecap (externalPriv kemOutput : bytes) : outcome bytes :=
  if negb (len kemOutput =? CiphertextSize768 + 32) then Err "cipher: xwing: kem_output len" else
  let! (dkM, skX) := xwingExpandSeed externalPriv in
  let pkXb := ecdhpub_Bytes (ecdh_PublicKey skX) in
  let! ctM := slice kemOutput 0 CiphertextSize768 in
  let! ctX := slice kemOutput CiphertextSize768 (len kemOutput) in
  let! ssM := mlkem_Decapsulate dkM ctM in
  let! pkX := curve_NewPublicKey ecdh_X25519 ctX in
  let! ssX := ecdh_ECDH skX pkX in
  Ok (xwingCombiner ssM ssX ctX pkXb).

(** [r1] is drawn by ML-KEM (X-Wing only), [r2] by the ephemeral key. *)
(* mls/cipher/extinit.go:57-83 Suite.ExternalInitEncap *)
Definition ExternalInitEncap (r1 r2 : Rand) (externalPub : bytes) : outcome (bytes * bytes) :=
  match curve s with
  | None =>
      if kem_ID (kem s) =? xwingKEMID then xwingEncap r1 r2 externalPub
      else Err "cipher: external init not supported for this KEM"
  | Some cv =>
      let! pkR := curve_NewPublicKey cv externalPub in
      let! skE := curve_GenerateKey cv r2 in
      let! dh := ecdh_ECDH skE pkR in
      let enc := ecdhpub_Bytes (ecdh_PublicKey skE) in
      let kemContext := enc ++ externalPub in
      let! ss := extractAndExpand dh kemContext in
      Ok (enc, ss)
  end.

(* mls/cipher/extinit.go:88-109 Suite.ExternalInitDecap *)
Definition ExternalInitDecap (externalPriv kemOutput : bytes) : outcome bytes :=
  match curve s with
  | None =>
      if kem_ID (kem s) =? xwingKEMID then xwingDecap externalPriv kemOutput
      else Err "cipher: external init not supported for this KEM"
  | Some cv =>
      let! skR := curve_NewPrivateKey cv externalPriv in
      let! pkE := curve_NewPublicKey cv kemOutput in
      let! dh := ecdh_ECDH skR pkE in
      let kemContext := kemOutput ++ ecdhpub_Bytes (ecdh_PublicKey skR) in
      extractAndExpand dh kemContext
  end.
End cipher.

(** * Labels separate domains *)

Lemma WriteOpaqueV_bytes_emits b e : WriteOpaqueV_bytes b = Ok e <-> emits (WriteOpaqueV b) e.
Proof.
  unfold WriteOpaqueV_bytes, emits, WriteOpaqueV, Builder_WriteVarint. split.
  - intros H b0. inv_ok. rewrite Ha. simpl. by rewrite app_assoc.
  - intros H. specialize (H []). by destruct (WriteVarint (len b)).
Qed.

(** Two length-prefixed fields followed by anything are read back uniquely. *)
Lemma opaque_app_inj a b e f r r' :
  WriteOpaqueV_bytes a = Ok e -> WriteOpaqueV_bytes b = Ok f -> e ++ r = f ++ r' -> a = b /\ r = r'.
Proof.
  intros He%WriteOpaqueV_bytes_emits Hf%WriteOpaqueV_bytes_emits E.
  pose proof (wire_decode (r := ReadOpaqueV) a e r I He) as H1.
  rewrite E, (wire_decode (r := ReadOpaqueV) b f r' I Hf) in H1. by injection H1.
Qed.

Lemma bytes_of_string_inj s1 s2 : bytes_of_string s1 = bytes_of_string s2 -> s1 = s2.
Proof.
  unfold bytes_of_string. intros H.
  rewrite <- (String.string_of_list_byte_of_string s1), <- (String.string_of_list_byte_of_string s2).
  by f_equal.
Qed.

Section laws.
Context {C : StdCrypto} (s : Suite).

Lemma labeledContext_inj l d l' d' b :
  labeledContext l d = Ok b -> labeledContext l' d' = Ok b -> l = l' /\ d = d'.
Proof.
  unfold labeledContext. intros H H'.
  apply obind_ok in H as (a & Ha & H). apply obind_ok in H as (a0 & Ha0 & [= <-]).
  apply obind_ok in H' as (a1 & Ha1 & H'). apply obind_ok in H' as (a2 & Ha2 & [= H']).
  destruct (opaque_app_inj _ _ _ _ _ _ Ha Ha1 (eq_sym H')) as [Hl Hd].
  rewrite <- (app_nil_r a0), <- (app_nil_r a2) in Hd.
  destruct (opaque_app_inj _ _ _ _ _ _ Ha0 Ha2 Hd) as [-> _].
  apply app_inv_head, bytes_of_string_inj in Hl. done.
Qed.

Lemma kdfLabel_inj l c n l' c' n' b :
  0 <= n <= 65535 -> 0 <= n' <= 65535 ->
  kdfLabel l c n = Ok b -> kdfLabel l' c' n' = Ok b -> l = l' /\ c = c' /\ n = n'.
Proof.
  unfold kdfLabel. intros Hn Hn' H H'.
  apply obind_ok in H as (a & Ha & H). apply obind_ok in H as (a0 & Ha0 & H).
  apply obind_ok in H' as (a1 & Ha1 & H'). apply obind_ok in H' as (a2 & Ha2 & H').
  rewrite <- H in H'. clear H. apply Ok_inj in H'. symmetry in H'.
  apply app_inj_1 in H' as [Hb H']; [|by rewrite !length_be_bytes].
  apply (f_equal be_uint) in Hb. rewrite !be_uint_be_bytes in Hb.
  change (256 ^ Z.of_nat 2) with 65536 in Hb. rewrite !Z.mod_small in Hb by lia.
  destruct (opaque_app_inj _ _ _ _ _ _ Ha Ha1 H') as [Hl Hd].
  rewrite <- (app_nil_r a0), <- (app_nil_r a2) in Hd.
  destruct (opaque_app_inj _ _ _ _ _ _ Ha0 Ha2 Hd) as [-> _].
  apply app_inv_head, bytes_of_string_inj in Hl. done.
Qed.

Context `{!StdCryptoLaws C}.

Lemma ExpandWithLabel_len secret l c n out :
  ExpandWithLabel s secret l c n = Ok out -> 0 <= n <= 65535 /\ len out = n.
Proof.
  unfold ExpandWithLabel. intros H.
  destruct (Z.ltb_spec n 0), (Z.ltb_spec 65535 n); simpl in H; try discriminate.
  inv_ok. apply hkdf_Expand_len in H. done.
Qed.

Lemma WriteOpaqueV_bytes_total b : len b <= MaxVarint -> exists e, WriteOpaqueV_bytes b = Ok e.
Proof.
  intros H. unfold WriteOpaqueV_bytes.
  destruct (WriteVarint_total (len b)) as [h ->]; [pose proof (len_nonneg b); lia|]. eauto.
Qed.

Lemma WriteOpaqueV_bytes_returns b : returns (WriteOpaqueV_bytes b).
Proof. unfold WriteOpaqueV_bytes. apply returns_obind; [apply WriteVarint_returns|done]. Qed.

Lemma ExpandWithLabel_returns secret l c n : returns (ExpandWithLabel s secret l c n).
Proof.
  unfold ExpandWithLabel, kdfLabel. case_match; [done|].
  apply returns_obind; [|intros; apply hkdf_Expand_returns].
  repeat (apply returns_obind; [apply WriteOpaqueV_bytes_returns|intros]). done.
Qed.

(** What [Seal] encrypts, [Open] recovers under the same key, nonce and
    associated data. *)
Lemma Open_Seal key nonce aad pt ct :
  Seal s key nonce aad pt = Ok ct -> Open s key nonce aad ct = Ok pt.
Proof.
  unfold Seal, Open. intros H. inv_ok. rewrite Ha. cbn [obind].
  destruct (Z.eqb_spec (len nonce) (gcm_NonceSize a)); [|discriminate]. cbn [negb] in *. inv_ok.
  unfold aeadCipher in Ha. destruct_if Ha; [|discriminate]. by eapply gcm_Open_Seal.
Qed.

(** A key pair as the suite's key derivation and key generation return it: the
    serialized forms parse back, which the code relies on between epochs. *)
Definition key_pair (priv pub : bytes) : Prop :=
  exists sk, kempriv_Bytes sk = Ok priv /\ kempub_Bytes (kempriv_PublicKey sk) = pub /\
    kem_NewPrivateKey (kem s) priv = Ok sk.

(** A plaintext encrypted to a public key is recovered with its private key,
    under the same label and context. *)
Lemma DecryptWithLabel_Encrypt r priv pub l ctx pt kemOut ct :
  key_pair priv pub -> EncryptWithLabel s r pub l ctx pt = Ok (kemOut, ct) ->
  DecryptWithLabel s priv l ctx kemOut ct = Ok pt.
Proof.
  unfold EncryptWithLabel, DecryptWithLabel. intros (sk & Hb & <- & Hp) H. inv_ok.
  rewrite Hp. cbn [obind]. rewrite Ha0. cbn [obind].
  destruct (hpke_open_seal _ _ _ _ _ _ _ _ _ _ _ _ _ Hb Ha Hp Ha1 Ha2) as (rcp & -> & Ho). done.
Qed.

(** A signature verifies under the signer's public key, with the same label and
    content. *)
Lemma VerifyWithLabel_Sign signer pub label content sig :
  SignaturePublicKey s signer = Ok pub -> SignWithLabel s signer label content = Ok sig ->
  VerifyWithLabel s pub label content sig = true.
Proof.
  unfold SignaturePublicKey, SignWithLabel, VerifyWithLabel, signClassical, verifyClassical. intros Hp H.
  apply obind_ok in H as (tbs & -> & H). destruct (Sig s).
  - destruct (signer_Public signer) as [raw| |] eqn:E; try done. injection Hp as <-.
    destruct (ed25519_correct _ _ _ _ E H) as [Hl ->]. by rewrite (proj2 (Z.eqb_eq _ _) Hl).
  - destruct (signer_Public signer) as [|pk|] eqn:E; try done.
    by destruct (ecdsa_correct _ _ _ _ _ E Hp H) as [-> ->].
Qed.

(** The joiner's and the members' side of an external init agree on the
    secret, for the Diffie-Hellman suites. *)
Lemma ExternalInit_agree r1 r2 cv skR priv kemOut ss :
  curve s = Some cv -> curve_NewPrivateKey cv priv = Ok skR ->
  (forall sk, curve_GenerateKey cv r2 = Ok sk ->
     exists pk, curve_NewPublicKey cv (ecdhpub_Bytes (ecdh_PublicKey sk)) = Ok pk) ->
  ExternalInitEncap s r1 r2 (ecdhpub_Bytes (ecdh_PublicKey skR)) = Ok (kemOut, ss) ->
  ExternalInitDecap s priv kemOut = Ok ss.
Proof.
  unfold ExternalInitEncap, ExternalInitDecap. intros -> Hpriv Hgen H. inv_ok.
  rewrite Hpriv. cbn [obind]. destruct (Hgen _ Ha0) as [pkE HpkE]. rewrite HpkE. cbn [obind].
  rewrite <- (ecdh_commutes cv a0 skR pkE a HpkE Ha), Ha1. cbn [obind]. done.
Qed.
End laws.

(** * Properties *)

(** Labels separate domains: the bytes that [SignWithLabel],
    [VerifyWithLabel], [EncryptWithLabel] and [DecryptWithLabel] hand to the
    primitives determine label and content, and the [KDFLabel] that
    [ExpandWithLabel] hands to HKDF determines label, context and length. *)
Theorem labels_separate :
  (forall l d l' d' b, labeledContext l d = Ok b -> labeledContext l' d' = Ok b -> l = l' /\ d = d') /\
  (forall l c n l' c' n' b, 0 <= n <= 65535 -> 0 <= n' <= 65535 ->
     kdfLabel l c n = Ok b -> kdfLabel l' c' n' = Ok b -> l = l' /\ c = c' /\ n = n').
Proof.
  split; [intros *; by apply labeledContext_inj|intros * ? ?; by apply kdfLabel_inj].
Qed.

(** What [EncryptWithLabel] encrypts to a public key [DecryptWithLabel]
    recovers with the private key, under the same label and context. *)
Theorem hpke_roundtrip {C : StdCrypto} `{!StdCryptoLaws C} (s : Suite) r priv pub l ctx pt kemOut ct :
  key_pair s priv pub -> EncryptWithLabel s r pub l ctx pt = Ok (kemOut, ct) ->
  DecryptWithLabel s priv l ctx kemOut ct = Ok pt.
Proof. apply DecryptWithLabel_Encrypt. done. Qed.

(** An external joiner and the group derive the same init secret: in the
    suites over a Diffie-Hellman curve, [ExternalInitDecap] with the group's
    external private key returns what [ExternalInitEncap] returned for its
    public key. *)
Theorem external_init_agreement {C : StdCrypto} `{!StdCryptoLaws C} (s : Suite) r1 r2 cv skR priv kemOut ss :
  curve s = Some cv -> curve_NewPrivateKey cv priv = Ok skR ->
  (forall sk, curve_GenerateKey cv r2 = Ok sk ->
     exists pk, curve_NewPublicKey cv (ecdhpub_Bytes (ecdh_PublicKey sk)) = Ok pk) ->
  ExternalInitEncap s r1 r2 (ecdhpub_Bytes (ecdh_PublicKey skR)) = Ok (kemOut, ss) ->
  ExternalInitDecap s priv kemOut = Ok ss.
Proof. apply ExternalInit_agree. done. Qed.
