(* ===== verification/ToyCrypto.v ===== *)
(** A concrete instance of the standard library's interface.

    [toy] instantiates every type and function of [StdCrypto] by an executable
    one (a polynomial hash, one-time tags in place of encryption, discrete
    arithmetic for Diffie-Hellman), and [toy_laws] proves the documented laws
    of [StdCryptoLaws] for it: the hypotheses of the theorems on protocol
    code are satisfiable, and the witnesses run the protocol code on it. *)

From Stdlib Require Import ZArith Lia Strings.Byte.
From stdpp Require Import base list numbers strings gmap.
From S2P Require Import Prelude Syntax Cipher.

(** A polynomial hash; not injective, but different on the inputs used. *)
Definition toy_modulus : Z := Eval vm_compute in 2 ^ 64 - 59.
Definition toy_poly (d : bytes) : Z :=
  fold_left (fun a x => (a * 65599 + Z_of_byte x + 1) mod toy_modulus) d 5381.
Definition toy_hash (d : bytes) : bytes := be_bytes 32 (toy_poly d).
Definition toy_expand (prk info : bytes) (n : Z) : outcome bytes :=
  if (n <? 0) || (8160 <? n) then Err "hkdf: requested key length too large"
  else Ok (be_bytes (Z.to_nat n) (toy_poly (prk ++ info) * 6364136223846793005 mod toy_modulus)).

(** Authenticated "encryption": a tag of key and header, then the plaintext. *)
Definition toy_seal (k : bytes) (nonce aad pt : bytes) : bytes := toy_hash (k ++ nonce ++ aad) ++ pt.
Definition toy_open (k : bytes) (nonce aad ct : bytes) : outcome bytes :=
  if bytes_Equal (take 32 ct) (toy_hash (k ++ nonce ++ aad)) then Ok (drop 32 ct)
  else Err "cipher: message authentication failed".

Definition toy_point (b : bytes) : outcome Z :=
  if len b =? 32 then Ok (be_uint b) else Err "crypto/ecdh: invalid key".

(** The public key of a private one: a multiple of it, for the key
    encapsulation and for Diffie-Hellman alike. *)
Definition toy_public (sk : bytes) : bytes := be_bytes 32 (3 * be_uint sk).

Definition toy_sign (pk msg : bytes) : bytes := toy_hash (pk ++ msg).
Definition toy_verify (pk msg sig : bytes) : bool := bytes_Equal sig (toy_sign pk msg).

Definition toy : StdCrypto := {|
  Rand := Z;
  HashFn := unit;
  sha256_New := tt;
  hash_Size _ := 32;
  hash_Sum _ d := toy_hash d;
  hmac_Sum _ k d := toy_hash (k ++ d);
  hkdf_Extract _ ikm salt := Ok (toy_hash (salt ++ ikm));
  hkdf_Expand _ prk info n := toy_expand prk info n;
  KEM := Z;
  KDF := unit;
  HpkeAEAD := Z;
  KemPriv := bytes;
  KemPub := bytes;
  Sender := bytes;
  Recipient := bytes;
  hpke_DHKEM_X25519 := 32;
  hpke_DHKEM_P256 := 16;
  hpke_MLKEM768X25519 := xwingKEMID;
  hpke_HKDFSHA256 := tt;
  hpke_AES128GCM := 1;
  hpke_AES256GCM := 2;
  kem_ID k := k;
  aead_ID a := a;
  kem_GenerateKey _ r := Ok (be_bytes 32 r);
  kem_DeriveKeyPair _ ikm := Ok (toy_hash ikm);
  kem_NewPublicKey _ b := Ok b;
  kem_NewPrivateKey _ b := Ok b;
  kempriv_Bytes sk := Ok sk;
  kempriv_PublicKey sk := toy_public sk;
  kempub_Bytes pk := pk;
  hpke_NewSender r pk _ _ info := Ok (be_bytes 4 r, pk ++ info);
  sender_Seal s aad pt := Ok (toy_seal s [] aad pt);
  hpke_NewRecipient _ sk _ _ info := Ok (toy_public sk ++ info);
  recipient_Open r aad ct := toy_open r [] aad ct;
  GCM := bytes;
  gcm_New key := if (len key =? 16) || (len key =? 32) then Ok key else Err "crypto/aes: invalid key size";
  gcm_NonceSize _ := 12;
  gcm_Seal g nonce pt aad := toy_seal g nonce aad pt;
  gcm_Open g nonce ct aad := toy_open g nonce aad ct;
  EcdsaKey := bytes;
  Signer := bytes + bytes;
  signer_Public s := match s with inl k => PkEd25519 (toy_hash k) | inr k => PkEcdsa k end;
  signer_Sign s m := match s with inl k => Ok (toy_sign (toy_hash k) m) | inr k => Ok (toy_sign k m) end;
  ed25519_Verify := toy_verify;
  ecdsa_ParseUncompressedPublicKey b := Ok b;
  ecdsa_VerifyASN1 := toy_verify;
  ecdsa_ECDH_Bytes pk := Ok pk;
  Curve := unit;
  EcdhPriv := Z;
  EcdhPub := Z;
  ecdh_X25519 := tt;
  ecdh_P256 := tt;
  curve_NewPublicKey _ := toy_point;
  curve_NewPrivateKey _ := toy_point;
  curve_GenerateKey _ r := Ok (r mod 256 ^ Z.of_nat 32);
  ecdh_ECDH a b := Ok (be_bytes 32 (a * b));
  ecdh_PublicKey a := 3 * a;
  ecdhpub_Bytes p := be_bytes 32 p;
  EncapKey := bytes;
  DecapKey := bytes;
  mlkem_NewEncapsulationKey768 b := Ok b;
  mlkem_NewDecapsulationKey768 b := Ok b;
  mlkem_Encapsulate r ek := (toy_hash (be_bytes 4 r ++ ek), zero_bytes 1088);
  mlkem_Decapsulate dk ct := Ok (toy_hash (dk ++ ct));
  sha3_Sum256 := toy_hash;
  sha3_SumSHAKE256 d n := be_bytes (Z.to_nat n) (toy_poly d)
|}.

Lemma len_be_bytes n v : len (be_bytes n v) = Z.of_nat n.
Proof. unfold len. by rewrite length_be_bytes. Qed.

Lemma toy_open_seal k nonce aad pt : toy_open k nonce aad (toy_seal k nonce aad pt) = Ok pt.
Proof.
  unfold toy_open, toy_seal, toy_hash. pose proof (length_be_bytes 32 (toy_poly (k ++ nonce ++ aad))) as Hl.
  rewrite take_app_length', drop_app_length' by done. by rewrite (proj2 (bytes_Equal_spec _ _)).
Qed.

Lemma toy_point_be a pa : toy_point (be_bytes 32 a) = Ok pa -> pa = a mod 256 ^ Z.of_nat 32.
Proof.
  unfold toy_point. rewrite len_be_bytes. cbn [Z.of_nat Z.eqb Pos.eqb]. intros H%Ok_inj. by rewrite <- H, be_uint_be_bytes.
Qed.

Lemma toy_verify_sign pk m : toy_verify pk m (toy_sign pk m) = true.
Proof. by apply bytes_Equal_spec. Qed.

Lemma toy_laws : StdCryptoLaws toy.
Proof.
  split; cbn -[toy_expand toy_hash toy_public be_bytes Z.mul toy_point toy_verify toy_sign toy_seal toy_open].
  - intros _ d. apply len_be_bytes.
  - intros _. lia.
  - done.
  - intros _ k d. apply len_be_bytes.
  - intros _ prk info n out H. unfold toy_expand in H. destruct (_ || _) eqn:E; [done|]. apply Ok_inj in H as <-.
    rewrite len_be_bytes. apply orb_false_iff in E as [?%Z.ltb_ge _]. lia.
  - intros _ prk info n. unfold toy_expand. by destruct (_ || _).
  - done.
  - intros key g nonce pt aad _ _. apply toy_open_seal.
  - intros k r skb sk pk kd ae info enc snd ct aad pt _ [= <-] _ [= <- <-] [= <-].
    eexists. split; [done|]. apply toy_open_seal.
  - intros [k|k] pub msg sig [= <-] [= <-]. split; [apply len_be_bytes|apply toy_verify_sign].
  - intros [k|k] pk b digest sig [= <-] [= <-] [= <-]. split; [done|apply toy_verify_sign].
  - intros _ a b pa pb ->%toy_point_be ->%toy_point_be. f_equal.
    rewrite <- (be_bytes_mod 32 (a * _)), <- (be_bytes_mod 32 (b * _)).
    rewrite !Zmult_mod_idemp_r. do 2 f_equal. lia.
Qed.

(** The registered suites, over [toy]. *)
Definition toy_suite : @Suite toy := default (mkSuite (C := toy) 0 tt SigEd25519 0 tt 0 None) (Lookup (C := toy) X25519_AES128GCM_SHA256_Ed25519).

(** The value of a computation known to succeed. *)
Definition value {A} (default : A) (m : outcome A) : A := match m with Ok a => a | _ => default end.

(** * Witnesses of the properties of [mls/cipher] *)

#[local] Existing Instances toy toy_laws.

Definition toy_priv (i : Z) : bytes := toy_hash [byte_of_Z i].
Definition toy_pub (i : Z) : bytes := toy_public (toy_priv i).

Lemma toy_key_pair i : key_pair toy_suite (toy_priv i) (toy_pub i).
Proof. by exists (toy_priv i). Qed.

Lemma hpke_roundtrip_witness :
  let '(kemOut, ct) := value ([], []) (EncryptWithLabel toy_suite 7 (toy_pub 1) "UpdatePathNode" [byte_of_Z 3] [byte_of_Z 9]) in
  DecryptWithLabel toy_suite (toy_priv 1) "UpdatePathNode" [byte_of_Z 3] kemOut ct = Ok [byte_of_Z 9].
Proof.
  destruct (value _ _) as [kemOut ct] eqn:E.
  apply (hpke_roundtrip toy_suite 7 (toy_priv 1) (toy_pub 1)); [apply toy_key_pair|].
  rewrite <- E. vm_compute. reflexivity.
Defined.

Lemma external_init_agreement_witness :
  let '(kemOut, ss) := value ([], []) (ExternalInitEncap toy_suite 0 77 (ecdhpub_Bytes (ecdh_PublicKey (be_uint (toy_priv 1))))) in
  ExternalInitDecap toy_suite (toy_priv 1) kemOut = Ok ss /\ ss <> [].
Proof.
  destruct (value _ _) as [kemOut ss] eqn:E. split; [|vm_compute in E; by injection E as <- <-].
  apply (external_init_agreement toy_suite 0 77 tt (be_uint (toy_priv 1))); [done|done| |].
  - intros sk Hsk. exists ((3 * sk) mod 256 ^ Z.of_nat 32). cbn -[be_bytes toy_point Z.pow Z.mul] in *. unfold toy_point.
    rewrite len_be_bytes. cbn [Z.eqb Z.of_nat]. cbn [Pos.eqb Pos.of_succ_nat Pos.succ]. by rewrite be_uint_be_bytes.
  - rewrite <- E. vm_compute. reflexivity.
Defined.
