(* ===== verification/RatchetTree.v ===== *)
(** [mls/tree]: the public ratchet tree, its wire form and its mutations.

    [node.go], [mutate.go], [generate.go] and the signature methods of
    [leaf.go].  A [*Node] is an [option Node], the array [t.nodes] a list of
    them; methods that mutate the receiver return the new tree.  Each [*Node]
    is reachable from one slot of one tree only (every slot is filled with a
    fresh allocation and [Clone] copies through the wire form), so that the
    in-place update of [UnmergedLeaves] is an update of its slot.

    The invariant is [tree_inv]: the array is a complete tree, leaves are at
    even and parents at odd positions, unmerged leaves are sorted, populated
    and below their parent, and a populated parent has populated leaves on
    both sides.  Every operation preserves it, and on top of it the tree
    refines a map from leaf indices to leaf nodes. *)

From Stdlib Require Import ZArith Lia Strings.Byte.
From stdpp Require Import base list numbers strings sorting sets gmap.
From S2P Require Import Prelude Syntax TreeNodes TreeMath Cipher ToyCrypto.

(** * node.go *)

(* mls/tree/node.go:13-17 NodeTypeLeaf *)
Definition NodeTypeLeaf : Z := 1.
(* mls/tree/node.go:13-17 NodeTypeParent *)
Definition NodeTypeParent : Z := 2.

(* mls/tree/node.go:20-23 Node *)
Record Node := mkNode { nd_Leaf : option LeafNode; nd_Parent : option ParentNode }.

(* mls/tree/node.go:25-36 Node.marshal *)
Definition Node_marshal (n : Node) (b : Builder) : outcome Builder :=
  match nd_Leaf n, nd_Parent n with
  | Some l, _ => let! b := WriteUint8 NodeTypeLeaf b in LeafNode_marshal l b
  | None, Some p => let! b := WriteUint8 NodeTypeParent b in ParentNode_marshal p b
  | None, None => Err "tree: empty Node"
  end.

(* mls/tree/node.go:38-61 decodeNode *)
Definition decodeNode (c : Cursor) : outcome (Node * Cursor) :=
  let! (t, c) := ReadUint8 c in
  if t =? NodeTypeLeaf then
    let! (l, c) := decodeLeafNode c in Ok (mkNode (Some l) None, c)
  else if t =? NodeTypeParent then
    let! (p, c) := decodeParentNode c in Ok (mkNode None (Some p), c)
  else Err "tree: invalid node type".

(* mls/tree/node.go:67-73 Node.MarshalMLS *)
Definition Node_MarshalMLS := marshal_mls Node_marshal.

Definition leaf_node (l : LeafNode) : option Node := Some (mkNode (Some l) None).
Definition parent_node (p : ParentNode) : option Node := Some (mkNode None (Some p)).

(** The loop doubles [w] at most 32 times. *)
(* mls/tree/node.go:84-88 fullWidth *)
Fixpoint fullWidth_loop (fuel : nat) (w n : Z) : outcome Z :=
  if w <? n then
    match fuel with
    | O => Diverge
    | S fuel => fullWidth_loop fuel (u32 (2 * w + 1)) n
    end
  else Ok w.

(* mls/tree/node.go:83-89 fullWidth *)
Definition fullWidth (n : Z) : outcome Z := fullWidth_loop tree_fuel 1 n.

Section ratchet.
Context {C : StdCrypto}.

(* mls/tree/node.go:77-80 RatchetTree *)
Record RatchetTree := mkRatchetTree { rt_suite : Suite; rt_nodes : list (option Node) }.

(** [append(nodes, make([]*Node, w-uint32(len(nodes)))...)] *)
(* mls/tree/node.go:111-111 ParseRatchetTree *)
Definition pad_nodes (nodes : list (option Node)) (w : Z) : list (option Node) :=
  nodes ++ replicate (Z.to_nat (u32 (w - u32 (len nodes)))) None.

(* mls/tree/node.go:93-113 ParseRatchetTree *)
Definition ParseRatchetTree (suite : Suite) (data : bytes) : outcome RatchetTree :=
  let! (nodes, c) := ReadVectorV (ReadOptional decodeNode) (NewCursor data) in
  if negb (Empty c) then Err "tree: trailing bytes after ratchet_tree" else
  if len nodes =? 0 then Err "tree: empty ratchet_tree" else
  let! lst := index nodes (len nodes - 1) in
  match lst with
  | None => Err "tree: ratchet_tree must not end with a blank node"
  | Some _ =>
      let! w := fullWidth (u32 (len nodes)) in
      Ok (mkRatchetTree suite (pad_nodes nodes w))
  end.

(** [for end > 0 && t.nodes[end-1] == nil { end-- }] *)
(* mls/tree/node.go:118-121 RatchetTree.MarshalMLS *)
Fixpoint last_populated (nodes : list (option Node)) (end_ : nat) : nat :=
  match end_ with
  | O => O
  | S e => match nodes !! e with Some None => last_populated nodes e | _ => S e end
  end.

(* mls/tree/node.go:117-132 RatchetTree.MarshalMLS *)
Definition RatchetTree_MarshalMLS (t : RatchetTree) : outcome bytes :=
  let end_ := last_populated (rt_nodes t) (length (rt_nodes t)) in
  let nodes := take end_ (rt_nodes t) in
  let! b := WriteVectorV (WriteOptional Node_marshal) nodes NewBuilder in
  Ok (Bytes b).

(* mls/tree/node.go:135-135 RatchetTree.Width *)
Definition Width (t : RatchetTree) : Z := u32 (len (rt_nodes t)).

(* mls/tree/node.go:138-138 RatchetTree.leafCount *)
Definition leafCount (t : RatchetTree) : Z := u32 (u32 (len (rt_nodes t)) + 1) / 2.

(** * mutate.go *)

(* mls/tree/mutate.go:9-9 RatchetTree.LeafCount *)
Definition LeafCount (t : RatchetTree) : Z := leafCount t.

(* mls/tree/mutate.go:12-17 RatchetTree.NodeAt *)
Definition NodeAt (t : RatchetTree) (i : Z) : outcome (option Node) :=
  if u32 (len (rt_nodes t)) <=? i then Ok None else index (rt_nodes t) i.

(* mls/tree/mutate.go:20-26 RatchetTree.LeafNodeAt *)
Definition LeafNodeAt (t : RatchetTree) (leaf : Z) : outcome LeafNode :=
  let! n := NodeAt t (u32 (2 * leaf)) in
  match n with
  | Some (mkNode (Some l) _) => Ok l
  | _ => Err "tree: leaf is blank"
  end.

(** [for i := uint32(0); i < t.Width(); i += 2], returning at the first index
    that passes the test; the fuel bounds the number of even indices. *)
Fixpoint first_even (test : Z -> outcome bool) (fuel : nat) (width i : Z) : outcome (option Z) :=
  if i <? width then
    match fuel with
    | O => Diverge
    | S fuel =>
        let! b := test i in
        if (b : bool) then Ok (Some i) else first_even test fuel width (u32 (i + 2))
    end
  else Ok None.

(* mls/tree/mutate.go:30-38 RatchetTree.FindLeafByEncryptionKey *)
Definition FindLeafByEncryptionKey (t : RatchetTree) (key : bytes) : outcome (option Z) :=
  let! i := first_even (fun i =>
    let! n := index (rt_nodes t) i in
    Ok match n with
       | Some (mkNode (Some l) _) => bytes_Equal (ln_EncryptionKey l) key
       | _ => false
       end) (S (length (rt_nodes t))) (Width t) 0 in
  Ok (option_map (fun i => i / 2) i).

(* mls/tree/mutate.go:42-48 RatchetTree.Clone *)
Definition Clone (t : RatchetTree) : outcome RatchetTree :=
  let! data := RatchetTree_MarshalMLS t in
  ParseRatchetTree (rt_suite t) data.

(** [for x != root { p, ok := Parent(x, leaves); if !ok { break }; BODY; x = p }];
    a path has at most 32 edges. *)
Fixpoint for_path {A} (body : Z -> A -> outcome A) (fuel : nat) (leaves root x : Z) (acc : A) : outcome A :=
  if x =? root then Ok acc else
  match fuel with
  | O => Diverge
  | S fuel =>
      let! p := Parent x leaves in
      match p with
      | None => Ok acc
      | Some p =>
          let! acc := body p acc in
          for_path body fuel leaves root p acc
      end
  end.

(** [t.nodes[p] = nil] for every ancestor [p] of [x]. *)
(* mls/tree/mutate.go:58-70 RatchetTree.UpdateLeaf *)
Definition blank_path (nodes : list (option Node)) (leaves x : Z) : outcome (list (option Node)) :=
  for_path (fun p nodes => set_index nodes p None) tree_fuel leaves (Root leaves) x nodes.

(* mls/tree/mutate.go:52-71 RatchetTree.UpdateLeaf *)
Definition UpdateLeaf (t : RatchetTree) (leaf : Z) (ln : LeafNode) : outcome RatchetTree :=
  if Width t <=? u32 (2 * leaf) then Err "tree: UpdateLeaf: leaf out of range" else
  let! nodes := set_index (rt_nodes t) (u32 (2 * leaf)) (leaf_node ln) in
  let! nodes := blank_path nodes (leafCount t) (u32 (2 * leaf)) in
  Ok (mkRatchetTree (rt_suite t) nodes).

(** [for len(t.nodes) > 1 && t.nodes[len-1] == nil { t.nodes = t.nodes[:len-1] }] *)
(* mls/tree/mutate.go:93-95 RatchetTree.RemoveLeaf *)
Fixpoint truncate_len (nodes : list (option Node)) (n : nat) : nat :=
  match n with
  | S (S _ as m) => match nodes !! m with Some None => truncate_len nodes m | _ => n end
  | _ => n
  end.

(** Padding to the complete width, when the array is shorter. *)
(* mls/tree/mutate.go:97-100 RatchetTree.RemoveLeaf *)
Definition repad (nodes : list (option Node)) : outcome (list (option Node)) :=
  let! w := fullWidth (u32 (len nodes)) in
  if u32 (len nodes) <? w then Ok (pad_nodes nodes w) else Ok nodes.

(* mls/tree/mutate.go:75-102 RatchetTree.RemoveLeaf *)
Definition RemoveLeaf (t : RatchetTree) (leaf : Z) : outcome RatchetTree :=
  if Width t <=? u32 (2 * leaf) then Err "tree: RemoveLeaf: leaf out of range" else
  let! nodes := set_index (rt_nodes t) (u32 (2 * leaf)) None in
  let! nodes := blank_path nodes (leafCount t) (u32 (2 * leaf)) in
  let nodes := take (truncate_len nodes (length nodes)) nodes in
  let! nodes := repad nodes in
  Ok (mkRatchetTree (rt_suite t) nodes).

(** The scan for the first blank leaf slot. *)
(* mls/tree/mutate.go:109-117 RatchetTree.AddLeaf *)
Definition first_blank (nodes : list (option Node)) : outcome (option Z) :=
  first_even (fun i => let! n := index nodes i in Ok match n with None => true | Some _ => false end)
    (S (length nodes)) (u32 (len nodes)) 0.

(** [newUL]: the entries below [leafIndex], then it, then the rest. *)
(* mls/tree/mutate.go:153-162 RatchetTree.AddLeaf *)
Fixpoint insert_unmerged (leafIndex : Z) (ul : list Z) : list Z :=
  match ul with
  | [] => [leafIndex]
  | l :: ul' => if l <? leafIndex then l :: insert_unmerged leafIndex ul' else leafIndex :: ul
  end.

(** The body of the walk: the populated ancestor [p] gets [leafIndex]. *)
(* mls/tree/mutate.go:152-164 RatchetTree.AddLeaf *)
Definition add_unmerged (leafIndex p : Z) (nodes : list (option Node)) : outcome (list (option Node)) :=
  let! n := index nodes p in
  match n with
  | Some (mkNode lf (Some pn)) =>
      set_index nodes p (Some (mkNode lf (Some
        (mkParentNode (pn_EncryptionKey pn) (pn_ParentHash pn)
          (insert_unmerged leafIndex (pn_UnmergedLeaves pn))))))
  | _ => Ok nodes
  end.

(** The slot of the new leaf, with the array grown by two and padded again
    when no leaf is blank. *)
(* mls/tree/mutate.go:109-136 RatchetTree.AddLeaf *)
Definition find_slot (nodes : list (option Node)) : outcome (list (option Node) * Z) :=
  let! found := first_blank nodes in
  match found with
  | Some i => Ok (nodes, i)
  | None =>
      let! nodes := repad (nodes ++ [None; None]) in
      let! found := first_blank nodes in
      match found with
      | Some i => Ok (nodes, i)
      | None => Err "tree: AddLeaf: no blank slot after growing"
      end
  end.

(* mls/tree/mutate.go:107-169 RatchetTree.AddLeaf *)
Definition AddLeaf (t : RatchetTree) (ln : LeafNode) : outcome (RatchetTree * Z) :=
  let! (nodes, newNode) := find_slot (rt_nodes t) in
  let leafIndex := newNode / 2 in
  let! nodes := set_index nodes newNode (leaf_node ln) in
  let leaves := leafCount (mkRatchetTree (rt_suite t) nodes) in
  let! nodes := for_path (add_unmerged leafIndex) tree_fuel leaves (Root leaves) newNode nodes in
  Ok (mkRatchetTree (rt_suite t) nodes, leafIndex).

(** * generate.go, and the signature methods of leaf.go *)

(* mls/tree/generate.go:11-14 NewRatchetTree *)
Definition NewRatchetTree (suite : Suite) (leaf : LeafNode) : RatchetTree :=
  mkRatchetTree suite [leaf_node leaf].

Definition with_signature (ln : LeafNode) (sig : bytes) : LeafNode :=
  mkLeafNode (ln_EncryptionKey ln) (ln_SignatureKey ln) (ln_Credential ln) (ln_Capabilities ln)
    (ln_LeafNodeSource ln) (ln_Lifetime ln) (ln_ParentHash ln) (ln_Extensions ln) sig.

(* mls/tree/generate.go:19-30 SignLeafNode *)
Definition SignLeafNode (suite : Suite) (signer : Signer) (ln : LeafNode) (groupID : bytes) (leafIndex : Z)
  : outcome LeafNode :=
  let! tbs := LeafNode_tbs ln groupID leafIndex in
  let! sig := SignWithLabel suite signer "LeafNodeTBS" tbs in
  Ok (with_signature ln sig).

(* mls/tree/leaf.go:282-288 LeafNode.verifySignature *)
Definition LeafNode_verifySignature (l : LeafNode) (suite : Suite) (groupID : bytes) (leafIndex : Z)
  : outcome bool :=
  let! tbs := LeafNode_tbs l groupID leafIndex in
  Ok (VerifyWithLabel suite (ln_SignatureKey l) "LeafNodeTBS" tbs (ln_Signature l)).

(* mls/tree/leaf.go:295-297 LeafNode.VerifySignature *)
Definition LeafNode_VerifySignature := LeafNode_verifySignature.
End ratchet.

(** * Slots

    [slot nodes x] is the content of position [x], blank beyond the array. *)

Definition slot (nodes : list (option Node)) (x : Z) : option Node := mjoin (nodes !! Z.to_nat x).

Lemma index_slot nodes x : 0 <= x < len nodes -> index nodes x = Ok (slot nodes x).
Proof.
  intros H. destruct (index_in_range nodes x H) as [a Ha]. rewrite Ha.
  apply index_ok in Ha as [_ Ha]. unfold slot. by rewrite Ha.
Qed.

Lemma set_index_in nodes x (v : option Node) : 0 <= x < len nodes ->
  set_index nodes x v = Ok (<[Z.to_nat x := v]> nodes).
Proof. intros H. by apply set_index_ok. Qed.

Lemma slot_insert nodes i v x : 0 <= i < len nodes -> 0 <= x ->
  slot (<[Z.to_nat i := v]> nodes) x = if decide (x = i) then v else slot nodes x.
Proof.
  unfold slot, len. intros Hi Hx. destruct (decide (x = i)) as [->|].
  - by rewrite list_lookup_insert_eq by lia.
  - by rewrite list_lookup_insert_ne by lia.
Qed.

Lemma slot_beyond nodes x : len nodes <= x -> slot nodes x = None.
Proof. unfold slot, len. intros H. by rewrite lookup_ge_None_2 by lia. Qed.

Lemma slot_pad nodes m x : slot (nodes ++ replicate m None) x = slot nodes x.
Proof.
  unfold slot. destruct (decide (Z.to_nat x < length nodes)%nat).
  - by rewrite lookup_app_l.
  - rewrite lookup_app_r by lia. rewrite (lookup_ge_None_2 nodes) by lia.
    destruct (replicate m None !! _) eqn:E; [|done]. by apply lookup_replicate in E as [-> _].
Qed.

Lemma slot_take nodes m x : 0 <= x -> (forall y, Z.of_nat m <= y -> slot nodes y = None) ->
  slot (take m nodes) x = slot nodes x.
Proof.
  intros Hx H. destruct (decide (Z.to_nat x < m)%nat).
  - unfold slot. by rewrite lookup_take_lt.
  - unfold slot at 1. rewrite lookup_take_ge by lia. symmetry. apply H. lia.
Qed.

Lemma len_insert {A} (l : list A) i x : len (<[i := x]> l) = len l.
Proof. unfold len. by rewrite length_insert. Qed.

(** * Paths in the complete tree *)

Section path.
Context (d : Z) (Hd : 0 <= d <= 30).

Fixpoint up_path (m : nat) (k j : Z) : list Z :=
  match m with
  | O => []
  | S m => node (k + 1) (j / 2) :: up_path m (k + 1) (j / 2)
  end.

Fixpoint fold_path {A} (body : Z -> A -> outcome A) (path : list Z) (acc : A) : outcome A :=
  match path with
  | [] => Ok acc
  | p :: path => let! acc := body p acc in fold_path body path acc
  end.

Lemma elem_up_path m k j x : 0 <= k -> 0 <= j ->
  x ∈ up_path m k j <-> exists i, k < i <= k + Z.of_nat m /\ x = node i (j / 2 ^ (i - k)).
Proof.
  revert k j. induction m as [|m IH]; intros k j Hk Hj; cbn [up_path].
  { split; [by intros ?%not_elem_of_nil|]. intros (i & ? & _). lia. }
  assert (0 <= j / 2) by (apply Z.div_pos; lia).
  assert (forall i, k + 1 <= i -> j / 2 / 2 ^ (i - (k + 1)) = j / 2 ^ (i - k)) as E.
  { intros i Hi. rewrite Z.div_div by (try apply pow2_pos; lia). f_equal.
    rewrite <- Z.pow_succ_r by lia. f_equal. lia. }
  rewrite elem_of_cons, IH by lia. split.
  - intros [->|(i & Hi & ->)].
    + exists (k + 1). split; [lia|]. by replace (k + 1 - k) with 1 by lia.
    + exists i. split; [lia|]. by rewrite E by lia.
  - intros (i & Hi & ->). destruct (Z.eq_dec i (k + 1)) as [->|].
    + left. by replace (k + 1 - k) with 1 by lia.
    + right. exists i. split; [lia|]. by rewrite E by lia.
Qed.

Lemma NoDup_up_path m k j : 0 <= k -> 0 <= j -> k + Z.of_nat m <= 31 -> NoDup (up_path m k j).
Proof.
  revert k j. induction m as [|m IH]; intros k j Hk Hj Hm; cbn [up_path]; [constructor|].
  assert (0 <= j / 2) by (apply Z.div_pos; lia). constructor; [|apply IH; lia].
  rewrite elem_up_path by lia. intros (i & Hi & E).
  apply node_inj in E as [Ei _]; lia.
Qed.

Lemma for_path_complete {A} (body : Z -> A -> outcome A) fuel k j acc :
  0 <= k <= d -> 0 <= j < 2 ^ (d - k) -> d - k <= Z.of_nat fuel ->
  for_path body fuel (2 ^ d) (Root (2 ^ d)) (node k j) acc =
  fold_path body (up_path (Z.to_nat (d - k)) k j) acc.
Proof using Hd.
  rewrite complete_Root by lia. revert k j acc. induction fuel as [|fuel IH]; intros k j acc Hk Hj Hf.
  - assert (k = d) as -> by lia. rewrite Z.sub_diag in *. assert (j = 0) as -> by lia.
    simpl. by rewrite Z.eqb_refl.
  - destruct (Z.eq_dec k d) as [->|].
    { rewrite Z.sub_diag in *. assert (j = 0) as -> by lia. simpl. by rewrite Z.eqb_refl. }
    cbn [for_path]. rewrite (proj2 (Z.eqb_neq _ _)).
    2: { intros E. apply node_inj in E; lia. }
    rewrite complete_Parent by lia. cbn [obind].
    replace (Z.to_nat (d - k)) with (S (Z.to_nat (d - (k + 1)))) by lia. cbn [up_path fold_path].
    destruct (body _ acc); [|done..]. cbn [obind]. apply IH; [lia| |lia].
    apply half_in; lia.
Qed.

(** The direct path of leaf [l]. *)
Definition direct_path (l : Z) : list Z := up_path (Z.to_nat d) 0 l.

Lemma elem_direct_path l x : 0 <= l ->
  x ∈ direct_path l <-> exists i, 0 < i <= d /\ x = node i (l / 2 ^ i).
Proof using Hd.
  intros Hl. unfold direct_path. rewrite elem_up_path by lia. rewrite Z2Nat.id by lia.
  split; intros (i & Hi & ->); exists i; rewrite Z.sub_0_r in *; auto.
Qed.

Lemma div_pow_range l i : 0 <= l < 2 ^ d -> 0 <= i <= d -> 0 <= l / 2 ^ i < 2 ^ (d - i).
Proof using Hd.
  intros Hl Hi. pose proof (pow2_pos i). split; [apply Z.div_pos; lia|].
  apply Z.div_lt_upper_bound; [lia|]. rewrite <- Z.pow_add_r by lia.
  replace (i + (d - i)) with d by lia. lia.
Qed.

Lemma direct_path_in l p : 0 <= l < 2 ^ d -> p ∈ direct_path l -> 0 <= p < 2 ^ (d + 1) - 1.
Proof using Hd.
  intros Hl (i & Hi & ->)%elem_direct_path; [|lia].
  pose proof (div_pow_range l i Hl ltac:(lia)). split; [apply node_nonneg; lia|].
  apply complete_in; lia.
Qed.

Lemma for_path_leaf {A} (body : Z -> A -> outcome A) l acc : 0 <= l < 2 ^ d ->
  for_path body tree_fuel (2 ^ d) (Root (2 ^ d)) (2 * l) acc = fold_path body (direct_path l) acc.
Proof using Hd.
  intros Hl. rewrite <- node_leaf. rewrite for_path_complete; [by rewrite Z.sub_0_r|lia|by rewrite Z.sub_0_r|unfold tree_fuel; lia].
Qed.
End path.

(** * The invariant *)

Definition populated (nodes : list (option Node)) (l : Z) : Prop := is_Some (slot nodes (2 * l)).

(** The parent at level [k] and position [j], over the leaves [l] with
    [l / 2^k = j]. *)
Record parent_inv (nodes : list (option Node)) (k j : Z) (n : Node) (p : ParentNode) : Prop := {
  pi_node : n = mkNode None (Some p);
  pi_sorted : StronglySorted Z.lt (pn_UnmergedLeaves p);
  pi_below : Forall (fun l => 0 <= l /\ l / 2 ^ k = j /\ populated nodes l) (pn_UnmergedLeaves p);
  pi_left : exists l, 0 <= l /\ l / 2 ^ (k - 1) = 2 * j /\ populated nodes l;
  pi_right : exists l, 0 <= l /\ l / 2 ^ (k - 1) = 2 * j + 1 /\ populated nodes l
}.

Record tree_inv (d : Z) (nodes : list (option Node)) : Prop := {
  ti_depth : 0 <= d <= 30;
  ti_len : len nodes = 2 ^ (d + 1) - 1;
  ti_leaf : forall l n, 0 <= l -> slot nodes (2 * l) = Some n -> exists ln, n = mkNode (Some ln) None;
  ti_parent : forall k j n, 0 < k -> 0 <= j -> slot nodes (node k j) = Some n ->
    exists p, parent_inv nodes k j n p
}.

(** The width is the least complete one: the right half has a member. *)
Definition tight (d : Z) (nodes : list (option Node)) : Prop :=
  exists l, 2 ^ d <= 2 * l + 1 /\ populated nodes l.

Lemma populated_range d nodes l : len nodes = 2 ^ (d + 1) - 1 -> 0 <= d -> populated nodes l -> l < 2 ^ d.
Proof.
  intros Hl Hd [n Hn]. destruct (Z.lt_ge_cases l (2 ^ d)); [done|].
  rewrite slot_beyond in Hn; [done|]. rewrite Hl, pow2_S by lia. lia.
Qed.

(** ** An executable check of the invariant *)

Definition populated_b (nodes : list (option Node)) (l : Z) : bool :=
  match slot nodes (2 * l) with Some _ => true | None => false end.

Definition member_below_b (d : Z) (nodes : list (option Node)) (k j : Z) : bool :=
  existsb (fun l => (l / 2 ^ k =? j) && populated_b nodes l) (Z.of_nat <$> seq 0 (Z.to_nat (2 ^ d))).

Fixpoint sorted_b (l : list Z) : bool :=
  match l with
  | a :: ((b :: _) as l') => (a <? b) && sorted_b l'
  | _ => true
  end.

Definition node_inv_b (d : Z) (nodes : list (option Node)) (x : Z) : bool :=
  let k := level x in
  let j := x / 2 ^ (k + 1) in
  match slot nodes x with
  | None => true
  | Some (mkNode (Some _) None) => k =? 0
  | Some (mkNode None (Some p)) =>
      (0 <? k) && sorted_b (pn_UnmergedLeaves p) &&
      forallb (fun l => (0 <=? l) && (l / 2 ^ k =? j) && populated_b nodes l) (pn_UnmergedLeaves p) &&
      member_below_b d nodes (k - 1) (2 * j) && member_below_b d nodes (k - 1) (2 * j + 1)
  | Some _ => false
  end.

Definition tree_inv_b (d : Z) (nodes : list (option Node)) : bool :=
  (0 <=? d) && (d <=? 30) && (len nodes =? 2 ^ (d + 1) - 1) &&
  forallb (node_inv_b d nodes) (Z.of_nat <$> seq 0 (length nodes)).

Lemma populated_b_ok nodes l : populated_b nodes l = true <-> populated nodes l.
Proof. unfold populated_b, populated. destruct (slot nodes (2 * l)); split; intros H; [by eexists|done|done|by destruct H]. Qed.

Lemma member_below_b_ok d nodes k j : member_below_b d nodes k j = true ->
  exists l, 0 <= l /\ l / 2 ^ k = j /\ populated nodes l.
Proof.
  unfold member_below_b. rewrite existsb_exists. intros (l & Hin & [E%Z.eqb_eq Hp%populated_b_ok]%andb_true_iff).
  apply list_elem_of_In, list_elem_of_fmap in Hin as (n & -> & _). exists (Z.of_nat n). split; [lia|done].
Qed.

Lemma sorted_b_ok l : sorted_b l = true -> StronglySorted Z.lt l.
Proof.
  intros H. apply Sorted_StronglySorted; [intros ? ? ?; lia|].
  induction l as [|a [|b l] IH]; [constructor|by constructor|]. cbn [sorted_b] in H.
  apply andb_true_iff in H as [Hab%Z.ltb_lt H]. constructor; [by apply IH|by constructor].
Qed.

Lemma level_div k j : 0 <= k <= 32 -> level (node k j) = k /\ node k j / 2 ^ (k + 1) = j.
Proof.
  intros Hk. split; [by apply level_node|]. rewrite node_eq by lia. rewrite pow2_S by lia.
  pose proof (pow2_pos k). symmetry. apply (Z.div_unique _ _ _ (2 ^ k - 1)); lia.
Qed.

Lemma tree_inv_b_ok d nodes : tree_inv_b d nodes = true -> tree_inv d nodes.
Proof.
  unfold tree_inv_b. rewrite !andb_true_iff, !Z.leb_le, Z.eqb_eq, forallb_forall.
  intros [[[Hd0 Hd] Hlen] Hall].
  assert (forall x n, 0 <= x -> slot nodes x = Some n -> x < 2 ^ (d + 1) - 1 /\ node_inv_b d nodes x = true) as Hx.
  { intros x n H0 Hs. assert (x < len nodes) as Hlt.
    { destruct (Z.lt_ge_cases x (len nodes)); [done|]. by rewrite slot_beyond in Hs. }
    split; [lia|]. apply Hall, list_elem_of_In, list_elem_of_fmap. exists (Z.to_nat x). split; [lia|].
    apply elem_of_seq. unfold len in Hlt. lia. }
  split; [lia|done| |].
  - intros l n Hl Hs. destruct (Hx (2 * l) n ltac:(lia) Hs) as [_ Hb]. unfold node_inv_b in Hb.
    rewrite Hs, <- node_leaf, level_node in Hb by lia. destruct n as [[ln|] [p|]]; [done|by exists ln|done..].
  - intros k j n Hk Hj Hs. destruct (Hx _ n (node_nonneg k j ltac:(lia) Hj) Hs) as [Hlt Hb].
    apply complete_in in Hlt as [Hkd _]; [|lia..]. unfold node_inv_b in Hb.
    destruct (level_div k j ltac:(lia)) as [E1 E2]. rewrite E1, E2, Hs in Hb.
    destruct n as [[ln|] [p|]]; [done|apply Z.eqb_eq in Hb; lia| |done].
    rewrite !andb_true_iff, forallb_forall in Hb. destruct Hb as [[[[_ Hsort] Hul] HL] HR].
    exists p. split; [done|by apply sorted_b_ok| |by apply member_below_b_ok in HL|by apply member_below_b_ok in HR].
    apply Forall_forall. intros l Hl. specialize (Hul l (proj1 (list_elem_of_In _ _) Hl)).
    rewrite !andb_true_iff, Z.leb_le, Z.eqb_eq, populated_b_ok in Hul. by destruct Hul as [[]].
Qed.

(** ** Blanking a path *)

Lemma fold_blank path nodes : Forall (fun p => 0 <= p < len nodes) path ->
  exists nodes', fold_path (fun p nodes => set_index nodes p None) path nodes = Ok nodes' /\
    len nodes' = len nodes /\
    forall x, 0 <= x -> slot nodes' x = if decide (x ∈ path) then None else slot nodes x.
Proof.
  revert nodes. induction path as [|p path IH]; intros nodes H.
  - exists nodes. split_and!; [done..|]. intros x _. by rewrite decide_False by apply not_elem_of_nil.
  - apply Forall_cons in H as [Hp H]. cbn [fold_path]. rewrite set_index_in by done. cbn [obind].
    destruct (IH (<[Z.to_nat p := None]> nodes)) as (nodes' & -> & Hlen & Hs).
    { by rewrite len_insert. }
    exists nodes'. split_and!; [done|by rewrite Hlen, len_insert|].
    intros x Hx. rewrite Hs, slot_insert by done.
    destruct (decide (x = p)) as [->|]; [rewrite (decide_True (P := p ∈ p :: path)) by left; by case_decide|].
    destruct (decide (x ∈ path)); [by rewrite decide_True by (by right)|].
    rewrite decide_False; [done|]. by rewrite elem_of_cons; intros [].
Qed.

Lemma leafCount_complete {C : StdCrypto} (t : RatchetTree) d :
  0 <= d <= 30 -> len (rt_nodes t) = 2 ^ (d + 1) - 1 -> leafCount t = 2 ^ d /\ Width t = 2 ^ (d + 1) - 1.
Proof.
  intros Hd Hl. unfold leafCount, Width. rewrite Hl.
  assert (2 ^ (d + 1) = 2 * 2 ^ d) as E by (apply pow2_S; lia).
  assert (2 ^ d <= 2 ^ 30) by (apply Z.pow_le_mono_r; lia). pose proof (pow2_pos d). unfold u32. rewrite (Z.mod_small (2 ^ (d + 1) - 1)) by lia.
  rewrite Z.mod_small by lia. split; [|done]. rewrite E. zlia.
Qed.

Lemma blank_path_complete d nodes l : 0 <= d <= 30 -> len nodes = 2 ^ (d + 1) - 1 -> 0 <= l < 2 ^ d ->
  exists nodes', blank_path nodes (2 ^ d) (2 * l) = Ok nodes' /\ len nodes' = len nodes /\
    forall x, 0 <= x -> slot nodes' x = if decide (x ∈ direct_path d l) then None else slot nodes x.
Proof.
  intros Hd Hlen Hl. unfold blank_path. rewrite for_path_leaf by done. apply fold_blank.
  apply Forall_forall. intros p Hp. rewrite Hlen. by apply (direct_path_in d Hd l).
Qed.

Lemma leaf_not_on_path d l m : 0 <= d <= 30 -> 0 <= l -> 0 <= m -> (2 * m) ∉ direct_path d l.
Proof.
  intros Hd Hl Hm (i & Hi & E)%elem_direct_path; [|done..].
  rewrite <- node_leaf in E. apply node_inj in E as [E _]; lia.
Qed.

(** The effect of [UpdateLeaf] and [RemoveLeaf] on the slots: leaf [l] becomes
    [v] and its direct path is blank. *)
Definition replaced (d l : Z) (v : option Node) (nodes nodes' : list (option Node)) : Prop :=
  (forall m, 0 <= m -> slot nodes' (2 * m) = if decide (m = l) then v else slot nodes (2 * m)) /\
  (forall k j, 0 < k -> 0 <= j -> slot nodes' (node k j) =
     if decide (l / 2 ^ k = j) then None else slot nodes (node k j)).

Lemma replace_path d nodes l v : 0 <= d <= 30 -> len nodes = 2 ^ (d + 1) - 1 -> 0 <= l < 2 ^ d ->
  exists nodes', blank_path (<[Z.to_nat (2 * l) := v]> nodes) (2 ^ d) (2 * l) = Ok nodes' /\
    len nodes' = len nodes /\ replaced d l v nodes nodes'.
Proof.
  intros Hd Hlen Hl. assert (2 ^ (d + 1) = 2 * 2 ^ d) by (apply pow2_S; lia).
  destruct (blank_path_complete d (<[Z.to_nat (2 * l) := v]> nodes) l Hd) as (nodes' & -> & Hlen' & Hs);
    [by rewrite len_insert|done|].
  exists nodes'. split_and!; [done|by rewrite Hlen', len_insert|]. split.
  - intros m Hm. rewrite Hs, decide_False by (done || lia || (apply leaf_not_on_path; lia)).
    rewrite slot_insert by lia. by repeat case_decide; try lia.
  - intros k j Hk Hj. pose proof (node_nonneg k j ltac:(lia) Hj). rewrite Hs by done.
    destruct (decide (l / 2 ^ k = j)) as [E|E].
    + destruct (decide (k <= d)) as [Hkd|Hkd].
      * rewrite decide_True; [done|]. apply elem_direct_path; [done|lia|]. exists k. by rewrite E.
      * rewrite slot_beyond; [by case_decide|]. rewrite len_insert, Hlen.
        destruct (Z.lt_ge_cases (node k j) (2 ^ (d + 1) - 1)) as [Hlt|]; [|done].
        apply complete_in in Hlt; [lia|done|lia|done].
    + rewrite decide_False.
      * rewrite slot_insert, decide_False by (lia || (rewrite <- node_leaf; intros [? _]%node_inj; lia)). done.
      * rewrite elem_direct_path by lia. intros (i & Hi & [-> ->]%node_inj); [done|lia..].
Qed.

Lemma div_half l k j : 0 < k -> 0 <= l ->
  l / 2 ^ (k - 1) = 2 * j \/ l / 2 ^ (k - 1) = 2 * j + 1 -> l / 2 ^ k = j.
Proof.
  intros Hk Hl H. replace (2 ^ k) with (2 ^ (k - 1) * 2).
  - rewrite <- Z.div_div by (try apply pow2_pos; lia). zlia.
  - rewrite <- (Z.mul_comm 2), <- pow2_S by lia. f_equal. lia.
Qed.

(** The conditions of [parent_inv] are kept when populated leaves below stay. *)
Lemma parent_inv_mono nodes nodes' k j n p : 0 < k -> parent_inv nodes k j n p ->
  (forall l, 0 <= l -> l / 2 ^ k = j -> populated nodes l -> populated nodes' l) ->
  parent_inv nodes' k j n p.
Proof.
  intros Hk [Hn Hs Hb (l & Hl0 & Hl1 & Hl2) (r & Hr0 & Hr1 & Hr2)] H. split; [done|done|..].
  - eapply Forall_impl; [exact Hb|]. naive_solver.
  - exists l. split_and!; [done..|]. apply H; [done| |done]. apply div_half; auto.
  - exists r. split_and!; [done..|]. apply H; [done| |done]. apply div_half; auto.
Qed.

Lemma replaced_inv d l v nodes nodes' :
  tree_inv d nodes -> len nodes' = len nodes -> replaced d l v nodes nodes' ->
  (v = None \/ exists ln, v = leaf_node ln) -> tree_inv d nodes'.
Proof.
  intros [Hd Hlen Hleaf Hpar] Hlen' [Hl Hp] Hv. split; [done|by rewrite Hlen'|..].
  - intros m n Hm. rewrite Hl by done. case_decide; [|by apply Hleaf].
    destruct Hv as [->|[ln ->]]; [done|]. intros [= <-]. eauto.
  - intros k j n Hk Hj. rewrite Hp by done. case_decide as E; [done|]. intros Hn.
    destruct (Hpar k j n Hk Hj Hn) as [p Hpi]. exists p.
    eapply parent_inv_mono; [done|exact Hpi|]. intros m Hm Hmj. unfold populated. rewrite Hl by done.
    case_decide; [congruence|done].
Qed.

Lemma slot_inv d d' nodes nodes' :
  tree_inv d nodes -> 0 <= d' <= 30 -> len nodes' = 2 ^ (d' + 1) - 1 ->
  (forall x, 0 <= x -> slot nodes' x = slot nodes x) -> tree_inv d' nodes'.
Proof.
  intros [_ _ Hleaf Hpar] Hd' Hlen Hs. split; [done..| |].
  - intros l n Hl. rewrite Hs by lia. by apply Hleaf.
  - intros k j n Hk Hj. rewrite Hs by (apply node_nonneg; lia). intros Hn.
    destruct (Hpar k j n Hk Hj Hn) as [p Hp]. exists p. eapply parent_inv_mono; [done|exact Hp|].
    intros l Hl _. unfold populated. by rewrite Hs by lia.
Qed.

(** ** Complete widths *)

Lemma fullWidth_loop_ok fuel e n : 0 <= e -> 2 ^ e <= n -> n < 2 ^ 32 -> 31 - e <= Z.of_nat fuel ->
  exists d, e <= d <= 31 /\ fullWidth_loop fuel (2 ^ (e + 1) - 1) n = Ok (2 ^ (d + 1) - 1) /\
    2 ^ d <= n <= 2 ^ (d + 1) - 1.
Proof.
  revert e. induction fuel as [|fuel IH]; intros e He Hn Hn32 Hf;
    assert (e < 32) by (apply (Z.pow_lt_mono_r_iff 2); lia);
    cbn [fullWidth_loop]; destruct (Z.ltb_spec (2 ^ (e + 1) - 1) n) as [Hlt|Hge].
  - assert (e = 31) as -> by lia. lia.
  - exists e. split_and!; [lia..|done|lia|lia].
  - assert (e + 1 < 32) by (apply (Z.pow_lt_mono_r_iff 2); lia).
    assert (2 ^ (e + 1 + 1) <= 2 ^ 32) by (apply Z.pow_le_mono_r; lia).
    pose proof (pow2_S (e + 1) ltac:(lia)). pose proof (pow2_pos (e + 1)).
    unfold u32. rewrite Z.mod_small by lia.
    replace (2 * (2 ^ (e + 1) - 1) + 1) with (2 ^ (e + 1 + 1) - 1) by lia.
    destruct (IH (e + 1)) as (d & ? & ? & ?); [lia..|]. exists d. split_and!; try done; lia.
  - exists e. split_and!; [lia..|done|lia|lia].
Qed.

Lemma fullWidth_ok n : 1 <= n < 2 ^ 32 ->
  exists d, 0 <= d <= 31 /\ fullWidth n = Ok (2 ^ (d + 1) - 1) /\ 2 ^ d <= n <= 2 ^ (d + 1) - 1.
Proof. intros Hn. apply (fullWidth_loop_ok tree_fuel 0); [lia|lia|lia|unfold tree_fuel; lia]. Qed.

Lemma len_pad nodes w : len nodes <= w < 2 ^ 32 -> len (pad_nodes nodes w) = w.
Proof.
  intros Hw. pose proof (len_nonneg nodes). unfold pad_nodes, u32.
  rewrite (Z.mod_small (len nodes)), Z.mod_small, len_app by lia. unfold len at 2.
  rewrite length_replicate. lia.
Qed.

(** Padding an array of between [2^d] and [2^(d+1)-1] slots completes it. *)
Lemma repad_ok nodes : 1 <= len nodes < 2 ^ 31 ->
  exists d nodes', 0 <= d <= 30 /\ repad nodes = Ok nodes' /\ len nodes' = 2 ^ (d + 1) - 1 /\
    2 ^ d <= len nodes <= 2 ^ (d + 1) - 1 /\ forall x, slot nodes' x = slot nodes x.
Proof.
  intros Hl. unfold repad, u32. rewrite Z.mod_small by lia.
  destruct (fullWidth_ok (len nodes)) as (d & Hd & -> & Hw); [lia|]. cbn [obind].
  assert (d < 31) by (apply (Z.pow_lt_mono_r_iff 2); lia).
  assert (2 ^ (d + 1) <= 2 ^ 31) by (apply Z.pow_le_mono_r; lia).
  destruct (Z.ltb_spec (len nodes) (2 ^ (d + 1) - 1)).
  - exists d, (pad_nodes nodes (2 ^ (d + 1) - 1)). split_and!; [lia..|done|apply len_pad; lia|lia|lia|].
    intros x. apply slot_pad.
  - exists d, nodes. split_and!; [lia..|done|lia|lia|lia|done].
Qed.

Lemma truncate_len_ok nodes n : (1 <= n <= length nodes)%nat ->
  (forall x, Z.of_nat n <= x -> slot nodes x = None) ->
  let m := truncate_len nodes n in
  (1 <= m <= n)%nat /\ (forall x, Z.of_nat m <= x -> slot nodes x = None) /\
  (m = 1%nat \/ is_Some (slot nodes (Z.of_nat m - 1))).
Proof.
  induction n as [|[|n] IH]; intros Hn Hx; [lia|simpl; auto|].
  cbn [truncate_len]. destruct (nodes !! S n) as [[nd|]|] eqn:E.
  - split_and!; [lia..|done|]. right. unfold slot.
    replace (Z.to_nat (Z.of_nat (S (S n)) - 1)) with (S n) by lia. rewrite E. simpl. eauto.
  - destruct IH as ([H1 H1'] & H2 & H3);
      [lia| |split_and!; [exact H1|etransitivity; [exact H1'|lia]|exact H2|exact H3]].
    intros x Hx'. destruct (Z.eq_dec x (Z.of_nat (S n))) as [->|]; [|apply Hx; lia].
    unfold slot. by rewrite Nat2Z.id, E.
  - apply lookup_ge_None in E. lia.
Qed.

(** Under the invariant the last populated slot is a leaf. *)
Lemma last_is_leaf d nodes x : tree_inv d nodes -> 0 <= x -> is_Some (slot nodes x) ->
  (forall y, x < y -> slot nodes y = None) -> exists l, 0 <= l /\ x = 2 * l.
Proof.
  intros Hinv Hx [n Hn] Hlast. destruct (node_surj x Hx) as (k & j & Hk & Hj & ->).
  destruct (Z.eq_dec k 0) as [->|]; [exists j; rewrite node_leaf; auto|].
  destruct (ti_parent _ _ Hinv k j n) as [p [_ _ _ _ (r & Hr & Hrj & Hpop)]]; [lia|done..|].
  exfalso. unfold populated in Hpop. rewrite Hlast in Hpop; [by destruct Hpop|].
  pose proof (pow2_pos (k - 1)). pose proof (Z.mul_div_le r (2 ^ (k - 1)) ltac:(lia)) as Hle.
  rewrite Hrj in Hle. unfold node.
  replace (2 ^ k) with (2 * 2 ^ (k - 1)) by (rewrite <- pow2_S by lia; f_equal; lia). lia.
Qed.

(** * Operations under the invariant *)

Section ops.
Context {C : StdCrypto}.
Implicit Types t : RatchetTree.

Lemma leaf_bound d l : 0 <= d <= 30 -> 0 <= l < 2 ^ d ->
  u32 (2 * l) = 2 * l /\ 2 * l < 2 ^ (d + 1) - 1.
Proof.
  intros Hd Hl. assert (2 ^ d <= 2 ^ 30) by (apply Z.pow_le_mono_r; lia).
  rewrite pow2_S by lia. unfold u32. rewrite Z.mod_small by lia. lia.
Qed.

Lemma UpdateLeaf_ok t d l ln : tree_inv d (rt_nodes t) -> 0 <= l < 2 ^ d ->
  exists t', UpdateLeaf t l ln = Ok t' /\ rt_suite t' = rt_suite t /\ tree_inv d (rt_nodes t') /\
    replaced d l (leaf_node ln) (rt_nodes t) (rt_nodes t').
Proof.
  intros Hinv Hl. pose proof (ti_depth _ _ Hinv) as Hd. pose proof (ti_len _ _ Hinv) as Hlen.
  destruct (leaf_bound d l Hd Hl) as [E Hb]. destruct (leafCount_complete t d Hd Hlen) as [HlC Hw].
  unfold UpdateLeaf. rewrite E, Hw, (proj2 (Z.leb_gt _ _)), set_index_in, HlC by lia. cbn [obind].
  destruct (replace_path d (rt_nodes t) l (leaf_node ln) Hd Hlen Hl) as (nodes' & -> & Hlen' & Hr).
  cbn [obind]. eexists. split_and!; [done..| |done]. eapply replaced_inv; eauto.
Qed.

Lemma UpdateLeaf_err t l ln : Width t <= u32 (2 * l) -> is_err (UpdateLeaf t l ln) = true.
Proof. intros H. unfold UpdateLeaf. by rewrite (proj2 (Z.leb_le _ _)). Qed.

Lemma RemoveLeaf_ok t d l : tree_inv d (rt_nodes t) -> 0 <= l < 2 ^ d ->
  exists t' d', RemoveLeaf t l = Ok t' /\ rt_suite t' = rt_suite t /\ tree_inv d' (rt_nodes t') /\
    d' <= d /\ replaced d l None (rt_nodes t) (rt_nodes t') /\
    (tight d' (rt_nodes t') \/ d' = 0 /\ slot (rt_nodes t') 0 = None).
Proof.
  intros Hinv Hl. pose proof (ti_depth _ _ Hinv) as Hd. pose proof (ti_len _ _ Hinv) as Hlen.
  destruct (leaf_bound d l Hd Hl) as [E Hb]. destruct (leafCount_complete t d Hd Hlen) as [HlC Hw].
  unfold RemoveLeaf. rewrite E, Hw, (proj2 (Z.leb_gt _ _)), set_index_in, HlC by lia. cbn [obind].
  destruct (replace_path d (rt_nodes t) l None Hd Hlen Hl) as (nodes' & -> & Hlen' & Hr).
  cbn [obind]. assert (tree_inv d nodes') as Hinv' by (eapply replaced_inv; eauto).
  pose proof (complete_bound d Hd). pose proof (pow2_S d ltac:(lia)).
  assert (2 ^ (d + 1) <= 2 ^ 31) by (apply Z.pow_le_mono_r; lia).
  destruct (truncate_len_ok nodes' (length nodes')) as (Hm & Hblank & Hlast).
  { unfold len in *. lia. }
  { intros x Hx. by apply slot_beyond. }
  set (m := truncate_len nodes' (length nodes')) in *.
  assert (len (take m nodes') = Z.of_nat m) as Hlm by (unfold len; rewrite length_take; lia).
  destruct (repad_ok (take m nodes')) as (d' & nodes'' & Hd' & -> & Hlen'' & Hw' & Hs).
  { unfold len in *. lia. }
  cbn [obind rt_nodes rt_suite].
  assert (forall x, 0 <= x -> slot nodes'' x = slot nodes' x) as Hsame.
  { intros x Hx. rewrite Hs. by apply slot_take. }
  assert (tree_inv d' nodes'') as Hinv'' by (eapply slot_inv; eauto).
  eexists _, d'. split_and!; [done..| | |]; cbn [rt_nodes].
  - assert (d' < d + 1); [|lia]. apply (Z.pow_lt_mono_r_iff 2); [lia..|]. unfold len in *. lia.
  - destruct Hr as [Hr1 Hr2]. split.
    + intros x Hx. rewrite Hsame by lia. by apply Hr1.
    + intros k j Hk Hj. rewrite Hsame by (apply node_nonneg; lia). by apply Hr2.
  - destruct Hlast as [Hm1|Hsome].
    + assert (d' = 0) as -> by (destruct (Z.eq_dec d' 0); [done|];
        assert (2 ^ 1 <= 2 ^ d') by (apply Z.pow_le_mono_r; lia); lia).
      destruct (slot nodes'' 0) eqn:E0; [|auto]. left. exists 0. split; [done|].
      unfold populated. rewrite Z.mul_0_r, E0. eauto.
    + left. destruct (last_is_leaf d nodes' (Z.of_nat m - 1)) as (r & Hr0 & Hrm); [done|lia|done| |].
      { intros y Hy. apply Hblank. lia. }
      exists r. split; [lia|]. unfold populated. rewrite Hsame by lia. by rewrite <- Hrm.
Qed.

Lemma RemoveLeaf_err t l : Width t <= u32 (2 * l) -> is_err (RemoveLeaf t l) = true.
Proof. intros H. unfold RemoveLeaf. by rewrite (proj2 (Z.leb_le _ _)). Qed.

(** ** Adding a leaf *)

Lemma first_even_ok test w fuel i (P : Z -> bool) :
  0 <= w < 2 ^ 31 -> 0 <= i -> (forall x, 0 <= x -> 2 * x < w -> test (2 * x) = Ok (P x)) ->
  w - 2 * i <= Z.of_nat fuel ->
  (exists l, i <= l /\ 2 * l < w /\ first_even test fuel w (2 * i) = Ok (Some (2 * l)) /\ P l = true /\
     forall m, i <= m < l -> P m = false) \/
  (first_even test fuel w (2 * i) = Ok None /\ forall m, i <= m -> 2 * m < w -> P m = false).
Proof.
  intros Hw Hi Ht Hf. revert i Hi Hf. induction fuel as [|fuel IH]; intros i Hi Hf; cbn [first_even].
  - destruct (Z.ltb_spec (2 * i) w); [lia|]. right. split; [done|lia].
  - destruct (Z.ltb_spec (2 * i) w); [|right; split; [done|lia]].
    rewrite Ht by lia. cbn [obind]. destruct (P i) eqn:E; [left; exists i; split_and!; [lia..|done|done|lia]|].
    unfold u32. rewrite Z.mod_small by lia. replace (2 * i + 2) with (2 * (i + 1)) by lia.
    destruct (IH (i + 1)) as [(l & ? & ? & -> & ? & Hm)|[-> Hm]]; [lia..| |].
    + left. exists l. split_and!; [lia..|done|done|]. intros m Hm'.
      destruct (Z.eq_dec m i) as [->|]; [done|apply Hm; lia].
    + right. split; [done|]. intros m Hm' ?. destruct (Z.eq_dec m i) as [->|]; [done|apply Hm; lia].
Qed.

(** The scan finds the least blank leaf. *)
Lemma first_blank_ok nodes : len nodes < 2 ^ 31 ->
  (exists l, 0 <= l /\ 2 * l < len nodes /\ first_blank nodes = Ok (Some (2 * l)) /\
     slot nodes (2 * l) = None /\ forall m, 0 <= m < l -> populated nodes m) \/
  (first_blank nodes = Ok None /\ forall m, 0 <= m -> 2 * m < len nodes -> populated nodes m).
Proof.
  intros Hl. pose proof (len_nonneg nodes). unfold first_blank, u32. rewrite Z.mod_small by lia.
  assert (forall m, match slot nodes (2 * m) with None => true | _ => false end = false -> populated nodes m) as Hp.
  { intros m Hm. unfold populated. destruct (slot _ _); [eauto|done]. }
  destruct (first_even_ok (fun i => let! n := index nodes i in Ok match n with None => true | Some _ => false end)
    (len nodes) (S (length nodes)) 0 (fun l => match slot nodes (2 * l) with None => true | _ => false end))
    as [(l & ? & ? & E & Hb & Hm)|[E Hm]]; [lia..| | | |].
  - intros x Hx Hlt. by rewrite index_slot by lia.
  - unfold len. lia.
  - left. exists l. rewrite Z.mul_0_r in E. split_and!; [done..| |].
    + by destruct (slot nodes (2 * l)).
    + intros m Hm'. apply Hp, Hm, Hm'.
  - right. rewrite Z.mul_0_r in E. split; [done|]. intros m Hm' Hlt. by apply Hp, Hm.
Qed.

(** The tree can take one more leaf: it can grow, or a leaf is blank. *)
Definition room (d : Z) (nodes : list (option Node)) : Prop :=
  d < 30 \/ exists l, 0 <= l < 2 ^ d /\ ~ populated nodes l.

(** The slot of the new leaf is the least unpopulated one, in an array that is
    the old one or the old one with its depth increased by one. *)
Lemma find_slot_ok d nodes : tree_inv d nodes -> room d nodes ->
  exists d' nodes' l, find_slot nodes = Ok (nodes', 2 * l) /\ tree_inv d' nodes' /\ 0 <= l < 2 ^ d' /\
    (d' = d \/ d' = d + 1 /\ l = 2 ^ d) /\ (forall x, slot nodes' x = slot nodes x) /\
    slot nodes' (2 * l) = None /\ forall m, 0 <= m < l -> populated nodes m.
Proof.
  intros Hinv Hroom. pose proof (ti_depth _ _ Hinv) as Hd. pose proof (ti_len _ _ Hinv) as Hlen.
  pose proof (complete_bound d Hd). pose proof (pow2_S d ltac:(lia)) as HS.
  assert (2 ^ (d + 1) <= 2 ^ 31) by (apply Z.pow_le_mono_r; lia).
  unfold find_slot. destruct (first_blank_ok nodes) as [(l & Hl & Hlt & -> & Hb & Hm)|[-> Hall]]; [lia|..].
  { exists d, nodes, l. cbn [obind]. split_and!; auto; lia. }
  assert (d < 30) as Hd30 by (destruct Hroom as [|(l & Hl & Hn)]; [done|destruct Hn; apply Hall; lia]).
  assert (2 ^ (d + 1) <= 2 ^ 30) by (apply Z.pow_le_mono_r; lia).
  cbn [obind]. assert (len (nodes ++ [None; None]) = 2 ^ (d + 1) + 1) as Hlen2.
  { rewrite len_app, Hlen. change (len [None; None]) with 2. lia. }
  destruct (repad_ok (nodes ++ [None; None])) as (d' & nodes' & Hd' & -> & Hlen' & Hw & Hs); [lia|].
  cbn [obind]. assert (d' = d + 1) as ->.
  { assert (d + 1 < d' + 1) by (apply (Z.pow_lt_mono_r_iff 2); lia).
    assert (d' < d + 1 + 1); [|lia]. apply (Z.pow_lt_mono_r_iff 2); [lia..|].
    rewrite (pow2_S (d + 1)) by lia. lia. }
  assert (forall x, slot nodes' x = slot nodes x) as Hsame.
  { intros x. rewrite Hs. apply (slot_pad nodes 2 x). }
  assert (tree_inv (d + 1) nodes') as Hinv' by (eapply slot_inv; eauto).
  rewrite (pow2_S (d + 1)) in Hlen' by lia.
  assert (forall m, 0 <= m -> populated nodes' m <-> m < 2 ^ d) as Hpop.
  { intros m Hm0. unfold populated. rewrite Hsame. split.
    - intros Hp. apply (populated_range d nodes); [done|lia|done].
    - intros Hm. apply Hall; lia. }
  destruct (first_blank_ok nodes') as [(l & Hl & Hlt & -> & Hb & Hm)|[_ Hall']]; [lia|..].
  - assert (l = 2 ^ d) as ->.
    { destruct (Z.lt_trichotomy l (2 ^ d)) as [Hlt'|[->|Hgt]]; [|done|].
      - apply Hpop in Hlt'; [|done]. unfold populated in Hlt'. rewrite Hb in Hlt'. by destruct Hlt'.
      - specialize (Hm (2 ^ d) ltac:(lia)). apply Hpop in Hm; lia. }
    exists (d + 1), nodes', (2 ^ d). cbn [obind]. split_and!; auto; [lia|].
    intros m Hm'. apply Hall; lia.
  - specialize (Hall' (2 ^ d) ltac:(lia) ltac:(lia)). apply Hpop in Hall'; lia.
Qed.

(** ** Unmerged leaves *)

Definition bump (l : Z) (n : option Node) : option Node :=
  match n with
  | Some (mkNode lf (Some pn)) =>
      Some (mkNode lf (Some (mkParentNode (pn_EncryptionKey pn) (pn_ParentHash pn)
        (insert_unmerged l (pn_UnmergedLeaves pn)))))
  | _ => n
  end.

Lemma add_unmerged_ok l p nodes : 0 <= p < len nodes ->
  exists nodes', add_unmerged l p nodes = Ok nodes' /\ len nodes' = len nodes /\
    forall x, 0 <= x -> slot nodes' x = if decide (x = p) then bump l (slot nodes x) else slot nodes x.
Proof.
  intros Hp. unfold add_unmerged. rewrite index_slot by done. cbn [obind].
  destruct (slot nodes p) as [[lf [pn|]]|] eqn:E.
  - rewrite set_index_in by done. eexists. split_and!; [done|apply len_insert|].
    intros x Hx. rewrite slot_insert by done. case_decide as Hxp; [|done]. subst x. by rewrite E.
  - exists nodes. split_and!; [done..|]. intros x _. case_decide as Hxp; [|done]. subst x. by rewrite E.
  - exists nodes. split_and!; [done..|]. intros x _. case_decide as Hxp; [|done]. subst x. by rewrite E.
Qed.

Lemma fold_add l path nodes : NoDup path -> Forall (fun p => 0 <= p < len nodes) path ->
  exists nodes', fold_path (add_unmerged l) path nodes = Ok nodes' /\ len nodes' = len nodes /\
    forall x, 0 <= x -> slot nodes' x = if decide (x ∈ path) then bump l (slot nodes x) else slot nodes x.
Proof.
  revert nodes. induction path as [|p path IH]; intros nodes Hnd H.
  - exists nodes. split_and!; [done..|]. intros x _. by rewrite decide_False by apply not_elem_of_nil.
  - apply NoDup_cons in Hnd as [Hnp Hnd]. apply Forall_cons in H as [Hp H]. cbn [fold_path].
    destruct (add_unmerged_ok l p nodes Hp) as (nodes1 & -> & Hlen1 & Hs1). cbn [obind].
    destruct (IH nodes1 Hnd) as (nodes' & -> & Hlen & Hs); [by rewrite Hlen1|].
    exists nodes'. split_and!; [done|by rewrite Hlen|]. intros x Hx. rewrite Hs, Hs1 by done.
    destruct (decide (x = p)) as [->|].
    + by rewrite (decide_False (P := p ∈ path)), (decide_True (P := p ∈ p :: path)) by (done || left).
    + destruct (decide (x ∈ path)); [by rewrite decide_True by (by right)|].
      rewrite decide_False; [done|]. by rewrite elem_of_cons; intros [].
Qed.

Lemma elem_insert_unmerged l ul x : x ∈ insert_unmerged l ul <-> x = l \/ x ∈ ul.
Proof.
  induction ul as [|y ul IH]; cbn [insert_unmerged]; [set_solver|].
  destruct (y <? l); set_solver.
Qed.

Lemma insert_unmerged_sorted l ul : StronglySorted Z.lt ul -> l ∉ ul ->
  StronglySorted Z.lt (insert_unmerged l ul).
Proof.
  induction 1 as [|y ul Hs IH Hf]; intros Hl; cbn [insert_unmerged]; [by repeat constructor|].
  apply not_elem_of_cons in Hl as [Hne Hl].
  destruct (Z.ltb_spec y l).
  - constructor; [by apply IH|]. apply Forall_forall. intros x [->|Hx]%elem_insert_unmerged; [done|].
    rewrite Forall_forall in Hf. by apply Hf.
  - constructor; [by constructor|]. constructor; [lia|].
    eapply Forall_impl; [exact Hf|]. cbv beta. lia.
Qed.

(** The effect of [AddLeaf] on the slots. *)
Definition added (l : Z) (ln : LeafNode) (nodes nodes' : list (option Node)) : Prop :=
  (forall m, 0 <= m -> slot nodes' (2 * m) = if decide (m = l) then leaf_node ln else slot nodes (2 * m)) /\
  (forall k j, 0 < k -> 0 <= j -> slot nodes' (node k j) =
     if decide (l / 2 ^ k = j) then bump l (slot nodes (node k j)) else slot nodes (node k j)).

Lemma added_inv d l ln nodes nodes' :
  tree_inv d nodes -> 0 <= l -> slot nodes (2 * l) = None -> len nodes' = len nodes ->
  added l ln nodes nodes' -> tree_inv d nodes'.
Proof.
  intros [Hd Hlen Hleaf Hpar] Hl0 Hbl Hlen' [Hl Hp]. split; [done|by rewrite Hlen'|..].
  - intros m n Hm. rewrite Hl by done. case_decide; [|by apply Hleaf]. intros [= <-]. eauto.
  - intros k j n Hk Hj. rewrite Hp by done.
    assert (forall m, 0 <= m -> populated nodes m -> populated nodes' m) as Hmono.
    { intros m Hm. unfold populated. rewrite Hl by done. case_decide; [eauto|done]. }
    assert (populated nodes' l) as Hnew
      by (unfold populated; rewrite Hl by done; rewrite decide_True by done; eauto).
    case_decide as E; intros Hn.
    + destruct (slot nodes (node k j)) as [n0|] eqn:E0; [|done].
      destruct (Hpar k j n0 Hk Hj E0) as [p Hpi].
      apply (parent_inv_mono _ nodes') in Hpi; [|done|auto]. destruct Hpi as [-> Hs Hb Hle Hri].
      injection Hn as <-. eexists. split; [done|cbn [pn_UnmergedLeaves]..|done|done].
      * apply insert_unmerged_sorted; [done|]. intros Hin.
        destruct (Hpar k j _ Hk Hj E0) as [p' [[= <-] _ Hb' _ _]].
        rewrite Forall_forall in Hb'. destruct (Hb' _ Hin) as (_ & _ & Hpop).
        unfold populated in Hpop. rewrite Hbl in Hpop. by destruct Hpop.
      * apply Forall_forall. intros x [->|Hx]%elem_insert_unmerged; [auto|].
        rewrite Forall_forall in Hb. by apply Hb.
    + destruct (Hpar k j n Hk Hj Hn) as [p Hpi]. exists p.
      eapply parent_inv_mono; [done|exact Hpi|auto].
Qed.

Lemma AddLeaf_ok t d ln : tree_inv d (rt_nodes t) -> room d (rt_nodes t) ->
  exists t' d' l, AddLeaf t ln = Ok (t', l) /\ rt_suite t' = rt_suite t /\ tree_inv d' (rt_nodes t') /\
    0 <= l < 2 ^ d' /\ (d' = d \/ d' = d + 1 /\ l = 2 ^ d) /\
    slot (rt_nodes t) (2 * l) = None /\ (forall m, 0 <= m < l -> populated (rt_nodes t) m) /\
    added l ln (rt_nodes t) (rt_nodes t').
Proof.
  intros Hinv Hd30. destruct (find_slot_ok d (rt_nodes t) Hinv Hd30)
    as (d' & nodes & l & Hf & Hinv' & Hl & Hd' & Hsame & Hbl & Hm).
  pose proof (ti_depth _ _ Hinv') as Hdr. pose proof (ti_len _ _ Hinv') as Hlen.
  destruct (leaf_bound d' l Hdr Hl) as [_ Hb].
  unfold AddLeaf. rewrite Hf. cbn [obind]. rewrite set_index_in by lia. cbn [obind].
  set (nodes1 := <[Z.to_nat (2 * l) := leaf_node ln]> nodes).
  assert (len nodes1 = 2 ^ (d' + 1) - 1) as Hlen1 by (unfold nodes1; by rewrite len_insert).
  destruct (leafCount_complete (mkRatchetTree (rt_suite t) nodes1) d' Hdr Hlen1) as [-> _].
  replace (2 * l / 2) with l by zlia. rewrite for_path_leaf by done.
  destruct (fold_add l (direct_path d' l) nodes1) as (nodes2 & -> & Hlen2 & Hs2).
  { apply NoDup_up_path; lia. }
  { apply Forall_forall. intros p Hp. rewrite Hlen1. by apply (direct_path_in d' Hdr l). }
  cbn [obind]. assert (added l ln nodes nodes2) as Ha.
  { split.
    - intros m Hm0. rewrite Hs2, decide_False by (lia || (apply leaf_not_on_path; lia)).
      unfold nodes1. rewrite slot_insert by lia. repeat case_decide; done || lia.
    - intros k j Hk Hj. pose proof (node_nonneg k j ltac:(lia) Hj). rewrite Hs2 by done.
      unfold nodes1. rewrite slot_insert by lia.
      rewrite (decide_False (P := node k j = 2 * l)) by (rewrite <- node_leaf; intros [? _]%node_inj; lia).
      destruct (decide (l / 2 ^ k = j)) as [E|E].
      + destruct (decide (k <= d')) as [Hkd|Hkd].
        * rewrite decide_True; [done|]. apply elem_direct_path; [done|lia|]. exists k. by rewrite E.
        * rewrite slot_beyond; [by case_decide|]. rewrite Hlen.
          destruct (Z.lt_ge_cases (node k j) (2 ^ (d' + 1) - 1)) as [Hlt|]; [|done].
          apply complete_in in Hlt; [lia|done|lia|done].
      + rewrite decide_False; [done|]. rewrite elem_direct_path by lia.
        intros (i & Hi & [-> ->]%node_inj); [done|lia..]. }
  exists (mkRatchetTree (rt_suite t) nodes2), d', l. cbn [rt_nodes rt_suite].
  split_and!; [done|done| |lia|lia|done|by rewrite <- Hsame|done|..].
  - apply (added_inv d' l ln nodes); [exact Hinv'|lia|exact Hbl|by rewrite Hlen2, Hlen1, Hlen|exact Ha].
  - destruct Ha as [Ha1 Ha2]. split; intros; rewrite <- Hsame; auto.
Qed.

Lemma NewRatchetTree_inv suite ln : tree_inv 0 (rt_nodes (NewRatchetTree suite ln)).
Proof.
  split; [lia|done|..].
  - intros l n Hl Hn. destruct (Z.eq_dec l 0) as [->|].
    + injection Hn as <-. eauto.
    + rewrite slot_beyond in Hn; [done|]. change (len _) with 1. lia.
  - intros k j n Hk Hj Hn. rewrite slot_beyond in Hn; [done|]. change (len _) with 1.
    unfold node. assert (2 ^ 1 <= 2 ^ k) by (apply Z.pow_le_mono_r; lia). nia.
Qed.
End ops.

(** * The wire form *)

Definition Node_ok (n : Node) : Prop :=
  match n with
  | mkNode (Some l) None => LeafNode_ok l
  | mkNode None (Some p) => ParentNode_ok p
  | _ => False
  end.

#[global] Instance wire_Node : Wire Node_ok Node_marshal decodeNode.
Proof.
  split.
  - intros n. change (appends (Node_marshal n)). unfold Node_marshal.
    destruct n as [[l|] [p|]]; cbn [nd_Leaf nd_Parent]; appends_tac.
  - intros [[l|] [p|]] e c Hok He; cbn [Node_ok] in Hok; try done;
      unfold Node_marshal in He; cbn [nd_Leaf nd_Parent] in He; emits_split He; unfold decodeNode.
    + rewrite <- app_assoc, (wire_decode (r := ReadUint8) NodeTypeLeaf) by done.
      cbn [obind NodeTypeLeaf Z.eqb Pos.eqb]. by rewrite (wire_decode l).
    + rewrite <- app_assoc, (wire_decode (r := ReadUint8) NodeTypeParent) by done.
      cbn [obind NodeTypeLeaf NodeTypeParent Z.eqb Pos.eqb]. by rewrite (wire_decode p).
  - intros c n c' H. unfold decodeNode in H. inv_ok.
    destruct (Z.eqb_spec v NodeTypeLeaf) as [->|]; [|destruct (Z.eqb_spec v NodeTypeParent) as [->|]; [|done]];
      inv_ok; sound_fields; (split; [done|]); unfold Node_marshal; cbn [nd_Leaf nd_Parent]; sound_join.
  - intros c. unfold decodeNode. returns_fields.
Qed.

Definition slots_ok (nodes : list (option Node)) : Prop :=
  Forall (fun n => match n with Some x => Node_ok x | None => True end) nodes.

Lemma last_populated_ok nodes e : (e <= length nodes)%nat ->
  let m := last_populated nodes e in
  (m <= e)%nat /\ (forall i, (m <= i < e)%nat -> nodes !! i = Some None) /\
  (m = 0%nat \/ exists n, nodes !! (m - 1)%nat = Some (Some n)).
Proof.
  induction e as [|e IH]; intros He; cbn [last_populated]; [split_and!; auto with lia|].
  destruct (nodes !! e) as [[n|]|] eqn:E.
  - split_and!; [lia..|]. right. exists n. by replace (S e - 1)%nat with e by lia.
  - destruct IH as (? & Hi & ?); [lia|]. split_and!; [lia| |done].
    intros i Hi'. destruct (Nat.eq_dec i e) as [->|]; [done|apply Hi; lia].
  - apply lookup_ge_None in E. lia.
Qed.

(** The populated prefix and the blanks behind it. *)
Lemma populated_prefix nodes :
  let m := last_populated nodes (length nodes) in
  nodes = take m nodes ++ replicate (length nodes - m) None /\
  (take m nodes = [] \/ exists n, last (take m nodes) = Some (Some n)).
Proof.
  destruct (last_populated_ok nodes (length nodes)) as (Hm & Hblank & Hlast); [lia|].
  set (m := last_populated _ _) in *. cbv zeta. split.
  - rewrite <- (take_drop m nodes) at 1. f_equal. apply list_eq. intros i.
    rewrite lookup_drop. destruct (decide (i < length nodes - m)%nat).
    + rewrite lookup_replicate_2 by done. apply Hblank. lia.
    + rewrite !lookup_ge_None_2; [done|rewrite length_replicate; lia|lia].
  - destruct Hlast as [->|[n Hn]]; [by left|]. destruct (decide (m = 0%nat)) as [->|]; [by left|].
    right. exists n. rewrite last_lookup, length_take, lookup_take_lt by lia.
    by replace (pred (m `min` length nodes)) with (m - 1)%nat by lia.
Qed.

Lemma last_populated_pad l k n : last l = Some (Some n) ->
  last_populated (l ++ replicate k None) (length (l ++ replicate k None)) = length l.
Proof.
  intros Hl. set (nodes := l ++ replicate k None).
  destruct (last_populated_ok nodes (length nodes)) as (Hm & Hblank & Hlast); [lia|].
  set (m := last_populated _ _) in *. rewrite last_lookup in Hl.
  assert (nodes !! pred (length l) = Some (Some n)) as Hn by (by apply lookup_app_l_Some).
  destruct l as [|x l]; [done|]. cbn [length] in *. unfold nodes in *. rewrite length_app in *. cbn [length] in *.
  destruct (decide (m < S (length l))%nat).
  - rewrite Hblank in Hn; [done|]. lia.
  - destruct (decide (m = S (length l))) as [|]; [done|]. destruct Hlast as [|[n' Hn']]; [lia|].
    rewrite lookup_app_r in Hn' by (cbn [length]; lia). apply lookup_replicate in Hn' as [? _]. done.
Qed.

Section wire.
Context {C : StdCrypto}.

(** The tree that was serialized is the tree that is parsed, when the last
    member is in the right half. *)
Lemma Clone_ok t d : tree_inv d (rt_nodes t) -> tight d (rt_nodes t) -> slots_ok (rt_nodes t) ->
  forall data, RatchetTree_MarshalMLS t = Ok data -> ParseRatchetTree (rt_suite t) data = Ok t.
Proof.
  intros Hinv (r & Hr & Hpop) Hok data Hm. pose proof (ti_depth _ _ Hinv) as Hd.
  pose proof (ti_len _ _ Hinv) as Hlen.
  assert (2 ^ (d + 1) <= 2 ^ 31) by (apply Z.pow_le_mono_r; lia). pose proof (pow2_pos d).
  destruct t as [suite nodes]. cbn [rt_nodes rt_suite] in *.
  unfold RatchetTree_MarshalMLS in Hm. cbn [rt_nodes] in Hm. inv_ok. unfold Bytes.
  destruct (populated_prefix nodes) as [Hsplit Hlast]. cbv zeta in Hsplit, Hlast.
  destruct (last_populated_ok nodes (length nodes)) as (Hme & Hblank & _); [lia|].
  set (m := last_populated nodes (length nodes)) in *. set (pre := take m nodes) in *.
  assert (len pre = Z.of_nat m) as Hpre by (unfold pre, len; rewrite length_take; lia).
  assert (2 ^ d <= Z.of_nat m).
  { destruct (Z.le_gt_cases (2 ^ d) (Z.of_nat m)) as [|Hlt]; [done|]. exfalso.
    destruct Hpop as [n Hn]. assert (0 <= 2 * r) by lia.
    destruct (Z.lt_ge_cases (2 * r) (len nodes)); [|by rewrite slot_beyond in Hn].
    unfold slot in Hn. rewrite Hblank in Hn; [done|]. unfold len in *. lia. }
  pose proof (wire_append _ _ _ Ha) as (e & He & E). cbn in E. subst e.
  unfold ParseRatchetTree, NewCursor. rewrite <- (app_nil_r a), (wire_decode pre a []); [|by apply Forall_take|done].
  cbn [obind]. rewrite (proj2 (Empty_true _) eq_refl). cbn [negb].
  rewrite (proj2 (Z.eqb_neq _ _)) by lia.
  destruct Hlast as [E|[n Hn]]; [rewrite E in Hpre; change (len []) with 0 in Hpre; lia|].
  rewrite last_lookup in Hn.
  rewrite (proj2 (index_ok pre (len pre - 1) (Some n)));
    [|split; [lia|]; rewrite <- Hn; f_equal; unfold len; lia].
  cbn [obind]. unfold u32 at 1.
  assert (len pre <= 2 ^ (d + 1) - 1) by (unfold len in *; lia).
  rewrite Z.mod_small by lia.
  destruct (fullWidth_ok (len pre)) as (d' & Hd' & -> & Hw); [lia|]. cbn [obind].
  assert (d' = d) as ->.
  { assert (d' < d + 1) by (apply (Z.pow_lt_mono_r_iff 2); lia).
    assert (d < d' + 1) by (apply (Z.pow_lt_mono_r_iff 2); lia). lia. }
  do 2 f_equal. etransitivity; [|symmetry; exact Hsplit]. unfold pad_nodes, u32. do 2 f_equal.
  rewrite (Z.mod_small (len pre)), Z.mod_small by lia. unfold len in *. lia.
Qed.

(** A tree that was parsed serializes to the bytes it came from. *)
Lemma Parse_Marshal suite data t :
  ParseRatchetTree suite data = Ok t -> RatchetTree_MarshalMLS t = Ok data /\ slots_ok (rt_nodes t).
Proof.
  unfold ParseRatchetTree, NewCursor. intros H. inv_ok.
  destruct (Empty c) eqn:Ec; [|done]. apply Empty_true in Ec as ->. cbn [negb] in H.
  destruct (Z.eqb_spec (len v) 0) as [|Hne]; [done|]. inv_ok. destruct a as [n|]; [|done]. inv_ok.
  apply wire_sound in Ha as (Hok & e & _ & E & He). rewrite app_nil_r in E. subst e.
  apply index_ok in Ha0 as [_ Hl].
  assert (last v = Some (Some n)) as Hlast
    by (rewrite last_lookup, <- Hl; f_equal; unfold len; lia).
  unfold RatchetTree_MarshalMLS, pad_nodes. cbn [rt_nodes].
  rewrite (last_populated_pad _ _ n), take_app_length by done.
  rewrite (He NewBuilder). split; [done|]. unfold slots_ok. apply Forall_app. split; [exact Hok|].
  by apply Forall_replicate.
Qed.

(** Parsing returns on every input. *)
Lemma Parse_returns suite data : returns (ParseRatchetTree suite data).
Proof.
  unfold ParseRatchetTree. apply returns_obind; [apply wire_returns|].
  intros [nodes c] Hr. destruct (negb (Empty c)); [done|]. destruct (Z.eqb_spec (len nodes) 0); [done|].
  pose proof (len_nonneg nodes). destruct (index_in_range nodes (len nodes - 1)) as [a ->]; [lia|].
  cbn [obind]. destruct a; [|done]. apply returns_obind; [|done].
  unfold u32. destruct (Z.eq_dec (len nodes mod 2 ^ 32) 0) as [->|]; [done|].
  pose proof (Z.mod_pos_bound (len nodes) (2 ^ 32) ltac:(lia)).
  destruct (fullWidth_ok (len nodes mod 2 ^ 32)) as (d & _ & -> & _); [lia|done].
Qed.
End wire.

(** * The tree as a roster

    What the group layer relies on: the tree is a finite map from leaf
    indices to leaf nodes, [AddLeaf] fills the least free index, [UpdateLeaf]
    replaces and [RemoveLeaf] deletes. *)

Definition leaf_of (n : option Node) : option LeafNode := n ≫= nd_Leaf.

Definition roster_list (nodes : list (option Node)) : list (Z * LeafNode) :=
  omap (fun l => pair l <$> leaf_of (slot nodes (2 * l))) (seqZ 0 (len nodes)).

Definition roster_of (nodes : list (option Node)) : gmap Z LeafNode := list_to_map (roster_list nodes).

Inductive roster_op :=
| OpAdd (ln : LeafNode)
| OpUpdate (l : Z) (ln : LeafNode)
| OpRemove (l : Z).

Inductive roster_step (m : gmap Z LeafNode) : roster_op -> gmap Z LeafNode -> Prop :=
| rs_add ln i : 0 <= i -> m !! i = None -> (forall j, 0 <= j < i -> is_Some (m !! j)) ->
    roster_step m (OpAdd ln) (<[i := ln]> m)
| rs_update l ln : roster_step m (OpUpdate l ln) (<[l := ln]> m)
| rs_remove l : roster_step m (OpRemove l) (delete l m).

Lemma roster_list_fst nodes x : x ∈ (roster_list nodes).*1 -> x ∈ seqZ 0 (len nodes).
Proof.
  rewrite list_elem_of_fmap. intros ([y ln] & -> & H). unfold roster_list in H.
  apply list_elem_of_omap in H as (l & Hl & E). destruct (leaf_of _); [|done]. by injection E as -> ->.
Qed.

Lemma NoDup_roster_list nodes : NoDup (roster_list nodes).*1.
Proof.
  unfold roster_list. pose proof (NoDup_seqZ 0 (len nodes)) as H.
  induction H as [|l ls Hl H IH]; cbn; [constructor|].
  destruct (leaf_of (slot nodes (2 * l))) eqn:E; simpl; [|exact IH].
  constructor; [|exact IH]. rewrite list_elem_of_fmap. intros ([y ln] & -> & Hin).
  apply list_elem_of_omap in Hin as (l' & Hl' & E'). destruct (leaf_of (slot nodes (2 * l'))); [|done].
  injection E' as -> ->. done.
Qed.

Lemma lookup_roster nodes l : 0 <= l -> roster_of nodes !! l = leaf_of (slot nodes (2 * l)).
Proof.
  intros Hl. unfold roster_of. destruct (leaf_of (slot nodes (2 * l))) as [ln|] eqn:E.
  - apply elem_of_list_to_map_1; [apply NoDup_roster_list|]. unfold roster_list.
    apply list_elem_of_omap. exists l. rewrite E. split; [|done]. apply elem_of_seqZ.
    destruct (Z.lt_ge_cases (2 * l) (len nodes)); [lia|]. by rewrite slot_beyond in E.
  - destruct (list_to_map (roster_list nodes) !! l) as [ln|] eqn:E'; [|done].
    apply elem_of_list_to_map_2 in E'. unfold roster_list in E'.
    apply list_elem_of_omap in E' as (l' & _ & E'').
    destruct (leaf_of (slot nodes (2 * l'))) eqn:E2; [|done]. injection E'' as -> ->. congruence.
Qed.

Lemma lookup_roster_neg nodes l : l < 0 -> roster_of nodes !! l = None.
Proof.
  intros Hl. destruct (roster_of nodes !! l) as [ln|] eqn:E; [|done].
  apply elem_of_list_to_map_2 in E. assert (l ∈ (roster_list nodes).*1) as Hin
    by (apply list_elem_of_fmap; by exists (l, ln)).
  apply roster_list_fst, elem_of_seqZ in Hin. lia.
Qed.

(** Two rosters agree when their leaves do. *)
Lemma roster_eq nodes (m : gmap Z LeafNode) :
  (forall l, 0 <= l -> leaf_of (slot nodes (2 * l)) = m !! l) -> (forall l, l < 0 -> m !! l = None) ->
  roster_of nodes = m.
Proof.
  intros H1 H2. apply map_eq. intros l. destruct (Z.lt_ge_cases l 0).
  - by rewrite lookup_roster_neg, H2.
  - by rewrite lookup_roster, H1 by lia.
Qed.

Lemma populated_roster d nodes l : tree_inv d nodes -> 0 <= l ->
  populated nodes l <-> is_Some (roster_of nodes !! l).
Proof.
  intros Hinv Hl. rewrite lookup_roster by done. unfold populated, leaf_of.
  destruct (slot nodes (2 * l)) as [n|] eqn:E; [|split; by intros []].
  destruct (ti_leaf _ _ Hinv l n Hl E) as [ln ->]. simpl. split; eauto.
Qed.

Section roster.
Context {C : StdCrypto}.

Definition tree_apply (t : RatchetTree) (op : roster_op) : outcome RatchetTree :=
  match op with
  | OpAdd ln => let! (t, _) := AddLeaf t ln in Ok t
  | OpUpdate l ln => UpdateLeaf t l ln
  | OpRemove l => RemoveLeaf t l
  end.

(** The index names a leaf of a tree of depth [d]. *)
Definition op_in_range (d : Z) (op : roster_op) : Prop :=
  match op with
  | OpAdd _ => d < 30
  | OpUpdate l _ | OpRemove l => 0 <= l < 2 ^ d
  end.

Lemma tree_apply_ok t d op : tree_inv d (rt_nodes t) -> op_in_range d op ->
  exists t' d', tree_apply t op = Ok t' /\ tree_inv d' (rt_nodes t') /\ rt_suite t' = rt_suite t /\
    roster_step (roster_of (rt_nodes t)) op (roster_of (rt_nodes t')).
Proof.
  intros Hinv Hop. destruct op as [ln|l ln|l]; cbn [tree_apply op_in_range] in *.
  - destruct (AddLeaf_ok t d ln Hinv (or_introl Hop)) as (t' & d' & l & -> & Hs & Hinv' & Hl & _ & Hb & Hm & Ha & _).
    exists t', d'. cbn [obind]. split_and!; [done..|].
    replace (roster_of (rt_nodes t')) with (<[l := ln]> (roster_of (rt_nodes t))).
    + constructor; [lia|by rewrite lookup_roster, Hb by lia|].
      intros j Hj. rewrite <- populated_roster by (done || lia). by apply Hm.
    + symmetry. apply roster_eq; intros m Hm'.
      * rewrite Ha by done. case_decide as E; [subst m; by rewrite lookup_insert_eq|].
        by rewrite lookup_insert_ne, lookup_roster by done.
      * rewrite lookup_insert_ne by lia. by apply lookup_roster_neg.
  - destruct (UpdateLeaf_ok t d l ln Hinv Hop) as (t' & -> & Hs & Hinv' & Ha & _).
    exists t', d. split_and!; [done..|].
    replace (roster_of (rt_nodes t')) with (<[l := ln]> (roster_of (rt_nodes t))); [constructor|].
    symmetry. apply roster_eq; intros m Hm'.
    + rewrite Ha by done. case_decide as E; [subst m; by rewrite lookup_insert_eq|].
      by rewrite lookup_insert_ne, lookup_roster by done.
    + rewrite lookup_insert_ne by lia. by apply lookup_roster_neg.
  - destruct (RemoveLeaf_ok t d l Hinv Hop) as (t' & d' & -> & Hs & Hinv' & _ & [Ha _] & _).
    exists t', d'. split_and!; [done..|].
    replace (roster_of (rt_nodes t')) with (delete l (roster_of (rt_nodes t))); [constructor|].
    symmetry. apply roster_eq; intros m Hm'.
    + rewrite Ha by done. case_decide as E; [subst m; by rewrite lookup_delete_eq|].
      by rewrite lookup_delete_ne, lookup_roster by done.
    + rewrite lookup_delete_ne by lia. by apply lookup_roster_neg.
Qed.

(** Indices as the callers have them: 31 bits, and room for one more leaf. *)
Definition op_indexable (d : Z) (op : roster_op) : Prop :=
  match op with OpAdd _ => d < 30 | OpUpdate l _ | OpRemove l => 0 <= l < 2 ^ 31 end.

Lemma tree_apply_err t d op : tree_inv d (rt_nodes t) -> op_indexable d op -> ~ op_in_range d op ->
  is_err (tree_apply t op) = true.
Proof.
  intros Hinv Hop. pose proof (ti_depth _ _ Hinv) as Hd.
  pose proof (proj2 (leafCount_complete t d Hd (ti_len _ _ Hinv))) as HW. rewrite pow2_S in HW by lia.
  destruct op as [ln|l ln|l]; cbn [op_in_range op_indexable tree_apply] in *; [done|..]; intros Hn;
    (apply UpdateLeaf_err || apply RemoveLeaf_err); rewrite HW, u32_small; lia.
Qed.

Lemma LeafNodeAt_roster t d l : tree_inv d (rt_nodes t) -> 0 <= l < 2 ^ 31 ->
  LeafNodeAt t l = match roster_of (rt_nodes t) !! l with
                   | Some ln => Ok ln
                   | None => Err "tree: leaf is blank"
                   end.
Proof.
  intros Hinv Hl. pose proof (ti_depth _ _ Hinv). pose proof (ti_len _ _ Hinv) as Hlen.
  assert (2 ^ (d + 1) <= 2 ^ 31) by (apply Z.pow_le_mono_r; lia). pose proof (pow2_pos (d + 1)).
  rewrite lookup_roster by lia. unfold LeafNodeAt, NodeAt, u32.
  rewrite (Z.mod_small (2 * l)), Z.mod_small by lia.
  destruct (Z.leb_spec (len (rt_nodes t)) (2 * l)).
  - cbn [obind]. by rewrite slot_beyond.
  - rewrite index_slot by lia. cbn [obind]. by destruct (slot _ _) as [[[ln|] ?]|].
Qed.
End roster.

(** * A concrete group, for witnesses

    Members over the toy cryptography: member [i] has the private key
    [toy_priv i] and a signed leaf with the public one; [tree n] is the tree
    after members 1 to [n - 1] were added to the tree of member 0. *)
Module Example.
#[local] Existing Instances toy toy_laws.

Definition group_id : bytes := bytes_of_string "g".
Definition signer (i : Z) : Signer := inl [byte_of_Z (100 + i)].

Definition unsigned_leaf (i : Z) : LeafNode :=
  mkLeafNode (toy_pub i) (toy_hash [byte_of_Z (100 + i)]) (mkCredential CredentialTypeBasic [byte_of_Z (65 + i)] [])
    (mkCapabilities [1] [1] [] [] [1]) LeafNodeSourceUpdate None [] [] [].

Definition leaf (i : Z) : LeafNode :=
  value (unsigned_leaf i) (SignLeafNode toy_suite (signer i) (unsigned_leaf i) group_id i).

Definition add (t : RatchetTree) (i : Z) : RatchetTree := value t (let! (t, _) := AddLeaf t (leaf i) in Ok t).

Definition tree (n : nat) : RatchetTree :=
  foldl add (NewRatchetTree toy_suite (leaf 0)) (Z.of_nat <$> seq 1 (n - 1)).

Lemma tree3_inv : tree_inv 2 (rt_nodes (tree 3)).
Proof. apply tree_inv_b_ok. vm_compute. reflexivity. Qed.

Lemma tree4_inv : tree_inv 2 (rt_nodes (tree 4)).
Proof. apply tree_inv_b_ok. vm_compute. reflexivity. Qed.

Lemma leaf_ok i : LeafNode_ok (leaf i).
Proof.
  assert (leaf i = unsigned_leaf i \/ exists sig, leaf i = with_signature (unsigned_leaf i) sig) as [-> | [sig ->]].
  { unfold leaf, SignLeafNode. destruct (LeafNode_tbs _ _ _); [|by left..]. cbn [obind].
    destruct (SignWithLabel _ _ _ _); [|by left..]. right. by eexists. }
  all: unfold LeafNode_ok, Credential_ok, Capabilities_ok, Source_ok, is_u8, is_u16; cbn;
    split_and!; try done; try lia; repeat constructor; lia.
Qed.

Lemma tree4_slots : slots_ok (rt_nodes (tree 4)).
Proof.
  assert (rt_nodes (tree 4) = [leaf_node (leaf 0); None; leaf_node (leaf 1); None; leaf_node (leaf 2); None; leaf_node (leaf 3)])
    as -> by (vm_compute; reflexivity).
  repeat apply Forall_cons_2; try exact I; [apply leaf_ok..|apply Forall_nil_2].
Qed.
End Example.

(** * Properties *)



(** [Clone] is faithful: encoding a well-formed tree of least width and
    parsing the encoding yields the tree itself, so that the snapshot a commit
    is staged on equals the group's tree. *)
Theorem clone_identity {C : StdCrypto} t d data :
  tree_inv d (rt_nodes t) -> tight d (rt_nodes t) -> slots_ok (rt_nodes t) ->
  RatchetTree_MarshalMLS t = Ok data ->
  ParseRatchetTree (rt_suite t) data = Ok t /\ Clone t = Ok t.
Proof.
  intros Hinv Ht Hs Hm. assert (ParseRatchetTree (rt_suite t) data = Ok t) as Hp by (by apply (Clone_ok t d)).
  split; [done|]. unfold Clone. by rewrite Hm.
Qed.

Lemma clone_identity_witness : Clone (Example.tree 4) = Ok (Example.tree 4).
Proof.
  destruct (RatchetTree_MarshalMLS (Example.tree 4)) as [data| | |] eqn:E; [|vm_compute in E; discriminate..].
  refine (proj2 (clone_identity (Example.tree 4) 2 data Example.tree4_inv _ Example.tree4_slots E)).
  exists 3. split; [cbn; lia|]. eexists. vm_compute. reflexivity.
Defined.

(** [ParseRatchetTree] returns on every input, and accepts only the
    canonical encoding: re-encoding the parsed tree gives the input back, so
    that two different encodings never denote the same tree. *)
Lemma parse_tree_canonical {C : StdCrypto} suite data :
  returns (ParseRatchetTree suite data) /\
  forall t, ParseRatchetTree suite data = Ok t ->
    RatchetTree_MarshalMLS t = Ok data /\ slots_ok (rt_nodes t).
Proof. split; [apply Parse_returns|]. intros t. apply Parse_Marshal. Qed.

(** C40: leaf indices are not checked for overflow: [2*leaf] wraps around at 32
    bits, so that an index beyond [2^31] acts on an existing leaf instead of
    being rejected as out of range. *)
Theorem leaf_index_wraps {C : StdCrypto} t l ln :
  RemoveLeaf t (l + 2 ^ 31) = RemoveLeaf t l /\ UpdateLeaf t (l + 2 ^ 31) ln = UpdateLeaf t l ln /\
  LeafNodeAt t (l + 2 ^ 31) = LeafNodeAt t l.
Proof.
  assert (u32 (2 * (l + 2 ^ 31)) = u32 (2 * l)) as E.
  { unfold u32. replace (2 * (l + 2 ^ 31)) with (2 * l + 1 * 2 ^ 32) by lia. apply Z_mod_plus_full. }
  unfold RemoveLeaf, UpdateLeaf, LeafNodeAt. rewrite E. done.
Qed.
