(* ===== verification/TreeSync.v ===== *)
(** [mls/tree]: resolutions, tree hashes and parent hashes.

    [treesync.go] and [validation.go].  The recursive functions descend one
    level per call; a fuel of [tree_fuel] covers every [uint32] index.  A set
    of leaf indices, a Go [map[uint32]bool], is a [gset Z]. *)

From Stdlib Require Import ZArith Lia Strings.Byte.
From stdpp Require Import base list numbers strings sorting sets gmap.
From S2P Require Import Prelude Syntax TreeNodes TreeMath Cipher ToyCrypto RatchetTree.

(* mls/tree/treesync.go:98-106 filterLeaves *)
Definition filterLeaves (leaves : list Z) (excluded : gset Z) : list Z :=
  filter (fun l => l ∉ excluded) leaves.

(* mls/tree/validation.go:12-18 leafSet *)
Definition leafSet (leaves : list Z) : gset Z := list_to_set leaves.

(** The node itself, then its unmerged leaves as node indices. *)
(* mls/tree/treesync.go:9-18 RatchetTree.Resolution *)
Definition resolve_node (i : Z) (n : Node) : list Z :=
  i :: match nd_Parent n with
       | Some p => map (fun leaf => u32 (2 * leaf)) (pn_UnmergedLeaves p)
       | None => []
       end.

(* mls/tree/treesync.go:7-27 RatchetTree.Resolution *)
Fixpoint resolution (fuel : nat) (nodes : list (option Node)) (leaves i : Z) : outcome (list Z) :=
  match fuel with
  | O => Diverge
  | S fuel =>
      let! n := index nodes i in
      match n with
      | Some n => Ok (resolve_node i n)
      | None =>
          match Left i with
          | None => Ok []
          | Some lft =>
              let! rgt := Right i leaves in
              let! rl := resolution fuel nodes leaves lft in
              let! rr := resolution fuel nodes leaves (default 0 rgt) in
              Ok (rl ++ rr)
          end
      end
  end.

Section sync.
Context {C : StdCrypto}.

(* mls/tree/treesync.go:7-27 RatchetTree.Resolution *)
Definition Resolution (t : RatchetTree) (i : Z) : outcome (list Z) :=
  resolution tree_fuel (rt_nodes t) (leafCount t) i.

(** The leaf as the hash sees it: excluded leaves are blank. *)
(* mls/tree/treesync.go:51-54 RatchetTree.treeHashExcept *)
Definition visible_leaf (excluded : gset Z) (leafIndex : Z) (n : option Node) : option LeafNode :=
  match n with
  | Some (mkNode (Some l) _) => if decide (leafIndex ∈ excluded) then None else Some l
  | _ => None
  end.

(** The parent as the hash sees it: excluded leaves are dropped from its
    unmerged leaves. *)
(* mls/tree/treesync.go:74-81 RatchetTree.treeHashExcept *)
Definition visible_parent (excluded : gset Z) (n : option Node) : option ParentNode :=
  match n with
  | Some (mkNode _ (Some p)) =>
      Some (if decide (excluded = ∅) then p else
        mkParentNode (pn_EncryptionKey p) (pn_ParentHash p)
          (filterLeaves (pn_UnmergedLeaves p) excluded))
  | _ => None
  end.

(** The [LeafNodeHashInput] of [treeHashExcept]. *)
(* mls/tree/treesync.go:50-61 RatchetTree.treeHashExcept *)
Definition leaf_hash_input (nodes : list (option Node)) (excluded : gset Z) (i : Z) : outcome bytes :=
  let leafIndex := i / 2 in
  let! n := index nodes i in
  let! b := WriteUint8 NodeTypeLeaf NewBuilder in
  let! b := WriteUint32 leafIndex b in
  let! b := WriteOptional LeafNode_marshal (visible_leaf excluded leafIndex n) b in
  Ok (Bytes b).

(** The [ParentNodeHashInput] of [treeHashExcept]. *)
(* mls/tree/treesync.go:74-93 RatchetTree.treeHashExcept *)
Definition parent_hash_input (nodes : list (option Node)) (excluded : gset Z) (i : Z)
  (leftHash rightHash : bytes) : outcome bytes :=
  let! n := index nodes i in
  let! b := WriteUint8 NodeTypeParent NewBuilder in
  let! b := WriteOptional ParentNode_marshal (visible_parent excluded n) b in
  let! b := WriteOpaqueV leftHash b in
  let! b := WriteOpaqueV rightHash b in
  Ok (Bytes b).

(* mls/tree/treesync.go:45-95 RatchetTree.treeHashExcept *)
Fixpoint tree_hash (fuel : nat) (suite : Suite) (nodes : list (option Node)) (leaves i : Z)
  (excluded : gset Z) : outcome bytes :=
  match fuel with
  | O => Diverge
  | S fuel =>
      match Left i with
      | None =>
          let! b := leaf_hash_input nodes excluded i in
          Ok (Suite_Hash suite b)
      | Some lft =>
          let! rgt := Right i leaves in
          let! leftHash := tree_hash fuel suite nodes leaves lft excluded in
          let! rightHash := tree_hash fuel suite nodes leaves (default 0 rgt) excluded in
          let! b := parent_hash_input nodes excluded i leftHash rightHash in
          Ok (Suite_Hash suite b)
      end
  end.

(* mls/tree/treesync.go:45-95 RatchetTree.treeHashExcept *)
Definition treeHashExcept (t : RatchetTree) (i : Z) (excluded : gset Z) : outcome bytes :=
  tree_hash tree_fuel (rt_suite t) (rt_nodes t) (leafCount t) i excluded.

(* mls/tree/treesync.go:31-33 RatchetTree.TreeHash *)
Definition TreeHash (t : RatchetTree) (i : Z) : outcome bytes := treeHashExcept t i ∅.

(* mls/tree/treesync.go:36-38 RatchetTree.RootTreeHash *)
Definition RootTreeHash (t : RatchetTree) : outcome bytes := TreeHash t (Root (leafCount t)).

(** [t.nodes[pi].Parent], dereferenced. *)
Definition parent_at (t : RatchetTree) (pi : Z) : outcome ParentNode :=
  let! n := index (rt_nodes t) pi in
  match n with
  | Some (mkNode _ (Some p)) => Ok p
  | _ => Panic
  end.

(* mls/tree/validation.go:24-42 RatchetTree.parentHashOf *)
Definition parentHashOf (t : RatchetTree) (pi si : Z) : outcome bytes :=
  let! p := parent_at t pi in
  let excluded := leafSet (pn_UnmergedLeaves p) in
  let! origSibHash := treeHashExcept t si excluded in
  let! b := WriteOpaqueV (pn_EncryptionKey p) NewBuilder in
  let! b := WriteOpaqueV (pn_ParentHash p) b in
  let! b := WriteOpaqueV origSibHash b in
  Ok (Suite_Hash (rt_suite t) (Bytes b)).

(* mls/tree/validation.go:46-58 RatchetTree.nodeParentHash *)
Definition nodeParentHash (t : RatchetTree) (i : Z) : outcome (option bytes) :=
  let! n := index (rt_nodes t) i in
  match n with
  | None => Ok None
  | Some (mkNode (Some l) _) =>
      Ok (if ln_LeafNodeSource l =? LeafNodeSourceCommit then Some (ln_ParentHash l) else None)
  | Some (mkNode None (Some p)) => Ok (Some (pn_ParentHash p))
  | Some (mkNode None None) => Panic
  end.

(** The node indices [2*l] of excluded leaves below [ci], and the resolution
    without [d]. *)
(* mls/tree/validation.go:84-96 RatchetTree.hasParentHashMatch *)
Definition expected_set (excluded : gset Z) (ci : Z) : gset Z :=
  filter (fun ni => subtreeContains ci ni = true) (set_map (fun l => u32 (2 * l)) excluded).
(* mls/tree/validation.go:91-96 RatchetTree.hasParentHashMatch *)
Definition actual_set (res : list Z) (d : Z) : gset Z := list_to_set res ∖ {[d]}.

(** The loop over the resolution. *)
(* mls/tree/validation.go:77-101 RatchetTree.hasParentHashMatch *)
Fixpoint match_loop (t : RatchetTree) (ci : Z) (want : bytes) (excluded : gset Z) (res todo : list Z)
  : outcome bool :=
  match todo with
  | [] => Ok false
  | d :: todo =>
      let! ph := nodeParentHash t d in
      if match ph with Some h => bytes_Equal h want | None => false end then
        if decide (actual_set res d = expected_set excluded ci) then Ok true
        else match_loop t ci want excluded res todo
      else match_loop t ci want excluded res todo
  end.

(* mls/tree/validation.go:70-102 RatchetTree.hasParentHashMatch *)
Definition hasParentHashMatch (t : RatchetTree) (pi ci si : Z) : outcome bool :=
  let! want := parentHashOf t pi si in
  let! res := Resolution t ci in
  let! p := parent_at t pi in
  match_loop t ci want (leafSet (pn_UnmergedLeaves p)) res res.

(** The body of the loop over the nodes: [false] stops it. *)
(* mls/tree/validation.go:110-126 RatchetTree.VerifyParentHashes *)
Definition parent_hash_valid (t : RatchetTree) (leaves i : Z) : outcome bool :=
  let! n := index (rt_nodes t) i in
  match n with
  | Some (mkNode _ (Some _)) =>
      let l := default 0 (Left i) in
      let! r := Right i leaves in
      let r := default 0 r in
      let! okL := hasParentHashMatch t i l r in
      let! okR := hasParentHashMatch t i r l in
      Ok (negb (Bool.eqb okL okR))
  | _ => Ok true
  end.

(** [for i := uint32(0); i < t.Width(); i++], with [fuel] indices left. *)
(* mls/tree/validation.go:109-127 RatchetTree.VerifyParentHashes *)
Fixpoint verify_loop (t : RatchetTree) (leaves : Z) (fuel : nat) (i : Z) : outcome bool :=
  match fuel with
  | O => Ok true
  | S fuel =>
      let! ok := parent_hash_valid t leaves i in
      if (ok : bool) then verify_loop t leaves fuel (i + 1) else Ok false
  end.

(* mls/tree/validation.go:107-129 RatchetTree.VerifyParentHashes *)
Definition VerifyParentHashes (t : RatchetTree) : outcome bool :=
  verify_loop t (leafCount t) (Z.to_nat (Width t)) 0.

(** The loop over the leaves, with the keys seen so far. *)
(* mls/tree/validation.go:137-160 RatchetTree.VerifyLeafSignatures *)
Fixpoint leaf_signatures_loop (t : RatchetTree) (groupID : bytes) (fuel : nat) (i : Z)
  (sigKeys encKeys : gset bytes) : outcome unit :=
  if i <? Width t then
    match fuel with
    | O => Diverge
    | S fuel =>
        let! n := index (rt_nodes t) i in
        match n with
        | Some (mkNode (Some l) _) =>
            let leafIndex := i / 2 in
            let! ok := LeafNode_verifySignature l (rt_suite t) groupID leafIndex in
            if negb ok then Err "tree: invalid signature on leaf" else
            if decide (ln_SignatureKey l ∈ sigKeys) then Err "tree: duplicate signature_key at leaf" else
            if decide (ln_EncryptionKey l ∈ encKeys) then Err "tree: duplicate encryption_key at leaf" else
            leaf_signatures_loop t groupID fuel (u32 (i + 2))
              ({[ln_SignatureKey l]} ∪ sigKeys) ({[ln_EncryptionKey l]} ∪ encKeys)
        | _ => leaf_signatures_loop t groupID fuel (u32 (i + 2)) sigKeys encKeys
        end
    end
  else Ok tt.

(* mls/tree/validation.go:134-162 RatchetTree.VerifyLeafSignatures *)
Definition VerifyLeafSignatures (t : RatchetTree) (groupID : bytes) : outcome unit :=
  leaf_signatures_loop t groupID (S (length (rt_nodes t))) 0 ∅ ∅.
End sync.

(** * Resolutions *)

Lemma div_pow_step a e : 0 < e -> a / 2 ^ e = a / 2 ^ (e - 1) / 2.
Proof.
  intros He. rewrite Z.div_div by (try apply pow2_pos; lia).
  rewrite <- (Z.mul_comm 2), <- pow2_S by lia. do 2 f_equal. lia.
Qed.

(** [x] is a populated node of the subtree at level [k] and position [j]. *)
Definition populated_in (nodes : list (option Node)) (k j x : Z) : Prop :=
  exists k' j', 0 <= k' <= k /\ 0 <= j' /\ x = node k' j' /\ j' / 2 ^ (k - k') = j /\ is_Some (slot nodes x).

(** Leaf [l] can decrypt what is encrypted to [res]: it is listed itself, or an
    ancestor is of which it is not an unmerged leaf. *)
Definition covered (nodes : list (option Node)) (k l : Z) (res : list Z) : Prop :=
  (2 * l) ∈ res \/
  exists k' p, 0 < k' <= k /\ node k' (l / 2 ^ k') ∈ res /\
    slot nodes (node k' (l / 2 ^ k')) = parent_node p /\ l ∉ pn_UnmergedLeaves p.

Lemma populated_in_up nodes k j b x : 0 < k -> (b = 0 \/ b = 1) ->
  populated_in nodes (k - 1) (2 * j + b) x -> populated_in nodes k j x.
Proof.
  intros Hk Hb (k' & j' & Hk' & Hj' & -> & E & Hs). exists k', j'. split_and!; [lia..|done| |done].
  rewrite div_pow_step by lia. replace (k - k' - 1) with (k - 1 - k') by lia. rewrite E. zlia.
Qed.

Lemma covered_app nodes k l r1 r2 : 0 < k ->
  covered nodes (k - 1) l r1 \/ covered nodes (k - 1) l r2 -> covered nodes k l (r1 ++ r2).
Proof.
  intros Hk [H|H]; destruct H as [H|(k' & p & ? & ? & ? & ?)].
  1,3: left; apply elem_of_app; auto.
  all: right; exists k', p; split_and!; try done; try lia; apply elem_of_app; auto.
Qed.

Section resolution.
Context (d : Z) (nodes : list (option Node)) (Hinv : tree_inv d nodes).

Lemma in_range k j : 0 <= k <= d -> 0 <= j < 2 ^ (d - k) -> 0 <= node k j < len nodes.
Proof using Hinv.
  intros Hk Hj. pose proof (ti_depth _ _ Hinv) as Hd. rewrite (ti_len _ _ Hinv).
  split; [apply node_nonneg; lia|]. apply complete_in; lia.
Qed.

Lemma child_range k j : 0 < k <= d -> 0 <= j < 2 ^ (d - k) ->
  0 <= 2 * j < 2 ^ (d - (k - 1)) /\ 0 <= 2 * j + 1 < 2 ^ (d - (k - 1)).
Proof.
  intros Hk Hj. replace (d - (k - 1)) with (d - k + 1) by lia. rewrite pow2_S by lia. lia.
Qed.

(** The recursive functions of the tree, one level down. *)
Lemma Left_complete k j : 0 < k <= d -> 0 <= j -> Left (node k j) = Some (node (k - 1) (2 * j)).
Proof using Hinv. intros. pose proof (ti_depth _ _ Hinv). apply Left_node; lia. Qed.

Lemma Left_leaf_none j : 0 <= j -> Left (node 0 j) = None.
Proof using. intros. by apply Left_leaf. Qed.

Lemma resolve_node_ok k j n : 0 <= k <= d -> 0 <= j -> slot nodes (node k j) = Some n ->
  Forall (populated_in nodes k j) (resolve_node (node k j) n) /\
  forall l, 0 <= l -> l / 2 ^ k = j -> populated nodes l -> covered nodes k l (resolve_node (node k j) n).
Proof using Hinv.
  intros Hk Hj Hn. pose proof (ti_depth _ _ Hinv) as Hd.
  assert (populated_in nodes k j (node k j)) as Hself.
  { exists k, j. rewrite Z.sub_diag, Z.pow_0_r, Z.div_1_r, Hn. split_and!; eauto; lia. }
  destruct (Z.eq_dec k 0) as [->|].
  - rewrite node_leaf in Hn. destruct (ti_leaf _ _ Hinv j n Hj Hn) as [ln ->]. cbn. split.
    + constructor; [done|constructor].
    + intros l Hl <- _. rewrite Z.div_1_r. left. rewrite node_leaf. by left.
  - destruct (ti_parent _ _ Hinv k j n) as [p [-> Hs Hb _ _]]; [lia|done..|]. cbn [resolve_node nd_Parent].
    assert (forall l, l ∈ pn_UnmergedLeaves p -> 0 <= l /\ l / 2 ^ k = j /\ populated nodes l /\ u32 (2 * l) = 2 * l) as Hul.
    { intros l Hl. rewrite Forall_forall in Hb. destruct (Hb l Hl) as (? & ? & Hp). split_and!; auto.
      pose proof (populated_range d nodes l (ti_len _ _ Hinv) ltac:(lia) Hp). by apply (leaf_bound d). }
    split.
    + constructor; [done|]. apply Forall_forall. intros x (l & -> & Hl)%list_elem_of_fmap.
      destruct (Hul l Hl) as (? & ? & Hp & ->). exists 0, l. rewrite node_leaf, Z.sub_0_r.
      split_and!; auto; lia.
    + intros l Hl Hlj Hp. destruct (decide (l ∈ pn_UnmergedLeaves p)) as [Hin|Hni].
      * left. right. apply list_elem_of_fmap. exists l. split; [|done]. symmetry. by apply Hul.
      * right. exists k, p. rewrite Hlj. split_and!; [lia..|by left|done|done].
Qed.

(** The resolution of a subtree lists populated nodes of the subtree, and every
    member below it can decrypt. *)
Lemma resolution_ok fuel k j : 0 <= k <= d -> 0 <= j < 2 ^ (d - k) -> k < Z.of_nat fuel ->
  exists res, resolution fuel nodes (2 ^ d) (node k j) = Ok res /\
    Forall (populated_in nodes k j) res /\
    forall l, 0 <= l -> l / 2 ^ k = j -> populated nodes l -> covered nodes k l res.
Proof using Hinv.
  pose proof (ti_depth _ _ Hinv) as Hd. revert k j. induction fuel as [|fuel IH]; intros k j Hk Hj Hf; [lia|].
  cbn [resolution]. rewrite index_slot by (apply in_range; lia). cbn [obind].
  destruct (slot nodes (node k j)) as [n|] eqn:E.
  { eexists. split; [done|]. apply resolve_node_ok; done || lia. }
  destruct (Z.eq_dec k 0) as [->|].
  - rewrite Left_leaf_none by lia. exists []. split_and!; [done|constructor|].
    intros l Hl <- [n Hn]. rewrite Z.div_1_r, node_leaf in E. congruence.
  - rewrite Left_complete, complete_Right by lia. cbn [obind default]. unfold id.
    destruct (child_range k j) as [Hl Hr]; [lia..|].
    destruct (IH (k - 1) (2 * j)) as (rl & -> & HFl & HCl); [lia..|].
    destruct (IH (k - 1) (2 * j + 1)) as (rr & -> & HFr & HCr); [lia..|].
    cbn [obind]. eexists. split_and!; [done|..].
    + apply Forall_app. split; (eapply Forall_impl; [eassumption|]); intros x Hx.
      * apply (populated_in_up nodes k j 0); [lia|auto|]. by rewrite Z.add_0_r.
      * apply (populated_in_up nodes k j 1); [lia|auto|done].
    + intros l Hl0 Hlj Hp. apply covered_app; [lia|]. rewrite div_pow_step in Hlj by lia.
      pose proof (Z.div_mod (l / 2 ^ (k - 1)) 2 ltac:(lia)).
      pose proof (Z.mod_pos_bound (l / 2 ^ (k - 1)) 2 ltac:(lia)).
      destruct (Z.eq_dec (l / 2 ^ (k - 1) mod 2) 0).
      * left. apply HCl; [done|lia|done].
      * right. apply HCr; [done|lia|done].
Qed.

(** A resolution is empty exactly when no member is below the node. *)
Lemma populated_in_leaf k j x : 0 <= k <= d -> populated_in nodes k j x ->
  exists l, 0 <= l /\ l / 2 ^ k = j /\ populated nodes l.
Proof using Hinv.
  intros Hk (k' & j' & Hk' & Hj' & -> & E & n & Hn).
  destruct (Z.eq_dec k' 0) as [->|].
  { rewrite node_leaf in Hn. rewrite Z.sub_0_r in E. exists j'. split_and!; [done..|]. by exists n. }
  destruct (ti_parent _ _ Hinv k' j' n) as [p [_ _ _ (l & Hl & Hlj & Hp) _]]; [lia|done..|].
  exists l. split_and!; [done| |done]. rewrite <- E.
  rewrite <- (div_half l k' j') by (lia || auto).
  rewrite Z.div_div by (try apply pow2_pos; lia). rewrite <- Z.pow_add_r by lia. do 2 f_equal. lia.
Qed.
End resolution.

(** * Tree hashes *)

Lemma emits_of {A} {ok : A -> Prop} {w r} `{!Wire ok w r} x b b' :
  w x b = Ok b' -> exists e, emits (w x) e /\ b' = b ++ e.
Proof. intros H. by apply wire_append in H. Qed.

Lemma is_u32_of l : 0 <= l < 2 ^ 31 -> is_u32 l.
Proof. unfold is_u32. lia. Qed.

Section hash.
Context {C : StdCrypto}.

Lemma hash_input_returns nodes excluded i : 0 <= i < len nodes ->
  returns (leaf_hash_input nodes excluded i) /\ forall h h', returns (parent_hash_input nodes excluded i h h').
Proof.
  intros Hi. unfold leaf_hash_input, parent_hash_input. rewrite index_slot by done. cbn [obind]. split.
  - do 3 (apply returns_obind; [apply write_returns|intros ? _]). done.
  - intros h h'. do 4 (apply returns_obind; [apply write_returns|intros ? _]). done.
Qed.

(** Tree hashing returns on every node of a well-formed tree. *)
Lemma tree_hash_returns d nodes suite excluded fuel k j : tree_inv d nodes ->
  0 <= k <= d -> 0 <= j < 2 ^ (d - k) -> k < Z.of_nat fuel ->
  returns (tree_hash fuel suite nodes (2 ^ d) (node k j) excluded).
Proof.
  intros Hinv. pose proof (ti_depth _ _ Hinv) as Hd. revert k j.
  induction fuel as [|fuel IH]; intros k j Hk Hj Hf; [lia|]. cbn [tree_hash].
  destruct (hash_input_returns nodes excluded (node k j)) as [HL HP]; [by apply (in_range d)|].
  destruct (Z.eq_dec k 0) as [->|Hk0].
  - rewrite Left_leaf_none by lia. by apply returns_obind.
  - rewrite (Left_complete d nodes Hinv), complete_Right by lia. cbn [obind default]. unfold id.
    destruct (child_range d k j) as [Hl Hr]; [lia..|].
    apply returns_obind; [apply IH; lia|intros lh _].
    apply returns_obind; [apply IH; lia|intros rh _]. by apply returns_obind.
Qed.

Definition parent_of (n : option Node) : option ParentNode := n ≫= nd_Parent.

Lemma visible_leaf_all l n : visible_leaf ∅ l n = leaf_of n.
Proof. destruct n as [[[ln|] ?]|]; [|done..]. cbn. by rewrite decide_False by set_solver. Qed.

Lemma visible_parent_all n : visible_parent ∅ n = parent_of n.
Proof. destruct n as [[? [p|]]|]; [|done..]. cbn. by rewrite decide_True. Qed.

(** The hash inputs determine what they hash. *)
Lemma leaf_input_inj nodes nodes' i b : 0 <= i < len nodes -> 0 <= i < len nodes' ->
  slots_ok nodes -> slots_ok nodes' ->
  leaf_hash_input nodes ∅ i = Ok b -> leaf_hash_input nodes' ∅ i = Ok b ->
  leaf_of (slot nodes i) = leaf_of (slot nodes' i).
Proof.
  intros Hi Hi' Hok Hok' H H'. unfold leaf_hash_input in *. rewrite index_slot in H, H' by done.
  cbn [obind] in *.
  assert (forall ns, slots_ok ns -> match leaf_of (slot ns i) with Some x => LeafNode_ok x | None => True end) as Hl.
  { intros ns Hns. unfold slot. destruct (ns !! Z.to_nat i) as [[[[l|] [p|]]|]|] eqn:E; simpl; try done;
      unfold slots_ok in Hns; rewrite Forall_lookup in Hns; specialize (Hns _ _ E); simpl in Hns; done. }
  rewrite !visible_leaf_all in *.
  apply obind_ok in H as (b1 & [= <-] & H). apply obind_ok in H as (b2 & [= <-] & H).
  apply obind_ok in H as (b3 & Hb3 & [= <-]).
  apply obind_ok in H' as (c1 & [= <-] & H'). apply obind_ok in H' as (c2 & [= <-] & H').
  apply obind_ok in H' as (c3 & Hc3 & [= E]).
  apply emits_of in Hb3 as (e & He & ->). apply emits_of in Hc3 as (e' & He' & ->).
  unfold Bytes in E. apply app_inv_head in E. subst e'.
  destruct (wire_prefix_inj (w := WriteOptional LeafNode_marshal) (leaf_of (slot nodes i))
    (leaf_of (slot nodes' i)) e e [] []) as [E _]; [by apply Hl|by apply Hl|done..].
Qed.

Lemma parent_input_inj nodes nodes' i lh rh lh' rh' b :
  0 <= i < len nodes -> 0 <= i < len nodes' -> slots_ok nodes -> slots_ok nodes' ->
  parent_hash_input nodes ∅ i lh rh = Ok b -> parent_hash_input nodes' ∅ i lh' rh' = Ok b ->
  parent_of (slot nodes i) = parent_of (slot nodes' i) /\ lh = lh' /\ rh = rh'.
Proof.
  intros Hi Hi' Hok Hok' H H'. unfold parent_hash_input in *. rewrite index_slot in H, H' by done.
  cbn [obind] in *.
  assert (forall ns, slots_ok ns -> match parent_of (slot ns i) with Some x => ParentNode_ok x | None => True end) as Hl.
  { intros ns Hns. unfold slot. destruct (ns !! Z.to_nat i) as [[[[l|] [p|]]|]|] eqn:E; simpl; try done;
      unfold slots_ok in Hns; rewrite Forall_lookup in Hns; specialize (Hns _ _ E); simpl in Hns; done. }
  rewrite !visible_parent_all in *.
  apply obind_ok in H as (b1 & [= <-] & H). apply obind_ok in H as (b2 & Hb2 & H).
  apply obind_ok in H as (b3 & Hb3 & H). apply obind_ok in H as (b4 & Hb4 & [= <-]).
  apply obind_ok in H' as (c1 & [= <-] & H'). apply obind_ok in H' as (c2 & Hc2 & H').
  apply obind_ok in H' as (c3 & Hc3 & H'). apply obind_ok in H' as (c4 & Hc4 & [= E]).
  apply emits_of in Hb2 as (e2 & He2 & ->), Hb3 as (e3 & He3 & ->), Hb4 as (e4 & He4 & ->).
  apply emits_of in Hc2 as (f2 & Hf2 & ->), Hc3 as (f3 & Hf3 & ->), Hc4 as (f4 & Hf4 & ->).
  unfold Bytes in E. rewrite <- !app_assoc in E. apply app_inv_head in E. symmetry in E.
  apply (wire_prefix_inj (w := WriteOptional ParentNode_marshal) (parent_of (slot nodes i))
    (parent_of (slot nodes' i))) in E as [-> E]; [|by apply Hl|by apply Hl|done..].
  apply (wire_prefix_inj (w := WriteOpaqueV) lh lh') in E as [-> E]; [|done..].
  split_and!; [done..|]. rewrite <- (app_nil_r e4), <- (app_nil_r f4) in E.
  by apply (wire_prefix_inj (w := WriteOpaqueV) rh rh') in E as [-> _].
Qed.

(** The inputs that [tree_hash] hashes for the subtree of [i]. *)
Fixpoint hash_inputs (fuel : nat) (suite : Suite) (nodes : list (option Node)) (leaves i : Z) : list bytes :=
  match fuel with
  | O => []
  | S fuel =>
      match Left i with
      | None => match leaf_hash_input nodes ∅ i with Ok b => [b] | _ => [] end
      | Some lft =>
          match Right i leaves with
          | Ok rgt =>
              match (let! lh := tree_hash fuel suite nodes leaves lft ∅ in
                     let! rh := tree_hash fuel suite nodes leaves (default 0 rgt) ∅ in
                     parent_hash_input nodes ∅ i lh rh) with
              | Ok b => [b]
              | _ => []
              end ++ hash_inputs fuel suite nodes leaves lft ++ hash_inputs fuel suite nodes leaves (default 0 rgt)
          | _ => []
          end
      end
  end.

(** Two different inputs, one of each list, with the same digest. *)
Definition collision (suite : Suite) (xs ys : list bytes) : Prop :=
  exists x y, x ∈ xs /\ y ∈ ys /\ x <> y /\ Suite_Hash suite x = Suite_Hash suite y.

Lemma hash_inj_or suite xs ys x y : x ∈ xs -> y ∈ ys ->
  Suite_Hash suite x = Suite_Hash suite y -> x = y \/ collision suite xs ys.
Proof. intros Hx Hy H. destruct (decide (x = y)) as [|Hne]; [by left|]. right. by exists x, y. Qed.

Lemma collision_sub suite xs ys xs' ys' : xs ⊆ xs' -> ys ⊆ ys' -> collision suite xs ys -> collision suite xs' ys'.
Proof. intros Hx Hy (x & y & ? & ? & ? & ?). exists x, y. split_and!; [by apply Hx|by apply Hy|done..]. Qed.

(** Equal hashes of a subtree mean equal subtrees, or a collision among the
    inputs hashed. *)
Lemma tree_hash_binding d nodes nodes' suite fuel k j h :
  tree_inv d nodes -> tree_inv d nodes' -> slots_ok nodes -> slots_ok nodes' ->
  0 <= k <= d -> 0 <= j < 2 ^ (d - k) ->
  tree_hash fuel suite nodes (2 ^ d) (node k j) ∅ = Ok h ->
  tree_hash fuel suite nodes' (2 ^ d) (node k j) ∅ = Ok h ->
  (forall k' j', 0 <= k' <= k -> 0 <= j' -> j' / 2 ^ (k - k') = j ->
     slot nodes (node k' j') = slot nodes' (node k' j')) \/
  collision suite (hash_inputs fuel suite nodes (2 ^ d) (node k j)) (hash_inputs fuel suite nodes' (2 ^ d) (node k j)).
Proof.
  intros Hinv Hinv' Hok Hok'. pose proof (ti_depth _ _ Hinv) as Hd. revert k j h.
  induction fuel as [|fuel IH]; intros k j h Hk Hj H H'; [done|]. cbn [tree_hash hash_inputs] in *.
  pose proof (in_range d nodes Hinv k j Hk Hj) as Hr. pose proof (in_range d nodes' Hinv' k j Hk Hj) as Hr'.
  destruct (Z.eq_dec k 0) as [->|Hk0].
  - rewrite Left_leaf_none in H, H' |- * by lia.
    apply obind_ok in H as (b & Hb & [= <-]). apply obind_ok in H' as (b' & Hb' & [= Hh]). rewrite Hb, Hb'.
    destruct (hash_inj_or suite [b] [b'] b b') as [<-|]; [by left|by left|done| |by right]. left.
    intros k' j' Hk' Hj' E. assert (k' = 0) as -> by lia. rewrite Z.sub_0_r, Z.pow_0_r, Z.div_1_r in E. subst j'.
    pose proof (leaf_input_inj nodes nodes' (node 0 j) b Hr Hr' Hok Hok' Hb Hb') as HL. rewrite node_leaf in *.
    destruct (slot nodes (2 * j)) as [n|] eqn:E1, (slot nodes' (2 * j)) as [n'|] eqn:E2; try done;
      try (destruct (ti_leaf _ _ Hinv j n) as [ln ->]; [lia|done|]);
      try (destruct (ti_leaf _ _ Hinv' j n') as [ln' ->]; [lia|done|]); simpl in HL; congruence.
  - rewrite (Left_complete d nodes Hinv), complete_Right in H, H' |- * by lia.
    cbn [obind default] in H, H' |- *. unfold id in H, H' |- *.
    apply obind_ok in H as (lh & Hlh & H). apply obind_ok in H as (rh & Hrh & H). apply obind_ok in H as (b & Hb & [= <-]).
    apply obind_ok in H' as (lh' & Hlh' & H'). apply obind_ok in H' as (rh' & Hrh' & H').
    apply obind_ok in H' as (b' & Hb' & [= Hh]).
    rewrite Hlh, Hlh', Hrh, Hrh'. cbn [obind]. rewrite Hb, Hb'.
    match goal with |- _ \/ collision _ ?xs ?ys => set (X := xs); set (Y := ys) end.
    destruct (hash_inj_or suite X Y b b') as [<-|]; [by left|by left|done| |by right].
    destruct (parent_input_inj nodes nodes' _ _ _ _ _ b Hr Hr' Hok Hok' Hb Hb') as (HP & <- & <-).
    destruct (child_range d k j) as [Hl0 Hr0]; [lia..|].
    destruct (IH (k - 1) (2 * j) lh) as [HL|HL]; [lia|lia|done|done| |].
    2: { right. eapply collision_sub; [..|exact HL]; set_solver. }
    destruct (IH (k - 1) (2 * j + 1) rh) as [HR|HR]; [lia|lia|done|done| |].
    2: { right. eapply collision_sub; [..|exact HR]; set_solver. }
    left. intros k' j' Hk' Hj' E. destruct (Z.eq_dec k' k) as [->|].
    + rewrite Z.sub_diag, Z.pow_0_r, Z.div_1_r in E. subst j'.
      destruct (slot nodes (node k j)) as [n|] eqn:E1, (slot nodes' (node k j)) as [n'|] eqn:E2; try done;
        try (destruct (ti_parent _ _ Hinv k j n) as [p [-> _ _ _ _]]; [lia|lia|done|]);
        try (destruct (ti_parent _ _ Hinv' k j n') as [p' [-> _ _ _ _]]; [lia|lia|done|]); simpl in HP; congruence.
    + rewrite div_pow_step in E by lia. replace (k - k' - 1) with (k - 1 - k') in E by lia.
      pose proof (Z.div_mod (j' / 2 ^ (k - 1 - k')) 2 ltac:(lia)).
      pose proof (Z.mod_pos_bound (j' / 2 ^ (k - 1 - k')) 2 ltac:(lia)).
      destruct (Z.eq_dec (j' / 2 ^ (k - 1 - k') mod 2) 0); [apply HL|apply HR]; lia.
Qed.
End hash.

(** * Validation *)

Section validation.
Context {C : StdCrypto} (d : Z) (t : RatchetTree) (Hinv : tree_inv d (rt_nodes t)).

Lemma leaves_d : leafCount t = 2 ^ d /\ Width t = 2 ^ (d + 1) - 1.
Proof using Hinv. apply leafCount_complete; apply Hinv. Qed.

(** What the scan from leaf [m] accepts, when the keys [S] and [E] were seen. *)
Definition leaves_valid (groupID : bytes) (m : Z) (S E : gset bytes) : Prop :=
  (forall l ln, m <= l -> roster_of (rt_nodes t) !! l = Some ln ->
     LeafNode_verifySignature ln (rt_suite t) groupID l = Ok true /\
     ln_SignatureKey ln ∉ S /\ ln_EncryptionKey ln ∉ E) /\
  (forall l l' ln ln', m <= l -> m <= l' -> l <> l' ->
     roster_of (rt_nodes t) !! l = Some ln -> roster_of (rt_nodes t) !! l' = Some ln' ->
     ln_SignatureKey ln <> ln_SignatureKey ln' /\ ln_EncryptionKey ln <> ln_EncryptionKey ln').

Lemma leaves_valid_skip groupID m S E : roster_of (rt_nodes t) !! m = None ->
  leaves_valid groupID m S E <-> leaves_valid groupID (m + 1) S E.
Proof using.
  clear Hinv d.
  intros Hm. split; intros [H1 H2]; split.
  - intros l ln Hl. apply H1. lia.
  - intros l l' ln ln' Hl Hl'. apply H2; lia.
  - intros l ln Hl Hln. apply H1; [|done]. destruct (Z.eq_dec l m) as [->|]; [congruence|lia].
  - intros l l' ln ln' Hl Hl' Hne Hln Hln'. apply (H2 l l'); try done.
    + destruct (Z.eq_dec l m) as [->|]; [congruence|lia].
    + destruct (Z.eq_dec l' m) as [->|]; [congruence|lia].
Qed.

Lemma leaves_valid_step groupID m S E ln : roster_of (rt_nodes t) !! m = Some ln ->
  leaves_valid groupID m S E <->
  LeafNode_verifySignature ln (rt_suite t) groupID m = Ok true /\
  ln_SignatureKey ln ∉ S /\ ln_EncryptionKey ln ∉ E /\
  leaves_valid groupID (m + 1) ({[ln_SignatureKey ln]} ∪ S) ({[ln_EncryptionKey ln]} ∪ E).
Proof using.
  clear Hinv d.
  intros Hm. split.
  - intros [H1 H2]. destruct (H1 m ln ltac:(lia) Hm) as (Hv & Hs & He). split_and!; [done..|]. split.
    + intros l ln' Hl Hln. destruct (H1 l ln' ltac:(lia) Hln) as (? & ? & ?).
      destruct (H2 l m ln' ln) as [? ?]; [lia..|done|done|]. split_and!; [done|set_solver..].
    + intros l l' ln1 ln2 Hl Hl'. apply H2; lia.
  - intros (Hv & Hs & He & H1 & H2). split.
    + intros l ln' Hl Hln. destruct (Z.eq_dec l m) as [->|].
      * assert (ln' = ln) as -> by congruence. auto.
      * destruct (H1 l ln') as (? & ? & ?); [lia|done|]. split_and!; [done|set_solver..].
    + intros l l' ln1 ln2 Hl Hl' Hne E1 E2.
      destruct (Z.eq_dec l m) as [->|], (Z.eq_dec l' m) as [->|]; [done| | |apply (H2 l l'); done || lia].
      * destruct (H1 l' ln2) as (_ & ? & ?); [lia|done|]. assert (ln1 = ln) as -> by congruence. set_solver.
      * destruct (H1 l ln1) as (_ & ? & ?); [lia|done|]. assert (ln2 = ln) as -> by congruence. set_solver.
Qed.

Lemma leaves_valid_end groupID m S E : 2 ^ d <= m -> leaves_valid groupID m S E.
Proof using Hinv.
  intros Hm. assert (forall l, m <= l -> roster_of (rt_nodes t) !! l = None) as Hn.
  { intros l Hl. pose proof (ti_depth _ _ Hinv). pose proof (pow2_pos d).
    destruct (roster_of (rt_nodes t) !! l) eqn:E0; [|done].
    assert (populated (rt_nodes t) l) as Hp by (apply (populated_roster d); [done|lia|rewrite E0; eauto]).
    apply (populated_range d) in Hp; [lia|apply Hinv|lia]. }
  split.
  - intros l ln Hl. by rewrite Hn.
  - intros l l' ln ln' Hl Hl' _. by rewrite Hn.
Qed.

Lemma leaf_signatures_loop_ok groupID fuel m S E :
  0 <= m -> 2 ^ (d + 1) - 1 - 2 * m <= Z.of_nat fuel ->
  leaf_signatures_loop t groupID fuel (2 * m) S E = Ok tt <-> leaves_valid groupID m S E.
Proof using Hinv.
  pose proof (ti_depth _ _ Hinv) as Hd. pose proof (ti_len _ _ Hinv) as Hlen. destruct leaves_d as [_ Hw].
  assert (2 ^ (d + 1) <= 2 ^ 31) by (apply Z.pow_le_mono_r; lia).
  pose proof (pow2_S d ltac:(lia)) as HS. pose proof (pow2_pos d).
  revert m S E. induction fuel as [|fuel IH]; intros m S E Hm Hf; cbn [leaf_signatures_loop];
    rewrite Hw; destruct (Z.ltb_spec (2 * m) (2 ^ (d + 1) - 1)); try lia.
  1,3: split; [intros _; apply leaves_valid_end; lia|done].
  rewrite index_slot by lia. cbn [obind]. replace (u32 (2 * m + 2)) with (2 * (m + 1))
    by (unfold u32; rewrite Z.mod_small; lia). replace (2 * m / 2) with m by zlia.
  pose proof (lookup_roster (rt_nodes t) m Hm) as HR.
  destruct (slot (rt_nodes t) (2 * m)) as [n|] eqn:En; cbn in HR.
  2: { rewrite IH by lia. symmetry. by apply leaves_valid_skip. }
  destruct (ti_leaf _ _ Hinv m n Hm En) as [ln ->]. cbn in HR. rewrite (leaves_valid_step _ _ _ _ ln) by done.
  destruct (LeafNode_verifySignature ln (rt_suite t) groupID m) as [[]| | |]; cbn [obind negb];
    [|split; [done|by intros []]..].
  repeat case_decide; [split; [done|naive_solver]..|]. rewrite IH by lia. naive_solver.
Qed.

Lemma treeHashExcept_returns k j excluded : 0 <= k <= d -> 0 <= j < 2 ^ (d - k) ->
  returns (treeHashExcept t (node k j) excluded).
Proof using Hinv.
  intros Hk Hj. pose proof (ti_depth _ _ Hinv). unfold treeHashExcept. rewrite (proj1 leaves_d).
  apply (tree_hash_returns d); [done..|unfold tree_fuel; lia].
Qed.

Lemma Resolution_ok k j : 0 <= k <= d -> 0 <= j < 2 ^ (d - k) ->
  exists res, Resolution t (node k j) = Ok res /\ Forall (populated_in (rt_nodes t) k j) res /\
    forall l, 0 <= l -> l / 2 ^ k = j -> populated (rt_nodes t) l -> covered (rt_nodes t) k l res.
Proof using Hinv.
  intros Hk Hj. pose proof (ti_depth _ _ Hinv). unfold Resolution. rewrite (proj1 leaves_d).
  apply (resolution_ok d (rt_nodes t) Hinv tree_fuel k j); [done..|unfold tree_fuel; lia].
Qed.

Lemma nodeParentHash_returns k j x : 0 <= k <= d -> 0 <= j < 2 ^ (d - k) ->
  populated_in (rt_nodes t) k j x -> returns (nodeParentHash t x).
Proof using Hinv.
  intros Hk Hj (k' & j' & Hk' & Hj' & -> & E & n & Hn). unfold nodeParentHash.
  assert (node k' j' < len (rt_nodes t)).
  { destruct (Z.lt_ge_cases (node k' j') (len (rt_nodes t))); [done|]. by rewrite slot_beyond in Hn. }
  rewrite index_slot, Hn by (split; [apply node_nonneg; lia|done]). cbn [obind].
  destruct (Z.eq_dec k' 0) as [->|].
  - rewrite node_leaf in Hn. by destruct (ti_leaf _ _ Hinv j' n Hj' Hn) as [ln ->].
  - destruct (ti_parent _ _ Hinv k' j' n) as [p [-> _ _ _ _]]; [lia|done..].
Qed.

Lemma match_loop_returns ci want excluded res todo :
  Forall (fun x => returns (nodeParentHash t x)) todo -> returns (match_loop t ci want excluded res todo).
Proof using.
  clear Hinv d.
  induction 1 as [|x todo Hx _ IH]; cbn [match_loop]; [done|].
  apply returns_obind; [done|]. intros ph _. by repeat case_match.
Qed.

Lemma hasParentHashMatch_returns k j p ck ci sk si :
  0 < k -> 0 <= j -> slot (rt_nodes t) (node k j) = parent_node p -> node k j < len (rt_nodes t) ->
  0 <= ck <= d -> 0 <= ci < 2 ^ (d - ck) -> 0 <= sk <= d -> 0 <= si < 2 ^ (d - sk) ->
  returns (hasParentHashMatch t (node k j) (node ck ci) (node sk si)).
Proof using Hinv.
  intros Hk Hj Hp Hlt Hck Hci Hsk Hsi. unfold hasParentHashMatch.
  assert (parent_at t (node k j) = Ok p) as Hpa.
  { unfold parent_at. rewrite index_slot by (split; [apply node_nonneg; lia|done]). by rewrite Hp. }
  apply returns_obind.
  - unfold parentHashOf. rewrite Hpa. cbn [obind].
    apply returns_obind; [by apply treeHashExcept_returns|intros h _].
    do 3 (apply returns_obind; [apply write_returns|intros ? _]). done.
  - intros want _. destruct (Resolution_ok ck ci) as (res & -> & HF & _); [done..|]. cbn [obind].
    rewrite Hpa. cbn [obind]. apply match_loop_returns. eapply Forall_impl; [exact HF|].
    intros x Hx. by apply (nodeParentHash_returns ck ci).
Qed.

(** Parent-hash validation of a well-formed tree returns. *)
Lemma parent_hash_valid_returns i : 0 <= i < len (rt_nodes t) -> returns (parent_hash_valid t (2 ^ d) i).
Proof using Hinv.
  intros Hi. pose proof (ti_depth _ _ Hinv) as Hd. pose proof (ti_len _ _ Hinv) as Hlen.
  unfold parent_hash_valid. rewrite index_slot by done. cbn [obind].
  destruct (node_surj i) as (k & j & Hk & Hj & ->); [lia|].
  destruct (slot (rt_nodes t) (node k j)) as [n|] eqn:En; [|done].
  destruct (Z.eq_dec k 0) as [->|Hk0].
  { rewrite node_leaf in En. by destruct (ti_leaf _ _ Hinv j n Hj En) as [ln ->]. }
  destruct (ti_parent _ _ Hinv k j n) as [p [-> _ _ _ _]]; [lia|done..|].
  destruct Hi as [_ Hi]. rewrite Hlen in Hi. pose proof Hi as Hin. apply complete_in in Hin as [Hkd Hjd]; [|lia..].
  rewrite (Left_complete d _ Hinv), complete_Right by lia. cbn [obind default]. unfold id.
  destruct (child_range d k j) as [Hl Hr]; [lia..|].
  apply returns_obind; [apply (hasParentHashMatch_returns k j p); done || lia|intros okL _].
  apply returns_obind; [apply (hasParentHashMatch_returns k j p); done || lia|done].
Qed.

Lemma VerifyParentHashes_returns : returns (VerifyParentHashes t).
Proof using Hinv.
  unfold VerifyParentHashes. destruct leaves_d as [-> ->]. rewrite <- (ti_len _ _ Hinv).
  assert (forall fuel i, 0 <= i -> i + Z.of_nat fuel <= len (rt_nodes t) ->
    returns (verify_loop t (2 ^ d) fuel i)) as H; [|apply H; pose proof (len_nonneg (rt_nodes t)); lia].
  induction fuel as [|fuel IH]; intros i Hi Hf; cbn [verify_loop]; [done|].
  apply returns_obind; [apply parent_hash_valid_returns; lia|]. intros [] _; [apply IH; lia|done].
Qed.
End validation.

Lemma VerifyLeafSignatures_iff {C : StdCrypto} d t groupID :
  tree_inv d (rt_nodes t) ->
  VerifyLeafSignatures t groupID = Ok tt <->
  (forall l ln, roster_of (rt_nodes t) !! l = Some ln ->
     LeafNode_verifySignature ln (rt_suite t) groupID l = Ok true) /\
  (forall l l' ln ln', l <> l' -> roster_of (rt_nodes t) !! l = Some ln -> roster_of (rt_nodes t) !! l' = Some ln' ->
     ln_SignatureKey ln <> ln_SignatureKey ln' /\ ln_EncryptionKey ln <> ln_EncryptionKey ln').
Proof.
  intros Hinv. pose proof (ti_len _ _ Hinv) as Hl. unfold len in Hl.
  pose proof (leaf_signatures_loop_ok d t Hinv groupID (S (length (rt_nodes t))) 0 ∅ ∅ ltac:(lia) ltac:(lia)) as H.
  unfold VerifyLeafSignatures. change (2 * 0) with 0 in H. rewrite H. unfold leaves_valid.
  assert (forall l ln, roster_of (rt_nodes t) !! l = Some ln -> 0 <= l) as Hpos.
  { intros l ln E. destruct (Z.lt_ge_cases l 0); [by rewrite lookup_roster_neg in E|done]. }
  split; intros [H1 H2]; (split; [intros l ln|intros l l' ln ln']).
  - intros E. apply H1; eauto.
  - intros Hne E E'. apply (H2 l l'); eauto.
  - intros _ E. split_and!; [by apply H1|apply not_elem_of_empty..].
  - intros _ _ Hne E E'. by apply (H2 l l').
Qed.

Lemma RootTreeHash_complete {C : StdCrypto} d t : tree_inv d (rt_nodes t) ->
  RootTreeHash t = tree_hash tree_fuel (rt_suite t) (rt_nodes t) (2 ^ d) (node d 0) ∅.
Proof.
  intros Hinv. unfold RootTreeHash, TreeHash, treeHashExcept.
  by rewrite (proj1 (leaves_d d _ Hinv)), (complete_Root d (ti_depth _ _ Hinv)).
Qed.

Lemma slots_eq (nodes nodes' : list (option Node)) : len nodes = len nodes' ->
  (forall x, 0 <= x < len nodes -> slot nodes x = slot nodes' x) -> nodes = nodes'.
Proof.
  unfold len. intros Hl Hs. apply list_eq_same_length with (n := length nodes); [lia|done|].
  intros i x y Hi Hx Hy. specialize (Hs (Z.of_nat i) ltac:(lia)). unfold slot in Hs.
  rewrite Nat2Z.id, Hx, Hy in Hs. done.
Qed.

(** * Properties *)

(** The resolution of a node of a well-formed tree exists, lists populated
    nodes of its subtree only, and covers every member below it: the member's
    leaf is listed, or an ancestor is of which the member is not an unmerged
    leaf.  What is encrypted to a resolution therefore reaches exactly the
    members of the subtree. *)
Theorem resolution_covers {C : StdCrypto} d t k j :
  tree_inv d (rt_nodes t) -> 0 <= k <= d -> 0 <= j < 2 ^ (d - k) ->
  exists res, Resolution t (node k j) = Ok res /\ Forall (populated_in (rt_nodes t) k j) res /\
    forall l, 0 <= l -> l / 2 ^ k = j -> populated (rt_nodes t) l -> covered (rt_nodes t) k l res.
Proof. intros Hinv. by apply Resolution_ok. Qed.

Lemma resolution_covers_witness :
  exists res, Resolution (Example.tree 4) (node 1 1) = Ok res /\
    Forall (populated_in (rt_nodes (Example.tree 4)) 1 1) res /\
    forall l, 0 <= l -> l / 2 ^ 1 = 1 -> populated (rt_nodes (Example.tree 4)) l ->
      covered (rt_nodes (Example.tree 4)) 1 l res.
Proof. apply (resolution_covers 2 (Example.tree 4) 1 1 Example.tree4_inv); [lia|cbn; lia]. Defined.

(** C28: the root tree hash commits to the whole tree: two well-formed trees of
    the same size with the same root hash are equal node by node, unless two
    of the inputs hashed on the way collide. *)
Theorem tree_hash_commits {C : StdCrypto} d t t' h :
  tree_inv d (rt_nodes t) -> tree_inv d (rt_nodes t') -> slots_ok (rt_nodes t) -> slots_ok (rt_nodes t') ->
  rt_suite t' = rt_suite t -> RootTreeHash t = Ok h -> RootTreeHash t' = Ok h ->
  t = t' \/
  collision (rt_suite t) (hash_inputs tree_fuel (rt_suite t) (rt_nodes t) (2 ^ d) (node d 0))
    (hash_inputs tree_fuel (rt_suite t) (rt_nodes t') (2 ^ d) (node d 0)).
Proof.
  intros Hinv Hinv' Hok Hok' Es H H'. pose proof (ti_depth _ _ Hinv) as Hd.
  rewrite (RootTreeHash_complete d _ Hinv) in H. rewrite (RootTreeHash_complete d _ Hinv'), Es in H'.
  revert H H'. generalize tree_fuel. intros fuel H H'.
  assert (0 <= 0 < 2 ^ (d - d)) as H0 by (rewrite Z.sub_diag; cbn; lia).
  destruct (tree_hash_binding d _ _ _ fuel d 0 h Hinv Hinv' Hok Hok' ltac:(lia) H0 H H') as [HS|HS]; [|right; exact HS].
  clear H H'. left. destruct t as [s n], t' as [s' n']. cbn [rt_nodes rt_suite] in *. subst s'. f_equal.
  pose proof (ti_len _ _ Hinv) as Hl. pose proof (ti_len _ _ Hinv') as Hl'.
  apply slots_eq; [lia|]. intros x Hx. destruct (node_surj x ltac:(lia)) as (k & j & Hk & Hj & ->).
  destruct (proj1 (complete_in d Hd k j Hk Hj) ltac:(lia)). apply HS; [lia|done|]. by apply Z.div_small.
Qed.

Lemma tree_hash_commits_witness :
  exists h, RootTreeHash (Example.tree 4) = Ok h /\
    (Example.tree 4 = Example.tree 4 \/
     collision toy_suite (hash_inputs tree_fuel toy_suite (rt_nodes (Example.tree 4)) (2 ^ 2) (node 2 0))
       (hash_inputs tree_fuel toy_suite (rt_nodes (Example.tree 4)) (2 ^ 2) (node 2 0))).
Proof.
  destruct (RootTreeHash (Example.tree 4)) as [h| | |] eqn:E; [|vm_compute in E; discriminate..].
  exists h. split; [reflexivity|].
  apply (tree_hash_commits 2 (Example.tree 4) (Example.tree 4) h Example.tree4_inv Example.tree4_inv
    Example.tree4_slots Example.tree4_slots eq_refl E E).
Defined.

(** [VerifyLeafSignatures] accepts a well-formed tree exactly when every
    member's leaf signature verifies under the group and its index, and no two
    members share a signature key or an encryption key. *)
Lemma leaf_signatures_sound {C : StdCrypto} d t groupID :
  tree_inv d (rt_nodes t) ->
  VerifyLeafSignatures t groupID = Ok tt <->
  (forall l ln, roster_of (rt_nodes t) !! l = Some ln ->
     LeafNode_verifySignature ln (rt_suite t) groupID l = Ok true) /\
  (forall l l' ln ln', l <> l' -> roster_of (rt_nodes t) !! l = Some ln -> roster_of (rt_nodes t) !! l' = Some ln' ->
     ln_SignatureKey ln <> ln_SignatureKey ln' /\ ln_EncryptionKey ln <> ln_EncryptionKey ln').
Proof. apply VerifyLeafSignatures_iff. Qed.

(** [VerifyParentHashes] neither panics nor diverges on a well-formed
    tree: every node it visits, every resolution and every hash it takes
    exists. *)
Theorem parent_hashes_return {C : StdCrypto} d t :
  tree_inv d (rt_nodes t) -> returns (VerifyParentHashes t).
Proof. intros Hinv. by apply (VerifyParentHashes_returns d). Qed.

Lemma parent_hashes_return_witness : returns (VerifyParentHashes (Example.tree 4)).
Proof. apply (parent_hashes_return 2 (Example.tree 4) Example.tree4_inv). Defined.
