(* ===== verification/TreeKEM.v ===== *)
(** [mls/tree/treekem.go]: update paths.

    The committer's [GenerateUpdatePath] and the receiver's
    [ProcessUpdatePath] and [Merge].  Both sides run on the same tree, the one
    after the commit's proposals: the theorems show that they end with the
    same tree and the same commit secret.

    A method that mutates the tree returns it.  The randomness of the HPKE
    encapsulations is a function of the path position and the recipient. *)

From Stdlib Require Import ZArith Lia Strings.Byte.
From stdpp Require Import base list numbers strings sorting sets gmap.
From S2P Require Import Prelude Syntax TreeNodes TreeMath Cipher ToyCrypto RatchetTree TreeSync.

(* mls/tree/treekem.go:81-84 TreeKEMPrivate *)
Record TreeKEMPrivate := mkTreeKEMPrivate { LeafIndex : Z; privs : gmap Z bytes }.

(* mls/tree/treekem.go:88-93 NewTreeKEMPrivate *)
Definition NewTreeKEMPrivate (leafIndex : Z) (leafPriv : bytes) : TreeKEMPrivate :=
  mkTreeKEMPrivate leafIndex {[u32 (2 * leafIndex) := leafPriv]}.

(* mls/tree/treekem.go:106-109 TreeKEMPrivate.privateKey *)
Definition privateKey (p : TreeKEMPrivate) (node : Z) : option bytes := privs p !! node.

(* mls/tree/treekem.go:112-115 TreeKEMPrivate.PrivateKeyAt *)
Definition PrivateKeyAt (p : TreeKEMPrivate) (node : Z) : option bytes := privs p !! node.

(** [newlyAddedSet]: the node indices of the leaves added by the commit. *)
(* mls/tree/treekem.go:216-219 RatchetTree.ProcessUpdatePath *)
Definition newlyAddedSet (newlyAdded : list Z) : gset Z :=
  list_to_set (map (fun li => u32 (2 * li)) newlyAdded).

Section treekem.
Context {C : StdCrypto}.

(* mls/tree/treekem.go:14-16 CommitSecret *)
Definition CommitSecret (suite : Suite) (lastPathSecret : bytes) : outcome bytes :=
  DeriveSecret suite lastPathSecret "path".

(* mls/tree/treekem.go:21-27 nodeKeyPair *)
Definition nodeKeyPair (suite : Suite) (pathSecret : bytes) : outcome (bytes * bytes) :=
  let! nodeSecret := DeriveSecret suite pathSecret "node" in
  DeriveKeyPair suite nodeSecret.

(* mls/tree/treekem.go:30-37 RatchetTree.pathChild *)
Definition pathChild (t : RatchetTree) (p target : Z) : outcome Z :=
  let l := default 0 (Left p) in
  if subtreeContains l target then Ok l else
  let! r := Right p (leafCount t) in
  Ok (default 0 r).

(* mls/tree/treekem.go:41-45 RatchetTree.copathChild *)
Definition copathChild (t : RatchetTree) (p senderNode : Z) : outcome Z :=
  let! pc := pathChild t p senderNode in
  let! s := Sibling pc (leafCount t) in
  Ok (default 0 s).

(** [for x != root]: a path has at most 32 edges. *)
(* mls/tree/treekem.go:55-62 RatchetTree.filteredDirectPath *)
Fixpoint fdp_loop (t : RatchetTree) (fuel : nat) (leaves root x : Z) (path : list Z) : outcome (list Z) :=
  if x =? root then Ok path else
  match fuel with
  | O => Diverge
  | S fuel =>
      let! p := Parent x leaves in
      let p := default 0 p in
      let! s := Sibling x leaves in
      let! res := Resolution t (default 0 s) in
      fdp_loop t fuel leaves root p (if 0 <? len res then path ++ [p] else path)
  end.

(* mls/tree/treekem.go:50-64 RatchetTree.filteredDirectPath *)
Definition filteredDirectPath (t : RatchetTree) (leafIndex : Z) : outcome (list Z) :=
  let leaves := leafCount t in
  fdp_loop t tree_fuel leaves (Root leaves) (u32 (2 * leafIndex)) [].

(* mls/tree/treekem.go:67-76 RatchetTree.nodePublicKey *)
Definition nodePublicKey (t : RatchetTree) (d : Z) : outcome bytes :=
  let! n := index (rt_nodes t) d in
  match n with
  | None => Err "tree: node is blank"
  | Some (mkNode (Some l) _) => Ok (ln_EncryptionKey l)
  | Some (mkNode None (Some p)) => Ok (pn_EncryptionKey p)
  | Some (mkNode None None) => Panic
  end.

(* mls/tree/treekem.go:97-104 TreeKEMPrivate.AddPathSecret *)
Definition AddPathSecret (suite : Suite) (p : TreeKEMPrivate) (nodeIndex : Z) (pathSecret : bytes)
  : outcome TreeKEMPrivate :=
  let! (priv, _) := nodeKeyPair suite pathSecret in
  Ok (mkTreeKEMPrivate (LeafIndex p) (<[nodeIndex := priv]> (privs p))).

(** [t.nodes[p] = &Node{Parent: &ParentNode{EncryptionKey: nodePubs[k]}}] for
    every [k, p := range fdp]. *)
(* mls/tree/treekem.go:136-138 RatchetTree.installPath *)
Fixpoint install_keys (nodes : list (option Node)) (fdp : list Z) (nodePubs : list bytes)
  : outcome (list (option Node)) :=
  match fdp, nodePubs with
  | p :: fdp, pub :: nodePubs =>
      let! nodes := set_index nodes p (parent_node (mkParentNode pub [] [])) in
      install_keys nodes fdp nodePubs
  | [], _ => Ok nodes
  | _ :: _, [] => Panic
  end.

(** [t.nodes[p].Parent.ParentHash = ph] *)
(* mls/tree/treekem.go:153-153 RatchetTree.installPath *)
Definition set_parent_hash (t : RatchetTree) (p : Z) (ph : bytes) : outcome RatchetTree :=
  let! n := index (rt_nodes t) p in
  match n with
  | Some (mkNode lf (Some pn)) =>
      let! nodes := set_index (rt_nodes t) p
        (Some (mkNode lf (Some (mkParentNode (pn_EncryptionKey pn) ph (pn_UnmergedLeaves pn))))) in
      Ok (mkRatchetTree (rt_suite t) nodes)
  | _ => Panic
  end.

(** [for k := len(fdp) - 1; k >= 0; k--]: the tail of the path, which is above,
    comes first. *)
(* mls/tree/treekem.go:140-154 RatchetTree.installPath *)
Fixpoint assign_parent_hashes (t : RatchetTree) (leaves : Z) (fdp : list Z) : outcome RatchetTree :=
  match fdp with
  | [] => Ok t
  | p :: above =>
      let! t := assign_parent_hashes t leaves above in
      match above with
      | [] => set_parent_hash t p []
      | parent :: _ =>
          let! pc := pathChild t parent p in
          let! s := Sibling pc leaves in
          let! ph := parentHashOf t parent (default 0 s) in
          set_parent_hash t p ph
      end
  end.

(* mls/tree/treekem.go:121-156 RatchetTree.installPath *)
Definition installPath (t : RatchetTree) (senderLeaf : Z) (nodePubs : list bytes)
  : outcome (RatchetTree * list Z) :=
  let leaves := leafCount t in
  let senderNode := u32 (2 * senderLeaf) in
  let! fdp := filteredDirectPath t senderLeaf in
  if negb (len fdp =? len nodePubs) then Err "tree: public keys for filtered direct path" else
  let! nodes := blank_path (rt_nodes t) leaves senderNode in
  let! nodes := install_keys nodes fdp nodePubs in
  let! t := assign_parent_hashes (mkRatchetTree (rt_suite t) nodes) leaves fdp in
  Ok (t, fdp).

(* mls/tree/treekem.go:161-171 RatchetTree.leafParentHash *)
Definition leafParentHash (t : RatchetTree) (senderLeaf : Z) (fdp : list Z) : outcome bytes :=
  match fdp with
  | [] => Ok []
  | parent :: _ =>
      let leaves := leafCount t in
      let senderNode := u32 (2 * senderLeaf) in
      let! pc := pathChild t parent senderNode in
      let! s := Sibling pc leaves in
      parentHashOf t parent (default 0 s)
  end.

(* mls/tree/treekem.go:177-188 RatchetTree.Merge *)
Definition Merge (t : RatchetTree) (senderLeaf : Z) (up : UpdatePath) : outcome RatchetTree :=
  let pubs := map upn_EncryptionKey (up_Nodes up) in
  let! (t, _) := installPath t senderLeaf pubs in
  let! nodes := set_index (rt_nodes t) (u32 (2 * senderLeaf)) (leaf_node (up_LeafNode up)) in
  Ok (mkRatchetTree (rt_suite t) nodes).

(** ** Receiving *)

(** The loop over one resolution: the path secret, or [None] when no entry is
    ours or our ciphertext is missing. *)
(* mls/tree/treekem.go:229-254 RatchetTree.ProcessUpdatePath *)
Fixpoint decrypt_entry (suite : Suite) (priv : TreeKEMPrivate) (added : gset Z) (groupContext : bytes)
  (cts : list HPKECiphertext) (res : list Z) (ctIdx : Z) : outcome (option bytes) :=
  match res with
  | [] => Ok None
  | d :: res =>
      if decide (d ∈ added) then decrypt_entry suite priv added groupContext cts res ctIdx else
      match privateKey priv d with
      | None => decrypt_entry suite priv added groupContext cts res (ctIdx + 1)
      | Some sk =>
          if len cts <=? ctIdx then Ok None else
          let! ct := index cts ctIdx in
          let! ps := DecryptWithLabel suite sk "UpdatePathNode" groupContext (KemOutput ct) (Ciphertext ct) in
          Ok (Some ps)
      end
  end.

(** The loop over the filtered direct path: the secret found, with the path
    nodes from the one it belongs to upwards. *)
(* mls/tree/treekem.go:224-258 RatchetTree.ProcessUpdatePath *)
Fixpoint find_secret (t : RatchetTree) (senderNode : Z) (priv : TreeKEMPrivate) (added : gset Z)
  (groupContext : bytes) (fdp : list Z) (nodes : list UpdatePathNode)
  : outcome (option (bytes * list UpdatePathNode)) :=
  match fdp, nodes with
  | p :: fdp', n :: nodes' =>
      let! cc := copathChild t p senderNode in
      let! res := Resolution t cc in
      let! found := decrypt_entry (rt_suite t) priv added groupContext (upn_EncryptedPathSecret n) res 0 in
      match found with
      | Some ps => Ok (Some (ps, nodes))
      | None => find_secret t senderNode priv added groupContext fdp' nodes'
      end
  | [], _ => Ok None
  | _ :: _, [] => Panic
  end.

(** [for k := foundK; k < len(fdp); k++]: the last path secret. *)
(* mls/tree/treekem.go:265-280 RatchetTree.ProcessUpdatePath *)
Fixpoint derive_up (suite : Suite) (cur : bytes) (nodes : list UpdatePathNode) : outcome bytes :=
  match nodes with
  | [] => Ok cur
  | n :: nodes' =>
      let! (_, pub) := nodeKeyPair suite cur in
      if negb (bytes_Equal pub (upn_EncryptionKey n)) then Err "tree: derived public key mismatch" else
      match nodes' with
      | [] => Ok cur
      | _ => let! cur := DeriveSecret suite cur "path" in derive_up suite cur nodes'
      end
  end.

(** [None] is the result [(nil, nil, nil)] of an excluded receiver. *)
(* mls/tree/treekem.go:205-286 RatchetTree.ProcessUpdatePath *)
Definition ProcessUpdatePath (t : RatchetTree) (senderLeaf : Z) (up : UpdatePath) (priv : TreeKEMPrivate)
  (groupContext : bytes) (newlyAdded : list Z) : outcome (option (bytes * bytes)) :=
  let senderNode := u32 (2 * senderLeaf) in
  let! fdp := filteredDirectPath t senderLeaf in
  if negb (len fdp =? len (up_Nodes up)) then Err "tree: UpdatePath nodes, filtered direct path" else
  let! found := find_secret t senderNode priv (newlyAddedSet newlyAdded) groupContext fdp (up_Nodes up) in
  match found with
  | None => Ok None
  | Some (decrypted, nodes) =>
      let! cur := derive_up (rt_suite t) decrypted nodes in
      let! commitSecret := CommitSecret (rt_suite t) cur in
      Ok (Some (decrypted, commitSecret))
  end.

(** ** Generating *)

(** [pathSecrets]: [n] secrets, the first derived from [src]. *)
(* mls/tree/treekem.go:320-333 RatchetTree.GenerateUpdatePath *)
Fixpoint path_secrets (suite : Suite) (src : bytes) (n : nat) : outcome (list bytes) :=
  match n with
  | O => Ok []
  | S n =>
      let! ps := DeriveSecret suite src "path" in
      let! rest := path_secrets suite ps n in
      Ok (ps :: rest)
  end.

(* mls/tree/treekem.go:352-359 RatchetTree.GenerateUpdatePath *)
Fixpoint node_pubs (suite : Suite) (pathSecrets : list bytes) : outcome (list bytes) :=
  match pathSecrets with
  | [] => Ok []
  | ps :: rest =>
      let! (_, pub) := nodeKeyPair suite ps in
      let! pubs := node_pubs suite rest in
      Ok (pub :: pubs)
  end.

(* mls/tree/treekem.go:366-376 RatchetTree.GenerateUpdatePath *)
Fixpoint entry_pubs (t : RatchetTree) (added : gset Z) (res : list Z) : outcome (list bytes) :=
  match res with
  | [] => Ok []
  | d :: res =>
      if decide (d ∈ added) then entry_pubs t added res else
      let! pk := nodePublicKey t d in
      let! pubs := entry_pubs t added res in
      Ok (pk :: pubs)
  end.

(* mls/tree/treekem.go:363-378 RatchetTree.GenerateUpdatePath *)
Fixpoint res_pubs (t : RatchetTree) (senderNode : Z) (added : gset Z) (fdp : list Z)
  : outcome (list (list bytes)) :=
  match fdp with
  | [] => Ok []
  | p :: fdp =>
      let! cc := copathChild t p senderNode in
      let! res := Resolution t cc in
      let! pubs := entry_pubs t added res in
      let! rest := res_pubs t senderNode added fdp in
      Ok (pubs :: rest)
  end.

(* mls/tree/treekem.go:424-431 RatchetTree.GenerateUpdatePath *)
Fixpoint encrypt_entry (suite : Suite) (rng : Z -> Rand) (groupContext pathSecret : bytes) (i : Z)
  (pubs : list bytes) : outcome (list HPKECiphertext) :=
  match pubs with
  | [] => Ok []
  | pub :: pubs =>
      let! (kem, ct) := EncryptWithLabel suite (rng i) pub "UpdatePathNode" groupContext pathSecret in
      let! rest := encrypt_entry suite rng groupContext pathSecret (i + 1) pubs in
      Ok (mkHPKECiphertext kem ct :: rest)
  end.

(* mls/tree/treekem.go:422-433 RatchetTree.GenerateUpdatePath *)
Fixpoint encrypt_nodes (suite : Suite) (rng : Z -> Z -> Rand) (groupContext : bytes) (k : Z)
  (nodePubs pathSecrets : list bytes) (resPubs : list (list bytes)) : outcome (list UpdatePathNode) :=
  match nodePubs, pathSecrets, resPubs with
  | pub :: nodePubs, ps :: pathSecrets, pubs :: resPubs =>
      let! cts := encrypt_entry suite (rng k) groupContext ps 0 pubs in
      let! rest := encrypt_nodes suite rng groupContext (k + 1) nodePubs pathSecrets resPubs in
      Ok (mkUpdatePathNode pub cts :: rest)
  | _, _, _ => Ok []
  end.

(** The unsigned commit leaf. *)
(* mls/tree/treekem.go:390-398 RatchetTree.GenerateUpdatePath *)
Definition commit_leaf (orig : LeafNode) (leafPub ph : bytes) : LeafNode :=
  mkLeafNode leafPub (ln_SignatureKey orig) (ln_Credential orig) (ln_Capabilities orig)
    LeafNodeSourceCommit None ph (ln_Extensions orig) [].

(* mls/tree/treekem.go:303-442 RatchetTree.GenerateUpdatePath *)
Definition GenerateUpdatePath (t : RatchetTree) (senderLeaf : Z) (leafSecret : bytes) (signer : Signer)
  (groupID : bytes) (newlyAdded : list Z) (mkGroupContext : bytes -> outcome bytes) (rng : Z -> Z -> Rand)
  : outcome (RatchetTree * (UpdatePath * bytes * gmap Z bytes)) :=
  let suite := rt_suite t in
  let senderNode := u32 (2 * senderLeaf) in
  let! origNode := index (rt_nodes t) senderNode in
  match origNode with
  | Some (mkNode (Some orig) _) =>
      let! fdp := filteredDirectPath t senderLeaf in
      let added := newlyAddedSet newlyAdded in
      let! pathSecrets := path_secrets suite leafSecret (length fdp) in
      let! commitSecret := CommitSecret suite (List.last pathSecrets leafSecret) in
      let! leafNodeSecret := DeriveSecret suite leafSecret "node" in
      let! (_, leafPub) := DeriveKeyPair suite leafNodeSecret in
      let! nodePubs := node_pubs suite pathSecrets in
      let! resPubs := res_pubs t senderNode added fdp in
      let! (t, _) := installPath t senderLeaf nodePubs in
      let! ph := leafParentHash t senderLeaf fdp in
      let leaf := commit_leaf orig leafPub ph in
      let! tbs := LeafNode_tbs leaf groupID senderLeaf in
      let! sig := SignWithLabel suite signer "LeafNodeTBS" tbs in
      let leaf := with_signature leaf sig in
      let! nodes := set_index (rt_nodes t) senderNode (leaf_node leaf) in
      let t := mkRatchetTree (rt_suite t) nodes in
      let! treeHash := RootTreeHash t in
      let! groupContext := mkGroupContext treeHash in
      let! nodes := encrypt_nodes suite rng groupContext 0 nodePubs pathSecrets resPubs in
      let pathSecretByNode := list_to_map (rev (zip fdp pathSecrets)) in
      Ok (t, (mkUpdatePath leaf nodes, commitSecret, pathSecretByNode))
  | _ => Err "tree: sender leaf is blank"
  end.
End treekem.

Lemma last_shift {A} (x : A) l d : List.last (x :: l) d = List.last l x.
Proof.
  revert x d. induction l as [|y l IH]; intros x d; [done|].
  transitivity (List.last (y :: l) d); [done|]. by rewrite !IH.
Qed.

(** * The receiver recovers the committer's secrets *)

Section agreement.
Context {C : StdCrypto} `{!StdCryptoLaws C}.
Implicit Types t : RatchetTree.

(** Every private key the member holds belongs to the public key that the tree
    has at its node. *)
Definition consistent t (priv : TreeKEMPrivate) : Prop :=
  forall d sk pk, privateKey priv d = Some sk -> nodePublicKey t d = Ok pk -> key_pair (rt_suite t) sk pk.

(** The same for the keys of some nodes only, and the nodes a path node's
    secret is encrypted to. *)
Definition consistent_at t (priv : TreeKEMPrivate) (P : Z -> Prop) : Prop :=
  forall d sk pk, P d -> privateKey priv d = Some sk -> nodePublicKey t d = Ok pk -> key_pair (rt_suite t) sk pk.

Definition in_copath t (senderNode p x : Z) : Prop :=
  exists cc res, copathChild t p senderNode = Ok cc /\ Resolution t cc = Ok res /\ x ∈ res.

Definition on_copath t (senderNode : Z) (fdp : list Z) (x : Z) : Prop := exists p, p ∈ fdp /\ in_copath t senderNode p x.

(** The member holds the key of an entry that gets a ciphertext. *)
Definition holds (priv : TreeKEMPrivate) (added : gset Z) (res : list Z) : bool :=
  existsb (fun d => bool_decide (d ∉ added) && match privateKey priv d with Some _ => true | None => false end) res.

Lemma decrypt_entry_ok t priv added gc rng ps res pubs i cts pre : consistent_at t priv (fun x => x ∈ res) ->
  entry_pubs t added res = Ok pubs -> encrypt_entry (rt_suite t) rng gc ps i pubs = Ok cts ->
  decrypt_entry (rt_suite t) priv added gc (pre ++ cts) res (len pre) =
  Ok (if holds priv added res then Some ps else None).
Proof.
  revert pubs i cts pre. induction res as [|d res IH]; intros pubs i cts pre Hc Hp He; [done|].
  assert (consistent_at t priv (fun x => x ∈ res)) as Hc' by (intros x sk pk Hx; apply Hc; by right).
  cbn [entry_pubs decrypt_entry holds existsb] in *. destruct (decide (d ∈ added)) as [Hin|Hni].
  { rewrite bool_decide_eq_false_2 by (intros H; by apply H). by apply (IH pubs i). }
  rewrite bool_decide_eq_true_2 by done. apply obind_ok in Hp as (pk & Hpk & Hp).
  apply obind_ok in Hp as (pubs' & Hp & [= <-]). cbn [encrypt_entry] in He.
  apply obind_ok in He as ([k ct] & Henc & He). apply obind_ok in He as (cts' & He & [= <-]).
  destruct (privateKey priv d) as [sk|] eqn:Hsk; cbn [andb orb].
  - rewrite (proj2 (Z.leb_gt _ _)) by (rewrite len_app, len_cons; pose proof (len_nonneg cts'); lia).
    rewrite (proj2 (index_ok _ (len pre) (mkHPKECiphertext k ct))).
    + cbn [obind KemOutput Ciphertext]. by rewrite (DecryptWithLabel_Encrypt _ _ _ _ _ _ _ _ _ (Hc d sk pk ltac:(by left) Hsk Hpk) Henc).
    + split; [apply len_nonneg|]. unfold len. rewrite Nat2Z.id. by apply list_lookup_middle.
  - specialize (IH pubs' (i + 1) cts' (pre ++ [mkHPKECiphertext k ct]) Hc' Hp He).
    rewrite <- app_assoc, len_app in IH. exact IH.
Qed.

(** The first path node, from the leaf up, at which the member holds a key. *)
Fixpoint first_held t (senderNode : Z) (priv : TreeKEMPrivate) (added : gset Z) (fdp : list Z) : option nat :=
  match fdp with
  | [] => None
  | p :: fdp =>
      match (let! cc := copathChild t p senderNode in Resolution t cc) with
      | Ok res => if holds priv added res then Some O else S <$> first_held t senderNode priv added fdp
      | _ => None
      end
  end.

Lemma find_secret_ok t sn priv added gc rng fdp resPubs k nodePubs pss nodes : consistent_at t priv (on_copath t sn fdp) ->
  res_pubs t sn added fdp = Ok resPubs ->
  encrypt_nodes (rt_suite t) rng gc k nodePubs pss resPubs = Ok nodes ->
  length nodePubs = length fdp -> length pss = length fdp ->
  map upn_EncryptionKey nodes = nodePubs /\
  find_secret t sn priv added gc fdp nodes =
  Ok (match first_held t sn priv added fdp with
      | Some i => match pss !! i with Some ps => Some (ps, drop i nodes) | None => None end
      | None => None
      end).
Proof.
  revert resPubs k nodePubs pss nodes.
  induction fdp as [|p fdp IH]; intros resPubs k nodePubs pss nodes Hc Hr He Hl1 Hl2.
  { destruct nodePubs, pss; [|done..]. cbn in *. by injection He as <-. }
  destruct nodePubs as [|pub nodePubs]; [done|]. destruct pss as [|ps pss]; [done|].
  cbn [res_pubs] in Hr. apply obind_ok in Hr as (cc & Hcc & Hr). apply obind_ok in Hr as (res & Hres & Hr).
  apply obind_ok in Hr as (pubs & Hpubs & Hr). apply obind_ok in Hr as (rest & Hrest & [= <-]).
  cbn [encrypt_nodes] in He. apply obind_ok in He as (cts & Hcts & He).
  apply obind_ok in He as (nodes' & He & [= <-]).
  assert (consistent_at t priv (on_copath t sn fdp)) as Hc'
    by (intros x sk pk (q & Hq & Hx); apply Hc; exists q; split; [by right|done]).
  destruct (IH rest (k + 1) nodePubs pss nodes' Hc' Hrest He) as [Hkeys Hfind]; [by injection Hl1|by injection Hl2|].
  cbn [map upn_EncryptionKey find_secret first_held upn_EncryptedPathSecret]. split; [by rewrite Hkeys|].
  rewrite Hcc. cbn [obind]. rewrite Hres. cbn [obind].
  assert (consistent_at t priv (fun x => x ∈ res)) as Hcr
    by (intros x sk pk Hx; apply Hc; exists p; split; [by left|by exists cc, res]).
  pose proof (decrypt_entry_ok t priv added gc (rng k) ps res pubs 0 cts [] Hcr Hpubs Hcts) as Hd.
  rewrite app_nil_l in Hd. change (len []) with 0 in Hd. rewrite Hd. cbn [obind].
  destruct (holds priv added res); [done|]. rewrite Hfind.
  by destruct (first_held t sn priv added fdp).
Qed.

Lemma path_secrets_length suite src n pss : path_secrets suite src n = Ok pss -> length pss = n.
Proof.
  revert src pss. induction n as [|n IH]; intros src pss H; cbn [path_secrets] in H; [by injection H as <-|].
  apply obind_ok in H as (ps & _ & H). apply obind_ok in H as (rest & H & [= <-]).
  simpl. f_equal. by apply (IH ps).
Qed.

Lemma node_pubs_length suite pss pubs : node_pubs suite pss = Ok pubs -> length pubs = length pss.
Proof.
  revert pubs. induction pss as [|ps pss IH]; intros pubs H; cbn [node_pubs] in H; [by injection H as <-|].
  apply obind_ok in H as ([? pub] & _ & H). apply obind_ok in H as (rest & H & [= <-]).
  simpl. f_equal. by apply IH.
Qed.

Lemma derive_up_chain suite ps rest nodes : path_secrets suite ps (length rest) = Ok rest ->
  node_pubs suite (ps :: rest) = Ok (map upn_EncryptionKey nodes) ->
  derive_up suite ps nodes = Ok (List.last rest ps).
Proof.
  revert ps nodes. induction rest as [|ps' rest IH]; intros ps nodes Hc Hn;
    cbn [node_pubs] in Hn; apply obind_ok in Hn as ([sk pub] & Hk & Hn);
    destruct nodes as [|n nodes]; try (apply obind_ok in Hn as (? & _ & ?); done);
    cbn [derive_up]; rewrite Hk; cbn [obind].
  - injection Hn as -> Hn. rewrite (proj2 (bytes_Equal_spec _ _)) by done. cbn [negb]. by destruct nodes.
  - apply obind_ok in Hn as (pubs & Hn & E). cbn [map] in E. injection E as -> ->.
    rewrite (proj2 (bytes_Equal_spec _ _)) by done. cbn [negb].
    cbn [path_secrets length] in Hc. apply obind_ok in Hc as (x & Hd & Hc).
    apply obind_ok in Hc as (y & Hc & E). injection E as -> ->.
    assert (exists n' nodes', nodes = n' :: nodes') as (n' & nodes' & ->).
    { pose proof (node_pubs_length suite (ps' :: rest) _ Hn) as Hl. rewrite length_map in Hl.
      destruct nodes; [done|eauto]. }
    rewrite Hd. cbn [obind]. rewrite (IH ps' (n' :: nodes') Hc Hn).
    by rewrite last_shift.
Qed.

Lemma path_secrets_split suite src n pss i ps : path_secrets suite src n = Ok pss -> pss !! i = Some ps ->
  path_secrets suite ps (length (drop (S i) pss)) = Ok (drop (S i) pss) /\
  List.last pss src = List.last (drop (S i) pss) ps.
Proof.
  revert src pss i. induction n as [|n IH]; intros src pss i H Hi; cbn [path_secrets] in H.
  { by injection H as <-. }
  apply obind_ok in H as (x & Hx & H). apply obind_ok in H as (rest & H & [= <-]).
  rewrite last_shift. destruct i as [|i]; simpl in Hi.
  - injection Hi as <-. cbn [drop]. rewrite drop_0. pose proof (path_secrets_length _ _ _ _ H) as ->. done.
  - change (drop (S (S i)) (x :: rest)) with (drop (S i) rest). by apply (IH x).
Qed.

Lemma node_pubs_drop suite pss pubs i : node_pubs suite pss = Ok pubs ->
  node_pubs suite (drop i pss) = Ok (drop i pubs).
Proof.
  revert pubs i. induction pss as [|ps pss IH]; intros pubs i H; cbn [node_pubs] in H.
  { injection H as <-. by destruct i. }
  destruct i as [|i]; [done|]. apply obind_ok in H as ([? pub] & _ & H).
  apply obind_ok in H as (rest & H & [= <-]). cbn [drop]. by apply IH.
Qed.

(** What a successful generation went through. *)
Lemma GenerateUpdatePath_inv t t' senderLeaf leafSecret signer groupID newlyAdded mkGC rng up cs byNode :
  GenerateUpdatePath t senderLeaf leafSecret signer groupID newlyAdded mkGC rng = Ok (t', (up, cs, byNode)) ->
  exists fdp pss pubs rps t1 fdp1 ns h gc,
    filteredDirectPath t senderLeaf = Ok fdp /\ length pss = length fdp /\ length pubs = length fdp /\
    path_secrets (rt_suite t) leafSecret (length fdp) = Ok pss /\
    CommitSecret (rt_suite t) (List.last pss leafSecret) = Ok cs /\
    node_pubs (rt_suite t) pss = Ok pubs /\
    res_pubs t (u32 (2 * senderLeaf)) (newlyAddedSet newlyAdded) fdp = Ok rps /\
    installPath t senderLeaf pubs = Ok (t1, fdp1) /\
    set_index (rt_nodes t1) (u32 (2 * senderLeaf)) (leaf_node (up_LeafNode up)) = Ok ns /\
    t' = mkRatchetTree (rt_suite t1) ns /\ RootTreeHash t' = Ok h /\ mkGC h = Ok gc /\
    encrypt_nodes (rt_suite t) rng gc 0 pubs pss rps = Ok (up_Nodes up) /\
    byNode = list_to_map (rev (zip fdp pss)).
Proof.
  intros HG. unfold GenerateUpdatePath in HG. apply obind_ok in HG as (orig & _ & HG).
  destruct orig as [[[orig|] ?]|]; [|done..]. apply obind_ok in HG as (fdp & Hfdp & HG).
  apply obind_ok in HG as (pss & Hpss & HG). apply obind_ok in HG as (cs' & Hcs & HG).
  apply obind_ok in HG as (lns & _ & HG). apply obind_ok in HG as ([? leafPub] & _ & HG).
  apply obind_ok in HG as (pubs & Hpubs & HG). apply obind_ok in HG as (rps & Hrps & HG).
  apply obind_ok in HG as ([t1 fdp1] & Hinst & HG). apply obind_ok in HG as (ph & _ & HG).
  apply obind_ok in HG as (tbs & _ & HG). apply obind_ok in HG as (sig & _ & HG).
  apply obind_ok in HG as (ns & Hns & HG). apply obind_ok in HG as (h & Hh & HG).
  apply obind_ok in HG as (gc & Hgc & HG). apply obind_ok in HG as (nodes & Henc & HG).
  injection HG as <- <- <- <-.
  pose proof (path_secrets_length _ _ _ _ Hpss) as Hl1. pose proof (node_pubs_length _ _ _ Hpubs) as Hl2.
  exists fdp, pss, pubs, rps, t1, fdp1, ns, h, gc. cbn [up_LeafNode up_Nodes].
  split_and!; congruence || done.
Qed.

(** The result of a receiver: at the first path node where it holds a key, the
    path secret of that node, and the committer's commit secret. *)
Lemma ProcessUpdatePath_agrees t t' senderLeaf leafSecret signer groupID newlyAdded mkGC rng up cs byNode
    priv gc h :
  GenerateUpdatePath t senderLeaf leafSecret signer groupID newlyAdded mkGC rng = Ok (t', (up, cs, byNode)) ->
  RootTreeHash t' = Ok h -> mkGC h = Ok gc ->
  (forall fdp, filteredDirectPath t senderLeaf = Ok fdp -> consistent_at t priv (on_copath t (u32 (2 * senderLeaf)) fdp)) ->
  exists fdp pss, filteredDirectPath t senderLeaf = Ok fdp /\ length pss = length fdp /\
    byNode = list_to_map (rev (zip fdp pss)) /\
    ProcessUpdatePath t senderLeaf up priv gc newlyAdded =
    Ok (match first_held t (u32 (2 * senderLeaf)) priv (newlyAddedSet newlyAdded) fdp with
        | Some i => (fun ps => (ps, cs)) <$> pss !! i
        | None => None
        end).
Proof.
  intros HG Hh HmkGC Hc. apply GenerateUpdatePath_inv in HG
    as (fdp & pss & pubs & rps & t1 & fdp1 & ns & h' & gc' & Hfdp & Hl1 & Hl2 & Hpss & Hcs & Hpubs & Hrps &
        _ & _ & _ & Hh' & Hgc' & Henc & Hby).
  assert (h' = h) as -> by congruence. assert (gc' = gc) as -> by congruence.
  exists fdp, pss. split_and!; [done..|].
  destruct (find_secret_ok t (u32 (2 * senderLeaf)) priv (newlyAddedSet newlyAdded) gc rng fdp rps 0 pubs pss
    (up_Nodes up)) as [Hkeys Hfind]; [by apply Hc|done..|].
  unfold ProcessUpdatePath. rewrite Hfdp. cbn [obind up_Nodes].
  rewrite (proj2 (Z.eqb_eq _ _)) by (unfold len; f_equal; rewrite <- (length_map upn_EncryptionKey (up_Nodes up)), Hkeys; congruence).
  cbn [negb]. rewrite Hfind. cbn [obind].
  destruct (first_held t (u32 (2 * senderLeaf)) priv (newlyAddedSet newlyAdded) fdp) as [i|]; [|done].
  destruct (pss !! i) as [ps|] eqn:Hi; [|done].
  destruct (path_secrets_split _ _ _ _ _ _ Hpss Hi) as [Hchain Hlast].
  rewrite (derive_up_chain _ ps (drop (S i) pss)); [|done|].
  - cbn [obind]. rewrite <- Hlast, Hcs. done.
  - pose proof (node_pubs_drop _ _ _ i Hpubs) as Hd. rewrite (drop_S _ ps i Hi) in Hd.
    rewrite Hd, <- Hkeys. f_equal. by rewrite !fmap_drop.
Qed.

(** The receiver's [Merge] yields the committer's tree. *)
Lemma Merge_agrees t t' senderLeaf leafSecret signer groupID newlyAdded mkGC rng up cs byNode :
  GenerateUpdatePath t senderLeaf leafSecret signer groupID newlyAdded mkGC rng = Ok (t', (up, cs, byNode)) ->
  Merge t senderLeaf up = Ok t'.
Proof.
  intros HG. apply GenerateUpdatePath_inv in HG
    as (fdp & pss & pubs & rps & t1 & fdp1 & ns & h & gc & Hfdp & Hl1 & Hl2 & _ & _ & _ & Hrps &
        Hinst & Hns & -> & _ & _ & Henc & _).
  destruct (find_secret_ok t (u32 (2 * senderLeaf)) (mkTreeKEMPrivate 0 ∅) (newlyAddedSet newlyAdded) gc rng
    fdp rps 0 pubs pss (up_Nodes up)) as [Hkeys _]; [by intros ? ? ? ? ?|done..|].
  unfold Merge. rewrite Hkeys, Hinst. cbn [obind]. by rewrite Hns.
Qed.
End agreement.

(** * Merging keeps the tree well formed *)

Section merge.
Context {C : StdCrypto} (d : Z).
Implicit Types t : RatchetTree.

Definition flip (j : Z) : Z := if Z.even j then j + 1 else j - 1.

Lemma flip_spec j : flip j / 2 = j / 2 /\ flip j <> j /\ (0 <= j -> 0 <= flip j).
Proof using.
  unfold flip. pose proof (Zmod_even j) as H. destruct (Z.even j); split_and!; zlia.
Qed.

Lemma flip_range k j : 0 <= k < d -> 0 <= j < 2 ^ (d - k) -> 0 <= flip j < 2 ^ (d - k).
Proof using.
  intros Hk Hj. destruct (flip_spec j) as (E & _ & H0). split; [lia|].
  replace (d - k) with (d - k - 1 + 1) in * by lia. rewrite pow2_S in * by lia.
  pose proof (pow2_pos (d - k - 1)). zlia.
Qed.

(** A node of the filtered direct path of leaf [l]: an ancestor with a member
    on the other side. *)
Definition on_filtered_path (nodes : list (option Node)) (l i p : Z) : Prop :=
  0 < i <= d /\ p = node i (l / 2 ^ i) /\
  exists m, 0 <= m /\ m / 2 ^ (i - 1) = flip (l / 2 ^ (i - 1)) /\ populated nodes m.

Context (t : RatchetTree) (Hinv : tree_inv d (rt_nodes t)).

Lemma fdp_loop_ok l fuel k acc : 0 <= l < 2 ^ d -> 0 <= k <= d -> d - k <= Z.of_nat fuel ->
  exists path, fdp_loop t fuel (2 ^ d) (Root (2 ^ d)) (node k (l / 2 ^ k)) acc = Ok (acc ++ path) /\
    NoDup path /\
    forall p, p ∈ path <-> exists i, k < i /\ on_filtered_path (rt_nodes t) l i p.
Proof using Hinv.
  intros Hl. pose proof (ti_depth _ _ Hinv) as Hd. rewrite complete_Root by lia.
  revert k acc. induction fuel as [|fuel IH]; intros k acc Hk Hf; cbn [fdp_loop].
  all: destruct (Z.eq_dec k d) as [->|Hkd];
    [rewrite (Z.div_small l) by lia; rewrite Z.eqb_refl; exists []; rewrite app_nil_r;
     split_and!; [done|constructor|];
     intros p; split; [by intros ?%not_elem_of_nil|intros (i & ? & [? _]); lia]|].
  { lia. }
  pose proof (div_pow_range d Hd l k Hl ltac:(lia)) as Hj. set (j := l / 2 ^ k) in *.
  rewrite (proj2 (Z.eqb_neq _ _)) by (intros [? _]%node_inj; lia).
  rewrite complete_Parent, complete_Sibling by lia. cbn [obind default]. unfold id.
  fold (flip j). pose proof (flip_range k j ltac:(lia) Hj) as Hfl.
  destruct (Resolution_ok d t Hinv k (flip j)) as (res & -> & HF & HC); [lia..|]. cbn [obind].
  assert (j / 2 = l / 2 ^ (k + 1)) as E.
  { rewrite (div_pow_step l (k + 1)) by lia. unfold j. by replace (k + 1 - 1) with k by lia. }
  rewrite E. destruct (IH (k + 1) (if 0 <? len res then acc ++ [node (k + 1) (l / 2 ^ (k + 1))] else acc))
    as (path & Hpath & Hnd & Hp); [lia..|]. rewrite Hpath.
  assert (forall p i, k < i -> i <> k + 1 -> on_filtered_path (rt_nodes t) l i p -> p ∈ path) as Hup.
  { intros p i ? ? Hon. apply Hp. exists i. split; [lia|done]. }
  assert (on_filtered_path (rt_nodes t) l (k + 1) (node (k + 1) (l / 2 ^ (k + 1))) <-> 0 < len res) as Hon.
  { unfold on_filtered_path. replace (k + 1 - 1) with k by lia. fold j. split.
    - intros (_ & _ & m & Hm & Hmj & Hpop). specialize (HC m Hm Hmj Hpop). destruct res as [|x res].
      + destruct HC as [?%not_elem_of_nil|(? & ? & ? & ?%not_elem_of_nil & _)]; done.
      + rewrite len_cons. pose proof (len_nonneg res). lia.
    - intros Hres. split_and!; [lia..|done|]. destruct res as [|x res]; [done|].
      apply Forall_cons in HF as [Hx _].
      destruct (populated_in_leaf d (rt_nodes t) Hinv k (flip j) x) as (m & ? & ? & ?); [lia|done|eauto]. }
  destruct (Z.ltb_spec 0 (len res)) as [Hlt|Hge].
  - exists (node (k + 1) (l / 2 ^ (k + 1)) :: path). rewrite <- app_assoc. split_and!; [done|..].
    + constructor; [|done]. intros (i & Hi & (_ & Ei & _))%Hp. apply node_inj in Ei as [? _]; lia.
    + intros p. rewrite elem_of_cons. split.
      * intros [->|(i & ? & ?)%Hp]; [exists (k + 1); split; [lia|by apply Hon]|exists i; split; [lia|done]].
      * intros (i & Hi & Hoi). destruct (Z.eq_dec i (k + 1)) as [->|]; [left; apply Hoi|right; by apply (Hup p i)].
  - exists path. split_and!; [done..|]. intros p. rewrite Hp. split; intros (i & Hi & Hoi).
    + exists i. split; [lia|done].
    + destruct (Z.eq_dec i (k + 1)) as [->|]; [|exists i; split; [lia|done]].
      pose proof Hoi as (_ & -> & _). apply Hon in Hoi. lia.
Qed.

Lemma filteredDirectPath_ok l : 0 <= l < 2 ^ d ->
  exists path, filteredDirectPath t l = Ok path /\ NoDup path /\
    forall p, p ∈ path <-> exists i, on_filtered_path (rt_nodes t) l i p.
Proof using Hinv.
  intros Hl. pose proof (ti_depth _ _ Hinv) as Hd. unfold filteredDirectPath.
  rewrite (proj1 (leaves_d d t Hinv)), (proj1 (leaf_bound d l Hd Hl)).
  destruct (fdp_loop_ok l tree_fuel 0 []) as (path & Hp & Hnd & Hin); [done|lia|unfold tree_fuel; lia|].
  rewrite Z.pow_0_r, Z.div_1_r, node_leaf in Hp. exists path. split_and!; [done..|].
  intros p. rewrite Hin. split; [intros (i & _ & ?); eauto|]. intros [i Hi]. exists i. split; [apply Hi|done].
Qed.
End merge.

(** ** Installing the keys *)

Lemma install_keys_ok nodes fdp pubs : NoDup fdp -> Forall (fun p => 0 <= p < len nodes) fdp ->
  length pubs = length fdp ->
  exists nodes', install_keys nodes fdp pubs = Ok nodes' /\ len nodes' = len nodes /\
    forall x, 0 <= x ->
      (x ∉ fdp /\ slot nodes' x = slot nodes x) \/
      (x ∈ fdp /\ exists pub, slot nodes' x = parent_node (mkParentNode pub [] [])).
Proof.
  revert nodes pubs. induction fdp as [|p fdp IH]; intros nodes pubs Hnd Hr Hl.
  { exists nodes. split_and!; [by destruct pubs|done|]. intros x _. left. split; [apply not_elem_of_nil|done]. }
  destruct pubs as [|pub pubs]; [done|]. apply NoDup_cons in Hnd as [Hnp Hnd]. apply Forall_cons in Hr as [Hp Hr].
  cbn [install_keys]. rewrite set_index_in by done. cbn [obind].
  destruct (IH (<[Z.to_nat p := parent_node (mkParentNode pub [] [])]> nodes) pubs) as (nodes' & -> & Hlen & Hs);
    [done|by rewrite len_insert|by injection Hl|].
  exists nodes'. split_and!; [done|by rewrite Hlen, len_insert|]. intros x Hx.
  destruct (Hs x Hx) as [[Hni E]|[Hin E]]; [|right; split; [by right|done]].
  rewrite slot_insert in E by done. case_decide as Hxp.
  - right. subst x. split; [by left|]. exists pub. done.
  - left. rewrite elem_of_cons. split; [by intros []|done].
Qed.

Lemma install_keys_at nodes fdp pubs nodes' i p pub : NoDup fdp -> Forall (fun p => 0 <= p < len nodes) fdp ->
  length pubs = length fdp -> install_keys nodes fdp pubs = Ok nodes' -> fdp !! i = Some p -> pubs !! i = Some pub ->
  slot nodes' p = parent_node (mkParentNode pub [] []).
Proof.
  revert nodes pubs i. induction fdp as [|q fdp IH]; intros nodes pubs i Hnd Hr Hl Hx Hp Hpub; [done|].
  destruct pubs as [|pub0 pubs]; [done|]. apply NoDup_cons in Hnd as [Hnp Hnd]. apply Forall_cons in Hr as [Hq Hr].
  injection Hl as Hl. cbn [install_keys] in Hx. rewrite set_index_in in Hx by done. cbn [obind] in Hx. destruct i as [|i].
  - injection Hp as ->. injection Hpub as ->.
    destruct (install_keys_ok (<[Z.to_nat p := parent_node (mkParentNode pub [] [])]> nodes) fdp pubs) as (n' & E & _ & Hs);
      [done|by rewrite len_insert|done|].
    rewrite E in Hx. apply Ok_inj in Hx as <-. destruct (Hs p ltac:(lia)) as [[_ ->]|[? _]]; [|done].
    by rewrite slot_insert, decide_True by (done || lia).
  - eapply IH; [done| |done|exact Hx|done|done]. by rewrite len_insert.
Qed.

(** Two arrays that differ in parent hashes only. *)
Definition same_shape (nodes nodes' : list (option Node)) : Prop :=
  len nodes' = len nodes /\
  forall x, 0 <= x -> slot nodes' x = slot nodes x \/
    exists p ph, slot nodes x = parent_node p /\
      slot nodes' x = parent_node (mkParentNode (pn_EncryptionKey p) ph (pn_UnmergedLeaves p)).

Lemma same_shape_refl nodes : same_shape nodes nodes.
Proof. split; auto. Qed.

Lemma same_shape_trans n1 n2 n3 : same_shape n1 n2 -> same_shape n2 n3 -> same_shape n1 n3.
Proof.
  intros [Hl1 H1] [Hl2 H2]. split; [congruence|]. intros x Hx.
  destruct (H1 x Hx) as [E1|(p & ph & E1 & E1')], (H2 x Hx) as [E2|(q & qh & E2 & E2')].
  - left. congruence.
  - right. exists q, qh. split; congruence.
  - right. exists p, ph. split; congruence.
  - right. exists p, qh. split; [done|]. rewrite E1' in E2. injection E2 as <-. done.
Qed.

Lemma same_shape_inv d nodes nodes' : tree_inv d nodes -> same_shape nodes nodes' -> tree_inv d nodes'.
Proof.
  intros [Hd Hlen Hleaf Hpar] [Hl Hs].
  assert (forall l, 0 <= l -> slot nodes' (2 * l) = slot nodes (2 * l)) as Hlf.
  { intros l Hl0. destruct (Hs (2 * l) ltac:(lia)) as [|(p & ph & E & _)]; [done|].
    destruct (Hleaf l _ Hl0 E) as [ln ?]. done. }
  assert (forall l, 0 <= l -> populated nodes l -> populated nodes' l) as Hpop.
  { intros l Hl0. unfold populated. by rewrite Hlf. }
  split; [done|congruence|..].
  - intros l n Hl0. rewrite Hlf by done. by apply Hleaf.
  - intros k j n Hk Hj Hn.
    destruct (Hs (node k j) ltac:(apply node_nonneg; lia)) as [E|(p & ph & E & E')].
    + rewrite E in Hn. destruct (Hpar k j n Hk Hj Hn) as [p Hp]. exists p.
      eapply parent_inv_mono; [done|exact Hp|auto].
    + rewrite E' in Hn. injection Hn as <-. destruct (Hpar k j _ Hk Hj E) as [p' Hp].
      apply (parent_inv_mono _ nodes') in Hp; [|done|auto]. destruct Hp as [[= <-] ? ? ? ?].
      eexists. split; [done|..]; done.
Qed.

Section install.
Context {C : StdCrypto} (d : Z).
Implicit Types t : RatchetTree.

(** The nodes after the path of [l] was blanked and the keys of the filtered
    direct path [fdp] were installed. *)
Lemma installed_inv nodes nodes1 nodes2 l (fdp : list Z) :
  tree_inv d nodes -> 0 <= l < 2 ^ d -> populated nodes l ->
  (forall p, p ∈ fdp <-> exists i, on_filtered_path d nodes l i p) ->
  len nodes1 = len nodes -> len nodes2 = len nodes1 ->
  (forall x, 0 <= x -> slot nodes1 x = if decide (x ∈ direct_path d l) then None else slot nodes x) ->
  (forall x, 0 <= x -> (x ∉ fdp /\ slot nodes2 x = slot nodes1 x) \/
     (x ∈ fdp /\ exists pub, slot nodes2 x = parent_node (mkParentNode pub [] []))) ->
  tree_inv d nodes2 /\ forall m, 0 <= m -> slot nodes2 (2 * m) = slot nodes (2 * m).
Proof.
  intros Hinv Hl Hpl Hfdp Hl1 Hl2 H1 H2. pose proof (ti_depth _ _ Hinv) as Hd.
  assert (forall m, 0 <= m -> slot nodes2 (2 * m) = slot nodes (2 * m)) as Hlf.
  { intros m Hm. destruct (H2 (2 * m) ltac:(lia)) as [[_ ->]|[Hin _]].
    - rewrite H1 by lia. by rewrite decide_False by (apply leaf_not_on_path; lia).
    - apply Hfdp in Hin as (i & Hi & E & _). rewrite <- node_leaf in E. apply node_inj in E as [? _]; lia. }
  assert (forall m, 0 <= m -> populated nodes m -> populated nodes2 m) as Hpop.
  { intros m Hm. unfold populated. by rewrite Hlf. }
  split; [|done]. split; [done|by rewrite Hl2, Hl1; apply Hinv|..].
  - intros m n Hm. rewrite Hlf by done. by apply (ti_leaf _ _ Hinv).
  - intros k j n Hk Hj Hn. destruct (H2 (node k j) ltac:(apply node_nonneg; lia)) as [[_ E]|[Hin [pub E]]].
    + rewrite E, H1 in Hn by (apply node_nonneg; lia). case_decide; [done|].
      destruct (ti_parent _ _ Hinv k j n Hk Hj Hn) as [p Hp]. exists p.
      eapply parent_inv_mono; [done|exact Hp|auto].
    + rewrite E in Hn. injection Hn as <-. apply Hfdp in Hin as (i & Hi & Ei & m & Hm & Hmj & Hpm).
      apply node_inj in Ei as [<- ->]; [|lia..]. eexists. split; [done|constructor|constructor|..].
      all: rewrite (div_pow_step l k) by lia; destruct (flip_spec (l / 2 ^ (k - 1))) as (Ef & Hne & _);
        set (a := l / 2 ^ (k - 1)) in *; set (b := flip a) in *;
        pose proof (Z.div_mod a 2 ltac:(lia)); pose proof (Z.mod_pos_bound a 2 ltac:(lia));
        pose proof (Z.div_mod b 2 ltac:(lia)); pose proof (Z.mod_pos_bound b 2 ltac:(lia)).
      * destruct (Z.eq_dec (a mod 2) 0); [exists l|exists m]; (split_and!; [lia|lia|apply Hpop; done || lia]).
      * destruct (Z.eq_dec (a mod 2) 0); [exists m|exists l]; (split_and!; [lia|lia|apply Hpop; done || lia]).
Qed.

Lemma set_parent_hash_ok t x pn ph : 0 <= x < len (rt_nodes t) ->
  slot (rt_nodes t) x = parent_node pn ->
  exists t', set_parent_hash t x ph = Ok t' /\ rt_suite t' = rt_suite t /\ same_shape (rt_nodes t) (rt_nodes t').
Proof.
  intros Hx Hs. unfold set_parent_hash. rewrite index_slot, Hs by done. cbn [obind parent_node].
  rewrite set_index_in by done. cbn [obind]. eexists. split_and!; [done..|]. cbn [rt_nodes].
  split; [apply len_insert|]. intros y Hy. rewrite slot_insert by done. case_decide as E; [|by left].
  right. subst y. by exists pn, ph.
Qed.

Lemma same_shape_parent nodes nodes' x pn : same_shape nodes nodes' -> 0 <= x ->
  slot nodes x = parent_node pn -> exists pn', slot nodes' x = parent_node pn'.
Proof.
  intros [_ H] Hx E. destruct (H x Hx) as [->|(p & ph & _ & ->)]; eauto.
Qed.

Lemma pathChild_ok t k j target : tree_inv d (rt_nodes t) -> 0 < k <= d -> 0 <= j < 2 ^ (d - k) ->
  exists b, pathChild t (node k j) target = Ok (node (k - 1) b) /\ 0 <= b < 2 ^ (d - (k - 1)).
Proof.
  intros Hinv Hk Hj. pose proof (ti_depth _ _ Hinv) as Hd. unfold pathChild.
  rewrite (Left_complete d _ Hinv), (proj1 (leaves_d d t Hinv)), complete_Right by lia.
  cbn [obind default]. unfold id. destruct (child_range d k j Hk Hj).
  destruct (subtreeContains _ _); eauto.
Qed.

(** [parentHashOf] for the sibling of the path child returns. *)
Lemma copath_hash_returns t k j target pn : tree_inv d (rt_nodes t) -> 0 < k <= d -> 0 <= j < 2 ^ (d - k) ->
  slot (rt_nodes t) (node k j) = parent_node pn ->
  returns (let! pc := pathChild t (node k j) target in
           let! s := Sibling pc (2 ^ d) in parentHashOf t (node k j) (default 0 s)).
Proof.
  intros Hinv Hk Hj Hs. pose proof (ti_depth _ _ Hinv) as Hd.
  destruct (pathChild_ok t k j target Hinv Hk Hj) as (b & -> & Hb). cbn [obind].
  rewrite complete_Sibling by lia. cbn [obind default]. unfold id. fold (flip b).
  pose proof (flip_range d (k - 1) b ltac:(lia) Hb). unfold parentHashOf, parent_at.
  pose proof (in_range d _ Hinv k j ltac:(lia) Hj). rewrite index_slot, Hs by done. cbn [obind parent_node].
  apply returns_obind; [apply (treeHashExcept_returns d t Hinv); lia|intros ? _].
  do 3 (apply returns_obind; [apply write_returns|intros ? _]). done.
Qed.

Lemma assign_parent_hashes_ok t fdp : tree_inv d (rt_nodes t) ->
  Forall (fun p => exists k j pn, p = node k j /\ 0 < k <= d /\ 0 <= j < 2 ^ (d - k) /\
    slot (rt_nodes t) p = parent_node pn) fdp ->
  returns (assign_parent_hashes t (2 ^ d) fdp) /\
  forall t', assign_parent_hashes t (2 ^ d) fdp = Ok t' ->
    rt_suite t' = rt_suite t /\ same_shape (rt_nodes t) (rt_nodes t').
Proof.
  intros Hinv. induction fdp as [|p above IH]; intros HF; cbn [assign_parent_hashes].
  { split; [done|]. intros t' [= <-]. split; [done|apply same_shape_refl]. }
  apply Forall_cons in HF as [(k & j & pn & -> & Hk & Hj & Hs) HF]. destruct (IH HF) as [HR HS].
  destruct (assign_parent_hashes t (2 ^ d) above) as [t1| | |]; [|done..]. cbn [obind].
  destruct (HS t1 eq_refl) as [Hsu Hsh]. pose proof (same_shape_inv d _ _ Hinv Hsh) as Hinv1.
  pose proof (in_range d _ Hinv1 k j ltac:(lia) Hj) as Hin.
  destruct (same_shape_parent _ _ (node k j) pn Hsh) as [pn1 Hs1]; [lia|done|].
  assert (forall ph, returns (set_parent_hash t1 (node k j) ph) /\
    forall t', set_parent_hash t1 (node k j) ph = Ok t' ->
      rt_suite t' = rt_suite t /\ same_shape (rt_nodes t) (rt_nodes t')) as Hset.
  { intros ph. destruct (set_parent_hash_ok t1 (node k j) pn1 ph Hin Hs1) as (t2 & -> & Hsu2 & Hsh2).
    split; [done|]. intros t' [= <-]. split; [congruence|by eapply same_shape_trans]. }
  destruct above as [|parent above]; [apply Hset|].
  apply Forall_cons in HF as [(k2 & j2 & pn2 & -> & Hk2 & Hj2 & Hs2) _].
  destruct (same_shape_parent _ _ (node k2 j2) pn2 Hsh) as [pn3 Hs3]; [apply node_nonneg; lia|done|].
  pose proof (copath_hash_returns t1 k2 j2 (node k j) pn3 Hinv1 Hk2 Hj2 Hs3) as Hret.
  destruct (pathChild t1 (node k2 j2) (node k j)) as [pc| | |]; try done. cbn [obind] in *.
  destruct (Sibling pc (2 ^ d)) as [s| | |]; try done. cbn [obind] in *.
  destruct (parentHashOf t1 (node k2 j2) (default 0 s)) as [ph| | |]; try done. apply Hset.
Qed.

Context (t : RatchetTree) (Hinv : tree_inv d (rt_nodes t)).

(** What installing a path does to the parents: the path nodes get their keys,
    the others on the way up are blank, and nothing else changes but parent
    hashes. *)
Definition path_installed (l : Z) (pubs : list bytes) (fdp : list Z) (nodes nodes' : list (option Node)) : Prop :=
  (forall i p pub, fdp !! i = Some p -> pubs !! i = Some pub ->
     exists ph, slot nodes' p = parent_node (mkParentNode pub ph [])) /\
  (forall x, 0 <= x -> x ∉ fdp ->
     let old := if decide (x ∈ direct_path d l) then None else slot nodes x in
     slot nodes' x = old \/
     exists q ph, old = parent_node q /\
       slot nodes' x = parent_node (mkParentNode (pn_EncryptionKey q) ph (pn_UnmergedLeaves q))).

Lemma installPath_full l pubs : 0 <= l < 2 ^ d -> populated (rt_nodes t) l ->
  returns (installPath t l pubs) /\
  forall t' fdp, installPath t l pubs = Ok (t', fdp) ->
    rt_suite t' = rt_suite t /\ tree_inv d (rt_nodes t') /\ filteredDirectPath t l = Ok fdp /\
    (forall m, 0 <= m -> slot (rt_nodes t') (2 * m) = slot (rt_nodes t) (2 * m)) /\
    path_installed l pubs fdp (rt_nodes t) (rt_nodes t').
Proof using Hinv.
  intros Hl Hpl. pose proof (ti_depth _ _ Hinv) as Hd. pose proof (ti_len _ _ Hinv) as Hlen.
  destruct (filteredDirectPath_ok d t Hinv l Hl) as (fdp & Hf & Hnd & Hin).
  unfold installPath. rewrite (proj1 (leaves_d d t Hinv)), (proj1 (leaf_bound d l Hd Hl)), Hf. cbn [obind].
  destruct (Z.eqb_spec (len fdp) (len pubs)) as [El|]; [|done]. cbn [negb].
  destruct (blank_path_complete d (rt_nodes t) l Hd Hlen Hl) as (nodes1 & -> & Hl1 & H1). cbn [obind].
  assert (Forall (fun p => exists k j, p = node k j /\ 0 < k <= d /\ 0 <= j < 2 ^ (d - k)) fdp) as HF.
  { apply Forall_forall. intros p (i & Hi & -> & _)%Hin. exists i, (l / 2 ^ i).
    pose proof (div_pow_range d Hd l i Hl ltac:(lia)). split_and!; done || lia. }
  assert (Forall (fun p => 0 <= p < len nodes1) fdp) as HFr.
  { eapply Forall_impl; [exact HF|]. intros p (k & j & -> & ? & ?). rewrite Hl1. apply (in_range d); auto; lia. }
  assert (length pubs = length fdp) as Ell by (unfold len in El; lia).
  destruct (install_keys_ok nodes1 fdp pubs Hnd HFr Ell) as (nodes2 & Ei & Hl2 & H2). rewrite Ei. cbn [obind].
  destruct (installed_inv (rt_nodes t) nodes1 nodes2 l fdp) as [Hinv2 Hlf]; [done..|].
  destruct (assign_parent_hashes_ok (mkRatchetTree (rt_suite t) nodes2) fdp Hinv2) as [HR HS].
  { apply Forall_forall. intros p Hp. rewrite Forall_forall in HF. destruct (HF p Hp) as (k & j & -> & Hk & Hj).
    destruct (H2 (node k j) ltac:(apply node_nonneg; lia)) as [[? _]|[_ [pub E]]]; [done|]. by exists k, j, (mkParentNode pub [] []). }
  split; [by apply returns_obind|]. intros t' fdp' H. apply obind_ok in H as (t2 & Ht2 & [= <- <-]).
  destruct (HS t2 Ht2) as [Hsu Hsh]. cbn [rt_nodes rt_suite] in *.
  pose proof (same_shape_inv d _ _ Hinv2 Hsh) as Hinv3. split_and!; [done..| |].
  { intros m Hm. rewrite <- Hlf by done. destruct (proj2 Hsh (2 * m) ltac:(lia)) as [|(p & ph & E & _)]; [done|].
    destruct (ti_leaf _ _ Hinv2 m _ Hm E) as [ln ?]. done. }
  split.
  - intros i p pub Hp Hpub. pose proof (install_keys_at nodes1 fdp pubs nodes2 i p pub Hnd HFr Ell Ei Hp Hpub) as E.
    rewrite Forall_forall in HFr. destruct (HFr p ltac:(by eapply list_elem_of_lookup_2)) as [Hp0 _].
    destruct (proj2 Hsh p Hp0) as [->|(q & ph & Eq & ->)]; [by exists []|]. rewrite E in Eq. injection Eq as <-. by exists ph.
  - intros x Hx Hnx. destruct (H2 x Hx) as [[_ E]|[? _]]; [|done]. rewrite H1 in E by done.
    destruct (proj2 Hsh x Hx) as [->|(q & ph & Eq & E')]; [by left|right]. rewrite Eq in E. exists q, ph. done.
Qed.

Lemma installPath_ok l pubs : 0 <= l < 2 ^ d -> populated (rt_nodes t) l ->
  returns (installPath t l pubs) /\
  forall t' fdp, installPath t l pubs = Ok (t', fdp) ->
    rt_suite t' = rt_suite t /\ tree_inv d (rt_nodes t') /\ filteredDirectPath t l = Ok fdp /\
    forall m, 0 <= m -> slot (rt_nodes t') (2 * m) = slot (rt_nodes t) (2 * m).
Proof using Hinv.
  intros Hl Hp. destruct (installPath_full l pubs Hl Hp) as [HR HS]. split; [done|]. intros t' fdp Hx.
  by destruct (HS t' fdp Hx) as (? & ? & ? & ? & _).
Qed.

Lemma set_leaf_inv nodes l ln : tree_inv d nodes -> 0 <= l < 2 ^ d ->
  tree_inv d (<[Z.to_nat (2 * l) := leaf_node ln]> nodes) /\
  forall x, 0 <= x -> slot (<[Z.to_nat (2 * l) := leaf_node ln]> nodes) x =
    if decide (x = 2 * l) then leaf_node ln else slot nodes x.
Proof using.
  clear. intros Hi Hl. pose proof (ti_depth _ _ Hi) as Hd. pose proof (ti_len _ _ Hi) as Hlen.
  pose proof (proj2 (leaf_bound d l Hd Hl)) as Hb.
  assert (forall x, 0 <= x -> slot (<[Z.to_nat (2 * l) := leaf_node ln]> nodes) x =
    if decide (x = 2 * l) then leaf_node ln else slot nodes x) as Hs.
  { intros x Hx. apply slot_insert; lia. }
  split; [|done]. split; [done|by rewrite len_insert|..].
  - intros m n Hm. rewrite Hs by lia. case_decide; [intros [= <-]; eauto|by apply (ti_leaf _ _ Hi)].
  - intros k j n Hk Hj. rewrite Hs by (apply node_nonneg; lia).
    rewrite decide_False by (rewrite <- node_leaf; intros [? _]%node_inj; lia). intros Hn.
    destruct (ti_parent _ _ Hi k j n Hk Hj Hn) as [p Hp]. exists p. eapply parent_inv_mono; [done|exact Hp|].
    intros m Hm _. unfold populated. rewrite Hs by lia. case_decide; [eauto|done].
Qed.

(** [Merge] returns, and a merged tree is well formed and has the new leaf. *)
Lemma Merge_ok l up : 0 <= l < 2 ^ d -> populated (rt_nodes t) l ->
  returns (Merge t l up) /\
  forall t', Merge t l up = Ok t' -> rt_suite t' = rt_suite t /\ tree_inv d (rt_nodes t') /\
    roster_of (rt_nodes t') = <[l := up_LeafNode up]> (roster_of (rt_nodes t)).
Proof using Hinv.
  intros Hl Hpl. pose proof (ti_depth _ _ Hinv) as Hd.
  destruct (installPath_ok l (map upn_EncryptionKey (up_Nodes up)) Hl Hpl) as [HR HS].
  unfold Merge. rewrite (proj1 (leaf_bound d l Hd Hl)).
  destruct (installPath t l _) as [[t1 fdp]| | |]; [|done..]. cbn [obind].
  destruct (HS t1 fdp eq_refl) as (Hsu & Hinv1 & _ & Hlf).
  pose proof (proj2 (leaf_bound d l Hd Hl)) as Hb.
  rewrite set_index_in by (rewrite (ti_len _ _ Hinv1); lia). cbn [obind]. split; [done|].
  intros t' [= <-]. cbn [rt_nodes rt_suite].
  destruct (set_leaf_inv (rt_nodes t1) l (up_LeafNode up) Hinv1 Hl) as [Hinv2 Hs]. split_and!; [done..|].
  apply roster_eq; intros m Hm.
  - rewrite Hs, Hlf by lia. case_decide as E.
    + assert (m = l) as -> by lia. by rewrite lookup_insert_eq.
    + rewrite lookup_insert_ne by lia. by rewrite lookup_roster.
  - rewrite lookup_insert_ne by lia. by apply lookup_roster_neg.
Qed.
End install.

(** * Every member reads a commit *)

Section delivery.
Context {C : StdCrypto} (d : Z).
Implicit Types t : RatchetTree.

(** What member [m] keeps: the key of its leaf and of every populated ancestor
    it is merged into, no key off its direct path, and each key the partner
    of the public key in the tree. *)
Record member_keys t (m : Z) (priv : TreeKEMPrivate) : Prop := {
  mk_leaf : is_Some (privateKey priv (2 * m));
  mk_path : forall k p, 0 < k <= d -> slot (rt_nodes t) (node k (m / 2 ^ k)) = parent_node p ->
    m ∉ pn_UnmergedLeaves p -> is_Some (privateKey priv (node k (m / 2 ^ k)));
  mk_own : forall x, is_Some (privateKey priv x) -> exists k, 0 <= k /\ x = node k (m / 2 ^ k);
  mk_pairs : consistent t priv
}.

(** The part of it that a commit of [s] asks for, when the paths of [s] and [m]
    meet at level [K]: the keys below that level. *)
Record usable_keys t (m K : Z) (priv : TreeKEMPrivate) : Prop := {
  uk_leaf : is_Some (privateKey priv (2 * m));
  uk_path : forall k p, 0 < k < K -> slot (rt_nodes t) (node k (m / 2 ^ k)) = parent_node p ->
    m ∉ pn_UnmergedLeaves p -> is_Some (privateKey priv (node k (m / 2 ^ k)));
  uk_own : forall x, is_Some (privateKey priv x) -> exists k, 0 <= k /\ x = node k (m / 2 ^ k);
  uk_pairs : consistent_at t priv (fun x => exists k, 0 <= k < K /\ x = node k (m / 2 ^ k))
}.

Lemma member_keys_usable t m K priv : K <= d + 1 -> member_keys t m priv -> usable_keys t m K priv.
Proof.
  intros HK [Hl Hp Ho Hc]. split; [done| |done|].
  - intros k p Hk. apply Hp. lia.
  - intros x sk pk _. apply Hc.
Qed.

(** Level [K] is where the paths of leaves [s] and [m] meet. *)
Definition meet (s m K : Z) : Prop :=
  0 < K <= d /\ m / 2 ^ K = s / 2 ^ K /\ m / 2 ^ (K - 1) = flip (s / 2 ^ (K - 1)).

Lemma flip_unique a b : a / 2 = b / 2 -> a <> b -> a = flip b.
Proof. unfold flip. pose proof (Zmod_even b) as H. destruct (Z.even b); zlia. Qed.

Lemma meet_exists s m : 0 <= d -> 0 <= s < 2 ^ d -> 0 <= m < 2 ^ d -> s <> m -> exists K, meet s m K.
Proof.
  intros Hd Hs Hm Hne.
  assert (forall n : nat, Z.of_nat n <= d -> m / 2 ^ Z.of_nat n = s / 2 ^ Z.of_nat n -> exists K, meet s m K) as H.
  { induction n as [|n IH]; intros Hn E; [rewrite !Z.pow_0_r, !Z.div_1_r in E; lia|].
    destruct (Z.eq_dec (m / 2 ^ Z.of_nat n) (s / 2 ^ Z.of_nat n)) as [E'|E']; [apply IH; [lia|done]|].
    exists (Z.of_nat (S n)). split_and!; [lia|lia|done|]. replace (Z.of_nat (S n) - 1) with (Z.of_nat n) by lia.
    apply flip_unique; [|done]. rewrite (div_pow_step m), (div_pow_step s) in E by lia.
    by replace (Z.of_nat (S n) - 1) with (Z.of_nat n) in E by lia. }
  apply (H (Z.to_nat d)); rewrite Z2Nat.id by lia; [lia|]. by rewrite !Z.div_small.
Qed.

Lemma meet_unique s m K i : meet s m K -> 0 < i <= d -> m / 2 ^ (i - 1) = flip (s / 2 ^ (i - 1)) -> i = K.
Proof.
  intros (HK & E & F) Hi G.
  assert (forall a b, 0 <= a <= b -> m / 2 ^ a = s / 2 ^ a -> m / 2 ^ b = s / 2 ^ b) as Hup.
  { intros a b Hab Ha. replace b with (a + (b - a)) by lia. rewrite Z.pow_add_r by lia.
    rewrite <- !Z.div_div by (try apply pow2_pos; lia). by rewrite Ha. }
  destruct (flip_spec (s / 2 ^ (i - 1))) as (Gd & Gn & _), (flip_spec (s / 2 ^ (K - 1))) as (Fd & Fn & _).
  assert (m / 2 ^ i = s / 2 ^ i) as E' by (rewrite (div_pow_step m), (div_pow_step s), G by lia; done).
  destruct (Z.lt_trichotomy i K) as [Hlt|[?|Hlt]]; [|done|]; exfalso.
  - apply Fn. rewrite <- F. apply (Hup i); [lia|done].
  - apply Gn. rewrite <- G. apply (Hup K); [lia|done].
Qed.

Context (t : RatchetTree) (Hinv : tree_inv d (rt_nodes t)).

Lemma copathChild_ok s i : 0 <= s < 2 ^ d -> 0 < i <= d ->
  copathChild t (node i (s / 2 ^ i)) (2 * s) = Ok (node (i - 1) (flip (s / 2 ^ (i - 1)))).
Proof using Hinv.
  intros Hs Hi. pose proof (ti_depth _ _ Hinv) as Hd. unfold copathChild, pathChild.
  pose proof (div_pow_range d Hd s i Hs ltac:(lia)) as Hj. pose proof (div_pow_range d Hd s (i - 1) Hs ltac:(lia)).
  pose proof (div_pow_step s i ltac:(lia)) as E. destruct (child_range d i _ Hi Hj) as [Hl Hr].
  rewrite (Left_complete d _ Hinv), (proj1 (leaves_d d t Hinv)), complete_Right by lia.
  cbn [obind default]. unfold id.
  assert (forall b, 0 <= b < 2 ^ (d - (i - 1)) -> subtreeContains (node (i - 1) b) (2 * s) = true <-> s / 2 ^ (i - 1) = b)
    as Hin.
  { intros b Hb. rewrite <- (node_leaf s), (subtreeContains_ok d Hd) by lia.
    replace (i - 1 - 0) with (i - 1) by lia. split; [by intros []|split; [lia|done]]. }
  destruct (subtreeContains (node (i - 1) (2 * (s / 2 ^ i))) (2 * s)) eqn:Es; cbn [obind].
  - apply Hin in Es; [|done]. rewrite <- Es, complete_Sibling by lia. done.
  - assert (s / 2 ^ (i - 1) <> 2 * (s / 2 ^ i)) by (intros Hx%Hin; [congruence|done]).
    replace (2 * (s / 2 ^ i) + 1) with (s / 2 ^ (i - 1)) by zlia. by rewrite complete_Sibling by lia.
Qed.

(** A key of [m] that a path node's secret is encrypted to is that of a node
    below the meeting point, and the path node is the meeting point. *)
Lemma held_below_meet s m K i res x k : 0 <= s < 2 ^ d -> 0 <= m < 2 ^ d -> meet s m K -> 0 < i <= d ->
  Resolution t (node (i - 1) (flip (s / 2 ^ (i - 1)))) = Ok res -> x ∈ res -> 0 <= k -> x = node k (m / 2 ^ k) ->
  i = K /\ k < K.
Proof using Hinv.
  intros Hs Hm HK Hi Hres Hx Hk ->. pose proof (ti_depth _ _ Hinv) as Hd.
  pose proof (flip_range d (i - 1) _ ltac:(lia) (div_pow_range d Hd s (i - 1) Hs ltac:(lia))) as Hfl.
  destruct (Resolution_ok d t Hinv (i - 1) _ ltac:(lia) Hfl) as (res' & Hres' & HF & _).
  rewrite Hres in Hres'. apply Ok_inj in Hres' as <-.
  rewrite Forall_forall in HF. destruct (HF _ Hx) as (k' & j' & Hk' & Hj' & E & Ej & _).
  apply node_inj in E as [<- <-]; [|lia..]. assert (i = K) as ->; [|lia]. apply (meet_unique s m K); [done..|].
  rewrite <- Ej, Z.div_div by (apply pow2_pos || apply Z.pow_nonzero; lia).
  rewrite <- Z.pow_add_r by lia. do 2 f_equal. lia.
Qed.

(** Of the entries of the path exactly the one where the paths of sender and
    receiver meet has a ciphertext for the receiver. *)
Lemma holds_iff_meet s m priv (added : gset Z) K i res : 0 <= s < 2 ^ d -> 0 <= m < 2 ^ d -> meet s m K ->
  populated (rt_nodes t) m -> usable_keys t m K priv -> 2 * m ∉ added -> (forall x, x ∈ added -> Z.even x = true) ->
  0 < i <= d -> Resolution t (node (i - 1) (flip (s / 2 ^ (i - 1)))) = Ok res ->
  holds priv added res = bool_decide (i = K).
Proof using Hinv.
  intros Hs Hm HK Hpop [Hkl Hkp Hko _] Hna Hev Hi Hres. pose proof (ti_depth _ _ Hinv) as Hd.
  pose proof (flip_range d (i - 1) _ ltac:(lia) (div_pow_range d Hd s (i - 1) Hs ltac:(lia))) as Hfl.
  destruct (Resolution_ok d t Hinv (i - 1) _ ltac:(lia) Hfl) as (res' & Hres' & HF & HC).
  rewrite Hres in Hres'. apply Ok_inj in Hres' as <-. apply eq_bool_prop_intro.
  rewrite bool_decide_spec. unfold holds. rewrite Is_true_true, existsb_exists. split.
  - intros (x & Hx & Hb). apply andb_true_iff in Hb as [_ Hb]. apply list_elem_of_In in Hx.
    destruct (Hko x) as (k & Hk & Ex); [by destruct (privateKey priv x)|]. by apply (held_below_meet s m K i res x k).
  - intros ->. destruct HK as (_ & _ & E). destruct (HC m ltac:(lia) E Hpop) as [Hin|(k & p & Hk & Hin & Hsl & Hun)].
    + exists (2 * m). split; [by apply list_elem_of_In|]. rewrite bool_decide_eq_true_2 by done.
      by destruct Hkl as [? ->].
    + exists (node k (m / 2 ^ k)). split; [by apply list_elem_of_In|].
      destruct (Hkp k p ltac:(lia) Hsl Hun) as [? ->]. rewrite bool_decide_eq_true_2; [done|].
      intros Hx%Hev. revert Hx. rewrite node_eq by lia. rewrite Z.even_add, Z.even_mul, Z.even_sub.
      rewrite !Z.even_pow by lia. by rewrite orb_true_r.
Qed.

Lemma first_held_ok s m priv (added : gset Z) K path : 0 <= s < 2 ^ d -> 0 <= m < 2 ^ d -> meet s m K ->
  populated (rt_nodes t) m -> usable_keys t m K priv -> 2 * m ∉ added -> (forall x, x ∈ added -> Z.even x = true) ->
  Forall (fun p => exists i, 0 < i <= d /\ p = node i (s / 2 ^ i)) path -> node K (s / 2 ^ K) ∈ path ->
  exists i, first_held t (2 * s) priv added path = Some i /\ path !! i = Some (node K (s / 2 ^ K)).
Proof using Hinv.
  intros Hs Hm HK Hpop Hkeys Hna Hev HF. pose proof (ti_depth _ _ Hinv) as Hd.
  induction HF as [|p path (i & Hi & ->) HF IH]; [by intros ?%not_elem_of_nil|]. intros Hin. cbn [first_held].
  rewrite copathChild_ok by done. cbn [obind].
  pose proof (flip_range d (i - 1) _ ltac:(lia) (div_pow_range d Hd s (i - 1) Hs ltac:(lia))) as Hfl.
  destruct (Resolution_ok d t Hinv (i - 1) _ ltac:(lia) Hfl) as (res & Hres & _). rewrite Hres.
  rewrite (holds_iff_meet s m priv added K i res) by done. case_bool_decide as E.
  - exists 0%nat. split; [done|by rewrite E].
  - destruct IH as (n & -> & Hn); [|by exists (S n)].
    apply elem_of_cons in Hin as [[? _]%node_inj|]; [|destruct HK as [? _]; lia..|done]. lia.
Qed.
End delivery.

(** ** The tree through its life *)

(** One step of a ratchet tree: a member is added, updates or is removed, or a
    commit's path is merged for a populated leaf. *)
Inductive tree_step {C : StdCrypto} (t : RatchetTree) : RatchetTree -> Prop :=
| step_op op t' : op_indexable (Z.log2 (len (rt_nodes t))) op -> tree_apply t op = Ok t' -> tree_step t t'
| step_merge l up t' : 0 <= l -> populated (rt_nodes t) l -> Merge t l up = Ok t' -> tree_step t t'.

Lemma log2_width d : 0 <= d -> Z.log2 (2 ^ (d + 1) - 1) = d.
Proof.
  intros Hd. pose proof (pow2_pos d Hd). apply Z.log2_unique; [done|]. rewrite <- Z.add_1_r, pow2_S by lia. lia.
Qed.

Lemma tree_step_inv {C : StdCrypto} t t' d : tree_inv d (rt_nodes t) -> tree_step t t' ->
  rt_suite t' = rt_suite t /\ exists d', tree_inv d' (rt_nodes t').
Proof.
  intros Hinv Hs. pose proof (ti_depth _ _ Hinv) as Hd. pose proof (ti_len _ _ Hinv) as Hlen.
  destruct Hs as [op t' Hop Happ|l up t' Hl Hpop Hm].
  - rewrite Hlen, log2_width in Hop by lia.
    assert (op_in_range d op) as Hr.
    { assert (op_in_range d op \/ ~ op_in_range d op) as [?|Hn] by (destruct op; cbn; lia); [done|].
      pose proof (tree_apply_err t d op Hinv Hop Hn) as He. by rewrite Happ in He. }
    destruct (tree_apply_ok t d op Hinv Hr) as (t1 & d' & E & Hinv' & Hsu & _).
    rewrite Happ in E. apply Ok_inj in E as <-. eauto.
  - pose proof (populated_range d _ l Hlen ltac:(lia) Hpop).
    destruct (Merge_ok d t Hinv l up ltac:(lia) Hpop) as [_ HM]. destruct (HM t' Hm) as (Hsu & Hinv' & _). eauto.
Qed.

(** ** What the committer chose arrives *)

Lemma UpdatePath_delivers {C : StdCrypto} `{!StdCryptoLaws C} d t t' s m priv leafSecret signer groupID
    newlyAdded mkGroupContext rng up commitSecret pathSecrets :
  tree_inv d (rt_nodes t) -> 0 <= s < 2 ^ d -> 0 <= m < 2 ^ d -> s <> m ->
  populated (rt_nodes t) m -> (forall K, meet d s m K -> usable_keys t m K priv) ->
  Forall (fun l => 0 <= l < 2 ^ d) newlyAdded -> m ∉ newlyAdded ->
  GenerateUpdatePath t s leafSecret signer groupID newlyAdded mkGroupContext rng
    = Ok (t', (up, commitSecret, pathSecrets)) ->
  exists h gc K ps,
    RootTreeHash t' = Ok h /\ mkGroupContext h = Ok gc /\
    meet d s m K /\ pathSecrets !! node K (s / 2 ^ K) = Some ps /\
    ProcessUpdatePath t s up priv gc newlyAdded = Ok (Some (ps, commitSecret)) /\
    Merge t s up = Ok t'.
Proof.
  intros Hinv Hs Hm Hne Hpop Hkeys' Hadd Hna HG. pose proof (ti_depth _ _ Hinv) as Hd.
  pose proof (Merge_agrees _ _ _ _ _ _ _ _ _ _ _ _ HG) as Hmerge.
  pose proof HG as HG'. apply GenerateUpdatePath_inv in HG'
    as (_ & _ & _ & _ & _ & _ & _ & h & gc & _ & _ & _ & _ & _ & _ & _ & _ & _ & _ & Hh & Hgc & _).
  destruct (filteredDirectPath_ok d t Hinv s Hs) as (path & Hpath & Hnd & Hin).
  destruct (meet_exists d s m ltac:(lia) Hs Hm Hne) as [K HK]. pose proof (Hkeys' K HK) as Hkeys.
  destruct (ProcessUpdatePath_agrees _ _ _ _ _ _ _ _ _ _ _ _ priv gc h HG Hh Hgc)
    as (fdp & pss & Hfdp & Hl & -> & Hproc).
  { intros fdp Hf x sk pk (q & Hq & cc & res & Hcc & Hres & Hx) Hsk. rewrite Hpath in Hf. apply Ok_inj in Hf as <-.
    apply (uk_pairs _ _ _ _ Hkeys); [|done]. apply Hin in Hq as (i & Hi & -> & _).
    rewrite (proj1 (leaf_bound d s Hd Hs)), (copathChild_ok d t Hinv) in Hcc by done. apply Ok_inj in Hcc as <-.
    destruct (uk_own _ _ _ _ Hkeys x ltac:(by eexists)) as (k & Hk & Ex). exists k. split; [|done]. split; [done|].
    by apply (held_below_meet d t Hinv s m K i res x k). }
  rewrite Hfdp in Hpath. apply Ok_inj in Hpath as <-. exists h, gc, K.
  destruct (first_held_ok d t Hinv s m priv (newlyAddedSet newlyAdded) K fdp) as (i & Hfh & Hi); [done..| | | | |].
  { unfold newlyAddedSet. rewrite elem_of_list_to_set, list_elem_of_fmap. intros (l & E & Hl').
    rewrite Forall_forall in Hadd. specialize (Hadd l Hl'). rewrite (proj1 (leaf_bound d l Hd Hadd)) in E.
    by replace m with l in Hna by lia. }
  { intros x. unfold newlyAddedSet. rewrite elem_of_list_to_set, list_elem_of_fmap. intros (l & -> & _).
    apply Z.even_spec. exists (l mod 2 ^ 31). unfold u32. zlia. }
  { apply Forall_forall. intros p (i & Hi & -> & _)%Hin. by exists i. }
  { apply Hin. exists K. destruct HK as (HK & _ & E). split_and!; [lia|lia|done|]. exists m. split_and!; [lia|done|done]. }
  destruct (lookup_lt_is_Some_2 pss i) as [ps Hps]; [rewrite Hl; by eapply lookup_lt_Some|].
  exists ps. rewrite (proj1 (leaf_bound d s Hd Hs)) in Hproc. rewrite Hfh, Hps in Hproc. split_and!; try done.
  apply elem_of_list_to_map_1.
  - rewrite <- (Permutation_rev (zip fdp pss)), fst_zip by lia. done.
  - rewrite <- (Permutation_rev (zip fdp pss)), list_elem_of_lookup. exists i. by rewrite lookup_zip_with, Hi, Hps.
Qed.

(** * Properties *)

(** C24: TreeKEM delivers.  When a committer generates an update path, every
    other member of a well-formed tree that was not added by the commit and
    keeps its keys (leaf and merged ancestors) decrypts, at the node where its
    path meets the committer's, the path secret the committer chose for that
    node, arrives at the committer's commit secret, and merges the path into
    the tree the committer has. *)
Theorem members_agree_on_commit {C : StdCrypto} `{!StdCryptoLaws C} d t t' s m priv leafSecret signer groupID
    newlyAdded mkGroupContext rng up commitSecret pathSecrets :
  tree_inv d (rt_nodes t) -> 0 <= s < 2 ^ d -> 0 <= m < 2 ^ d -> s <> m ->
  populated (rt_nodes t) m -> member_keys d t m priv ->
  Forall (fun l => 0 <= l < 2 ^ d) newlyAdded -> m ∉ newlyAdded ->
  GenerateUpdatePath t s leafSecret signer groupID newlyAdded mkGroupContext rng
    = Ok (t', (up, commitSecret, pathSecrets)) ->
  exists h gc K ps,
    RootTreeHash t' = Ok h /\ mkGroupContext h = Ok gc /\
    meet d s m K /\ pathSecrets !! node K (s / 2 ^ K) = Some ps /\
    ProcessUpdatePath t s up priv gc newlyAdded = Ok (Some (ps, commitSecret)) /\
    Merge t s up = Ok t'.
Proof.
  intros Hinv Hs Hm Hne Hpop Hk. apply UpdatePath_delivers; try done. intros K HK. apply (member_keys_usable d); [|done].
  destruct HK. lia.
Qed.

(** Member 2 of the example group, with the key of its leaf only. *)
Definition member2 : TreeKEMPrivate := NewTreeKEMPrivate 2 (toy_priv 2).

Lemma member2_keys : member_keys 2 (Example.tree 4) 2 member2.
Proof.
  split.
  - by exists (toy_priv 2).
  - intros k p Hk Hs. exfalso. assert (k = 1 \/ k = 2) as [-> | ->] by lia; vm_compute in Hs; discriminate.
  - intros x [sk Hx]. exists 0. split; [done|]. unfold privateKey, member2, NewTreeKEMPrivate in Hx. cbn [privs] in Hx.
    apply lookup_singleton_Some in Hx as [<- _]. reflexivity.
  - intros x sk pk Hx Hpk. unfold privateKey, member2, NewTreeKEMPrivate in Hx. cbn [privs] in Hx.
    apply lookup_singleton_Some in Hx as [<- <-].
    assert (nodePublicKey (Example.tree 4) (u32 (2 * 2)) = Ok (toy_pub 2)) as E by (vm_compute; reflexivity).
    rewrite E in Hpk. apply Ok_inj in Hpk as <-. apply toy_key_pair.
Qed.

Definition example_path :=
  GenerateUpdatePath (Example.tree 4) 0 (toy_priv 50) (Example.signer 0) Example.group_id [3] Ok (fun i j : Z => (i + j : Rand (StdCrypto := toy))).

Lemma members_agree_on_commit_witness :
  match example_path with
  | Ok (t', (up, cs, pathSecrets)) =>
      exists h gc K ps, RootTreeHash t' = Ok h /\ Ok h = Ok gc /\ meet 2 0 2 K /\
        pathSecrets !! node K (0 / 2 ^ K) = Some ps /\
        ProcessUpdatePath (Example.tree 4) 0 up member2 gc [3] = Ok (Some (ps, cs)) /\
        Merge (Example.tree 4) 0 up = Ok t'
  | _ => False
  end.
Proof.
  destruct (is_ok_inv example_path) as [[t' [[up cs] pss]] E]; [vm_compute; reflexivity|].
  rewrite E. unfold example_path in E.
  refine (@members_agree_on_commit toy toy_laws 2 (Example.tree 4) t' 0 2 member2 (toy_priv 50) (Example.signer 0)
    Example.group_id [3] Ok (fun i j : Z => i + j) up cs pss Example.tree4_inv _ _ _ _ member2_keys _ _ E); [cbn; lia|cbn; lia|done| | |].
  - eexists. vm_compute. reflexivity.
  - repeat constructor; cbn; lia.
  - by intros [?|[]%not_elem_of_nil]%elem_of_cons.
Defined.

(** [filteredDirectPath] of a leaf of a well-formed tree returns, without
    repetition, exactly the ancestors whose child off the path has a member
    below it. *)
Theorem filtered_direct_path {C : StdCrypto} d t l :
  tree_inv d (rt_nodes t) -> 0 <= l < 2 ^ d ->
  exists path, filteredDirectPath t l = Ok path /\ NoDup path /\
    forall p, p ∈ path <-> exists i, 0 < i <= d /\ p = node i (l / 2 ^ i) /\
      exists m, 0 <= m /\ populated (rt_nodes t) m /\ m / 2 ^ i = l / 2 ^ i /\ m / 2 ^ (i - 1) <> l / 2 ^ (i - 1).
Proof.
  intros Hinv Hl. destruct (filteredDirectPath_ok d t Hinv l Hl) as (path & Hp & Hnd & Hin).
  exists path. split_and!; [done..|]. intros p. rewrite Hin. unfold on_filtered_path.
  split; intros (i & Hi & -> & m & Hm & H1 & H2).
  - exists i. destruct (flip_spec (l / 2 ^ (i - 1))) as (E & Hne & _). split_and!; [lia..|done|].
    exists m. split_and!; [done..| |by rewrite H1]. by rewrite (div_pow_step m), (div_pow_step l), H1 by lia.
  - exists i. destruct H2 as [E Hne]. split_and!; [lia..|done|]. exists m. split_and!; [done| |done].
    apply flip_unique; [|done]. rewrite (div_pow_step m), (div_pow_step l) in E by lia. done.
Qed.

Lemma filtered_direct_path_witness :
  exists path, filteredDirectPath (Example.tree 3) 2 = Ok path /\ NoDup path /\
    forall p, p ∈ path <-> exists i, 0 < i <= 2 /\ p = node i (2 / 2 ^ i) /\
      exists m, 0 <= m /\ populated (rt_nodes (Example.tree 3)) m /\ m / 2 ^ i = 2 / 2 ^ i /\ m / 2 ^ (i - 1) <> 2 / 2 ^ (i - 1).
Proof. apply (filtered_direct_path 2 (Example.tree 3) 2 Example.tree3_inv). cbn; lia. Defined.

(** C27: merging an update path of a populated leaf into a well-formed tree
    neither panics nor diverges, whatever the path, and when it succeeds the
    tree is well formed, the sender's leaf is the path's and every other leaf
    is unchanged. *)
Theorem merge_well_formed {C : StdCrypto} d t l up :
  tree_inv d (rt_nodes t) -> 0 <= l < 2 ^ d -> populated (rt_nodes t) l ->
  returns (Merge t l up) /\
  forall t', Merge t l up = Ok t' -> rt_suite t' = rt_suite t /\ tree_inv d (rt_nodes t') /\
    roster_of (rt_nodes t') = <[l := up_LeafNode up]> (roster_of (rt_nodes t)).
Proof. intros Hinv. by apply Merge_ok. Qed.

Lemma merge_well_formed_witness :
  returns (Merge (Example.tree 4) 1 (mkUpdatePath (Example.leaf 7) [mkUpdatePathNode (toy_pub 8) []])).
Proof.
  refine (proj1 (merge_well_formed 2 (Example.tree 4) 1 _ Example.tree4_inv _ _)); [cbn; lia|].
  eexists. vm_compute. reflexivity.
Defined.

(** C25: every tree that the operations reach from a one-member tree is well
    formed: complete width, leaves at even and parents at odd indices, each
    populated parent with members on both sides and sorted unmerged leaves
    below it. *)
Theorem reachable_trees_well_formed {C : StdCrypto} suite ln t :
  rtc tree_step (NewRatchetTree suite ln) t -> rt_suite t = suite /\ exists d, tree_inv d (rt_nodes t).
Proof.
  intros H. assert (exists d, tree_inv d (rt_nodes (NewRatchetTree suite ln))) as H0
    by (exists 0; apply NewRatchetTree_inv).
  assert (rt_suite (NewRatchetTree suite ln) = suite) as Hs by done. revert H0 Hs.
  induction H as [t0|t0 t1 t2 Hstep _ IH]; intros [d Hinv] Hs; [eauto|].
  destruct (tree_step_inv t0 t1 d Hinv Hstep) as [E Hinv']. apply IH; [done|congruence].
Qed.

Lemma reachable_trees_well_formed_witness :
  match tree_apply (NewRatchetTree toy_suite (Example.leaf 0)) (OpAdd (Example.leaf 1)) with
  | Ok t => exists d, tree_inv d (rt_nodes t)
  | _ => False
  end.
Proof.
  destruct (is_ok_inv (tree_apply (NewRatchetTree toy_suite (Example.leaf 0)) (OpAdd (Example.leaf 1)))) as [t E];
    [vm_compute; reflexivity|]. rewrite E.
  refine (proj2 (reachable_trees_well_formed toy_suite (Example.leaf 0) t _)). apply rtc_once.
  apply (step_op _ (OpAdd (Example.leaf 1))); [vm_compute; reflexivity|exact E].
Defined.
