(* ===== verification/LeafSwap.v ===== *)
(** A member's own leaf does not influence the path it commits with.

    An external joiner generates its path on a tree that holds the leaf of its
    key package; the members that process the commit put the leaf of the path
    itself into their copies first ([external_commit.go], [external_join.go]).
    The two trees differ in one leaf.  This file shows that [GenerateUpdatePath]
    gives the same path, secrets and tree on both: what it reads of the tree
    lies off the sender's leaf, except for the fields that the path's leaf
    takes over from it. *)

From Stdlib Require Import ZArith Lia Strings.Byte.
From stdpp Require Import base list numbers strings sorting sets gmap.
From S2P Require Import Prelude Syntax TreeNodes TreeMath Cipher RatchetTree TreeSync TreeKEM.

Definition outcome_map {A B} (f : A -> B) (m : outcome A) : outcome B := let! x := m in Ok (f x).

(** Both sides of an equation go through the same steps. *)
Lemma obind_map {A B B'} (f : B -> B') (m : outcome A) (k : A -> outcome B) (k' : A -> outcome B') :
  (forall a, m = Ok a -> k' a = outcome_map f (k a)) -> obind m k' = outcome_map f (obind m k).
Proof. unfold outcome_map. destruct m; cbn [obind]; auto. Qed.

Section swap.
Context {C : StdCrypto} (d l : Z) (ln : LeafNode) (Hd : 0 <= d <= 30) (Hl : 0 <= l < 2 ^ d).
Implicit Types (t : RatchetTree) (nodes : list (option Node)).

Definition swap nodes : list (option Node) := <[Z.to_nat (2 * l) := leaf_node ln]> nodes.
Definition swap_leaf t : RatchetTree := mkRatchetTree (rt_suite t) (swap (rt_nodes t)).

Lemma len_swap nodes : len (swap nodes) = len nodes.
Proof. unfold len, swap. by rewrite length_insert. Qed.

Lemma leafCount_swap t : leafCount (swap_leaf t) = leafCount t.
Proof. unfold leafCount, swap_leaf. cbn [rt_nodes]. by rewrite len_swap. Qed.

Lemma index_swap nodes x : x <> 2 * l -> index (swap nodes) x = index nodes x.
Proof using Hd Hl.
  intros Hx. unfold index, swap. destruct (Z.ltb_spec x 0); [done|]. by rewrite list_lookup_insert_ne by lia.
Qed.

Lemma set_index_swap nodes x v : x <> 2 * l -> set_index (swap nodes) x v = outcome_map swap (set_index nodes x v).
Proof using Hd Hl.
  intros Hx. unfold set_index. rewrite len_swap. destruct (Z.ltb_spec x 0); [done|]. destruct (len nodes <=? x); [done|].
  cbn. unfold swap. by rewrite list_insert_insert_ne by lia.
Qed.

(** Whether and how a node resolves does not depend on the leaf's content. *)
Lemma leaf_lookup t orig : slot (rt_nodes t) (2 * l) = leaf_node orig ->
  rt_nodes t !! Z.to_nat (2 * l) = Some (leaf_node orig).
Proof. unfold slot. destruct (rt_nodes t !! _) as [n|]; [|done]. by intros <-. Qed.

Lemma resolution_swap nodes orig leaves fuel x : nodes !! Z.to_nat (2 * l) = Some (leaf_node orig) ->
  resolution fuel (swap nodes) leaves x = resolution fuel nodes leaves x.
Proof using Hd Hl.
  intros Ho. revert x. induction fuel as [|fuel IH]; intros x; [done|]. cbn [resolution].
  destruct (decide (x = 2 * l)) as [->|Hx].
  - unfold index, swap. destruct (Z.ltb_spec (2 * l) 0); [done|]. rewrite Ho, list_lookup_insert_eq; [done|].
    by apply lookup_lt_Some in Ho.
  - rewrite index_swap by done. apply obind_ext. intros [n|]; [done|]. destruct (Left x); [|done].
    apply obind_ext. intros rgt. by rewrite !IH.
Qed.

Lemma Resolution_swap t orig x : rt_nodes t !! Z.to_nat (2 * l) = Some (leaf_node orig) ->
  Resolution (swap_leaf t) x = Resolution t x.
Proof using Hd Hl. intros Ho. unfold Resolution. rewrite leafCount_swap. by apply (resolution_swap _ orig). Qed.

Lemma filteredDirectPath_swap t orig m : rt_nodes t !! Z.to_nat (2 * l) = Some (leaf_node orig) ->
  filteredDirectPath (swap_leaf t) m = filteredDirectPath t m.
Proof using Hd Hl.
  intros Ho. unfold filteredDirectPath. rewrite leafCount_swap. generalize tree_fuel (@nil Z) (u32 (2 * m)).
  intros fuel. induction fuel as [|fuel IH]; intros acc x; cbn [fdp_loop]; [done|]. destruct (x =? _); [done|].
  apply obind_ext. intros p. apply obind_ext. intros s. rewrite (Resolution_swap t orig) by done.
  apply obind_ext. intros res. apply IH.
Qed.

(** ** Off the sender's path *)

(** The hash of a subtree without the leaf. *)
Lemma tree_hash_swap nodes suite excluded fuel k j : len nodes = 2 ^ (d + 1) - 1 -> 0 <= k <= d -> 0 <= j < 2 ^ (d - k) ->
  l / 2 ^ k <> j ->
  tree_hash fuel suite (swap nodes) (2 ^ d) (node k j) excluded = tree_hash fuel suite nodes (2 ^ d) (node k j) excluded.
Proof using Hd Hl.
  intros Hlen. revert k j. induction fuel as [|fuel IH]; intros k j Hk Hj Hne; [done|]. cbn [tree_hash].
  assert (node k j <> 2 * l) as Hx.
  { rewrite <- node_leaf. intros [-> ->]%node_inj; [|lia..]. rewrite Z.pow_0_r, Z.div_1_r in Hne. done. }
  unfold leaf_hash_input, parent_hash_input. rewrite index_swap by done.
  destruct (Z.eq_dec k 0) as [->|Hk0]; [by rewrite Left_leaf by lia|].
  rewrite Left_node, complete_Right by lia. cbn [obind default]. unfold id.
  destruct (child_range d k j) as [Hcl Hcr]; [lia..|]. pose proof (div_pow_step l k ltac:(lia)).
  by rewrite !IH by zlia.
Qed.

Lemma parentHashOf_swap t p k j : tree_inv d (rt_nodes t) -> p <> 2 * l -> 0 <= k <= d -> 0 <= j < 2 ^ (d - k) ->
  l / 2 ^ k <> j -> parentHashOf (swap_leaf t) p (node k j) = parentHashOf t p (node k j).
Proof using Hd Hl.
  intros Hinv Hp Hk Hj Hne. unfold parentHashOf, parent_at, treeHashExcept. rewrite leafCount_swap. cbn [swap_leaf rt_nodes rt_suite].
  rewrite index_swap by done. apply obind_ext. intros pn.
  rewrite (proj1 (leaves_d d t Hinv)), tree_hash_swap by (done || apply Hinv). done.
Qed.

(** The child of a path node towards a node further down the path, and its
    sibling, off the path. *)
Lemma path_sibling t i k : tree_inv d (rt_nodes t) -> 0 <= k < i -> i <= d ->
  exists j, (let! pc := pathChild t (node i (l / 2 ^ i)) (node k (l / 2 ^ k)) in Sibling pc (2 ^ d)) = Ok (Some (node (i - 1) j)) /\
    0 <= j < 2 ^ (d - (i - 1)) /\ l / 2 ^ (i - 1) <> j.
Proof using Hd Hl.
  intros Hinv Hk Hi. pose proof (div_pow_range d Hd l i Hl ltac:(lia)) as Hj.
  pose proof (div_pow_range d Hd l (i - 1) Hl ltac:(lia)) as Hj1. pose proof (div_pow_range d Hd l k Hl ltac:(lia)) as Hjk.
  pose proof (div_pow_step l i ltac:(lia)) as E. destruct (child_range d i _ ltac:(lia) Hj) as [Hcl Hcr].
  assert (l / 2 ^ k / 2 ^ (i - 1 - k) = l / 2 ^ (i - 1)) as Ek.
  { rewrite Z.div_div, <- Z.pow_add_r by (try apply Z.pow_nonzero; try apply Z.pow_pos_nonneg; lia). f_equal. f_equal. lia. }
  assert (pathChild t (node i (l / 2 ^ i)) (node k (l / 2 ^ k)) = Ok (node (i - 1) (l / 2 ^ (i - 1)))) as ->.
  { unfold pathChild. rewrite Left_node, (proj1 (leaves_d d t Hinv)), complete_Right by lia. cbn [obind default]. unfold id.
    pose proof (subtreeContains_ok d Hd (i - 1) (2 * (l / 2 ^ i)) k (l / 2 ^ k) ltac:(lia) Hcl ltac:(lia) ltac:(lia)) as Hs.
    rewrite Ek in Hs. destruct (subtreeContains _ _).
    - destruct (proj1 Hs eq_refl) as [_ <-]. done.
    - assert (l / 2 ^ (i - 1) <> 2 * (l / 2 ^ i)) as Hx.
      { intros Hx. enough (false = true) by done. apply Hs. split; [lia|done]. }
      do 2 f_equal. clear - E Hx. revert E Hx. generalize (l / 2 ^ (i - 1)) (l / 2 ^ i). intros. zlia. }
  cbn [obind]. rewrite complete_Sibling by lia. fold (flip (l / 2 ^ (i - 1))). eexists. split; [done|].
  split; [apply flip_range; lia|]. by destruct (flip_spec (l / 2 ^ (i - 1))) as (_ & ? & _).
Qed.

(** The filtered direct path climbs. *)
Lemma fdp_loop_climbs t fuel k acc out : tree_inv d (rt_nodes t) -> 0 <= k <= d ->
  fdp_loop t fuel (2 ^ d) (Root (2 ^ d)) (node k (l / 2 ^ k)) acc = Ok out ->
  exists ks, out = acc ++ ((fun i => node i (l / 2 ^ i)) <$> ks) /\ StronglySorted Z.lt ks /\ Forall (fun i => k < i <= d) ks.
Proof using Hd Hl.
  intros Hinv. rewrite complete_Root by lia. revert k acc. induction fuel as [|fuel IH]; intros k acc Hk; cbn [fdp_loop];
    (destruct (Z.eq_dec k d) as [->|Hkd];
      [rewrite (Z.div_small l), Z.eqb_refl by lia; intros [= <-]; exists []; split_and!; [by rewrite fmap_nil, app_nil_r|constructor|constructor]|]);
    (rewrite (proj2 (Z.eqb_neq _ _)) by (intros [? _]%node_inj; lia)); [done|].
  pose proof (div_pow_range d Hd l k Hl ltac:(lia)) as Hj. rewrite complete_Parent, complete_Sibling by lia.
  cbn [obind default]. unfold id.
  assert (l / 2 ^ k / 2 = l / 2 ^ (k + 1)) as ->.
  { rewrite (div_pow_step l (k + 1)) by lia. by replace (k + 1 - 1) with k by lia. }
  intros Hx. apply obind_ok in Hx as (res & _ & Hx). apply IH in Hx as (ks & -> & Hs & HF); [|lia].
  assert (Forall (fun i => k < i <= d) ks) by (eapply Forall_impl; [exact HF|cbn; lia]).
  destruct (0 <? len res); [|by exists ks]. exists (k + 1 :: ks). rewrite <- app_assoc. split; [done|]. split; [|].
  - constructor; [done|]. eapply Forall_impl; [exact HF|cbn; lia].
  - constructor; [lia|done].
Qed.

Lemma filteredDirectPath_climbs t fdp : tree_inv d (rt_nodes t) -> filteredDirectPath t l = Ok fdp ->
  exists ks, fdp = (fun i => node i (l / 2 ^ i)) <$> ks /\ StronglySorted Z.lt ks /\ Forall (fun i => 0 < i <= d) ks.
Proof using Hd Hl.
  intros Hinv. unfold filteredDirectPath. rewrite (proj1 (leaves_d d t Hinv)), (proj1 (leaf_bound d l Hd Hl)).
  generalize tree_fuel. intros fuel. pose proof (fdp_loop_climbs t fuel 0 [] fdp Hinv ltac:(lia)) as Hx.
  rewrite Z.pow_0_r, Z.div_1_r, node_leaf in Hx. exact Hx.
Qed.

Lemma path_node_ne i : 0 < i -> node i (l / 2 ^ i) <> 2 * l.
Proof using Hd Hl. intros Hi. rewrite <- node_leaf. intros [? _]%node_inj; lia. Qed.

(** ** Installing the path *)

Lemma blank_path_swap nodes : len nodes = 2 ^ (d + 1) - 1 ->
  blank_path (swap nodes) (2 ^ d) (2 * l) = outcome_map swap (blank_path nodes (2 ^ d) (2 * l)).
Proof using Hd Hl.
  unfold blank_path. rewrite complete_Root by lia. set (body := fun p nodes => set_index nodes p None).
  assert (forall fuel k nodes, 0 <= k <= d -> len nodes = 2 ^ (d + 1) - 1 ->
    for_path body fuel (2 ^ d) (node d 0) (node k (l / 2 ^ k)) (swap nodes) =
    outcome_map swap (for_path body fuel (2 ^ d) (node d 0) (node k (l / 2 ^ k)) nodes)) as Hgen; cycle 1.
  { intros Hlen. specialize (Hgen tree_fuel 0 nodes ltac:(lia) Hlen). rewrite Z.pow_0_r, Z.div_1_r, node_leaf in Hgen. exact Hgen. }
  clear nodes. intros fuel. induction fuel as [|fuel IH]; intros k nodes Hk Hlen; cbn [for_path];
    (destruct (Z.eq_dec k d) as [->|Hkd]; [by rewrite (Z.div_small l), Z.eqb_refl by lia|]);
    (rewrite (proj2 (Z.eqb_neq _ _)) by (intros [? _]%node_inj; lia)); [done|].
  pose proof (div_pow_range d Hd l k Hl ltac:(lia)) as Hj. rewrite complete_Parent by lia. cbn [obind].
  assert (l / 2 ^ k / 2 = l / 2 ^ (k + 1)) as ->.
  { rewrite (div_pow_step l (k + 1)) by lia. by replace (k + 1 - 1) with k by lia. }
  unfold body at 1 3. rewrite set_index_swap by (apply path_node_ne; lia). unfold outcome_map at 1. rewrite obind_assoc. cbn [obind].
  apply obind_map. intros nodes1 H1. apply IH; [lia|]. apply set_index_ok in H1 as [_ ->].
  unfold len in *. by rewrite length_insert.
Qed.

Lemma install_keys_swap nodes fdp pubs : Forall (fun p => p <> 2 * l) fdp ->
  install_keys (swap nodes) fdp pubs = outcome_map swap (install_keys nodes fdp pubs).
Proof using Hd Hl.
  revert nodes pubs. induction fdp as [|p fdp IH]; intros nodes pubs; [done|]. intros [Hp HF]%Forall_cons.
  cbn [install_keys]. destruct pubs as [|pub pubs]; [done|]. rewrite set_index_swap by done.
  unfold outcome_map at 1. rewrite obind_assoc. cbn [obind]. apply obind_map. intros nodes1 _. by apply IH.
Qed.

Lemma set_parent_hash_swap t p ph : p <> 2 * l ->
  set_parent_hash (swap_leaf t) p ph = outcome_map swap_leaf (set_parent_hash t p ph).
Proof using Hd Hl.
  intros Hp. unfold set_parent_hash. cbn [swap_leaf rt_nodes rt_suite]. rewrite index_swap by done.
  apply obind_map. intros [[lf [pn|]]|] _; [|done..]. rewrite set_index_swap by done.
  unfold outcome_map. rewrite !obind_assoc. done.
Qed.

Lemma pathChild_swap t p x : pathChild (swap_leaf t) p x = pathChild t p x.
Proof. unfold pathChild. by rewrite leafCount_swap. Qed.

Lemma assign_parent_hashes_swap t ks : tree_inv d (rt_nodes t) -> StronglySorted Z.lt ks -> Forall (fun i => 0 < i <= d) ks ->
  let fdp := (fun i => node i (l / 2 ^ i)) <$> ks in
  Forall (fun p => exists k j pn, p = node k j /\ 0 < k <= d /\ 0 <= j < 2 ^ (d - k) /\
    slot (rt_nodes t) p = parent_node pn) fdp ->
  assign_parent_hashes (swap_leaf t) (2 ^ d) fdp = outcome_map swap_leaf (assign_parent_hashes t (2 ^ d) fdp).
Proof using Hd Hl.
  intros Hinv. induction ks as [|i ks IH]; intros Hso HF fdp Hfdp; subst fdp; [done|].
  rewrite fmap_cons in *. cbn [assign_parent_hashes].
  apply StronglySorted_inv in Hso as [Hso Hlt]. apply Forall_cons in HF as [Hi HF]. apply Forall_cons in Hfdp as [_ Hfdp].
  rewrite IH by done. unfold outcome_map at 1. rewrite obind_assoc. cbn [obind]. apply obind_map. intros t1 Ht1.
  destruct (assign_parent_hashes_ok d t _ Hinv Hfdp) as [_ HS]. destruct (HS t1 Ht1) as [_ Hsh].
  pose proof (same_shape_inv d _ _ Hinv Hsh) as Hinv1. pose proof (path_node_ne i ltac:(lia)).
  destruct ks as [|i2 ks]; cbn [fmap list_fmap]; [by apply set_parent_hash_swap|].
  apply Forall_cons in Hlt as [Hlt _]. apply Forall_cons in HF as [Hi2 _]. rewrite pathChild_swap.
  destruct (path_sibling t1 i2 i Hinv1 ltac:(lia) ltac:(lia)) as (j & Hsib & Hj & Hne).
  destruct (pathChild t1 _ _) as [pc| | |]; try done. cbn [obind] in *. rewrite Hsib. cbn [obind default]. unfold id.
  rewrite parentHashOf_swap by (done || lia || (apply path_node_ne; lia)). apply obind_map. intros ph _.
  by apply set_parent_hash_swap.
Qed.

(** The tree in which the path keys were put has parents all along the path. *)
Lemma keys_installed t fdp pubs nodes1 nodes2 : tree_inv d (rt_nodes t) -> populated (rt_nodes t) l ->
  filteredDirectPath t l = Ok fdp -> len fdp = len pubs -> blank_path (rt_nodes t) (2 ^ d) (2 * l) = Ok nodes1 ->
  install_keys nodes1 fdp pubs = Ok nodes2 ->
  tree_inv d nodes2 /\ Forall (fun p => exists k j pn, p = node k j /\ 0 < k <= d /\ 0 <= j < 2 ^ (d - k) /\
    slot nodes2 p = parent_node pn) fdp.
Proof using Hd Hl.
  intros Hinv Hpop Hf El H1 H2. pose proof (ti_len _ _ Hinv) as Hlen.
  destruct (filteredDirectPath_ok d t Hinv l Hl) as (fdp' & Hf' & Hnd & Hin). rewrite Hf in Hf'. apply Ok_inj in Hf' as <-.
  destruct (blank_path_complete d (rt_nodes t) l Hd Hlen Hl) as (n1 & Hb & Hl1 & Hs1). rewrite H1 in Hb. apply Ok_inj in Hb as <-.
  assert (Forall (fun p => exists k j, p = node k j /\ 0 < k <= d /\ 0 <= j < 2 ^ (d - k)) fdp) as HF.
  { apply Forall_forall. intros p (i & Hi & -> & _)%Hin. exists i, (l / 2 ^ i).
    pose proof (div_pow_range d Hd l i Hl ltac:(lia)). split_and!; done || lia. }
  assert (Forall (fun p => 0 <= p < len nodes1) fdp) as HFr.
  { eapply Forall_impl; [exact HF|]. intros p (k & j & -> & ? & ?). rewrite Hl1. apply (in_range d); auto; lia. }
  destruct (install_keys_ok nodes1 fdp pubs Hnd HFr) as (n2 & Ei & Hl2 & Hs2); [unfold len in El; lia|].
  rewrite H2 in Ei. apply Ok_inj in Ei as <-.
  destruct (installed_inv d (rt_nodes t) nodes1 nodes2 l fdp) as [Hinv2 _]; [done..|]. split; [done|].
  apply Forall_forall. intros p Hp. rewrite Forall_forall in HF. destruct (HF p Hp) as (k & j & -> & Hk & Hj).
  destruct (Hs2 (node k j) ltac:(apply node_nonneg; lia)) as [[? _]|[_ [pub E]]]; [done|]. by exists k, j, (mkParentNode pub [] []).
Qed.

Lemma installPath_swap t orig pubs : tree_inv d (rt_nodes t) -> slot (rt_nodes t) (2 * l) = leaf_node orig ->
  installPath (swap_leaf t) l pubs = outcome_map (fun '(t', fdp) => (swap_leaf t', fdp)) (installPath t l pubs).
Proof using Hd Hl.
  intros Hinv Ho. pose proof (leaf_lookup t orig Ho) as Hlk. unfold installPath. rewrite leafCount_swap, (filteredDirectPath_swap t orig) by done.
  rewrite (proj1 (leaves_d d t Hinv)), (proj1 (leaf_bound d l Hd Hl)). apply obind_map. intros fdp Hf.
  destruct (Z.eqb_spec (len fdp) (len pubs)) as [El|]; [|done]. cbn [negb swap_leaf rt_nodes rt_suite].
  rewrite blank_path_swap by apply Hinv. unfold outcome_map at 1. rewrite obind_assoc. cbn [obind].
  apply obind_map. intros nodes1 H1. destruct (filteredDirectPath_climbs t fdp Hinv Hf) as (ks & -> & Hso & HF).
  rewrite install_keys_swap.
  2:{ apply Forall_fmap. eapply Forall_impl; [exact HF|]. intros i [Hi _]. by apply path_node_ne. }
  unfold outcome_map at 1. rewrite obind_assoc. cbn [obind]. apply obind_map. intros nodes2 H2.
  destruct (keys_installed t _ pubs nodes1 nodes2 Hinv ltac:(unfold populated; rewrite Ho; by eexists) Hf El H1 H2) as [Hinv2 HP].
  change (mkRatchetTree (rt_suite t) (swap nodes2)) with (swap_leaf (mkRatchetTree (rt_suite t) nodes2)).
  rewrite assign_parent_hashes_swap by done. unfold outcome_map. rewrite !obind_assoc. done.
Qed.

Lemma leafParentHash_swap t ks : tree_inv d (rt_nodes t) -> Forall (fun i => 0 < i <= d) ks ->
  let fdp := (fun i => node i (l / 2 ^ i)) <$> ks in leafParentHash (swap_leaf t) l fdp = leafParentHash t l fdp.
Proof using Hd Hl.
  intros Hinv HF fdp. subst fdp. destruct ks as [|i ks]; [done|]. cbn [fmap list_fmap leafParentHash].
  apply Forall_cons in HF as [Hi _]. rewrite leafCount_swap, pathChild_swap, (proj1 (leaf_bound d l Hd Hl)), (proj1 (leaves_d d t Hinv)).
  destruct (path_sibling t i 0 Hinv ltac:(lia) ltac:(lia)) as (j & Hsib & Hj & Hne). rewrite Z.pow_0_r, Z.div_1_r, node_leaf in Hsib.
  destruct (pathChild t _ _) as [pc| | |]; try done. cbn [obind] in *. rewrite Hsib. cbn [obind default]. unfold id.
  apply parentHashOf_swap; [done|apply path_node_ne; lia|lia..].
Qed.

(** ** The keys the path is encrypted to *)

Lemma entry_pubs_swap t added res : (2 * l) ∉ res -> entry_pubs (swap_leaf t) added res = entry_pubs t added res.
Proof using Hd Hl.
  induction res as [|x res IH]; [done|]. intros [Hx Hres]%not_elem_of_cons. cbn [entry_pubs].
  rewrite IH by done. destruct (decide (x ∈ added)); [done|]. unfold nodePublicKey. cbn [swap_leaf rt_nodes].
  by rewrite index_swap by congruence.
Qed.

Lemma res_pubs_swap t orig added ks : tree_inv d (rt_nodes t) -> slot (rt_nodes t) (2 * l) = leaf_node orig ->
  Forall (fun i => 0 < i <= d) ks ->
  let fdp := (fun i => node i (l / 2 ^ i)) <$> ks in
  res_pubs (swap_leaf t) (2 * l) added fdp = res_pubs t (2 * l) added fdp.
Proof using Hd Hl.
  intros Hinv Ho HF fdp. subst fdp. pose proof (leaf_lookup t orig Ho) as Hlk. induction ks as [|i ks IH]; [done|].
  apply Forall_cons in HF as [Hi HF]. cbn [fmap list_fmap res_pubs]. fold ((fun i => node i (l / 2 ^ i)) <$> ks).
  assert (copathChild (swap_leaf t) (node i (l / 2 ^ i)) (2 * l) = copathChild t (node i (l / 2 ^ i)) (2 * l)) as ->
    by (unfold copathChild; by rewrite pathChild_swap, leafCount_swap).
  rewrite (copathChild_ok d t Hinv l i Hl Hi). cbn [obind]. rewrite (Resolution_swap t orig) by done.
  set (j := l / 2 ^ (i - 1)). pose proof (div_pow_range d Hd l (i - 1) Hl ltac:(lia)).
  destruct (Resolution_ok d t Hinv (i - 1) (flip j)) as (res & -> & HP & _); [lia|apply flip_range; lia|].
  cbn [obind]. rewrite entry_pubs_swap; [by rewrite IH|].
  intros Hin. rewrite Forall_forall in HP. destruct (HP _ Hin) as (k & j' & Hk & Hj' & E & Ej & _).
  rewrite <- node_leaf in E. apply node_inj in E as [<- <-]; [|lia..].
  destruct (flip_spec j) as (_ & Hne & _). apply Hne. rewrite <- Ej. subst j. do 2 f_equal. lia.
Qed.

(** ** The whole path *)

(** Overwriting the leaf forgets the swap. *)
Lemma set_leaf_swap t v : set_index (rt_nodes (swap_leaf t)) (2 * l) v = set_index (rt_nodes t) (2 * l) v.
Proof using Hd Hl. unfold set_index. cbn [swap_leaf rt_nodes]. rewrite len_swap. unfold swap. by rewrite list_insert_insert_eq. Qed.

(** The leaf of a path takes its identity from the sender's leaf: signature key,
    credential, capabilities and extensions. *)
Theorem GenerateUpdatePath_swap t orig leafSecret signer groupID added mkGC rng :
  tree_inv d (rt_nodes t) -> slot (rt_nodes t) (2 * l) = leaf_node orig ->
  (forall leafPub ph, commit_leaf ln leafPub ph = commit_leaf orig leafPub ph) ->
  GenerateUpdatePath (swap_leaf t) l leafSecret signer groupID added mkGC rng =
  GenerateUpdatePath t l leafSecret signer groupID added mkGC rng.
Proof using Hd Hl.
  intros Hinv Ho Hcl. pose proof (leaf_lookup t orig Ho) as Hlk.
  assert (index (rt_nodes t) (2 * l) = Ok (leaf_node orig)) as Hi by (apply index_ok; split; [lia|done]).
  assert (index (rt_nodes (swap_leaf t)) (2 * l) = Ok (leaf_node ln)) as Hi'.
  { apply index_ok. split; [lia|]. apply list_lookup_insert_eq. by apply lookup_lt_Some in Hlk. }
  unfold GenerateUpdatePath. rewrite (proj1 (leaf_bound d l Hd Hl)), Hi, Hi', (filteredDirectPath_swap t orig) by done.
  cbn [obind leaf_node rt_suite swap_leaf]. fold (swap_leaf t).
  destruct (filteredDirectPath t l) as [fdp| | |] eqn:Hf; [|done..]. cbn [obind].
  destruct (filteredDirectPath_climbs t fdp Hinv Hf) as (ks & -> & Hso & HF).
  do 4 (apply obind_ext; intros ?). destruct a2 as [_ leafPub]. apply obind_ext. intros nodePubs.
  rewrite (res_pubs_swap t orig) by done. apply obind_ext. intros resPubs.
  rewrite (installPath_swap t orig) by done. unfold outcome_map. rewrite obind_assoc.
  destruct (installPath t l nodePubs) as [[t1 fdp]| | |] eqn:Hip; [|done..]. cbn [obind].
  destruct (proj2 (installPath_ok d t Hinv l nodePubs Hl ltac:(unfold populated; rewrite Ho; by eexists)) t1 fdp Hip)
    as (_ & Hinv1 & _ & _).
  rewrite leafParentHash_swap by done. apply obind_ext. intros ph. rewrite Hcl. apply obind_ext. intros tbs.
  apply obind_ext. intros sig. rewrite set_leaf_swap. done.
Qed.
End swap.

(** Adding another leaf to the same tree swaps the leaf. *)
Lemma AddLeaf_swap {C : StdCrypto} (t t1 : RatchetTree) d l ln1 ln2 : tree_inv d (rt_nodes t) -> room d (rt_nodes t) ->
  AddLeaf t ln1 = Ok (t1, l) -> AddLeaf t ln2 = Ok (swap_leaf l ln2 t1, l).
Proof.
  intros Hinv Hroom H1.
  destruct (AddLeaf_ok t d ln1 Hinv Hroom) as (t' & d1 & l1 & E1 & Hs1 & Hi1 & Hl1 & Hg1 & Hb1 & Hm1 & Ha1).
  rewrite H1 in E1. apply Ok_inj in E1. injection E1 as <- <-.
  destruct (AddLeaf_ok t d ln2 Hinv Hroom) as (t2 & d2 & l2 & E2 & Hs2 & Hi2 & Hl2 & Hg2 & Hb2 & Hm2 & Ha2). rewrite E2.
  assert (l2 = l) as ->.
  { destruct (Z.lt_total l l2) as [Hlt|[Heq|Hlt]]; [|done|].
    - destruct (Hm2 l ltac:(lia)) as [n Hn]. by rewrite Hb1 in Hn.
    - destruct (Hm1 l2 ltac:(lia)) as [n Hn]. by rewrite Hb2 in Hn. }
  assert (d2 = d1) as -> by (destruct Hg1 as [->|[-> ?]], Hg2 as [->|[-> ?]]; lia).
  pose proof (ti_len _ _ Hi1) as L1. pose proof (ti_len _ _ Hi2) as L2. pose proof (ti_depth _ _ Hi1).
  destruct (leaf_bound d1 l ltac:(lia) Hl1) as [_ Hbd].
  do 2 f_equal. destruct t2 as [s2 n2]. unfold swap_leaf, swap. cbn [rt_suite rt_nodes] in *. f_equal; [congruence|].
  apply slots_eq; [unfold len in *; rewrite length_insert; lia|]. intros x [Hx _]. rewrite slot_insert by lia.
  destruct (node_surj x Hx) as (k & j & Hk & Hj & ->). destruct (Z.eq_dec k 0) as [->|Hk0].
  - rewrite node_leaf, (proj1 Ha2), (proj1 Ha1) by done. destruct (decide (j = l)), (decide (2 * j = 2 * l)); try done; lia.
  - rewrite (proj2 Ha2), (proj2 Ha1) by lia. destruct (decide (node k j = 2 * l)) as [E|]; [|done].
    rewrite <- node_leaf in E. apply node_inj in E; lia.
Qed.
