(* ===== verification/KeySchedule.v ===== *)
(** [mls/keyschedule]: the epoch key schedule, the secret tree, transcript
    hashes and pre-shared keys.

    [context.go], [schedule.go], [secrettree.go], [psk.go], [transcript.go].
    A [[]byte] that the code compares with [nil] is an [option bytes]; a
    [map[uint32][]byte] is a [gmap Z bytes]. *)

From Stdlib Require Import ZArith Lia Strings.Byte.
From stdpp Require Import base list numbers strings gmap.
From S2P Require Import Prelude Syntax TreeNodes TreeMath Cipher ToyCrypto.

(** * context.go *)

(* mls/keyschedule/context.go:26-34 GroupContext *)
Record GroupContext := mkGroupContext {
  gc_Version : Z;
  gc_CipherSuite : Z;
  gc_GroupID : bytes;
  gc_Epoch : Z;
  gc_TreeHash : bytes;
  gc_ConfirmedTranscriptHash : bytes;
  gc_Extensions : list Extension
}.

(* mls/keyschedule/context.go:36-52 GroupContext.marshal *)
Definition GroupContext_marshal (gc : GroupContext) (b : Builder) : outcome Builder :=
  let! b := WriteUint16 (gc_Version gc) b in
  let! b := WriteUint16 (gc_CipherSuite gc) b in
  let! b := WriteOpaqueV (gc_GroupID gc) b in
  let! b := WriteUint64 (gc_Epoch gc) b in
  let! b := WriteOpaqueV (gc_TreeHash gc) b in
  let! b := WriteOpaqueV (gc_ConfirmedTranscriptHash gc) b in
  WriteVectorV Extension_marshal (gc_Extensions gc) b.

(* mls/keyschedule/context.go:54-82 decodeGroupContext *)
Definition decodeGroupContext (c : Cursor) : outcome (GroupContext * Cursor) :=
  let! (v, c) := ReadUint16 c in
  let! (cs, c) := ReadUint16 c in
  let! (gid, c) := ReadOpaqueV c in
  let! (ep, c) := ReadUint64 c in
  let! (th, c) := ReadOpaqueV c in
  let! (cth, c) := ReadOpaqueV c in
  let! (exts, c) := ReadVectorV decodeExtension c in
  Ok (mkGroupContext v cs gid ep th cth exts, c).

(* mls/keyschedule/context.go:85-91 GroupContext.MarshalMLS *)
Definition GroupContext_MarshalMLS := marshal_mls GroupContext_marshal.
(* mls/keyschedule/context.go:98-109 GroupContext.UnmarshalMLS *)
Definition GroupContext_UnmarshalMLS :=
  unmarshal_mls decodeGroupContext "keyschedule: trailing bytes after GroupContext".

(** * psk.go *)

(* mls/keyschedule/psk.go:13-17 PSKTypeExternal *)
Definition PSKTypeExternal : Z := 1.
(* mls/keyschedule/psk.go:13-17 PSKTypeResumption *)
Definition PSKTypeResumption : Z := 2.

(* mls/keyschedule/psk.go:39-49 PreSharedKeyID *)
Record PreSharedKeyID := mkPreSharedKeyID {
  psk_Type : Z;
  psk_ID : bytes;
  psk_Usage : Z;
  psk_GroupID : bytes;
  psk_Epoch : Z;
  psk_Nonce : bytes
}.

(** The [switch p.PSKType] of [marshal] and of [decodePreSharedKeyID]. *)
(* mls/keyschedule/psk.go:53-66 PreSharedKeyID.marshal *)
Definition psk_marshal_select (p : PreSharedKeyID) (b : Builder) : outcome Builder :=
  if psk_Type p =? PSKTypeExternal then WriteOpaqueV (psk_ID p) b
  else if psk_Type p =? PSKTypeResumption then
    let! b := WriteUint8 (psk_Usage p) b in
    let! b := WriteOpaqueV (psk_GroupID p) b in
    WriteUint64 (psk_Epoch p) b
  else Err "keyschedule: invalid psk_type".

(* mls/keyschedule/psk.go:51-68 PreSharedKeyID.marshal *)
Definition PreSharedKeyID_marshal (p : PreSharedKeyID) (b : Builder) : outcome Builder :=
  let! b := WriteUint8 (psk_Type p) b in
  let! b := psk_marshal_select p b in
  WriteOpaqueV (psk_Nonce p) b.

(* mls/keyschedule/psk.go:70-101 decodePreSharedKeyID *)
Definition decodePreSharedKeyID (c : Cursor) : outcome (PreSharedKeyID * Cursor) :=
  let! (t, c) := ReadUint8 c in
  if t =? PSKTypeExternal then
    let! (id, c) := ReadOpaqueV c in
    let! (nonce, c) := ReadOpaqueV c in
    Ok (mkPreSharedKeyID t id 0 [] 0 nonce, c)
  else if t =? PSKTypeResumption then
    let! (u, c) := ReadUint8 c in
    let! (gid, c) := ReadOpaqueV c in
    let! (ep, c) := ReadUint64 c in
    let! (nonce, c) := ReadOpaqueV c in
    Ok (mkPreSharedKeyID t [] u gid ep nonce, c)
  else Err "keyschedule: invalid psk_type".

(* mls/keyschedule/psk.go:114-122 pskLabel *)
Definition pskLabel (id : PreSharedKeyID) (index count : Z) : outcome bytes :=
  let! b := PreSharedKeyID_marshal id NewBuilder in
  let! b := WriteUint16 index b in
  let! b := WriteUint16 count b in
  Ok (Bytes b).

(* mls/keyschedule/psk.go:125-128 PSK *)
Record PSK := mkPSK { PSK_ID : PreSharedKeyID; PSK_PSK : bytes }.

(* mls/keyschedule/schedule.go:7-20 EpochSecrets *)
Record EpochSecrets := mkEpochSecrets {
  es_JoinerSecret : bytes;
  es_WelcomeSecret : bytes;
  es_EpochSecret : bytes;
  es_SenderDataSecret : bytes;
  es_EncryptionSecret : bytes;
  es_ExporterSecret : bytes;
  es_ExternalSecret : bytes;
  es_ConfirmationKey : bytes;
  es_MembershipKey : bytes;
  es_ResumptionPSK : bytes;
  es_EpochAuthenticator : bytes;
  es_InitSecret : bytes
}.

(* mls/keyschedule/secrettree.go:32-37 RatchetType *)
Inductive RatchetType := HandshakeRatchet | ApplicationRatchet.

Section keyschedule.
Context {C : StdCrypto} (suite : Suite).

(** The loop of [PSKSecret] from index [i] on; [count] is [uint16(len(psks))]. *)
(* mls/keyschedule/psk.go:136-156 PSKSecret *)
Fixpoint psk_secret_loop (count i : Z) (psks : list PSK) (pskSecret : bytes) : outcome bytes :=
  match psks with
  | [] => Ok pskSecret
  | p :: psks =>
      let! pskExtracted := Extract suite [] (PSK_PSK p) in
      let! label := pskLabel (PSK_ID p) (u16 i) count in
      let! pskInput := ExpandWithLabel suite pskExtracted "derived psk" label (HashLen suite) in
      let! pskSecret := Extract suite pskInput pskSecret in
      psk_secret_loop count (i + 1) psks pskSecret
  end.

(* mls/keyschedule/psk.go:132-158 PSKSecret *)
Definition PSKSecret (psks : list PSK) : outcome bytes :=
  psk_secret_loop (u16 (len psks)) 0 psks (zero_bytes (Z.to_nat (HashLen suite))).

(** * schedule.go *)

Definition or_zeros (s : option bytes) : bytes :=
  match s with Some b => b | None => zero_bytes (Z.to_nat (HashLen suite)) end.

(* mls/keyschedule/schedule.go:28-37 JoinerSecret *)
Definition JoinerSecret (initSecret : bytes) (commitSecret : option bytes) (groupContext : bytes)
  : outcome bytes :=
  let! extracted := Extract suite initSecret (or_zeros commitSecret) in
  ExpandWithLabel suite extracted "joiner" groupContext (HashLen suite).

(* mls/keyschedule/schedule.go:44-54 WelcomeKeyNonce *)
Definition WelcomeKeyNonce (welcomeSecret : bytes) : outcome (bytes * bytes) :=
  let! ks := AEADKeySize suite in
  let! key := ExpandWithLabel suite welcomeSecret "key" [] ks in
  let! ns := AEADNonceSize suite in
  let! nonce := ExpandWithLabel suite welcomeSecret "nonce" [] ns in
  Ok (key, nonce).

(* mls/keyschedule/schedule.go:60-95 EpochSecretsFromJoiner *)
Definition EpochSecretsFromJoiner (joinerSecret : bytes) (pskSecret : option bytes) (groupContext : bytes)
  : outcome EpochSecrets :=
  let nh := HashLen suite in
  let! member := Extract suite joinerSecret (or_zeros pskSecret) in
  let! welcome := DeriveSecret suite member "welcome" in
  let! epoch := ExpandWithLabel suite member "epoch" groupContext nh in
  let! senderData := DeriveSecret suite epoch "sender data" in
  let! encryption := DeriveSecret suite epoch "encryption" in
  let! exporter := DeriveSecret suite epoch "exporter" in
  let! external := DeriveSecret suite epoch "external" in
  let! confirm := DeriveSecret suite epoch "confirm" in
  let! membership := DeriveSecret suite epoch "membership" in
  let! resumption := DeriveSecret suite epoch "resumption" in
  let! authentication := DeriveSecret suite epoch "authentication" in
  let! init := DeriveSecret suite epoch "init" in
  Ok (mkEpochSecrets joinerSecret welcome epoch senderData encryption exporter external confirm
        membership resumption authentication init).

(* mls/keyschedule/schedule.go:99-105 DeriveEpochSecrets *)
Definition DeriveEpochSecrets (initSecret : bytes) (commitSecret pskSecret : option bytes) (groupContext : bytes)
  : outcome EpochSecrets :=
  let! joiner := JoinerSecret initSecret commitSecret groupContext in
  EpochSecretsFromJoiner joiner pskSecret groupContext.

(* mls/keyschedule/schedule.go:109-111 ExternalPub *)
Definition ExternalPub (externalSecret : bytes) : outcome (bytes * bytes) :=
  DeriveKeyPair suite externalSecret.

(* mls/keyschedule/schedule.go:117-123 MLSExporter *)
Definition MLSExporter (exporterSecret : bytes) (label : string) (context : bytes) (length : Z)
  : outcome bytes :=
  let! derived := DeriveSecret suite exporterSecret label in
  ExpandWithLabel suite derived "exported" (Suite_Hash suite context) length.

(** * secrettree.go *)

(* mls/keyschedule/secrettree.go:15-29 SenderDataKeyNonce *)
Definition SenderDataKeyNonce (senderDataSecret ciphertext : bytes) : outcome (bytes * bytes) :=
  let! sample := if HashLen suite <? len ciphertext then slice ciphertext 0 (HashLen suite) else Ok ciphertext in
  let! ks := AEADKeySize suite in
  let! key := ExpandWithLabel suite senderDataSecret "key" sample ks in
  let! ns := AEADNonceSize suite in
  let! nonce := ExpandWithLabel suite senderDataSecret "nonce" sample ns in
  Ok (key, nonce).

(** The suite of a [SecretTree] is the section's. *)
(* mls/keyschedule/secrettree.go:41-46 SecretTree *)
Record SecretTree := mkSecretTree {
  st_nLeaves : Z;
  handshakeBase : gmap Z bytes;
  applicationBase : gmap Z bytes
}.

(** One recursive call per level. *)
(* mls/keyschedule/secrettree.go:66-97 SecretTree.deriveNode *)
Fixpoint deriveNode (fuel : nat) (st : SecretTree) (node : Z) (secret : bytes) : outcome SecretTree :=
  match fuel with
  | O => Diverge
  | S fuel =>
      let nh := HashLen suite in
      match Left node with
      | None =>
          let leaf := node / 2 in
          let! hs := ExpandWithLabel suite secret "handshake" [] nh in
          let! app := ExpandWithLabel suite secret "application" [] nh in
          Ok (mkSecretTree (st_nLeaves st) (<[leaf := hs]> (handshakeBase st))
                (<[leaf := app]> (applicationBase st)))
      | Some lft =>
          let! rgt := Right node (st_nLeaves st) in
          let! ls := ExpandWithLabel suite secret "tree" (bytes_of_string "left") nh in
          let! rs := ExpandWithLabel suite secret "tree" (bytes_of_string "right") nh in
          let! st := deriveNode fuel st lft ls in
          deriveNode fuel st (default 0 rgt) rs
      end
  end.

(* mls/keyschedule/secrettree.go:50-64 NewSecretTree *)
Definition NewSecretTree (nLeaves : Z) (encryptionSecret : bytes) : outcome SecretTree :=
  if nLeaves =? 0 then Err "keyschedule: secret tree requires at least one leaf" else
  deriveNode tree_fuel (mkSecretTree nLeaves ∅ ∅) (Root nLeaves) encryptionSecret.

(** [for j := uint32(0); j < generation; j++], with [n] steps left. *)
(* mls/keyschedule/secrettree.go:121-126 SecretTree.KeyNonce *)
Fixpoint ratchet (n : nat) (j : Z) (secret : bytes) : outcome bytes :=
  match n with
  | O => Ok secret
  | S n =>
      let! secret := DeriveTreeSecret suite secret "secret" j (HashLen suite) in
      ratchet n (j + 1) secret
  end.

(* mls/keyschedule/secrettree.go:106-136 SecretTree.KeyNonce *)
Definition KeyNonce (st : SecretTree) (leaf : Z) (rt : RatchetType) (generation : Z)
  : outcome (bytes * bytes) :=
  let base := match rt with
              | HandshakeRatchet => handshakeBase st !! leaf
              | ApplicationRatchet => applicationBase st !! leaf
              end in
  match base with
  | None => Err "keyschedule: no ratchet for leaf"
  | Some base =>
      let! secret := ratchet (Z.to_nat generation) 0 base in
      let! ks := AEADKeySize suite in
      let! key := DeriveTreeSecret suite secret "key" generation ks in
      let! ns := AEADNonceSize suite in
      let! nonce := DeriveTreeSecret suite secret "nonce" generation ns in
      Ok (key, nonce)
  end.

(** * transcript.go *)

(* mls/keyschedule/transcript.go:13-15 ConfirmationTag *)
Definition ConfirmationTag (confirmationKey confirmedTranscriptHash : bytes) : bytes :=
  MAC suite confirmationKey confirmedTranscriptHash.

(* mls/keyschedule/transcript.go:20-25 ConfirmedTranscriptHash *)
Definition ConfirmedTranscriptHash (interimPrev confirmedInput : bytes) : bytes :=
  Suite_Hash suite (interimPrev ++ confirmedInput).

(* mls/keyschedule/transcript.go:31-40 InterimTranscriptHash *)
Definition InterimTranscriptHash (confirmed confirmationTag : bytes) : outcome bytes :=
  let! inp := WriteOpaqueV_bytes confirmationTag in
  Ok (Suite_Hash suite (confirmed ++ inp)).

(* mls/keyschedule/transcript.go:53-65 SplitAuthenticatedContent *)
Definition SplitAuthenticatedContent (ac : bytes) : outcome (bytes * bytes) :=
  let macLen := HashLen suite in
  let! field := WriteOpaqueV_bytes (zero_bytes (Z.to_nat macLen)) in
  if len ac <? len field then Err "keyschedule: authenticated_content too short" else
  let! confirmedInput := slice ac 0 (len ac - len field) in
  let! confirmationTag := slice ac (len ac - macLen) (len ac) in
  Ok (confirmedInput, confirmationTag).
End keyschedule.

(** * Wire instances *)

Definition GroupContext_ok (gc : GroupContext) : Prop :=
  is_u16 (gc_Version gc) /\ is_u16 (gc_CipherSuite gc) /\ is_u64 (gc_Epoch gc) /\
  Forall Extension_ok (gc_Extensions gc).

#[global] Instance wire_GroupContext : Wire GroupContext_ok GroupContext_marshal decodeGroupContext.
Proof.
  wire_record GroupContext_marshal decodeGroupContext.
  - destruct Hok as (? & ? & ? & ?). decode_fields. by destruct x.
  - split; [done|]. unfold GroupContext_marshal. sound_join.
Qed.

#[global] Instance GroupContext_marshal_returns : WriteReturns GroupContext_marshal.
Proof. writes GroupContext_marshal. Qed.

Definition PreSharedKeyID_ok (p : PreSharedKeyID) : Prop :=
  is_u8 (psk_Type p) /\ is_u8 (psk_Usage p) /\ is_u64 (psk_Epoch p) /\
  (psk_Type p = PSKTypeExternal -> psk_Usage p = 0 /\ psk_GroupID p = [] /\ psk_Epoch p = 0) /\
  (psk_Type p = PSKTypeResumption -> psk_ID p = []).

#[global] Instance psk_marshal_select_returns : WriteReturns psk_marshal_select.
Proof. writes psk_marshal_select. Qed.

Lemma psk_select_appends p : appends (psk_marshal_select p).
Proof. unfold psk_marshal_select. appends_tac. Qed.

#[global] Instance wire_PreSharedKeyID : Wire PreSharedKeyID_ok PreSharedKeyID_marshal decodePreSharedKeyID.
Proof.
  split.
  - intros p. change (appends (PreSharedKeyID_marshal p)). unfold PreSharedKeyID_marshal.
    apply appends_bind; [apply wire_appends|]. apply appends_bind; [apply psk_select_appends|apply wire_appends].
  - intros p e c (Ht & Hu & He & H1 & H2) Hem. unfold PreSharedKeyID_marshal in Hem.
    apply (emits_bind_inv (WriteUint8 (psk_Type p))) in Hem as (e1 & e2 & -> & E1 & Hem);
      [|apply wire_appends|apply appends_bind; [apply psk_select_appends|apply wire_appends]].
    apply (emits_bind_inv (psk_marshal_select p)) in Hem as (e3 & e4 & -> & E3 & E4);
      [|apply psk_select_appends|apply wire_appends].
    change (emits (WriteOpaqueV (psk_Nonce p)) e4) in E4.
    unfold decodePreSharedKeyID. rewrite <- !app_assoc, (wire_decode (psk_Type p) e1) by done. cbn [obind].
    unfold psk_marshal_select in E3. destruct p as [ty id us gid ep nonce]. cbn [psk_Type psk_ID psk_Usage psk_GroupID psk_Epoch psk_Nonce] in *.
    destruct (Z.eqb_spec ty PSKTypeExternal) as [->|].
    + destruct (H1 eq_refl) as (-> & -> & ->). by decode_fields.
    + destruct (Z.eqb_spec ty PSKTypeResumption) as [->|]; [|by specialize (E3 [])].
      rewrite (H2 eq_refl). emits_split E3. by decode_fields.
  - intros c p c' H. unfold decodePreSharedKeyID in H. inv_ok. sound_fields.
    destruct (Z.eqb_spec v PSKTypeExternal) as [->|].
    + inv_ok. sound_fields. split; [done|].
      unfold PreSharedKeyID_marshal, psk_marshal_select. cbn [psk_Type psk_ID psk_Nonce Z.eqb Pos.eqb PSKTypeExternal].
      sound_join.
    + destruct (Z.eqb_spec v PSKTypeResumption) as [->|]; [|done]. inv_ok. sound_fields. split; [done|].
      unfold PreSharedKeyID_marshal, psk_marshal_select.
      cbn [psk_Type psk_ID psk_Usage psk_GroupID psk_Epoch psk_Nonce Z.eqb Pos.eqb PSKTypeExternal PSKTypeResumption].
      sound_join.
  - intros c. unfold decodePreSharedKeyID. returns_fields.
Qed.

Section laws.
Context {C : StdCrypto} (suite : Suite).

(** What a joiner derives from the joiner secret of the Welcome is what the
    members derived from the commit. *)
Lemma DeriveEpochSecrets_joiner init cs psk gc es :
  DeriveEpochSecrets suite init cs psk gc = Ok es ->
  JoinerSecret suite init cs gc = Ok (es_JoinerSecret es) /\
  EpochSecretsFromJoiner suite (es_JoinerSecret es) psk gc = Ok es.
Proof.
  unfold DeriveEpochSecrets. intros H. apply obind_ok in H as (j & Hj & H).
  assert (es_JoinerSecret es = j) as ->; [|done].
  unfold EpochSecretsFromJoiner in H. inv_ok. done.
Qed.

(** ** The secret tree *)

(** The secret of leaf [l], [k] levels below: the bits of [l] from the top
    choose the branches. *)
Fixpoint leaf_secret (k : nat) (l : Z) (secret : bytes) : outcome bytes :=
  match k with
  | O => Ok secret
  | S k =>
      let! s := ExpandWithLabel suite secret "tree"
        (bytes_of_string (if Z.testbit l (Z.of_nat k) then "right" else "left")) (HashLen suite) in
      leaf_secret k l s
  end.

(** The ratchet roots of leaf [l] in a tree whose root secret is [secret]. *)
Definition leaf_bases (k : nat) (l : Z) (secret : bytes) (hs app : bytes) : Prop :=
  exists s, leaf_secret k l secret = Ok s /\
    ExpandWithLabel suite s "handshake" [] (HashLen suite) = Ok hs /\
    ExpandWithLabel suite s "application" [] (HashLen suite) = Ok app.

Lemma testbit_half l k j : 0 <= k -> l / 2 ^ (k + 1) = j ->
  l / 2 ^ k = 2 * j + if Z.testbit l k then 1 else 0.
Proof.
  intros Hk <-. rewrite Z.testbit_odd, Z.shiftr_div_pow2 by lia.
  replace (2 ^ (k + 1)) with (2 ^ k * 2) by (rewrite pow2_S; lia).
  rewrite <- Z.div_div by (try apply pow2_pos; lia).
  pose proof (Zmod_odd (l / 2 ^ k)) as H. generalize dependent (l / 2 ^ k). intros a H.
  destruct (Z.odd a); zlia.
Qed.

Lemma deriveNode_ok d fuel k j st st' secret :
  0 <= d <= 30 -> st_nLeaves st = 2 ^ d -> 0 <= k <= d -> 0 <= j < 2 ^ (d - k) -> k < Z.of_nat fuel ->
  deriveNode suite fuel st (node k j) secret = Ok st' ->
  st_nLeaves st' = 2 ^ d /\
  (forall l, 0 <= l -> l / 2 ^ k = j -> exists hs app, leaf_bases (Z.to_nat k) l secret hs app /\
     handshakeBase st' !! l = Some hs /\ applicationBase st' !! l = Some app) /\
  (forall l, l < 0 \/ l / 2 ^ k <> j ->
     handshakeBase st' !! l = handshakeBase st !! l /\ applicationBase st' !! l = applicationBase st !! l).
Proof.
  intros Hd. revert k j st st' secret. induction fuel as [|fuel IH]; intros k j st st' secret Hn Hk Hj Hf H; [done|].
  cbn [deriveNode] in H. destruct (Z.eq_dec k 0) as [->|Hk0].
  - rewrite Left_leaf in H by lia. inv_ok. rewrite node_leaf. replace (2 * j / 2) with j by zlia.
    cbn [st_nLeaves handshakeBase applicationBase]. split_and!; [done|..].
    + intros l Hl E. rewrite Z.div_1_r in E. subst l. exists a, a0. rewrite !lookup_insert_eq. split_and!; [|done..].
      exists secret. done.
    + intros l Hl. rewrite !lookup_insert_ne by (rewrite Z.div_1_r in Hl; lia). done.
  - rewrite Left_node, Hn, complete_Right in H by lia. cbn [obind default] in H. unfold id in H.
    apply obind_ok in H as (ls & Hls & H). apply obind_ok in H as (rs & Hrs & H). apply obind_ok in H as (st1 & H1 & H2).
    assert (2 ^ (d - (k - 1)) = 2 * 2 ^ (d - k)) as E2 by (rewrite <- pow2_S by lia; f_equal; lia).
    destruct (IH (k - 1) (2 * j) st st1 ls) as (Hn1 & HL & HLo); [done|lia..|done|].
    destruct (IH (k - 1) (2 * j + 1) st1 st' rs) as (Hn2 & HR & HRo); [done|lia..|done|].
    split_and!; [done|..].
    + intros l Hl E. pose proof (testbit_half l (k - 1) j ltac:(lia)) as Hb.
      replace (k - 1 + 1) with k in Hb by lia. specialize (Hb E).
      assert (Z.to_nat k = S (Z.to_nat (k - 1))) as Ek by lia.
      destruct (Z.testbit l (k - 1)) eqn:Et.
      * destruct (HR l Hl Hb) as (hs & app & (s & Hs & He) & Hh). exists hs, app. split; [|done].
        exists s. split; [|done]. rewrite Ek. cbn [leaf_secret]. rewrite Z2Nat.id, Et, Hrs by lia. done.
      * rewrite Z.add_0_r in Hb. destruct (HL l Hl Hb) as (hs & app & (s & Hs & He) & Hh1 & Hh2).
        exists hs, app. destruct (HRo l) as [-> ->]; [lia|]. split_and!; [|done..].
        exists s. split; [|done]. rewrite Ek. cbn [leaf_secret]. rewrite Z2Nat.id, Et, Hls by lia. done.
    + intros l Hl.
      assert (l < 0 \/ (l / 2 ^ (k - 1) <> 2 * j /\ l / 2 ^ (k - 1) <> 2 * j + 1)) as Hl2.
      { destruct Hl as [|Hne]; [by left|]. right.
        assert (l / 2 ^ (k - 1) / 2 = l / 2 ^ k) as Ed.
        { rewrite Z.div_div by (try apply pow2_pos; lia). f_equal.
          rewrite <- (Z.mul_comm 2), <- pow2_S by lia. f_equal. lia. }
        rewrite <- Ed in Hne. split; intros E; apply Hne; rewrite E; zlia. }
      destruct (HLo l ltac:(lia)) as [<- <-]. apply HRo. lia.
Qed.

Context `{!StdCryptoLaws C}.

Lemma deriveNode_returns d fuel k j st secret :
  0 <= d <= 30 -> st_nLeaves st = 2 ^ d -> 0 <= k <= d -> 0 <= j < 2 ^ (d - k) -> k < Z.of_nat fuel ->
  returns (deriveNode suite fuel st (node k j) secret).
Proof.
  intros Hd. revert k j st secret. induction fuel as [|fuel IH]; intros k j st secret Hn Hk Hj Hf; [lia|].
  cbn [deriveNode]. destruct (Z.eq_dec k 0) as [->|Hk0].
  - rewrite Left_leaf by lia. do 2 (apply returns_obind; [by apply ExpandWithLabel_returns|intros ? _]). done.
  - rewrite Left_node, Hn, complete_Right by lia. cbn [obind default]. unfold id.
    assert (2 ^ (d - (k - 1)) = 2 * 2 ^ (d - k)) as E2 by (rewrite <- pow2_S by lia; f_equal; lia).
    apply returns_obind; [by apply ExpandWithLabel_returns|intros ls _].
    apply returns_obind; [by apply ExpandWithLabel_returns|intros rs _].
    apply returns_obind; [apply IH; lia || done|intros st1 H1].
    apply IH; [|lia..]. apply (deriveNode_ok d fuel (k - 1) (2 * j) st st1 ls); lia || done.
Qed.

(** ** Transcripts *)

(** The confirmation tag that ends a serialized commit is split off. *)
Lemma Split_append ci tag field : WriteOpaqueV_bytes tag = Ok field -> len tag = HashLen suite ->
  SplitAuthenticatedContent suite (ci ++ field) = Ok (ci, tag).
Proof.
  intros Hf Hl. unfold SplitAuthenticatedContent.
  assert (len (zero_bytes (Z.to_nat (HashLen suite))) = len tag) as Hz.
  { unfold zero_bytes, len at 1. rewrite length_replicate. pose proof (len_nonneg tag). lia. }
  unfold WriteOpaqueV_bytes in *. rewrite Hz. apply obind_ok in Hf as (h & -> & [= <-]). cbn [obind].
  assert (len (h ++ zero_bytes (Z.to_nat (HashLen suite))) = len (h ++ tag)) as Hlf by (rewrite !len_app; lia).
  pose proof (len_nonneg ci). pose proof (len_nonneg h). pose proof (len_nonneg tag).
  rewrite Hlf, (proj2 (Z.ltb_ge _ _)) by (rewrite (len_app ci); lia). unfold slice.
  rewrite !(proj2 (Z.leb_le _ _)) by (rewrite ?len_app, ?len_app; lia). cbn [andb obind].
  do 3 f_equal.
  - replace (len (ci ++ h ++ tag) - len (h ++ tag) - 0) with (len ci) by (rewrite (len_app ci); lia).
    change (Z.to_nat 0) with 0%nat. rewrite drop_0. unfold len. rewrite Nat2Z.id. by rewrite take_app_length.
  - rewrite <- Hl, app_assoc. replace (Z.to_nat (len ((ci ++ h) ++ tag) - len tag)) with (length (ci ++ h))
      by (rewrite len_app; unfold len; lia).
    rewrite drop_app_length, take_ge; [done|]. rewrite len_app. unfold len. lia.
Qed.
End laws.

(** * Properties *)

(** C37: the secret tree of a complete tree of [2 ^ d] leaves: deriving it
    returns; when it succeeds it holds, for every leaf index below [2 ^ d] and
    for no other, the handshake and application ratchet roots of that leaf,
    each derived from the encryption secret along the bits of the index and
    from no other leaf's secrets; and every key and nonce drawn from it has
    the length the suite's AEAD wants. *)
Theorem secret_tree_complete {C : StdCrypto} `{!StdCryptoLaws C} (suite : Suite) d encryptionSecret :
  0 <= d <= 30 ->
  returns (NewSecretTree suite (2 ^ d) encryptionSecret) /\
  forall st, NewSecretTree suite (2 ^ d) encryptionSecret = Ok st ->
    (forall l, 0 <= l < 2 ^ d -> exists hs app, leaf_bases suite (Z.to_nat d) l encryptionSecret hs app /\
       handshakeBase st !! l = Some hs /\ applicationBase st !! l = Some app) /\
    (forall l rt gen, ~ (0 <= l < 2 ^ d) -> is_err (KeyNonce suite st l rt gen) = true) /\
    (forall l rt gen key nonce, KeyNonce suite st l rt gen = Ok (key, nonce) ->
       AEADKeySize suite = Ok (len key) /\ AEADNonceSize suite = Ok (len nonce)).
Proof.
  intros Hd. unfold NewSecretTree. pose proof (pow2_pos d ltac:(lia)). rewrite (proj2 (Z.eqb_neq _ _)) by lia.
  rewrite (complete_Root d Hd). assert (0 <= 0 < 2 ^ (d - d)) as H0 by (rewrite Z.sub_diag; cbn; lia). split.
  - apply (deriveNode_returns suite d); [done|done|lia|done|unfold tree_fuel; lia].
  - intros st Hst. apply (deriveNode_ok suite d) in Hst as (_ & Hin & Hout); [|done|done|lia|done|unfold tree_fuel; lia].
    split_and!.
    + intros l Hl. apply Hin; [lia|]. by apply Z.div_small.
    + intros l rt gen Hl. unfold KeyNonce. destruct (Hout l) as [-> ->]; [|by destruct rt].
      destruct (Z.lt_ge_cases l 0); [by left|right]. intros E. apply Hl. split; [done|].
      pose proof (Z.div_mod l (2 ^ d) ltac:(lia)). pose proof (Z.mod_pos_bound l (2 ^ d) ltac:(lia)). lia.
    + intros l rt gen key nonce HK. unfold KeyNonce in HK.
      destruct (match rt with HandshakeRatchet => _ | ApplicationRatchet => _ end); [|done].
      apply obind_ok in HK as (s & _ & HK). apply obind_ok in HK as (ks & -> & HK).
      apply obind_ok in HK as (k & Hk & HK). apply obind_ok in HK as (ns & -> & HK).
      apply obind_ok in HK as (n & Hn & HK). injection HK as -> ->.
      by apply ExpandWithLabel_len in Hk as [_ ->], Hn as [_ ->].
Qed.

Lemma secret_tree_complete_witness :
  returns (NewSecretTree toy_suite (2 ^ 2) (toy_priv 9)) /\
  is_ok (NewSecretTree toy_suite (2 ^ 2) (toy_priv 9)) = true.
Proof.
  split; [|vm_compute; reflexivity].
  refine (proj1 (@secret_tree_complete toy toy_laws toy_suite 2 (toy_priv 9) _)). lia.
Defined.

(** [GroupContext.UnmarshalMLS] accepts exactly the encodings
    [MarshalMLS] gives of group contexts whose integers fit their fields, and
    returns on every input. *)
Theorem group_context_codec data gc :
  returns (GroupContext_UnmarshalMLS data) /\
  (GroupContext_UnmarshalMLS data = Ok gc <-> GroupContext_ok gc /\ GroupContext_MarshalMLS gc = Ok data).
Proof.
  split; [apply unmarshal_returns|]. split; [apply marshal_unmarshal|].
  intros [Hok H]. by eapply unmarshal_marshal.
Qed.
