(* ===== verification/Sequencer.v ===== *)
(** [ironcore/sequencer]: the ordering authority.

    [sequencer.go] (the in-memory register), [fencing.go] (leases, the fenced
    register and the fenced sequencer), [fork.go] and [tiebreak.go].  Every
    method runs under its object's mutex, so that a concurrent history is a
    sequence of calls: a method takes the object's state and returns it, and
    a history is a list of calls or a path of a step relation.  A
    [time.Time] is a [Z]; [clock.Now()] is an argument. *)

From Stdlib Require Import ZArith Lia Strings.Byte.
From stdpp Require Import base list numbers strings sets gmap.
From S2P Require Import Prelude Syntax Cipher ToyCrypto.

(** * sequencer.go *)

(* ironcore/sequencer/sequencer.go:18-23 seqKey *)
Definition seqKey (g : bytes) (epoch : Z) : bytes := be_bytes 8 epoch ++ g.

(* ironcore/sequencer/sequencer.go:27-31 cloneRef *)
Definition cloneRef (r : bytes) : bytes := r.

(* ironcore/sequencer/sequencer.go:38-41 MemorySequencer *)
Record MemorySequencer := mkMemorySequencer { ms_decided : gmap bytes bytes }.

(* ironcore/sequencer/sequencer.go:44-46 NewMemorySequencer *)
Definition NewMemorySequencer : MemorySequencer := mkMemorySequencer ∅.

(* ironcore/sequencer/sequencer.go:54-63 MemorySequencer.AcceptCommit *)
Definition MemorySequencer_AcceptCommit (s : MemorySequencer) (g : bytes) (epoch : Z) (commit : bytes)
  : bool * MemorySequencer :=
  let key := seqKey g epoch in
  match ms_decided s !! key with
  | Some ex => (bytes_Equal ex commit, s)
  | None => (true, mkMemorySequencer (<[key := cloneRef commit]> (ms_decided s)))
  end.

(* ironcore/sequencer/sequencer.go:67-75 MemorySequencer.Decided *)
Definition MemorySequencer_Decided (s : MemorySequencer) (g : bytes) (epoch : Z) : option bytes :=
  cloneRef <$> ms_decided s !! seqKey g epoch.

(** * fencing.go *)

(* ironcore/sequencer/fencing.go:16-21 Lease *)
Record Lease := mkLease { l_VNI : Z; l_Owner : string; l_Token : Z; l_Expiry : Z }.

(* ironcore/sequencer/fencing.go:24-24 Lease.Valid *)
Definition Lease_Valid (l : Lease) (now : Z) : bool := now <? l_Expiry l.

(** The zero value [Lease{}]. *)
Definition zero_lease : Lease := mkLease 0 "" 0 0.

(* ironcore/sequencer/fencing.go:43-48 MemoryLeaseStore *)
Record MemoryLeaseStore := mkMemoryLeaseStore { ls_held : gmap Z Lease; ls_next : gmap Z Z }.

(* ironcore/sequencer/fencing.go:51-53 NewMemoryLeaseStore *)
Definition NewMemoryLeaseStore : MemoryLeaseStore := mkMemoryLeaseStore ∅ ∅.

(** [Some l] is [(l, true, nil)], [None] is [(Lease{}, false, nil)]. *)
(* ironcore/sequencer/fencing.go:56-67 MemoryLeaseStore.Acquire *)
Definition Acquire (s : MemoryLeaseStore) (now vni : Z) (owner : string) (ttl : Z)
  : option Lease * MemoryLeaseStore :=
  let refused := match ls_held s !! vni with
                 | Some cur => bool_decide (l_Owner cur <> owner) && Lease_Valid cur now
                 | None => false
                 end in
  if (refused : bool) then (None, s) else
  let token := u64 (default 0 (ls_next s !! vni) + 1) in
  let l := mkLease vni owner token (now + ttl) in
  (Some l, mkMemoryLeaseStore (<[vni := l]> (ls_held s)) (<[vni := token]> (ls_next s))).

(* ironcore/sequencer/fencing.go:70-80 MemoryLeaseStore.Renew *)
Definition Renew (s : MemoryLeaseStore) (now vni : Z) (owner : string) (token ttl : Z)
  : option Lease * MemoryLeaseStore :=
  match ls_held s !! vni with
  | Some cur =>
      if bool_decide (l_Owner cur <> owner) || negb (l_Token cur =? token) then (None, s) else
      let cur := mkLease (l_VNI cur) (l_Owner cur) (l_Token cur) (now + ttl) in
      (Some cur, mkMemoryLeaseStore (<[vni := cur]> (ls_held s)) (ls_next s))
  | None => (None, s)
  end.

(* ironcore/sequencer/fencing.go:83-90 MemoryLeaseStore.Release *)
Definition Release (s : MemoryLeaseStore) (vni : Z) (owner : string) (token : Z) : MemoryLeaseStore :=
  match ls_held s !! vni with
  | Some cur =>
      if bool_decide (l_Owner cur = owner) && (l_Token cur =? token)
      then mkMemoryLeaseStore (delete vni (ls_held s)) (ls_next s) else s
  | None => s
  end.

(* ironcore/sequencer/fencing.go:94-94 ErrFenced *)
Definition ErrFenced : string := "sequencer: write fenced by stale token".

(* ironcore/sequencer/fencing.go:101-105 FencedRegister *)
Record FencedRegister := mkFencedRegister { fr_decided : gmap bytes bytes; fr_maxToken : gmap Z Z }.

(* ironcore/sequencer/fencing.go:108-110 NewFencedRegister *)
Definition NewFencedRegister : FencedRegister := mkFencedRegister ∅ ∅.

(* ironcore/sequencer/fencing.go:115-128 FencedRegister.Accept *)
Definition Accept (r : FencedRegister) (vni token : Z) (g : bytes) (epoch : Z) (commit : bytes)
  : outcome bool * FencedRegister :=
  if token <? default 0 (fr_maxToken r !! vni) then (Err ErrFenced, r) else
  let maxToken := <[vni := token]> (fr_maxToken r) in
  let key := seqKey g epoch in
  match fr_decided r !! key with
  | Some ex => (Ok (bytes_Equal ex commit), mkFencedRegister (fr_decided r) maxToken)
  | None => (Ok true, mkFencedRegister (<[key := cloneRef commit]> (fr_decided r)) maxToken)
  end.

(* ironcore/sequencer/fencing.go:132-140 FencedRegister.Decided *)
Definition FencedRegister_Decided (r : FencedRegister) (g : bytes) (epoch : Z) : option bytes :=
  cloneRef <$> fr_decided r !! seqKey g epoch.

(** The mutable fields of a sequencer; the immutable ones are the record's
    first four. *)
(* ironcore/sequencer/fencing.go:148-160 FencedSequencer *)
Record FencedSequencer := mkFencedSequencer {
  fs_owner : string;
  fs_vni : Z;
  fs_group : bytes;
  fs_ttl : Z;
  fs_lease : Lease;
  fs_held : bool
}.

(* ironcore/sequencer/fencing.go:164-166 NewFencedSequencer *)
Definition NewFencedSequencer (owner : string) (vni : Z) (g : bytes) (ttl : Z) : FencedSequencer :=
  mkFencedSequencer owner vni g ttl zero_lease false.

Definition with_lease (s : FencedSequencer) (l : Lease) (held : bool) : FencedSequencer :=
  mkFencedSequencer (fs_owner s) (fs_vni s) (fs_group s) (fs_ttl s) l held.

(** The state of a sequencer, its lease store and its register; [now] is the
    sequencer's reading of the clock and [now'] the store's. *)
(* ironcore/sequencer/fencing.go:174-193 FencedSequencer.AcceptCommit *)
Definition FencedSequencer_AcceptCommit (s : FencedSequencer) (store : MemoryLeaseStore) (reg : FencedRegister)
  (now now' : Z) (g : bytes) (epoch : Z) (commit : bytes)
  : outcome bool * (FencedSequencer * MemoryLeaseStore * FencedRegister) :=
  if negb (bytes_Equal g (fs_group s)) then
    (Err "sequencer: group not owned by VNI fencer", (s, store, reg)) else
  if negb (fs_held s) || negb (Lease_Valid (fs_lease s) now) then
    match Acquire store now' (fs_vni s) (fs_owner s) (fs_ttl s) with
    | (None, store) => (Ok false, (with_lease s (fs_lease s) false, store, reg))
    | (Some l, store) =>
        let s := with_lease s l true in
        let (r, reg) := Accept reg (fs_vni s) (l_Token l) g epoch commit in
        (r, (s, store, reg))
    end
  else
    let (r, reg) := Accept reg (fs_vni s) (l_Token (fs_lease s)) g epoch commit in
    (r, (s, store, reg)).

(** * fork.go *)

(* ironcore/sequencer/fork.go:15-18 EpochAuthenticatorRegistry *)
Record EpochAuthenticatorRegistry := mkRegistry { er_seen : gmap bytes (list bytes) }.

(* ironcore/sequencer/fork.go:21-23 NewEpochAuthenticatorRegistry *)
Definition NewEpochAuthenticatorRegistry : EpochAuthenticatorRegistry := mkRegistry ∅.

(* ironcore/sequencer/fork.go:28-41 EpochAuthenticatorRegistry.Report *)
Definition Report (r : EpochAuthenticatorRegistry) (g : bytes) (epoch : Z) (auth : bytes)
  : bool * EpochAuthenticatorRegistry :=
  let key := seqKey g epoch in
  let known := default [] (er_seen r !! key) in
  if existsb (fun a => bytes_Equal a auth) known then (1 <? len known, r) else
  let known := known ++ [auth] in
  (1 <? len known, mkRegistry (<[key := known]> (er_seen r))).

(* ironcore/sequencer/fork.go:44-48 EpochAuthenticatorRegistry.Divergent *)
Definition Divergent (r : EpochAuthenticatorRegistry) (g : bytes) (epoch : Z) : bool :=
  1 <? len (default [] (er_seen r !! seqKey g epoch)).

(** * tiebreak.go *)

(** [bytes.Compare(a, b) < 0] *)
Fixpoint bytes_lt (a b : bytes) : bool :=
  match a, b with
  | _, [] => false
  | [], _ :: _ => true
  | x :: a, y :: b =>
      if Z_of_byte x <? Z_of_byte y then true
      else if Z_of_byte y <? Z_of_byte x then false else bytes_lt a b
  end.

Section tiebreak.
Context {C : StdCrypto}.

(** The candidates are [nil]-able slices, as [best] is. *)
(* ironcore/sequencer/tiebreak.go:18-23 CanonicalCommit *)
Fixpoint canonical_loop (suite : Suite) (candidates : list (option bytes)) (best : option bytes)
  (bestKey : bytes) : option bytes :=
  match candidates with
  | [] => best
  | c :: candidates =>
      let ref := default [] c in
      let key := Suite_Hash suite ref ++ ref in
      if match best with None => true | Some _ => bytes_lt key bestKey end
      then canonical_loop suite candidates c key
      else canonical_loop suite candidates best bestKey
  end.

(* ironcore/sequencer/tiebreak.go:15-25 CanonicalCommit *)
Definition CanonicalCommit (suite : Suite) (candidates : list (option bytes)) : option bytes :=
  canonical_loop suite candidates None [].
End tiebreak.

(** * Keys are unambiguous *)

Lemma seqKey_inj g e g' e' : is_u64 e -> is_u64 e' -> seqKey g e = seqKey g' e' -> g = g' /\ e = e'.
Proof.
  unfold seqKey, is_u64. intros He He' H. apply app_inj_1 in H as [H ->]; [|by rewrite !length_be_bytes].
  split; [done|]. apply (f_equal be_uint) in H. rewrite !be_uint_be_bytes in H.
  change (256 ^ Z.of_nat 8) with (2 ^ 64) in H. by rewrite !Z.mod_small in H by lia.
Qed.

(** * The contract of an ordering service

    The [Ordering] port of [mls/group/ports.go]: one commit per group and
    epoch.  [X] is what else a call depends on: the caller, its token, the
    clock. *)

Record call (X : Type) := mkCall { c_who : X; c_group : bytes; c_epoch : Z; c_commit : bytes }.
Arguments mkCall {X}. Arguments c_who {X}. Arguments c_group {X}. Arguments c_epoch {X}. Arguments c_commit {X}.

Class Ordering {X S : Type} (accept : S -> call X -> outcome bool * S) (decided : S -> bytes -> Z -> option bytes)
  : Prop := {
  ord_accepted : forall s k s', is_u64 (c_epoch k) -> accept s k = (Ok true, s') ->
    decided s' (c_group k) (c_epoch k) = Some (c_commit k);
  ord_stable : forall s k r s' g e x, is_u64 e -> is_u64 (c_epoch k) -> accept s k = (r, s') ->
    decided s g e = Some x -> decided s' g e = Some x
}.

Section ordering.
Context {X S : Type} {accept : S -> call X -> outcome bool * S} {decided : S -> bytes -> Z -> option bytes}.
Context `{!Ordering accept decided}.

(** The calls of a history with their results, and the final state. *)
Fixpoint run (s : S) (calls : list (call X)) : list (call X * outcome bool) * S :=
  match calls with
  | [] => ([], s)
  | k :: calls =>
      let (r, s) := accept s k in
      let (log, s) := run s calls in
      ((k, r) :: log, s)
  end.

Lemma run_stable s calls g e x : is_u64 e -> Forall (fun k => is_u64 (c_epoch k)) calls ->
  decided s g e = Some x -> decided (run s calls).2 g e = Some x.
Proof.
  intros He Hc. revert s. induction Hc as [|k calls Hk _ IH]; intros s Hs; simpl; [done|].
  destruct (accept s k) as [r s1] eqn:E. specialize (IH s1). destruct (run s1 calls) as [log s2]. simpl in *.
  apply IH. by apply (ord_stable s k r s1 g e x).
Qed.

(** An accepted commit is the decided one at the end of the history. *)
Lemma run_accepted s calls k : Forall (fun k => is_u64 (c_epoch k)) calls ->
  (k, Ok true) ∈ (run s calls).1 -> decided (run s calls).2 (c_group k) (c_epoch k) = Some (c_commit k).
Proof.
  intros Hc. revert s. induction Hc as [|k0 calls Hk Hc IH]; intros s Hin; simpl in *;
    [by apply not_elem_of_nil in Hin|].
  destruct (accept s k0) as [r s1] eqn:E. specialize (IH s1).
  pose proof (fun g e x He => run_stable s1 calls g e x He Hc) as Hst.
  destruct (run s1 calls) as [log s2]. simpl in *.
  apply elem_of_cons in Hin as [[= <- <-]|Hin]; [|by apply IH].
  apply Hst; [done|]. by apply (ord_accepted s k s1).
Qed.

(** No two different commits are accepted for one group and epoch. *)
Lemma run_agreement s calls k k' : Forall (fun k => is_u64 (c_epoch k)) calls ->
  (k, Ok true) ∈ (run s calls).1 -> (k', Ok true) ∈ (run s calls).1 ->
  c_group k = c_group k' -> c_epoch k = c_epoch k' -> c_commit k = c_commit k'.
Proof.
  intros Hc H H' Eg Ee. apply run_accepted in H; [|done]. apply run_accepted in H'; [|done].
  rewrite Eg, Ee in H. congruence.
Qed.
End ordering.

(** The memory sequencer. *)
Definition memory_accept (s : MemorySequencer) (k : call unit) : outcome bool * MemorySequencer :=
  let (b, s) := MemorySequencer_AcceptCommit s (c_group k) (c_epoch k) (c_commit k) in (Ok b, s).

#[global] Instance memory_ordering : Ordering memory_accept MemorySequencer_Decided.
Proof.
  unfold memory_accept, MemorySequencer_AcceptCommit, MemorySequencer_Decided, cloneRef. split.
  - intros s k s' _. destruct (ms_decided s !! _) as [ex|] eqn:E; [intros [= Hr <-]|intros [= <-]].
    + rewrite E. apply bytes_Equal_spec in Hr as ->. done.
    + cbn [ms_decided]. by rewrite lookup_insert_eq.
  - intros s k r s' g e x He Hk. destruct (ms_decided s !! seqKey (c_group k) (c_epoch k)) as [ex|] eqn:E;
      intros [= _ <-] Hx; [done|]. cbn [ms_decided].
    destruct (ms_decided s !! seqKey g e) eqn:E2; [|done]. rewrite lookup_insert_ne, E2; [done|]. intros Hkey. rewrite Hkey in E. congruence.
Qed.

(** The fenced register; a call carries the VNI and the token. *)
Definition fenced_accept (r : FencedRegister) (k : call (Z * Z)) : outcome bool * FencedRegister :=
  Accept r (c_who k).1 (c_who k).2 (c_group k) (c_epoch k) (c_commit k).

Lemma Accept_decided r vni token g e c res r' : Accept r vni token g e c = (res, r') ->
  (fr_decided r' = fr_decided r \/
   fr_decided r !! seqKey g e = None /\ fr_decided r' = <[seqKey g e := c]> (fr_decided r)) /\
  (res = Ok true -> fr_decided r' !! seqKey g e = Some c).
Proof.
  unfold Accept, cloneRef. destruct (token <? _); [intros [= <- <-]; split; auto; done|].
  destruct (fr_decided r !! seqKey g e) as [ex|] eqn:E; intros [= <- <-]; cbn [fr_decided]; (split; [by auto|]).
  - intros [= Hr]. apply bytes_Equal_spec in Hr as ->. done.
  - intros _. by rewrite lookup_insert_eq.
Qed.

#[global] Instance fenced_ordering : Ordering fenced_accept FencedRegister_Decided.
Proof.
  unfold fenced_accept, FencedRegister_Decided, cloneRef. split.
  - intros r k r' _ H. apply Accept_decided in H as [_ H]. by rewrite H.
  - intros r k res r' g e x _ _ H Hx. apply Accept_decided in H as [[->|[Hn ->]] _]; [done|].
    destruct (fr_decided r !! seqKey g e) eqn:E; [|done]. rewrite lookup_insert_ne, E; [done|]. intros Hkey. rewrite Hkey in Hn. congruence.
Qed.

(** ** Fencing tokens *)

Definition max_token (r : FencedRegister) (vni : Z) : Z := default 0 (fr_maxToken r !! vni).

Lemma Accept_token r vni token g e c res r' v : Accept r vni token g e c = (res, r') ->
  max_token r v <= max_token r' v /\ (res <> Err ErrFenced -> max_token r' vni = token).
Proof.
  unfold Accept, max_token. destruct (Z.ltb_spec token (default 0 (fr_maxToken r !! vni))) as [|Hge];
    [intros [= <- <-]; split; [lia|done]|].
  destruct (fr_decided r !! seqKey g e); intros [= <- <-]; cbn [fr_maxToken]; (split; [|intros _; by rewrite lookup_insert_eq]);
    (destruct (decide (v = vni)) as [->|]; [rewrite lookup_insert_eq; exact Hge|by rewrite lookup_insert_ne by done]).
Qed.

Lemma run_token r calls v : max_token r v <= max_token (run (accept := fenced_accept) r calls).2 v.
Proof.
  revert r. induction calls as [|k calls IH]; intros r; simpl; [lia|].
  destruct (fenced_accept r k) as [res r1] eqn:E. apply (Accept_token _ _ _ _ _ _ _ _ v) in E as [E _].
  specialize (IH r1). destruct (run r1 calls) as [log r2]. simpl in *. lia.
Qed.

(** * The fenced sequencers of one VNI

    The sequencers, keyed by owner, share the lease store, the register and a
    clock that does not run backwards.  A step is a reading of the clock or a
    call of one sequencer; [Renew] may be called by the holder of a lease. *)

Record System := mkSystem {
  sy_nodes : gmap string FencedSequencer;
  sy_store : MemoryLeaseStore;
  sy_reg : FencedRegister;
  sy_now : Z
}.

(** A call of the sequencer of [owner] at the system's time. *)
Definition system_accept (y : System) (k : call string) : outcome bool * System :=
  match sy_nodes y !! c_who k with
  | None => (Err "no such sequencer", y)
  | Some s =>
      let '(r, (s, store, reg)) := FencedSequencer_AcceptCommit s (sy_store y) (sy_reg y) (sy_now y) (sy_now y)
        (c_group k) (c_epoch k) (c_commit k) in
      (r, mkSystem (<[c_who k := s]> (sy_nodes y)) store reg (sy_now y))
  end.

Inductive sys_step (y : System) : System -> Prop :=
| step_tick now : sy_now y <= now -> sys_step y (mkSystem (sy_nodes y) (sy_store y) (sy_reg y) now)
| step_accept k r y' : system_accept y k = (r, y') -> sys_step y y'
| step_renew vni owner token ttl l store :
    (forall cur, ls_held (sy_store y) !! vni = Some cur -> l_Expiry cur <= sy_now y + ttl) ->
    Renew (sy_store y) (sy_now y) vni owner token ttl = (l, store) ->
    sys_step y (mkSystem (sy_nodes y) store (sy_reg y) (sy_now y)).

(** The sequencer regards its lease as valid. *)
Definition leads (y : System) (s : FencedSequencer) : Prop :=
  fs_held s = true /\ Lease_Valid (fs_lease s) (sy_now y) = true.

Record sys_inv (y : System) : Prop := {
  si_owner : forall o s, sy_nodes y !! o = Some s -> fs_owner s = o;
  si_leads : forall o s, sy_nodes y !! o = Some s -> leads y s ->
    exists cur, ls_held (sy_store y) !! fs_vni s = Some cur /\ l_Owner cur = o /\
      l_Token cur = l_Token (fs_lease s) /\ l_Expiry (fs_lease s) <= l_Expiry cur
}.

Lemma Acquire_ok st now vni owner ttl l st' : Acquire st now vni owner ttl = (Some l, st') ->
  ls_held st' = <[vni := l]> (ls_held st) /\ l_Owner l = owner /\ l_Expiry l = now + ttl /\
  l_Token l = u64 (default 0 (ls_next st !! vni) + 1) /\ ls_next st' = <[vni := l_Token l]> (ls_next st) /\
  forall cur, ls_held st !! vni = Some cur -> l_Owner cur = owner \/ l_Expiry cur <= now.
Proof.
  unfold Acquire, Lease_Valid. intros H.
  destruct (ls_held st !! vni) as [cur|] eqn:E.
  - destruct (bool_decide_reflect (l_Owner cur <> owner)) as [Hne|He], (Z.ltb_spec now (l_Expiry cur));
      cbn [andb] in H; try discriminate; injection H as <- <-; cbn; split_and!; try done.
    + intros ? [= <-]. right. lia.
    + intros ? [= <-]. left. by apply dec_stable.
    + intros ? [= <-]. right. lia.
  - injection H as <- <-. cbn. done.
Qed.

Lemma Acquire_refused st now vni owner ttl st' : Acquire st now vni owner ttl = (None, st') -> st' = st.
Proof. unfold Acquire. by destruct (match ls_held st !! vni with Some _ => _ | None => _ end); intros [= <-]. Qed.

(** What a call does to the caller and to the store. *)
Lemma AcceptCommit_ok s store reg now g e c r s' store' reg' :
  FencedSequencer_AcceptCommit s store reg now now g e c = (r, (s', store', reg')) ->
  fs_owner s' = fs_owner s /\ fs_vni s' = fs_vni s /\
  ((store' = store /\ (s' = s \/ fs_held s' = false)) \/
   (exists l, Acquire store now (fs_vni s) (fs_owner s) (fs_ttl s) = (Some l, store') /\
      fs_lease s' = l /\ fs_held s' = true)).
Proof.
  unfold FencedSequencer_AcceptCommit. destruct (negb (bytes_Equal g (fs_group s))).
  { intros [= <- <- <- <-]. split_and!; auto. }
  destruct (negb (fs_held s) || negb (Lease_Valid (fs_lease s) now)).
  - destruct (Acquire store now (fs_vni s) (fs_owner s) (fs_ttl s)) as [[l|] st'] eqn:EA.
    + cbn. destruct (Accept reg (fs_vni s) (l_Token l) g e c) as [res reg1].
      intros [= <- <- <- <-]. split_and!; [done..|]. right. by exists l.
    + intros [= <- <- <- <-]. split_and!; [done..|]. left. apply Acquire_refused in EA. auto.
  - destruct (Accept reg (fs_vni s) (l_Token (fs_lease s)) g e c) as [res reg1].
    intros [= <- <- <- <-]. split_and!; auto.
Qed.

Lemma sys_inv_step y y' : sys_inv y -> sys_step y y' -> sys_inv y'.
Proof.
  intros [Hown Hled] Hstep. destruct Hstep as [now Hnow|k r y' H|vni owner token ttl l store Hext H].
  - split; [done|]. cbn. intros o s Hs [Hh Hv]. apply (Hled o s Hs). split; [done|].
    unfold Lease_Valid in *. cbn in Hv. lia.
  - unfold system_accept in H. destruct (sy_nodes y !! c_who k) as [s|] eqn:Es; [|by injection H as <- <-].
    destruct (FencedSequencer_AcceptCommit s _ _ _ _ _ _ _) as [res [[s' store'] reg']] eqn:EA.
    injection H as <- <-. apply AcceptCommit_ok in EA as (Ho & Hv & Hcase).
    pose proof (Hown _ _ Es) as Hos. split; cbn.
    + intros o s0. destruct (decide (o = c_who k)) as [->|]; [rewrite lookup_insert_eq; intros [= <-]; congruence|].
      rewrite lookup_insert_ne by done. apply Hown.
    + intros o s0 Hs0 [Hh Hval]. cbn in Hval.
      destruct (decide (o = c_who k)) as [->|Hne].
      * rewrite lookup_insert_eq in Hs0. injection Hs0 as <-. destruct Hcase as [[-> [->|Hf]]|(l & HA & Hl & _)].
        -- apply (Hled _ s Es). done.
        -- congruence.
        -- apply Acquire_ok in HA as (-> & Hlo & Hle & _). exists l. rewrite Hv, lookup_insert_eq.
           rewrite Hl. split_and!; try done; congruence || lia.
      * rewrite lookup_insert_ne in Hs0 by done. destruct (Hled o s0 Hs0) as (cur & Hc & Hco & Hct & Hce).
        { split; done. }
        destruct Hcase as [[-> _]|(l & HA & Hl & _)]; [by exists cur|].
        apply Acquire_ok in HA as (-> & _ & _ & _ & _ & Hfree).
        destruct (decide (fs_vni s = fs_vni s0)) as [Evni|]; [|rewrite lookup_insert_ne by done; by exists cur].
        exfalso. rewrite Evni in Hfree. destruct (Hfree cur Hc) as [Hco'|Hexp]; [congruence|].
        unfold Lease_Valid in Hval. lia.
  - unfold Renew in H. destruct (ls_held (sy_store y) !! vni) as [cur0|] eqn:Ec.
    2: { injection H as <- <-. by split. }
    destruct (bool_decide (l_Owner cur0 <> owner) || negb (l_Token cur0 =? token)); injection H as <- <-; [by split|].
    split; [done|]. cbn. intros o s Hs Hl. destruct (Hled o s Hs Hl) as (cur & Hc & Hco & Hct & Hce).
    destruct (decide (vni = fs_vni s)) as [->|]; [|rewrite lookup_insert_ne by done; by exists cur].
    rewrite lookup_insert_eq. assert (cur = cur0) as -> by congruence.
    eexists. split_and!; [done|done|done|]. cbn. specialize (Hext cur0 eq_refl). lia.
Qed.

(** The states of a system that starts with idle sequencers. *)
Definition sys_initial (y : System) : Prop :=
  (forall o s, sy_nodes y !! o = Some s -> fs_owner s = o /\ fs_held s = false) /\
  sy_reg y = NewFencedRegister.

Lemma sys_inv_reachable y0 y : sys_initial y0 -> rtc sys_step y0 y -> sys_inv y.
Proof.
  intros [H0 _] Hr. assert (sys_inv y0) as Hi.
  { split; [intros o s Hs; apply (H0 o s Hs)|]. intros o s Hs [Hh _]. destruct (H0 o s Hs). congruence. }
  clear H0. induction Hr as [y|y1 y2 y3 Hs _ IH]; [done|]. apply IH. by eapply sys_inv_step.
Qed.

(** The whole system is an ordering service. *)
#[global] Instance system_ordering :
  Ordering system_accept (fun y => FencedRegister_Decided (sy_reg y)).
Proof.
  assert (forall y k r y', system_accept y k = (r, y') ->
    sy_reg y' = sy_reg y /\ r <> Ok true \/
    exists token vni, Accept (sy_reg y) vni token (c_group k) (c_epoch k) (c_commit k) = (r, sy_reg y')) as Hcase.
  { intros y k r y'. unfold system_accept, FencedSequencer_AcceptCommit.
    destruct (sy_nodes y !! c_who k) as [s|]; [|intros [= <- <-]; by left].
    destruct (negb (bytes_Equal (c_group k) (fs_group s))); [intros [= <- <-]; by left|].
    destruct (negb (fs_held s) || negb (Lease_Valid (fs_lease s) (sy_now y))).
    - destruct (Acquire _ _ _ _ _) as [[l|] st']; [|intros [= <- <-]; by left]. cbn.
      destruct (Accept _ _ _ _ _ _) as [res reg1] eqn:EA. intros [= <- <-]. right. by eexists _, _.
    - destruct (Accept _ _ _ _ _ _) as [res reg1] eqn:EA. intros [= <- <-]. right. by eexists _, _. }
  split.
  - intros y k y' Hk H. apply Hcase in H as [[_ Hn]|(token & vni & H)]; [done|].
    exact (ord_accepted (accept := fenced_accept) (sy_reg y)
      (mkCall (vni, token) (c_group k) (c_epoch k) (c_commit k)) (sy_reg y') Hk H).
  - intros y k r y' g e x He Hk H Hx. apply Hcase in H as [[-> _]|(token & vni & H)]; [done|].
    exact (ord_stable (accept := fenced_accept) (sy_reg y)
      (mkCall (vni, token) (c_group k) (c_epoch k) (c_commit k)) r (sy_reg y') g e x He Hk H Hx).
Qed.

(** * Fork detection *)

(** The authenticators reported for a group and epoch, in a history of reports. *)
Definition reported (h : list (bytes * Z * bytes)) (g : bytes) (e : Z) : gset bytes :=
  list_to_set (omap (fun x => if decide (x.1 = (g, e)) then Some x.2 else None) h).

Fixpoint report_all (r : EpochAuthenticatorRegistry) (h : list (bytes * Z * bytes)) : EpochAuthenticatorRegistry :=
  match h with
  | [] => r
  | (g, e, a) :: h => report_all (Report r g e a).2 h
  end.

Definition seen_set (r : EpochAuthenticatorRegistry) (g : bytes) (e : Z) : list bytes :=
  default [] (er_seen r !! seqKey g e).

Lemma Report_seen r g e a b r' g' e' : is_u64 e -> is_u64 e' -> Report r g e a = (b, r') ->
  (NoDup (seen_set r g' e') -> NoDup (seen_set r' g' e')) /\
  (list_to_set (seen_set r' g' e') : gset bytes) =
    list_to_set (seen_set r g' e') ∪ (if decide ((g', e') = (g, e)) then {[a]} else ∅) /\
  b = (1 <? len (seen_set r' g e)).
Proof.
  intros He He'. unfold Report, seen_set. set (known := default [] (er_seen r !! seqKey g e)).
  destruct (existsb (fun x => bytes_Equal x a) known) eqn:E.
  - intros [= <- <-]. split_and!; [done| |done].
    apply existsb_exists in E as (x & Hx & Hxa). apply bytes_Equal_spec in Hxa as ->.
    apply list_elem_of_In in Hx. case_decide as D; [|set_solver]. injection D as -> ->. fold known. set_solver.
  - intros [= <- <-]. cbn [er_seen]. rewrite lookup_insert_eq. cbn [default].
    assert (a ∉ known) as Hna.
    { intros Hin. apply not_true_iff_false in E. apply E, existsb_exists. exists a.
      split; [by apply list_elem_of_In|by apply bytes_Equal_spec]. }
    case_decide as D.
    + injection D as -> ->. rewrite lookup_insert_eq. cbn [default]. fold known. split_and!; [|set_solver|done].
      intros Hnd. apply NoDup_app. split_and!; [done| |apply NoDup_singleton].
      intros x Hx ->%list_elem_of_singleton. done.
    + rewrite lookup_insert_ne; [split_and!; [done|set_solver|done]|].
      intros Hk. apply seqKey_inj in Hk as [-> ->]; done.
Qed.

Lemma report_all_seen h r g e : is_u64 e -> Forall (fun x => is_u64 x.1.2) h -> NoDup (seen_set r g e) ->
  NoDup (seen_set (report_all r h) g e) /\
  (list_to_set (seen_set (report_all r h) g e) : gset bytes) = list_to_set (seen_set r g e) ∪ reported h g e.
Proof.
  intros He Hh. revert r. induction Hh as [|[[g0 e0] a] h Hx Hh IH]; intros r Hnd; cbn [report_all].
  { split; [done|]. unfold reported. cbn. set_solver. }
  destruct (Report r g0 e0 a) as [b r1] eqn:E. destruct (Report_seen _ _ _ _ _ _ g e Hx He E) as (H1 & H2 & _).
  destruct (IH r1 (H1 Hnd)) as [H3 H4]. cbn [snd]. split; [done|]. rewrite H4, H2. unfold reported. cbn [omap list_omap fst snd].
  repeat case_decide; simplify_eq; try done; set_solver.
Qed.

(** * The tie-break *)

Lemma bytes_lt_irrefl a : bytes_lt a a = false.
Proof. induction a as [|x a IH]; [done|]. cbn. by rewrite Z.ltb_irrefl. Qed.

Lemma bytes_lt_trans a b c : bytes_lt a b = true -> bytes_lt b c = true -> bytes_lt a c = true.
Proof.
  revert b c. induction a as [|x a IH]; intros [|y b] [|z c]; cbn; try done.
  destruct (Z.ltb_spec (Z_of_byte x) (Z_of_byte y)), (Z.ltb_spec (Z_of_byte y) (Z_of_byte x)),
    (Z.ltb_spec (Z_of_byte y) (Z_of_byte z)), (Z.ltb_spec (Z_of_byte z) (Z_of_byte y)),
    (Z.ltb_spec (Z_of_byte x) (Z_of_byte z)), (Z.ltb_spec (Z_of_byte z) (Z_of_byte x)); try done; try lia; eauto.
Qed.

Lemma bytes_lt_total a b : bytes_lt a b = false -> bytes_lt b a = false -> a = b.
Proof.
  revert b. induction a as [|x a IH]; intros [|y b]; cbn; try done.
  destruct (Z.ltb_spec (Z_of_byte x) (Z_of_byte y)), (Z.ltb_spec (Z_of_byte y) (Z_of_byte x)); try done; try lia.
  intros H1 H2. f_equal; [apply Z_of_byte_inj; lia|by apply IH].
Qed.

Section canonical.
Context {C : StdCrypto} `{!StdCryptoLaws C} (suite : Suite).

Definition ref_key (r : bytes) : bytes := Suite_Hash suite r ++ r.

Lemma ref_key_inj r r' : ref_key r = ref_key r' -> r = r'.
Proof using StdCryptoLaws0.
  unfold ref_key, Suite_Hash. intros H. apply app_inj_1 in H as [_ H]; [done|].
  apply Nat2Z.inj. change (len (hash_Sum (NewHash suite) r) = len (hash_Sum (NewHash suite) r')).
  by rewrite !hash_Sum_len.
Qed.

Lemma canonical_loop_min cs b : exists m, canonical_loop suite (Some <$> cs) (Some b) (ref_key b) = Some m /\
  m ∈ b :: cs /\ forall c, c ∈ b :: cs -> bytes_lt (ref_key c) (ref_key m) = false.
Proof using.
  clear. revert b. induction cs as [|c cs IH]; intros b; cbn [fmap list_fmap canonical_loop default from_option id].
  - exists b. split_and!; [done|by left|]. intros c [->|[]%not_elem_of_nil]%elem_of_cons. apply bytes_lt_irrefl.
  - fold (ref_key c). destruct (bytes_lt (ref_key c) (ref_key b)) eqn:E.
    + destruct (IH c) as (m & Hm & Hin & Hmin). exists m. split_and!; [done|set_solver|].
      intros x [->|Hx]%elem_of_cons; [|by apply Hmin].
      destruct (bytes_lt (ref_key b) (ref_key m)) eqn:E2; [|done].
      rewrite <- (Hmin c) by (by left). symmetry. by eapply bytes_lt_trans.
    + destruct (IH b) as (m & Hm & Hin & Hmin). exists m. split_and!; [done|set_solver|].
      intros x Hx. destruct (decide (x = c)) as [->|]; [|apply Hmin; set_solver].
      destruct (bytes_lt (ref_key c) (ref_key m)) eqn:E2; [|done].
      destruct (bytes_lt (ref_key b) (ref_key m)) eqn:E3; [rewrite (Hmin b) in E3; [done|by left]|].
      destruct (bytes_lt (ref_key m) (ref_key b)) eqn:E4.
      * rewrite <- E. symmetry. by eapply bytes_lt_trans.
      * rewrite (bytes_lt_total _ _ E4 E3) in E2. congruence.
Qed.

(** The canonical commit of a non-empty candidate list has the least key. *)
Lemma CanonicalCommit_min cs : cs <> [] -> exists m, CanonicalCommit suite (Some <$> cs) = Some m /\
  m ∈ cs /\ forall c, c ∈ cs -> bytes_lt (ref_key c) (ref_key m) = false.
Proof using.
  clear. intros Hne. destruct cs as [|b cs]; [done|]. unfold CanonicalCommit.
  cbn [fmap list_fmap canonical_loop default from_option id]. apply canonical_loop_min.
Qed.
End canonical.

(** * Properties *)

(** The register's decisions survive every step of the system. *)
Lemma sys_step_decided y y' key x : sys_step y y' ->
  fr_decided (sy_reg y) !! key = Some x -> fr_decided (sy_reg y') !! key = Some x.
Proof.
  intros Hs Hx. destruct Hs as [now _|k r y' H|vni owner token ttl l store _ _]; [done| |done].
  unfold system_accept, FencedSequencer_AcceptCommit in H.
  assert (forall vni token g e c res reg', Accept (sy_reg y) vni token g e c = (res, reg') ->
    fr_decided reg' !! key = Some x) as HA.
  { intros vni token g e c res reg' E. apply Accept_decided in E as [[->|[Hn ->]] _]; [done|].
    rewrite lookup_insert_ne; [done|]. intros <-. congruence. }
  destruct (sy_nodes y !! c_who k) as [s|]; [|by injection H as _ <-].
  destruct (negb (bytes_Equal _ _)); [by injection H as _ <-|].
  destruct (negb _ || negb _).
  - destruct (Acquire _ _ _ _ _) as [[l|] st']; [|by injection H as _ <-]. cbn in H.
    destruct (Accept _ _ _ _ _ _) as [res reg1] eqn:EA. injection H as _ <-. cbn. by eapply HA.
  - destruct (Accept _ _ _ _ _ _) as [res reg1] eqn:EA. injection H as _ <-. cbn. by eapply HA.
Qed.

Lemma sys_steps_decided y y' g e x : rtc sys_step y y' ->
  FencedRegister_Decided (sy_reg y) g e = Some x -> FencedRegister_Decided (sy_reg y') g e = Some x.
Proof.
  unfold FencedRegister_Decided. intros H. induction H as [|y1 y2 y3 Hs _ IH]; [done|]. intros Hx. apply IH.
  destruct (fr_decided (sy_reg y1) !! seqKey g e) eqn:E; [|done]. by rewrite (sys_step_decided _ _ _ _ Hs E).
Qed.

(** The in-memory sequencer is a linearizable one-shot register per group
    and epoch: in every history of calls no two different commits are accepted
    for the same group and epoch, and an accepted commit is the decided one
    for good. *)
Lemma memory_sequencer_agreement s calls k k' :
  Forall (fun k => is_u64 (c_epoch k)) calls ->
  (k, Ok true) ∈ (run (accept := memory_accept) s calls).1 ->
  (k', Ok true) ∈ (run (accept := memory_accept) s calls).1 ->
  c_group k = c_group k' -> c_epoch k = c_epoch k' ->
  c_commit k = c_commit k' /\
  MemorySequencer_Decided (run (accept := memory_accept) s calls).2 (c_group k) (c_epoch k) = Some (c_commit k).
Proof.
  intros Hc H H' Eg Ee. split; [by eapply (run_agreement (accept := memory_accept))|].
  by apply (run_accepted (accept := memory_accept)).
Qed.

(** C32: the fenced sequencers of a VNI agree.  However their calls, the clock
    and lease renewals interleave, and whoever believes to hold the lease, two
    commits accepted for the same group and epoch anywhere in the run are the
    same commit. *)
Theorem fenced_sequencers_agree y0 y1 y2 y3 k k' :
  is_u64 (c_epoch k) -> is_u64 (c_epoch k') ->
  system_accept y0 k = (Ok true, y1) -> rtc sys_step y1 y2 -> system_accept y2 k' = (Ok true, y3) ->
  c_group k = c_group k' -> c_epoch k = c_epoch k' -> c_commit k = c_commit k'.
Proof.
  intros Hk Hk' H1 Hr H2 Eg Ee.
  pose proof (ord_accepted (accept := system_accept) y0 k y1 Hk H1) as D1. cbn beta in D1.
  pose proof (ord_accepted (accept := system_accept) y2 k' y3 Hk' H2) as D2. cbn beta in D2.
  pose proof (sys_steps_decided _ _ _ _ _ Hr D1) as D1'.
  assert (rtc sys_step y2 y3) as Hs by (apply rtc_once; by eapply step_accept).
  pose proof (sys_steps_decided _ _ _ _ _ Hs D1') as D1''. rewrite Eg, Ee in D1''. congruence.
Qed.

(** Two sequencers of VNI 9. *)
Definition example_system : System :=
  mkSystem (<[("a" : string) := NewFencedSequencer "a" 9 [byte_of_Z 1] 10]> {[("b" : string) := NewFencedSequencer "b" 9 [byte_of_Z 1] 10]})
    NewMemoryLeaseStore NewFencedRegister 0.

Definition call_of (who : string) : call string := mkCall who [byte_of_Z 1] 5 [byte_of_Z 7].

(** ["a"] commits, its lease runs out, and ["b"] takes over. *)
Definition example_later : System :=
  let y := (system_accept example_system (call_of "a")).2 in
  mkSystem (sy_nodes y) (sy_store y) (sy_reg y) 20.

Lemma fenced_sequencers_agree_witness :
  c_commit (call_of "a") = c_commit (call_of "b") /\
  (system_accept example_system (call_of "a")).1 = Ok true /\ (system_accept example_later (call_of "b")).1 = Ok true.
Proof.
  assert ((system_accept example_system (call_of "a")).1 = Ok true) as E1 by (vm_compute; reflexivity).
  assert ((system_accept example_later (call_of "b")).1 = Ok true) as E2 by (vm_compute; reflexivity).
  split_and!; [|exact E1|exact E2].
  refine (fenced_sequencers_agree example_system (system_accept example_system (call_of "a")).2 example_later
    (system_accept example_later (call_of "b")).2 (call_of "a") (call_of "b") _ _ _ _ _ eq_refl eq_refl).
  - unfold is_u64. cbn. lia.
  - unfold is_u64. cbn. lia.
  - rewrite <- E1. apply surjective_pairing.
  - apply rtc_once. apply step_tick. vm_compute. discriminate.
  - rewrite <- E2. apply surjective_pairing.
Defined.



(** Fencing works: once a write with some token got through for a VNI, a
    writer with a smaller token is refused ever after, and its write leaves
    the register unchanged. *)
Theorem stale_writer_fenced r vni token g e c res r1 calls token' g' e' c' :
  Accept r vni token g e c = (res, r1) -> res <> Err ErrFenced -> token' < token ->
  let r2 := (run (accept := fenced_accept) r1 calls).2 in
  Accept r2 vni token' g' e' c' = (Err ErrFenced, r2).
Proof.
  intros H Hne Hlt r2. apply (Accept_token _ _ _ _ _ _ _ _ vni) in H as [_ H]. specialize (H Hne).
  pose proof (run_token r1 calls vni) as Hm. fold r2 in Hm. unfold Accept.
  change (default 0 (fr_maxToken r2 !! vni)) with (max_token r2 vni). by rewrite (proj2 (Z.ltb_lt _ _)) by lia.
Qed.

Lemma stale_writer_fenced_witness :
  Accept (Accept NewFencedRegister 9 2 [] 5 [byte_of_Z 7]).2 9 1 [] 5 [byte_of_Z 8] =
  (Err ErrFenced, (Accept NewFencedRegister 9 2 [] 5 [byte_of_Z 7]).2).
Proof.
  apply (stale_writer_fenced NewFencedRegister 9 2 [] 5 [byte_of_Z 7] (Ok true)
    (Accept NewFencedRegister 9 2 [] 5 [byte_of_Z 7]).2 []); [vm_compute; reflexivity|discriminate|lia].
Defined.

(** Fork detection is exact: after any history of reports the registry
    calls a group and epoch divergent exactly when two different epoch
    authenticators were reported for them. *)
Lemma fork_detection_exact h g e :
  is_u64 e -> Forall (fun x => is_u64 x.1.2) h ->
  Divergent (report_all NewEpochAuthenticatorRegistry h) g e = true <->
  exists a b, a <> b /\ ((g, e), a) ∈ h /\ ((g, e), b) ∈ h.
Proof.
  intros He Hh. destruct (report_all_seen h NewEpochAuthenticatorRegistry g e He Hh) as [Hnd Hset]; [constructor|].
  unfold Divergent. fold (seen_set (report_all NewEpochAuthenticatorRegistry h) g e).
  change (seen_set NewEpochAuthenticatorRegistry g e) with (@nil bytes) in Hset.
  rewrite list_to_set_nil, (left_id_L ∅ (∪)) in Hset. rewrite Z.ltb_lt.
  assert (forall a, a ∈ seen_set (report_all NewEpochAuthenticatorRegistry h) g e <-> ((g, e), a) ∈ h) as Hin.
  { intros a. rewrite <- (elem_of_list_to_set (C := gset bytes)), Hset. unfold reported.
    rewrite (elem_of_list_to_set (C := gset bytes)), list_elem_of_omap. split.
    - intros ([ge x] & Hx & E). cbn in E. case_decide; [|done]. by simplify_eq.
    - intros Hx. exists ((g, e), a). split; [done|]. cbn. by rewrite decide_True. }
  destruct (seen_set _ g e) as [|a [|b l]].
  - split; [done|]. intros (x & _ & _ & Hx & _). by apply Hin, not_elem_of_nil in Hx.
  - split; [done|]. intros (x & y & Hne & Hx & Hy). apply Hin in Hx, Hy.
    apply list_elem_of_singleton in Hx as ->. apply list_elem_of_singleton in Hy as ->. done.
  - split; [|intros _; rewrite !len_cons; pose proof (len_nonneg l); lia]. intros _.
    exists a, b. apply NoDup_cons in Hnd as [Ha _]. split_and!; [|apply Hin; by left|apply Hin; right; by left].
    intros ->. apply Ha. by left.
Qed.

(** The recovery tie-break does not depend on the order in which a member
    learned of the branches: on permuted lists of (non-nil) candidates
    [CanonicalCommit] picks the same one, a candidate whose key is least. *)
Lemma canonical_commit_order_independent {C : StdCrypto} `{!StdCryptoLaws C} suite cs cs' :
  cs ≡ₚ cs' -> cs <> [] ->
  exists m, CanonicalCommit suite (Some <$> cs) = Some m /\ CanonicalCommit suite (Some <$> cs') = Some m /\
    m ∈ cs /\ forall c, c ∈ cs -> bytes_lt (ref_key suite c) (ref_key suite m) = false.
Proof.
  intros Hp Hne. destruct (CanonicalCommit_min suite cs Hne) as (m & Hm & Hin & Hmin).
  assert (cs' <> []) as Hne' by (intros ->; by apply Permutation_nil_r in Hp).
  destruct (CanonicalCommit_min suite cs' Hne') as (m' & Hm' & Hin' & Hmin').
  assert (m' = m) as -> by (apply (ref_key_inj suite), bytes_lt_total; [apply Hmin; by rewrite Hp|apply Hmin'; by rewrite <- Hp]).
  exists m. by split_and!.
Qed.

(** With nil candidates the tie-break does depend on the order: a nil
    reference that is the best so far is replaced by whatever follows it,
    since [best == nil] also marks the empty start. *)
Theorem canonical_commit_nil_order {C : StdCrypto} suite r :
  CanonicalCommit suite [None; Some r] = Some r /\
  (bytes_lt (ref_key suite []) (ref_key suite r) = true -> CanonicalCommit suite [Some r; None] = None).
Proof.
  unfold CanonicalCommit. cbn [canonical_loop default from_option id]. split; [done|].
  unfold ref_key. by intros ->.
Qed.
