(* ===== verification/Esp.v ===== *)
(** [ironcore]: VNI group identifiers and ESP security associations.

    [vni.go] and [sa.go].  What [DeriveSAKeys] uses of a
    [*group.Group] (its [GroupContext().CipherSuite], [Epoch], [OwnLeaf] and
    [Exporter] methods) is the record [GroupView]. *)

From Stdlib Require Import ZArith Lia Strings.Byte.
From stdpp Require Import base list numbers strings sets gmap.
From S2P Require Import Prelude Syntax Cipher ToyCrypto KeySchedule.

(** * vni.go *)

(* ironcore/vni.go:14-14 groupIDTag *)
Definition groupIDTag : bytes := bytes_of_string "ICVNI1".

(* ironcore/vni.go:17-22 GroupID *)
Definition GroupID (vni : Z) : bytes := groupIDTag ++ be_bytes 4 vni.

(* ironcore/vni.go:25-30 VNIOfGroupID *)
Definition VNIOfGroupID (gid : bytes) : outcome Z :=
  if negb (len gid =? len groupIDTag + 4) then Err "ironcore: not a VNI GroupID" else
  let! tag := slice gid 0 (len groupIDTag) in
  if negb (bytes_Equal tag groupIDTag) then Err "ironcore: not a VNI GroupID" else
  let! v := slice gid (len groupIDTag) (len gid) in
  Ok (be_uint v).

(** * sa.go *)

(* ironcore/sa.go:11-15 espExporterLabel *)
Definition espExporterLabel : string := "ironcore-esp".
(* ironcore/sa.go:11-15 saKeyLen *)
Definition saKeyLen : Z := 32.
(* ironcore/sa.go:11-15 saSaltLen *)
Definition saSaltLen : Z := 4.

(* ironcore/sa.go:40-45 saContext *)
Definition saContext (vni epoch : Z) : bytes := be_bytes 4 vni ++ be_bytes 8 epoch.

(* ironcore/sa.go:63-69 spiContext *)
Definition spiContext (vni epoch leaf : Z) : bytes := be_bytes 4 vni ++ be_bytes 8 epoch ++ be_bytes 4 leaf.

(** [(spi &^ 0xFF) | uint32(uint8(epoch))], then [|= 0x80000000]. *)
(* ironcore/sa.go:56-58 deriveSPI *)
Definition shape_spi (raw : bytes) (epoch : Z) : Z :=
  let spi := be_uint raw in
  let spi := Z.lor (Z.ldiff spi 255) (u8 epoch) in
  Z.lor spi 2147483648.

(** The loop [salt[i] = sa.saltMask[i] ^ leaf[i]]. *)
(* ironcore/sa.go:111-114 SA.SenderSalt *)
Fixpoint xor_bytes (a b : bytes) : bytes :=
  match a, b with
  | x :: a, y :: b => byte_of_Z (Z.lxor (Z_of_byte x) (Z_of_byte y)) :: xor_bytes a b
  | _, _ => []
  end.

(* ironcore/sa.go:121-126 InboundSA *)
Record InboundSA := mkInboundSA { in_Leaf : Z; in_SPI : Z; in_Key : bytes; in_Salt : bytes }.

Section esp.
Context {C : StdCrypto}.

(* ironcore/sa.go:25-35 SA *)
Record SA := mkSA {
  sa_VNI : Z;
  sa_Epoch : Z;
  sa_SPI : Z;
  sa_Key : bytes;
  sa_OwnLeaf : Z;
  sa_OwnSalt : bytes;
  sa_OwnSPI : Z;
  sa_saltMask : bytes;
  sa_suite : Suite
}.

(** The methods of [*group.Group] that [DeriveSAKeys] calls. *)
Record GroupView := mkGroupView {
  gv_CipherSuite : Z;
  gv_Epoch : Z;
  gv_OwnLeaf : Z;
  gv_Exporter : string -> bytes -> Z -> outcome bytes
}.

(* ironcore/sa.go:51-60 deriveSPI *)
Definition deriveSPI (suite : Suite) (kGroup : bytes) (vni epoch : Z) : outcome Z :=
  let! raw := owrap "ironcore: derive SPI" (ExpandWithLabel suite kGroup "esp-spi" (saContext vni epoch) 4) in
  Ok (shape_spi raw epoch).

(* ironcore/sa.go:77-86 deriveSenderSPI *)
Definition deriveSenderSPI (suite : Suite) (kGroup : bytes) (vni epoch leaf : Z) : outcome Z :=
  let! raw := owrap "ironcore: derive sender SPI"
    (ExpandWithLabel suite kGroup "esp-spi-sender" (spiContext vni epoch leaf) 4) in
  Ok (shape_spi raw epoch).

(* ironcore/sa.go:91-96 SA.SenderSPI *)
Definition SenderSPI (sa : SA) (leafIndex : Z) : outcome Z :=
  if len (sa_Key sa) =? 0 then Err "ironcore: SA key not initialized (use DeriveSAKeys)" else
  deriveSenderSPI (sa_suite sa) (sa_Key sa) (sa_VNI sa) (sa_Epoch sa) leafIndex.

(* ironcore/sa.go:105-116 SA.SenderSalt *)
Definition SenderSalt (sa : SA) (leafIndex : Z) : outcome bytes :=
  if negb (len (sa_saltMask sa) =? saSaltLen) then Err "ironcore: SA saltMask not initialized (use DeriveSAKeys)" else
  Ok (xor_bytes (sa_saltMask sa) (be_bytes 4 leafIndex)).

(** The loop over the leaves, with the SPIs seen so far. *)
(* ironcore/sa.go:135-149 SA.InboundSAs *)
Fixpoint inbound_loop (sa : SA) (leaves : list Z) (seen : gset Z) : outcome (list InboundSA) :=
  match leaves with
  | [] => Ok []
  | leaf :: leaves =>
      let! spi := SenderSPI sa leaf in
      if decide (spi ∈ seen) then Err "ironcore: SPI collision between leaves (rekey to resolve)" else
      let! salt := SenderSalt sa leaf in
      let! out := inbound_loop sa leaves ({[spi]} ∪ seen) in
      Ok (mkInboundSA leaf spi (sa_Key sa) salt :: out)
  end.

(* ironcore/sa.go:132-151 SA.InboundSAs *)
Definition InboundSAs (sa : SA) (leaves : list Z) : outcome (list InboundSA) := inbound_loop sa leaves ∅.

(** The record is filled field by field: [OwnSalt] and [OwnSPI] are methods of
    the record without them. *)
(* ironcore/sa.go:156-184 DeriveSAKeys *)
Definition DeriveSAKeys (g : GroupView) (vni : Z) : outcome SA :=
  match Lookup (gv_CipherSuite g) with
  | None => Err "ironcore: unregistered cipher suite"
  | Some suite =>
      let epoch := gv_Epoch g in
      let! kGroup := owrap "ironcore: derive K_group"
        (gv_Exporter g espExporterLabel (saContext vni epoch) saKeyLen) in
      let! spi := deriveSPI suite kGroup vni epoch in
      let! saltMask := owrap "ironcore: derive salt mask"
        (ExpandWithLabel suite kGroup "esp-salt-mask" [] saSaltLen) in
      let sa := mkSA vni epoch spi kGroup (gv_OwnLeaf g) [] 0 saltMask suite in
      let! ownSalt := SenderSalt sa (gv_OwnLeaf g) in
      let! ownSPI := SenderSPI sa (gv_OwnLeaf g) in
      Ok (mkSA vni epoch spi kGroup (gv_OwnLeaf g) ownSalt ownSPI saltMask suite)
  end.
End esp.

(** * Group identifiers *)

Lemma slice_all {A} (l : list A) : slice l 0 (len l) = Ok l.
Proof.
  unfold slice. pose proof (len_nonneg l). rewrite !(proj2 (Z.leb_le _ _)) by lia. cbn [andb].
  rewrite Z.sub_0_r. unfold len. rewrite Nat2Z.id. change (Z.to_nat 0) with 0%nat. by rewrite drop_0, take_ge by lia.
Qed.

Lemma slice_ok {A} (l : list A) lo hi x : slice l lo hi = Ok x ->
  0 <= lo <= hi /\ hi <= len l /\ x = take (Z.to_nat (hi - lo)) (drop (Z.to_nat lo) l).
Proof.
  unfold slice. destruct (Z.leb_spec 0 lo), (Z.leb_spec lo hi), (Z.leb_spec hi (len l)); try done.
  by intros [= <-].
Qed.

Lemma slice_split {A} (a b : list A) : slice (a ++ b) 0 (len a) = Ok a /\
  slice (a ++ b) (len a) (len (a ++ b)) = Ok b.
Proof.
  unfold slice. pose proof (len_nonneg a). pose proof (len_nonneg b). rewrite len_app.
  rewrite !(proj2 (Z.leb_le _ _)) by lia. cbn [andb]. unfold len. split.
  - rewrite Z.sub_0_r, Nat2Z.id. change (Z.to_nat 0) with 0%nat. by rewrite drop_0, take_app_length.
  - rewrite Nat2Z.id, drop_app_length, take_ge by lia. done.
Qed.

Lemma VNIOfGroupID_GroupID vni : is_u32 vni -> VNIOfGroupID (GroupID vni) = Ok vni.
Proof.
  intros Hv. unfold VNIOfGroupID, GroupID.
  assert (len (groupIDTag ++ be_bytes 4 vni) = len groupIDTag + 4) as Hl
    by (rewrite len_app; f_equal; unfold len; by rewrite length_be_bytes).
  rewrite (proj2 (Z.eqb_eq _ _) Hl). cbn [negb].
  destruct (slice_split groupIDTag (be_bytes 4 vni)) as [-> Hs]. cbn [obind].
  rewrite (proj2 (bytes_Equal_spec _ _)) by done. cbn [negb]. rewrite Hs. cbn [obind]. f_equal. rewrite be_uint_be_bytes. by apply Z.mod_small.
Qed.

Lemma GroupID_VNIOfGroupID gid vni : VNIOfGroupID gid = Ok vni -> is_u32 vni /\ GroupID vni = gid.
Proof.
  unfold VNIOfGroupID. destruct (Z.eqb_spec (len gid) (len groupIDTag + 4)) as [Hl|]; [|done]. cbn [negb].
  intros H. apply obind_ok in H as (tag & Ht & H). destruct (bytes_Equal tag groupIDTag) eqn:E; [|done]. cbn [negb] in H.
  apply bytes_Equal_spec in E as ->. apply obind_ok in H as (v & Hv & [= <-]).
  assert (gid = groupIDTag ++ v /\ length v = 4%nat) as [-> Hl4].
  { apply slice_ok in Ht as (_ & _ & Ht), Hv as (_ & _ & Hv). change (len groupIDTag) with 6 in Ht, Hv, Hl.
    change (Z.to_nat 0) with 0%nat in Ht. rewrite drop_0 in Ht.
    change (Z.to_nat (6 - 0)) with 6%nat in Ht. change (Z.to_nat 6) with 6%nat in Hv. unfold len in *.
    rewrite take_ge in Hv by (rewrite length_drop; lia). split; [by rewrite Ht, Hv, take_drop|].
    rewrite Hv, length_drop. lia. }
  pose proof (be_uint_range v) as Hr. unfold len in Hr. rewrite Hl4 in Hr.
  split; [done|]. unfold GroupID. f_equal. rewrite <- (be_bytes_be_uint v) at 2. by rewrite Hl4.
Qed.

(** * Nonce spaces *)

Lemma xor_bytes_inj m a b : length a = length m -> length b = length m ->
  xor_bytes m a = xor_bytes m b -> a = b.
Proof.
  revert a b. induction m as [|x m IH]; intros [|y a] [|z b]; try done. cbn. intros Ha Hb H.
  injection H as H1 H2. f_equal; [|apply IH; auto; lia].
  apply (f_equal Z_of_byte) in H1. rewrite !Z_of_byte_of_Z in H1. apply Z_of_byte_inj.
  assert (forall u v, 0 <= Z.lxor (Z_of_byte u) (Z_of_byte v) < 256) as Hr.
  { intros u v. pose proof (Z_of_byte_range u). pose proof (Z_of_byte_range v).
    assert (0 <= Z.lxor (Z_of_byte u) (Z_of_byte v)) by (apply Z.lxor_nonneg; lia). split; [done|].
    destruct (Z.eq_dec (Z.lxor (Z_of_byte u) (Z_of_byte v)) 0) as [->|]; [lia|].
    change 256 with (2 ^ 8). apply Z.log2_lt_pow2; [lia|].
    eapply Z.le_lt_trans; [apply Z.log2_lxor; lia|]. apply Z.max_lub_lt.
    - destruct (Z.eq_dec (Z_of_byte u) 0) as [->|]; [done|]. apply Z.log2_lt_pow2; lia.
    - destruct (Z.eq_dec (Z_of_byte v) 0) as [->|]; [done|]. apply Z.log2_lt_pow2; lia. }
  rewrite !Z.mod_small in H1 by apply Hr.
  apply (f_equal (Z.lxor (Z_of_byte x))) in H1. by rewrite <- !Z.lxor_assoc, Z.lxor_nilpotent, !Z.lxor_0_l in H1.
Qed.

Lemma be_bytes_inj n a b : 0 <= a < 256 ^ Z.of_nat n -> 0 <= b < 256 ^ Z.of_nat n ->
  be_bytes n a = be_bytes n b -> a = b.
Proof. intros Ha Hb H. apply (f_equal be_uint) in H. rewrite !be_uint_be_bytes in H. by rewrite !Z.mod_small in H. Qed.

(** * Security parameter indices *)

Lemma shape_spi_ok raw epoch : len raw = 4 ->
  shape_spi raw epoch mod 256 = epoch mod 256 /\ 2 ^ 31 <= shape_spi raw epoch < 2 ^ 32.
Proof.
  intros Hl. pose proof (be_uint_range raw) as Hr. rewrite Hl in Hr. change (256 ^ 4) with (2 ^ 32) in Hr.
  unfold shape_spi, u8. set (x := be_uint raw) in *.
  assert (0 <= epoch mod 2 ^ 8 < 2 ^ 8) as He by (apply Z.mod_pos_bound; lia).
  assert (forall i, 32 <= i -> Z.testbit (Z.lor (Z.lor (Z.ldiff x 255) (epoch mod 2 ^ 8)) 2147483648) i = false) as Hhi.
  { assert (forall a n i, 0 <= a < 2 ^ n -> 0 <= n <= i -> Z.testbit a i = false) as Htop.
    { intros a n i Ha Hn. rewrite Z.testbit_eqb, Z.div_small; [done| |lia].
      split; [lia|]. eapply Z.lt_le_trans; [apply Ha|]. apply Z.pow_le_mono_r; lia. }
    intros i Hi. rewrite !Z.lor_spec, Z.ldiff_spec.
    rewrite (Htop x 32), (Htop (epoch mod 2 ^ 8) 8), (Htop 2147483648 32) by lia. done. }
  split.
  - change 256 with (2 ^ 8). rewrite <- !Z.land_ones by lia. apply Z.bits_inj'. intros i Hi.
    rewrite !Z.land_spec, !Z.lor_spec, Z.ldiff_spec. destruct (Z.lt_ge_cases i 8).
    + rewrite !Z.ones_spec_low, !andb_true_r by lia. change 255 with (Z.ones 8).
      rewrite Z.ones_spec_low, andb_false_r by lia. change 2147483648 with (2 ^ 31).
      rewrite Z.pow2_bits_false, orb_false_r by lia. cbn [orb]. rewrite Z.land_spec, Z.ones_spec_low by lia. by rewrite andb_true_r.
    + by rewrite !Z.ones_spec_high, !andb_false_r by lia.
  - set (s := Z.lor _ 2147483648) in *.
    assert (Z.testbit s 31 = true) as Hb.
    { unfold s. rewrite Z.lor_spec. change 2147483648 with (2 ^ 31). by rewrite Z.pow2_bits_true, orb_true_r by lia. }
    assert (0 <= s) as Hs.
    { unfold s. rewrite !Z.lor_nonneg. split_and!; [|lia|lia]. apply Z.ldiff_nonneg. lia. }
    assert (s < 2 ^ 32).
    { destruct (Z.eq_dec s 0) as [->|]; [lia|]. apply Z.log2_lt_pow2; [lia|].
      destruct (Z.lt_ge_cases (Z.log2 s) 32) as [|Hge]; [done|].
      apply Hhi in Hge. fold s in Hge. rewrite Z.bit_log2 in Hge by lia. done. }
    split; [|done]. destruct (Z.le_gt_cases (2 ^ 31) s) as [|Hlt]; [done|].
    destruct (Z.eq_dec s 0) as [E|]; [rewrite E in Hb; by rewrite Z.bits_0 in Hb|].
    rewrite Z.bits_above_log2 in Hb; [done|lia|]. apply Z.log2_lt_pow2; lia.
Qed.

(** * Inbound associations *)

Section inbound.
Context {C : StdCrypto}.

Lemma inbound_loop_ok sa leaves seen l : inbound_loop sa leaves seen = Ok l ->
  Forall2 (fun leaf x => in_Leaf x = leaf /\ in_Key x = sa_Key sa /\ SenderSPI sa leaf = Ok (in_SPI x) /\
    SenderSalt sa leaf = Ok (in_Salt x)) leaves l /\
  NoDup (in_SPI <$> l) /\ Forall (fun x => in_SPI x ∉ seen) l.
Proof.
  revert seen l. induction leaves as [|leaf leaves IH]; intros seen l H; cbn [inbound_loop] in H.
  { injection H as <-. split_and!; constructor. }
  apply obind_ok in H as (spi & Hspi & H). case_decide as Hs; [done|].
  apply obind_ok in H as (salt & Hsalt & H). apply obind_ok in H as (out & Hout & [= <-]).
  apply IH in Hout as (HF & Hnd & Hns). cbn [fmap list_fmap in_SPI]. rewrite Forall_forall in Hns. split_and!.
  - by constructor.
  - constructor; [|done]. intros (x & E & Hx)%list_elem_of_fmap. apply (Hns x Hx). set_solver.
  - constructor; [done|]. apply Forall_forall. intros x Hx. specialize (Hns x Hx). set_solver.
Qed.

Lemma SenderSalt_inj sa a b s : is_u32 a -> is_u32 b -> SenderSalt sa a = Ok s -> SenderSalt sa b = Ok s -> a = b.
Proof.
  unfold SenderSalt. destruct (len (sa_saltMask sa) =? saSaltLen) eqn:E; [|done]. apply Z.eqb_eq in E.
  cbn [negb]. intros Ha Hb <-%Ok_inj H%Ok_inj. apply xor_bytes_inj in H.
  - symmetry in H. by apply be_bytes_inj in H.
  - rewrite length_be_bytes. unfold saSaltLen, len in E. lia.
  - rewrite length_be_bytes. unfold saSaltLen, len in E. lia.
Qed.

Lemma SenderSPI_shape `{!StdCryptoLaws C} sa leaf spi : SenderSPI sa leaf = Ok spi ->
  spi mod 256 = sa_Epoch sa mod 256 /\ 2 ^ 31 <= spi < 2 ^ 32.
Proof.
  unfold SenderSPI, deriveSenderSPI. destruct (_ =? 0); [done|]. intros H. apply obind_ok in H as (raw & Hr & [= <-]).
  apply owrap_ok in Hr. destruct (ExpandWithLabel_len _ _ _ _ _ _ Hr) as [_ Hl]. by apply shape_spi_ok.
Qed.

Lemma DeriveSAKeys_ok g vni sa : DeriveSAKeys g vni = Ok sa ->
  sa_VNI sa = vni /\ sa_Epoch sa = gv_Epoch g /\ sa_OwnLeaf sa = gv_OwnLeaf g /\
  Lookup (gv_CipherSuite g) = Some (sa_suite sa) /\
  gv_Exporter g espExporterLabel (saContext vni (gv_Epoch g)) saKeyLen = Ok (sa_Key sa) /\
  ExpandWithLabel (sa_suite sa) (sa_Key sa) "esp-salt-mask" [] saSaltLen = Ok (sa_saltMask sa) /\
  SenderSalt sa (gv_OwnLeaf g) = Ok (sa_OwnSalt sa) /\ SenderSPI sa (gv_OwnLeaf g) = Ok (sa_OwnSPI sa).
Proof.
  unfold DeriveSAKeys. destruct (Lookup (gv_CipherSuite g)) as [suite|]; [|done]. intros H.
  apply obind_ok in H as (k & Hk & H). apply obind_ok in H as (spi & _ & H). apply obind_ok in H as (mask & Hm & H).
  apply obind_ok in H as (salt & Hsalt & H). apply obind_ok in H as (own & Hspi & [= <-]).
  apply owrap_ok in Hk, Hm. done.
Qed.
End inbound.

(** * Properties *)

(** VNIs and their group identifiers are in bijection: [VNIOfGroupID]
    accepts exactly the identifiers that [GroupID] makes and returns the
    VNI. *)
Theorem group_id_bijection gid vni :
  VNIOfGroupID gid = Ok vni <-> is_u32 vni /\ GroupID vni = gid.
Proof.
  split; [apply GroupID_VNIOfGroupID|]. intros [H <-]. by apply VNIOfGroupID_GroupID.
Qed.

(** C38: the inbound associations never confuse two senders: [InboundSAs] lists
    one association per leaf, in order; all have different SPIs and different
    salts, so that no two senders share an anti-replay window or a nonce
    space; every SPI is outside the reserved range and ends in the epoch's low
    byte. *)
Theorem inbound_sas_distinct {C : StdCrypto} `{!StdCryptoLaws C} sa leaves l :
  Forall is_u32 leaves -> InboundSAs sa leaves = Ok l ->
  in_Leaf <$> l = leaves /\ NoDup (in_SPI <$> l) /\ NoDup (in_Salt <$> l) /\
  Forall (fun x => in_Key x = sa_Key sa /\ in_SPI x mod 256 = sa_Epoch sa mod 256 /\ 2 ^ 31 <= in_SPI x < 2 ^ 32) l.
Proof.
  intros Hu H. unfold InboundSAs in H. apply inbound_loop_ok in H as (HF & Hnd & _). split_and!; [|done|..].
  - clear Hnd Hu. induction HF as [|leaf x leaves l [<- _] _ IH]; [done|]. cbn. by rewrite IH.
  - revert Hu Hnd. induction HF as [|leaf x leaves l (Hl & _ & Hspi & Hsalt) HF IH]; intros Hu Hnd; [constructor|].
    apply Forall_cons in Hu as [Hx Hu]. apply NoDup_cons in Hnd as [Hni Hnd].
    cbn [fmap list_fmap]. constructor; [|by apply IH]. intros (y & E & Hy)%list_elem_of_fmap.
    apply list_elem_of_lookup in Hy as [i Hy]. pose proof HF as HF'. rewrite Forall2_lookup in HF'. specialize (HF' i).
    rewrite Hy in HF'. inversion HF' as [leaf' y' (Hl' & _ & Hspi' & Hsalt') E1 E2|]; subst.
    apply Hni. rewrite E in Hsalt. rewrite Forall_forall in Hu.
    assert (is_u32 (in_Leaf y)) as Hyu by (apply Hu, list_elem_of_lookup; eauto).
    rewrite (SenderSalt_inj sa (in_Leaf x) (in_Leaf y) (in_Salt y)) in Hspi by done.
    assert (in_SPI x = in_SPI y) as -> by congruence. apply list_elem_of_fmap. exists y. split; [done|].
    apply list_elem_of_lookup. eauto.
  - clear Hnd Hu. induction HF as [|leaf x leaves l (_ & Hk & Hspi & _) _ IH]; constructor; [|done].
    split; [done|by apply (SenderSPI_shape sa leaf)].
Qed.

(** A member of a group at epoch 300 over the toy cryptography. *)
Definition example_view (leaf : Z) : GroupView :=
  mkGroupView X25519_AES128GCM_SHA256_Ed25519 300 leaf (MLSExporter toy_suite (toy_priv 60)).

Lemma inbound_sas_distinct_witness :
  match (let! sa := DeriveSAKeys (C := toy) (example_view 1) 77 in InboundSAs sa [0; 2; 5]) with
  | Ok l => in_Leaf <$> l = [0; 2; 5] /\ NoDup (in_SPI <$> l) /\ NoDup (in_Salt <$> l)
  | _ => False
  end.
Proof.
  destruct (is_ok_inv (DeriveSAKeys (C := toy) (example_view 1) 77)) as [sa Hsa]; [vm_compute; reflexivity|].
  destruct (is_ok_inv (let! sa := DeriveSAKeys (C := toy) (example_view 1) 77 in InboundSAs sa [0; 2; 5])) as [l E];
    [vm_compute; reflexivity|].
  rewrite E. rewrite Hsa in E. cbn [obind] in E.
  destruct (@inbound_sas_distinct toy toy_laws sa [0; 2; 5] l) as (H1 & H2 & H3 & _);
    [repeat constructor; unfold is_u32; lia|exact E|]. split_and!; [exact H1|exact H2|exact H3].
Defined.

(** The receiver derives the SPI that the sender uses. *)
Lemma sender_spi_agrees {C : StdCrypto} g g' vni sa sa' :
  gv_CipherSuite g' = gv_CipherSuite g -> gv_Epoch g' = gv_Epoch g ->
  (forall label ctx n, gv_Exporter g' label ctx n = gv_Exporter g label ctx n) ->
  DeriveSAKeys g vni = Ok sa -> DeriveSAKeys g' vni = Ok sa' -> SenderSPI sa' (gv_OwnLeaf g) = Ok (sa_OwnSPI sa).
Proof.
  intros Es Ee Ex H H'.
  apply DeriveSAKeys_ok in H as (Hv & Hep & _ & Hs & Hk & _ & _ & Hspi).
  apply DeriveSAKeys_ok in H' as (Hv' & Hep' & _ & Hs' & Hk' & _).
  rewrite Es, Hs in Hs'. injection Hs' as Es'. rewrite Ee, Ex, Hk in Hk'. apply Ok_inj in Hk'.
  unfold SenderSPI in *. rewrite <- Es', <- Hk'.
  replace (sa_VNI sa') with (sa_VNI sa) by congruence. by replace (sa_Epoch sa') with (sa_Epoch sa) by congruence.
Qed.

(** Sender and receiver of ESP traffic agree: when two members of a group
    in the same epoch derive their associations, the receiver's inbound
    association for the sender's leaf has the key, SPI and salt that the
    sender uses. *)
Lemma esp_peers_agree {C : StdCrypto} g g' vni sa sa' leaves l :
  gv_CipherSuite g' = gv_CipherSuite g -> gv_Epoch g' = gv_Epoch g ->
  (forall label ctx n, gv_Exporter g' label ctx n = gv_Exporter g label ctx n) ->
  DeriveSAKeys g vni = Ok sa -> DeriveSAKeys g' vni = Ok sa' ->
  InboundSAs sa' leaves = Ok l -> gv_OwnLeaf g ∈ leaves ->
  mkInboundSA (gv_OwnLeaf g) (sa_OwnSPI sa) (sa_Key sa) (sa_OwnSalt sa) ∈ l.
Proof.
  intros Es Ee Ex H H' Hl Hin.
  apply DeriveSAKeys_ok in H as (Hv & Hep & _ & Hs & Hk & Hm & Hsalt & Hspi).
  apply DeriveSAKeys_ok in H' as (Hv' & Hep' & _ & Hs' & Hk' & Hm' & _ & _).
  rewrite Es, Hs in Hs'. injection Hs' as Es'. rewrite Ee, Ex, Hk in Hk'. apply Ok_inj in Hk'.
  rewrite <- Es', <- Hk', Hm in Hm'. apply Ok_inj in Hm'.
  apply inbound_loop_ok in Hl as (HF & _). apply list_elem_of_lookup in Hin as [i Hi].
  rewrite Forall2_lookup in HF. specialize (HF i). rewrite Hi in HF.
  inversion HF as [leaf x (HL & HK & HS & HA) E1 E2|]; subst. apply list_elem_of_lookup. exists i. rewrite <- E2. f_equal.
  unfold SenderSPI, SenderSalt in *. rewrite <- Es', <- Hk', <- Hm' in *.
  replace (sa_VNI sa') with (sa_VNI sa) in HS by congruence. replace (sa_Epoch sa') with (sa_Epoch sa) in HS by congruence.
  destruct x as [xl xs xk xa]. cbn in *. f_equal; congruence.
Qed.
