(* ===== verification/Credential.v ===== *)
(** [ironcore]: X.509 credential validation.

    [credential.go].  The packages [crypto/x509] and [net/url] are the class
    [X509]: certificates, what the code reads of them, parsing, pools and
    chain verification, which reads the clock.  The theorems say exactly which
    credentials the two validators accept, and that they fit the controller's
    interface. *)

From Stdlib Require Import ZArith Lia Strings.Byte.
From stdpp Require Import base list numbers strings sets gmap.
From S2P Require Import Prelude Syntax TreeNodes.

(** What [bindSignatureKey] distinguishes of [leaf.PublicKey]; for an ECDSA key,
    the result of [ECDH()] and [Bytes()], or its error. *)
Inductive CertKey : Type :=
| KeyEd25519 (pk : bytes)
| KeyECDSA (ecdh : outcome bytes)
| KeyOther.

(** The fields of a [url.URL] that are read, and its [String()]. *)
Record URL := mkURL { u_Scheme : string; u_Host : string; u_String : string }.

Class X509 := {
  X509Cert : Type;
  CertPool : Type;
  ParseCertificate : bytes -> outcome X509Cert;
  NewCertPool : CertPool;
  AddCert : CertPool -> X509Cert -> CertPool;
  (** [leaf.Verify] with roots, intermediates and any extended key usage, at a time. *)
  cert_Verify : X509Cert -> CertPool -> CertPool -> Z -> outcome unit;
  cert_PublicKey : X509Cert -> CertKey;
  cert_Subject : X509Cert -> string;
  cert_URIs : X509Cert -> list URL
}.

Section credential.
Context {P : X509}.

(* ironcore/credential.go:16-16 Authorizer *)
Definition Authorizer : Type := bytes -> Z -> bool.

(** The intermediates, in order. *)
(* ironcore/credential.go:29-35 parseChain *)
Fixpoint parse_intermediates (certs : list Certificate) (pool : CertPool) : outcome CertPool :=
  match certs with
  | [] => Ok pool
  | c :: certs =>
      let! ic := owrap "ironcore: parse intermediate" (ParseCertificate (CertData c)) in
      parse_intermediates certs (AddCert pool ic)
  end.

(* ironcore/credential.go:20-37 parseChain *)
Definition parseChain (cred : Credential) : outcome (X509Cert * CertPool) :=
  if negb (CredentialType cred =? CredentialTypeX509) then Err "ironcore: credential is not a non-empty x509 credential" else
  match Certificates cred with
  | [] => Err "ironcore: credential is not a non-empty x509 credential"
  | first :: rest =>
      let! leaf := owrap "ironcore: parse leaf cert" (ParseCertificate (CertData first)) in
      let! intermediates := parse_intermediates rest NewCertPool in
      Ok (leaf, intermediates)
  end.

(* ironcore/credential.go:42-61 bindSignatureKey *)
Definition bindSignatureKey (leaf : X509Cert) (sigPub : bytes) : outcome unit :=
  match cert_PublicKey leaf with
  | KeyEd25519 pk => if bytes_Equal pk sigPub then Ok tt else Err "ironcore: cert public key does not match MLS signature key"
  | KeyECDSA (Ok pk) => if bytes_Equal pk sigPub then Ok tt else Err "ironcore: cert public key does not match MLS signature key"
  | KeyECDSA _ => Err "ironcore: cert public key does not match MLS signature key"
  | KeyOther => Err "ironcore: unsupported certificate public key type"
  end.

(* ironcore/credential.go:66-68 PKIValidator *)
Record PKIValidator := mkPKIValidator { pki_Roots : option CertPool }.

(* ironcore/credential.go:74-93 PKIValidator.Validate *)
Definition PKIValidator_Validate (v : PKIValidator) (now : Z) (cred : Credential) (sigPub : bytes) : outcome bytes :=
  match pki_Roots v with
  | None => Err "ironcore: PKIValidator requires a non-nil Roots trust bundle"
  | Some roots =>
      let! (leaf, intermediates) := parseChain cred in
      let! _ := owrap "ironcore: PKI chain verification failed" (cert_Verify leaf roots intermediates now) in
      let! _ := bindSignatureKey leaf sigPub in
      Ok (bytes_of_string (cert_Subject leaf))
  end.

(** The loop over [leaf.URIs]. *)
(* ironcore/credential.go:139-148 spiffeID *)
Fixpoint spiffe_loop (uris : list URL) (found : option URL) : outcome (option URL) :=
  match uris with
  | [] => Ok found
  | u :: uris =>
      if negb (String.eqb (u_Scheme u) "spiffe") then spiffe_loop uris found else
      match found with
      | Some _ => Err "ironcore: multiple SPIFFE URI SANs in SVID"
      | None => spiffe_loop uris (Some u)
      end
  end.

(* ironcore/credential.go:138-156 spiffeID *)
Definition spiffeID (leaf : X509Cert) : outcome URL :=
  let! found := spiffe_loop (cert_URIs leaf) None in
  match found with
  | None => Err "ironcore: no SPIFFE URI SAN in SVID"
  | Some u => if String.eqb (u_Host u) "" then Err "ironcore: SPIFFE ID has empty trust domain" else Ok u
  end.

(* ironcore/credential.go:98-101 SPIFFEValidator *)
Record SPIFFEValidator := mkSPIFFEValidator { sv_TrustDomain : string; sv_Roots : option CertPool }.

(* ironcore/credential.go:107-133 SPIFFEValidator.Validate *)
Definition SPIFFEValidator_Validate (v : SPIFFEValidator) (now : Z) (cred : Credential) (sigPub : bytes) : outcome bytes :=
  match sv_Roots v with
  | None => Err "ironcore: SPIFFEValidator requires a non-nil Roots trust bundle"
  | Some roots =>
      let! (leaf, intermediates) := parseChain cred in
      let! _ := owrap "ironcore: SVID chain verification failed" (cert_Verify leaf roots intermediates now) in
      let! _ := bindSignatureKey leaf sigPub in
      let! id := spiffeID leaf in
      if negb (String.eqb (sv_TrustDomain v) "") && negb (String.eqb (u_Host id) (sv_TrustDomain v))
      then Err "ironcore: SPIFFE trust domain != expected" else
      Ok (bytes_of_string (u_String id))
  end.
End credential.

(** * Which credentials are accepted *)

Section accepted.
Context {P : X509}.

(** A chain that leads from its leaf to the trust bundle, for the key. *)
Record trusted_chain (roots : CertPool) (now : Z) (cred : Credential) (sigPub : bytes) (leaf : X509Cert) : Prop := {
  tc_type : CredentialType cred = CredentialTypeX509;
  tc_chain : exists first rest ics, Certificates cred = first :: rest /\ ParseCertificate (CertData first) = Ok leaf /\
    Forall2 (fun c ic => ParseCertificate (CertData c) = Ok ic) rest ics /\ cert_Verify leaf roots (foldl AddCert NewCertPool ics) now = Ok tt;
  tc_key : cert_PublicKey leaf = KeyEd25519 sigPub \/ cert_PublicKey leaf = KeyECDSA (Ok sigPub)
}.

Lemma parse_intermediates_spec certs pool pool' : parse_intermediates certs pool = Ok pool' <->
  exists ics, Forall2 (fun c ic => ParseCertificate (CertData c) = Ok ic) certs ics /\ pool' = foldl AddCert pool ics.
Proof.
  revert pool. induction certs as [|c certs IH]; intros pool; cbn [parse_intermediates].
  - split; [intros [= <-]; exists []; split; [constructor|done]|]. intros (ics & HF & ->). by apply Forall2_nil_inv_l in HF as ->.
  - split.
    + intros Hx. apply obind_ok in Hx as (ic & Hc%owrap_ok & Hx). apply IH in Hx as (ics & HF & ->). exists (ic :: ics). by split; [constructor|].
    + intros (ics & HF & ->). apply Forall2_cons_inv_l in HF as (ic & ics' & Hc & HF & ->). rewrite Hc. cbn [owrap obind foldl].
      apply IH. by exists ics'.
Qed.

Lemma bindSignatureKey_spec leaf sigPub : bindSignatureKey leaf sigPub = Ok tt <->
  cert_PublicKey leaf = KeyEd25519 sigPub \/ cert_PublicKey leaf = KeyECDSA (Ok sigPub).
Proof.
  unfold bindSignatureKey. destruct (cert_PublicKey leaf) as [pk|[pk| | |]|]; try (split; [done|naive_solver]);
    destruct (bytes_Equal pk sigPub) eqn:E;
    try (apply bytes_Equal_spec in E as ->; naive_solver);
    (split; [done|]); intros [[= ->]|[= ->]]; rewrite (proj2 (bytes_Equal_spec _ _) eq_refl) in E; done.
Qed.

(** The common part of the two validators. *)
Lemma trusted_chain_spec {B} roots now cred sigPub e (k : X509Cert -> outcome B) b :
  (let! (leaf, intermediates) := parseChain cred in
   let! _ := owrap e (cert_Verify leaf roots intermediates now) in
   let! _ := bindSignatureKey leaf sigPub in k leaf) = Ok b <->
  exists leaf, trusted_chain roots now cred sigPub leaf /\ k leaf = Ok b.
Proof.
  split.
  - intros Hx. apply obind_ok in Hx as ([leaf ics] & Hp & Hx). apply obind_ok in Hx as ([] & Hv%owrap_ok & Hx).
    apply obind_ok in Hx as ([] & Hb%bindSignatureKey_spec & Hx). exists leaf. split; [|done]. unfold parseChain in Hp.
    destruct (Z.eqb_spec (CredentialType cred) CredentialTypeX509) as [Ht|]; [cbn [negb] in Hp|done].
    destruct (Certificates cred) as [|first rest] eqn:Ec; [done|]. apply obind_ok in Hp as (leaf' & Hl%owrap_ok & Hp).
    apply obind_ok in Hp as (pool & Hi & [= <- <-]). apply parse_intermediates_spec in Hi as (certs & HF & ->).
    split; [done| |done]. by exists first, rest, certs.
  - intros (leaf & [Ht (first & rest & ics & Ec & Hl & HF & Hv) Hk] & Hx). unfold parseChain. rewrite Ht, Ec, Z.eqb_refl. cbn [negb].
    rewrite Hl. cbn [owrap obind]. assert (parse_intermediates rest NewCertPool = Ok (foldl AddCert NewCertPool ics)) as ->
      by (apply parse_intermediates_spec; by exists ics).
    cbn [obind]. rewrite Hv. cbn [owrap obind]. apply bindSignatureKey_spec in Hk as ->. exact Hx.
Qed.

(** The one SPIFFE ID of a certificate. *)
Definition only_spiffe (leaf : X509Cert) (u : URL) : Prop :=
  filter (fun u => u_Scheme u = "spiffe") (cert_URIs leaf) = [u] /\ u_Host u <> "".

Lemma spiffe_loop_spec uris found r : spiffe_loop uris found = Ok r <->
  match found, filter (fun u => u_Scheme u = "spiffe"%string) uris with
  | _, [] => r = found
  | None, [u] => r = Some u
  | _, _ => False
  end.
Proof.
  revert found. induction uris as [|u uris IH]; intros found; cbn [spiffe_loop].
  - destruct found; (split; [by intros [= <-]|by intros ->]).
  - rewrite filter_cons. destruct (String.eqb_spec (u_Scheme u) "spiffe") as [E|E]; cbn [negb].
    + rewrite decide_True by done. destruct found as [x|]; [done|]. rewrite IH. by destruct (filter _ uris).
    + rewrite decide_False by done. apply IH.
Qed.

Lemma spiffeID_spec leaf u : spiffeID leaf = Ok u <-> only_spiffe leaf u.
Proof.
  unfold spiffeID, only_spiffe. split.
  - intros Hx. apply obind_ok in Hx as (found & Hl%spiffe_loop_spec & Hx). destruct (filter _ _) as [|x [|y f]]; [by subst|subst|done].
    destruct (String.eqb_spec (u_Host x) ""); [done|]. by injection Hx as <-.
  - intros [Hf Hh]. assert (spiffe_loop (cert_URIs leaf) None = Ok (Some u)) as -> by (apply spiffe_loop_spec; by rewrite Hf).
    cbn [obind]. by destruct (String.eqb_spec (u_Host u) "").
Qed.
End accepted.

(** * Properties *)

(** C31: the validators accept exactly the credentials they describe.
    [PKIValidator] accepts a credential for a signature key exactly when it is
    an X.509 chain whose certificates all parse, whose leaf leads to the trust
    bundle and certifies that very key, and returns the subject;
    [SPIFFEValidator] accepts it when moreover exactly one URI of the leaf is
    a SPIFFE ID, with a trust domain, the expected one if one is set, and
    returns that ID.  Without a trust bundle neither accepts anything. *)
Theorem validators_exact {P : X509} roots td now cred sigPub id :
  (PKIValidator_Validate (mkPKIValidator roots) now cred sigPub = Ok id <->
     exists r leaf, roots = Some r /\ trusted_chain r now cred sigPub leaf /\ id = bytes_of_string (cert_Subject leaf)) /\
  (SPIFFEValidator_Validate (mkSPIFFEValidator td roots) now cred sigPub = Ok id <->
     exists r leaf u, roots = Some r /\ trusted_chain r now cred sigPub leaf /\ only_spiffe leaf u /\
       (td = "" \/ u_Host u = td) /\ id = bytes_of_string (u_String u)).
Proof.
  split; unfold PKIValidator_Validate, SPIFFEValidator_Validate; cbn [pki_Roots sv_Roots sv_TrustDomain];
    (destruct roots as [r|]; [|split; [done|naive_solver]]); rewrite (trusted_chain_spec r now cred sigPub).
  - split; [intros (leaf & Hc & [= <-]); by exists r, leaf|]. intros (r' & leaf & [= <-] & Hc & ->). by exists leaf.
  - split.
    + intros (leaf & Hc & Hx). apply obind_ok in Hx as (u & Hu%spiffeID_spec & Hx). exists r, leaf, u.
      destruct (String.eqb_spec td "") as [->|]; cbn [negb andb] in Hx; [injection Hx as <-; split_and!; try done; by left|].
      destruct (String.eqb_spec (u_Host u) td); [|done]. injection Hx as <-. split_and!; try done. by right.
    + intros (r' & leaf & u & [= <-] & Hc & Hu & Ht & ->). exists leaf. split; [done|]. apply spiffeID_spec in Hu as ->. cbn [obind].
      destruct Ht as [-> | ->]; [done|]. rewrite String.eqb_refl. by rewrite andb_false_r.
Qed.
