(* ===== verification/Framing.v ===== *)
(** [mls/framing]: message framing and protection.

    [framing.go] (framed content, its authentication and the skimmers that
    delimit inline proposals and commits), [public.go], [private.go],
    [message.go] and [generate.go]. *)

From Stdlib Require Import ZArith Lia Strings.Byte.
From stdpp Require Import base list numbers strings gmap.
From S2P Require Import Prelude Syntax TreeNodes Cipher ToyCrypto KeySchedule.

(** * framing.go *)

(* mls/framing/framing.go:19-26 WireFormatPublicMessage *)
Definition WireFormatPublicMessage : Z := 1.
(* mls/framing/framing.go:19-26 WireFormatPrivateMessage *)
Definition WireFormatPrivateMessage : Z := 2.

(* mls/framing/framing.go:31-36 ContentTypeApplication *)
Definition ContentTypeApplication : Z := 1.
(* mls/framing/framing.go:31-36 ContentTypeProposal *)
Definition ContentTypeProposal : Z := 2.
(* mls/framing/framing.go:31-36 ContentTypeCommit *)
Definition ContentTypeCommit : Z := 3.

(* mls/framing/framing.go:41-47 SenderTypeMember *)
Definition SenderTypeMember : Z := 1.
(* mls/framing/framing.go:41-47 SenderTypeExternal *)
Definition SenderTypeExternal : Z := 2.
(* mls/framing/framing.go:41-47 SenderTypeNewMemberProposal *)
Definition SenderTypeNewMemberProposal : Z := 3.
(* mls/framing/framing.go:41-47 SenderTypeNewMemberCommit *)
Definition SenderTypeNewMemberCommit : Z := 4.

(* mls/framing/framing.go:61-65 Sender *)
Record Sender := mkSender { snd_Type : Z; snd_LeafIndex : Z; snd_Index : Z }.

(* mls/framing/framing.go:67-80 Sender.marshal *)
Definition Sender_marshal (s : Sender) (b : Builder) : outcome Builder :=
  let! b := WriteUint8 (snd_Type s) b in
  if snd_Type s =? SenderTypeMember then WriteUint32 (snd_LeafIndex s) b
  else if snd_Type s =? SenderTypeExternal then WriteUint32 (snd_Index s) b
  else if (snd_Type s =? SenderTypeNewMemberProposal) || (snd_Type s =? SenderTypeNewMemberCommit) then Ok b
  else Err "framing: invalid sender type".

(* mls/framing/framing.go:82-104 decodeSender *)
Definition decodeSender (c : Cursor) : outcome (Sender * Cursor) :=
  let! (t, c) := ReadUint8 c in
  if t =? SenderTypeMember then
    let! (i, c) := ReadUint32 c in Ok (mkSender t i 0, c)
  else if t =? SenderTypeExternal then
    let! (i, c) := ReadUint32 c in Ok (mkSender t 0 i, c)
  else if (t =? SenderTypeNewMemberProposal) || (t =? SenderTypeNewMemberCommit) then
    Ok (mkSender t 0 0, c)
  else Err "framing: invalid sender type".

(** The skimmers advance a cursor. *)

(* mls/framing/framing.go:288-313 skimPreSharedKeyID *)
Definition skimPreSharedKeyID (c : Cursor) : outcome Cursor :=
  let! (t, c) := ReadUint8 c in
  if t =? 1 then
    let! (_, c) := ReadOpaqueV c in
    let! (_, c) := ReadOpaqueV c in Ok c
  else if t =? 2 then
    let! (_, c) := ReadUint8 c in
    let! (_, c) := ReadOpaqueV c in
    let! (_, c) := ReadUint64 c in
    let! (_, c) := ReadOpaqueV c in Ok c
  else Err "framing: unknown PSKType".

(* mls/framing/framing.go:267-285 skimKeyPackage *)
Definition skimKeyPackage (c : Cursor) : outcome Cursor :=
  let! (_, c) := ReadUint16 c in
  let! (_, c) := ReadUint16 c in
  let! (_, c) := ReadOpaqueV c in
  let! (_, c) := decodeLeafNode c in
  let! (_, c) := ReadVectorV decodeExtension c in
  let! (_, c) := ReadOpaqueV c in Ok c.

(* mls/framing/framing.go:226-263 skimProposal *)
Definition skimProposal (c : Cursor) : outcome Cursor :=
  let! (pt, c) := ReadUint16 c in
  if pt =? 1 then skimKeyPackage c
  else if pt =? 2 then let! (_, c) := decodeLeafNode c in Ok c
  else if pt =? 3 then let! (_, c) := ReadUint32 c in Ok c
  else if pt =? 4 then skimPreSharedKeyID c
  else if pt =? 5 then
    let! (_, c) := ReadOpaqueV c in
    let! (_, c) := ReadUint16 c in
    let! (_, c) := ReadUint16 c in
    let! (_, c) := ReadOpaqueV c in Ok c
  else if pt =? 6 then let! (_, c) := ReadOpaqueV c in Ok c
  else if pt =? 7 then let! (_, c) := ReadOpaqueV c in Ok c
  else Err "framing: unknown proposal type".

(* mls/framing/framing.go:204-221 skimCommit *)
Definition skimCommit (c : Cursor) : outcome Cursor :=
  let! (_, c) := ReadOpaqueV c in
  let! (present, c) := ReadUint8 c in
  if present =? 0 then Ok c
  else if present =? 1 then let! (_, c) := decodeUpdatePath c in Ok c
  else Err "framing: invalid optional<UpdatePath> presence".

(* mls/framing/framing.go:193-200 skim *)
Definition skim (f : Cursor -> outcome Cursor) (c : Cursor) : outcome (bytes * Cursor) :=
  let rest := Rest c in
  let before := len rest in
  let! c := f c in
  let! content := slice rest 0 (before - Remaining c) in
  Ok (content, c).

(* mls/framing/framing.go:163-173 marshalContent *)
Definition marshalContent (ct : Z) (content : bytes) (b : Builder) : outcome Builder :=
  if ct =? ContentTypeApplication then WriteOpaqueV content b
  else if (ct =? ContentTypeProposal) || (ct =? ContentTypeCommit) then WriteRaw content b
  else Err "framing: invalid content type".

(* mls/framing/framing.go:178-189 decodeContent *)
Definition decodeContent (ct : Z) (c : Cursor) : outcome (bytes * Cursor) :=
  if ct =? ContentTypeApplication then ReadOpaqueV c
  else if ct =? ContentTypeProposal then skim skimProposal c
  else if ct =? ContentTypeCommit then skim skimCommit c
  else Err "framing: invalid content type".

(* mls/framing/framing.go:111-118 FramedContent *)
Record FramedContent := mkFramedContent {
  fc_GroupID : bytes;
  fc_Epoch : Z;
  fc_Sender : Sender;
  fc_AuthenticatedData : bytes;
  fc_ContentType : Z;
  fc_Content : bytes
}.

(* mls/framing/framing.go:120-133 FramedContent.marshal *)
Definition FramedContent_marshal (fc : FramedContent) (b : Builder) : outcome Builder :=
  let! b := WriteOpaqueV (fc_GroupID fc) b in
  let! b := WriteUint64 (fc_Epoch fc) b in
  let! b := Sender_marshal (fc_Sender fc) b in
  let! b := WriteOpaqueV (fc_AuthenticatedData fc) b in
  let! b := WriteUint8 (fc_ContentType fc) b in
  marshalContent (fc_ContentType fc) (fc_Content fc) b.

(* mls/framing/framing.go:135-159 decodeFramedContent *)
Definition decodeFramedContent (c : Cursor) : outcome (FramedContent * Cursor) :=
  let! (gid, c) := ReadOpaqueV c in
  let! (ep, c) := ReadUint64 c in
  let! (snd, c) := decodeSender c in
  let! (ad, c) := ReadOpaqueV c in
  let! (ct, c) := ReadUint8 c in
  let! (content, c) := decodeContent ct c in
  Ok (mkFramedContent gid ep snd ad ct content, c).

(* mls/framing/framing.go:317-320 FramedContentAuthData *)
Record FramedContentAuthData := mkAuthData { ad_Signature : bytes; ad_ConfirmationTag : bytes }.

(* mls/framing/framing.go:322-332 FramedContentAuthData.marshal *)
Definition AuthData_marshal (ct : Z) (a : FramedContentAuthData) (b : Builder) : outcome Builder :=
  let! b := WriteOpaqueV (ad_Signature a) b in
  if ct =? ContentTypeCommit then WriteOpaqueV (ad_ConfirmationTag a) b else Ok b.

(* mls/framing/framing.go:334-346 decodeFramedContentAuthData *)
Definition decodeFramedContentAuthData (ct : Z) (c : Cursor) : outcome (FramedContentAuthData * Cursor) :=
  let! (sig, c) := ReadOpaqueV c in
  if ct =? ContentTypeCommit then
    let! (tag, c) := ReadOpaqueV c in Ok (mkAuthData sig tag, c)
  else Ok (mkAuthData sig [], c).

(* mls/framing/framing.go:350-354 AuthenticatedContent *)
Record AuthenticatedContent := mkAuthenticatedContent {
  ac_WireFormat : Z;
  ac_Content : FramedContent;
  ac_Auth : FramedContentAuthData
}.

(* mls/framing/framing.go:359-369 AuthenticatedContent.MarshalMLS *)
Definition AuthenticatedContent_MarshalMLS (ac : AuthenticatedContent) : outcome bytes :=
  let! b := WriteUint16 (ac_WireFormat ac) NewBuilder in
  let! b := FramedContent_marshal (ac_Content ac) b in
  let! b := AuthData_marshal (fc_ContentType (ac_Content ac)) (ac_Auth ac) b in
  Ok (Bytes b).

(** A [*keyschedule.GroupContext] may be [nil]. *)
(* mls/framing/framing.go:373-392 framedContentTBS *)
Definition framedContentTBS (wf : Z) (fc : FramedContent) (gc : option GroupContext) : outcome bytes :=
  let! b := WriteUint16 ProtocolVersionMLS10 NewBuilder in
  let! b := WriteUint16 wf b in
  let! b := FramedContent_marshal fc b in
  if (snd_Type (fc_Sender fc) =? SenderTypeMember) || (snd_Type (fc_Sender fc) =? SenderTypeNewMemberCommit) then
    match gc with
    | None => Err "framing: sender requires a GroupContext for the signature"
    | Some gc =>
        let! gcb := GroupContext_MarshalMLS gc in
        let! b := WriteRaw gcb b in
        Ok (Bytes b)
    end
  else Ok (Bytes b).

(** * public.go *)

(* mls/framing/public.go:15-19 PublicMessage *)
Record PublicMessage := mkPublicMessage {
  pm_Content : FramedContent;
  pm_Auth : FramedContentAuthData;
  pm_MembershipTag : bytes
}.

(* mls/framing/public.go:21-34 PublicMessage.marshal *)
Definition PublicMessage_marshal (m : PublicMessage) (b : Builder) : outcome Builder :=
  let! b := FramedContent_marshal (pm_Content m) b in
  let! b := AuthData_marshal (fc_ContentType (pm_Content m)) (pm_Auth m) b in
  if snd_Type (fc_Sender (pm_Content m)) =? SenderTypeMember then WriteOpaqueV (pm_MembershipTag m) b
  else Ok b.

(* mls/framing/public.go:36-51 decodePublicMessage *)
Definition decodePublicMessage (c : Cursor) : outcome (PublicMessage * Cursor) :=
  let! (content, c) := decodeFramedContent c in
  let! (auth, c) := decodeFramedContentAuthData (fc_ContentType content) c in
  if snd_Type (fc_Sender content) =? SenderTypeMember then
    let! (tag, c) := ReadOpaqueV c in Ok (mkPublicMessage content auth tag, c)
  else Ok (mkPublicMessage content auth [], c).

(* mls/framing/public.go:55-66 authenticatedContentTBM *)
Definition authenticatedContentTBM (wf : Z) (fc : FramedContent) (auth : FramedContentAuthData)
  (gc : option GroupContext) : outcome bytes :=
  let! tbs := framedContentTBS wf fc gc in
  let! b := WriteRaw tbs NewBuilder in
  let! b := AuthData_marshal (fc_ContentType fc) auth b in
  Ok (Bytes b).

(** * private.go *)

(* mls/framing/private.go:14-21 PrivateMessage *)
Record PrivateMessage := mkPrivateMessage {
  pv_GroupID : bytes;
  pv_Epoch : Z;
  pv_ContentType : Z;
  pv_AuthenticatedData : bytes;
  pv_EncryptedSenderData : bytes;
  pv_Ciphertext : bytes
}.

(* mls/framing/private.go:23-36 PrivateMessage.marshal *)
Definition PrivateMessage_marshal (m : PrivateMessage) (b : Builder) : outcome Builder :=
  let! b := WriteOpaqueV (pv_GroupID m) b in
  let! b := WriteUint64 (pv_Epoch m) b in
  let! b := WriteUint8 (pv_ContentType m) b in
  let! b := WriteOpaqueV (pv_AuthenticatedData m) b in
  let! b := WriteOpaqueV (pv_EncryptedSenderData m) b in
  WriteOpaqueV (pv_Ciphertext m) b.

(* mls/framing/private.go:38-62 decodePrivateMessage *)
Definition decodePrivateMessage (c : Cursor) : outcome (PrivateMessage * Cursor) :=
  let! (gid, c) := ReadOpaqueV c in
  let! (ep, c) := ReadUint64 c in
  let! (ct, c) := ReadUint8 c in
  let! (ad, c) := ReadOpaqueV c in
  let! (sd, c) := ReadOpaqueV c in
  let! (ciph, c) := ReadOpaqueV c in
  Ok (mkPrivateMessage gid ep ct ad sd ciph, c).

(** The fixed array [[4]byte] is a list; [senderData_ok] fixes its length. *)
(* mls/framing/private.go:66-70 senderData *)
Record senderData := mkSenderData { sd_LeafIndex : Z; sd_Generation : Z; sd_ReuseGuard : bytes }.

(* mls/framing/private.go:72-76 senderData.marshal *)
Definition senderData_marshal (sd : senderData) (b : Builder) : outcome Builder :=
  let! b := WriteUint32 (sd_LeafIndex sd) b in
  let! b := WriteUint32 (sd_Generation sd) b in
  WriteRaw (sd_ReuseGuard sd) b.

(* mls/framing/private.go:78-93 decodeSenderData *)
Definition decodeSenderData (c : Cursor) : outcome (senderData * Cursor) :=
  let! (li, c) := ReadUint32 c in
  let! (gen, c) := ReadUint32 c in
  let! (g, c) := ReadRaw 4 c in
  Ok (mkSenderData li gen g, c).

(* mls/framing/private.go:95-103 senderDataAAD *)
Definition senderDataAAD (groupID : bytes) (epoch ct : Z) : outcome bytes :=
  let! b := WriteOpaqueV groupID NewBuilder in
  let! b := WriteUint64 epoch b in
  let! b := WriteUint8 ct b in
  Ok (Bytes b).

(* mls/framing/private.go:105-116 privateContentAAD *)
Definition privateContentAAD (groupID : bytes) (epoch ct : Z) (ad : bytes) : outcome bytes :=
  let! b := WriteOpaqueV groupID NewBuilder in
  let! b := WriteUint64 epoch b in
  let! b := WriteUint8 ct b in
  let! b := WriteOpaqueV ad b in
  Ok (Bytes b).

(* mls/framing/private.go:121-126 ratchetTypeFor *)
Definition ratchetTypeFor (ct : Z) : RatchetType :=
  if ct =? ContentTypeApplication then ApplicationRatchet else HandshakeRatchet.

(** [n[i] ^= guard[i]] for the first four bytes; shorter nonces panic. *)
(* mls/framing/private.go:130-136 applyReuseGuard *)
Fixpoint applyReuseGuard (nonce guard : bytes) : outcome bytes :=
  match guard, nonce with
  | [], _ => Ok nonce
  | g :: guard, n :: nonce =>
      let! rest := applyReuseGuard nonce guard in
      Ok (byte_of_Z (Z.lxor (Z_of_byte n) (Z_of_byte g)) :: rest)
  | _ :: _, [] => Panic
  end.

(* mls/framing/private.go:139-151 privateMessageContent *)
Definition privateMessageContent (fc : FramedContent) (auth : FramedContentAuthData) (paddingSize : Z)
  : outcome bytes :=
  let! b := marshalContent (fc_ContentType fc) (fc_Content fc) NewBuilder in
  let! b := AuthData_marshal (fc_ContentType fc) auth b in
  let! b := if 0 <? paddingSize then WriteRaw (zero_bytes (Z.to_nat paddingSize)) b else Ok b in
  Ok (Bytes b).

(* mls/framing/private.go:154-170 decodePrivateMessageContent *)
Definition decodePrivateMessageContent (pt : bytes) (ct : Z) : outcome (bytes * FramedContentAuthData) :=
  let! (content, c) := decodeContent ct (NewCursor pt) in
  let! (auth, c) := decodeFramedContentAuthData ct c in
  if forallb (fun x => Z_of_byte x =? 0) (Rest c) then Ok (content, auth)
  else Err "framing: non-zero padding in PrivateMessageContent".

Section protect.
Context {C : StdCrypto} (suite : Suite).

(* mls/framing/framing.go:395-406 AuthenticatedContent.sign *)
Definition AuthenticatedContent_sign (ac : AuthenticatedContent) (signer : Signer) (gc : option GroupContext)
  : outcome AuthenticatedContent :=
  let! tbs := framedContentTBS (ac_WireFormat ac) (ac_Content ac) gc in
  let! sig := SignWithLabel suite signer "FramedContentTBS" tbs in
  Ok (mkAuthenticatedContent (ac_WireFormat ac) (ac_Content ac) (mkAuthData sig (ad_ConfirmationTag (ac_Auth ac)))).

(* mls/framing/framing.go:409-415 AuthenticatedContent.verify *)
Definition AuthenticatedContent_verify (ac : AuthenticatedContent) (signaturePub : bytes) (gc : option GroupContext)
  : outcome bool :=
  match framedContentTBS (ac_WireFormat ac) (ac_Content ac) gc with
  | Ok tbs => Ok (VerifyWithLabel suite signaturePub "FramedContentTBS" tbs (ad_Signature (ac_Auth ac)))
  | Err _ => Ok false
  | Panic => Panic
  | Diverge => Diverge
  end.

(** [AuthenticatedContent{WireFormat: wf, Content: fc}], with the confirmation
    tag of a commit. *)
Definition unsigned (wf : Z) (fc : FramedContent) (confirmationTag : bytes) : AuthenticatedContent :=
  mkAuthenticatedContent wf fc
    (mkAuthData [] (if fc_ContentType fc =? ContentTypeCommit then confirmationTag else [])).

(* mls/framing/public.go:72-89 ProtectPublic *)
Definition ProtectPublic (signer : Signer) (gc : option GroupContext) (membershipKey : bytes)
  (fc : FramedContent) (confirmationTag : bytes) : outcome PublicMessage :=
  let! ac := AuthenticatedContent_sign (unsigned WireFormatPublicMessage fc confirmationTag) signer gc in
  if snd_Type (fc_Sender fc) =? SenderTypeMember then
    let! tbm := authenticatedContentTBM WireFormatPublicMessage fc (ac_Auth ac) gc in
    Ok (mkPublicMessage (ac_Content ac) (ac_Auth ac) (MAC suite membershipKey tbm))
  else Ok (mkPublicMessage (ac_Content ac) (ac_Auth ac) []).

(* mls/framing/public.go:93-108 UnprotectPublic *)
Definition UnprotectPublic (signaturePub : bytes) (gc : option GroupContext) (membershipKey : bytes)
  (m : PublicMessage) : outcome AuthenticatedContent :=
  let! _ :=
    (if snd_Type (fc_Sender (pm_Content m)) =? SenderTypeMember then
       let! tbm := authenticatedContentTBM WireFormatPublicMessage (pm_Content m) (pm_Auth m) gc in
       if negb (bytes_Equal (MAC suite membershipKey tbm) (pm_MembershipTag m))
       then Err "framing: membership_tag verification failed" else Ok tt
     else Ok tt) in
  let ac := mkAuthenticatedContent WireFormatPublicMessage (pm_Content m) (pm_Auth m) in
  let! ok := AuthenticatedContent_verify ac signaturePub gc in
  if negb ok then Err "framing: signature verification failed" else Ok ac.

(* mls/framing/private.go:177-218 sealPrivate *)
Definition sealPrivate (st : SecretTree) (senderDataSecret : bytes) (fc : FramedContent)
  (auth : FramedContentAuthData) (generation : Z) (reuseGuard : bytes) (paddingSize : Z) : outcome PrivateMessage :=
  let! (key, nonce) := KeyNonce suite st (snd_LeafIndex (fc_Sender fc)) (ratchetTypeFor (fc_ContentType fc)) generation in
  let! contentAAD := privateContentAAD (fc_GroupID fc) (fc_Epoch fc) (fc_ContentType fc) (fc_AuthenticatedData fc) in
  let! pt := privateMessageContent fc auth paddingSize in
  let! guarded := applyReuseGuard nonce reuseGuard in
  let! ciphertext := Seal suite key guarded contentAAD pt in
  let! (sdKey, sdNonce) := SenderDataKeyNonce suite senderDataSecret ciphertext in
  let! sdAAD := senderDataAAD (fc_GroupID fc) (fc_Epoch fc) (fc_ContentType fc) in
  let! sdb := senderData_marshal (mkSenderData (snd_LeafIndex (fc_Sender fc)) generation reuseGuard) NewBuilder in
  let! encSD := Seal suite sdKey sdNonce sdAAD (Bytes sdb) in
  Ok (mkPrivateMessage (fc_GroupID fc) (fc_Epoch fc) (fc_ContentType fc) (fc_AuthenticatedData fc) encSD ciphertext).

(* mls/framing/private.go:224-238 ProtectPrivate *)
Definition ProtectPrivate (signer : Signer) (gc : option GroupContext) (st : SecretTree) (senderDataSecret : bytes)
  (fc : FramedContent) (generation : Z) (reuseGuard : bytes) (paddingSize : Z) (confirmationTag : bytes)
  : outcome PrivateMessage :=
  if negb (snd_Type (fc_Sender fc) =? SenderTypeMember) then Err "framing: PrivateMessage requires a member sender" else
  let! ac := AuthenticatedContent_sign (unsigned WireFormatPrivateMessage fc confirmationTag) signer gc in
  sealPrivate st senderDataSecret fc (ac_Auth ac) generation reuseGuard paddingSize.

(* mls/framing/private.go:246-252 AssembleCommitPrivate *)
Definition AssembleCommitPrivate (st : SecretTree) (senderDataSecret : bytes) (fc : FramedContent)
  (generation : Z) (reuseGuard : bytes) (paddingSize : Z) (signature confTag : bytes) : outcome PrivateMessage :=
  if negb (snd_Type (fc_Sender fc) =? SenderTypeMember)
  then Err "framing: AssembleCommitPrivate requires a member sender" else
  sealPrivate st senderDataSecret fc (mkAuthData signature confTag) generation reuseGuard paddingSize.

(* mls/framing/private.go:258-315 UnprotectPrivate *)
Definition UnprotectPrivate (signaturePub : Z -> outcome bytes) (gc : option GroupContext) (st : SecretTree)
  (senderDataSecret : bytes) (m : PrivateMessage) : outcome AuthenticatedContent :=
  let! (sdKey, sdNonce) := SenderDataKeyNonce suite senderDataSecret (pv_Ciphertext m) in
  let! sdAAD := senderDataAAD (pv_GroupID m) (pv_Epoch m) (pv_ContentType m) in
  let! sdPlain := owrap "framing: sender data open" (Open suite sdKey sdNonce sdAAD (pv_EncryptedSenderData m)) in
  let! (sd, sdc) := decodeSenderData (NewCursor sdPlain) in
  if negb (Empty sdc) then Err "framing: trailing bytes after SenderData" else
  let! (key, nonce) := KeyNonce suite st (sd_LeafIndex sd) (ratchetTypeFor (pv_ContentType m)) (sd_Generation sd) in
  let! contentAAD := privateContentAAD (pv_GroupID m) (pv_Epoch m) (pv_ContentType m) (pv_AuthenticatedData m) in
  let! guarded := applyReuseGuard nonce (sd_ReuseGuard sd) in
  let! pt := owrap "framing: content open" (Open suite key guarded contentAAD (pv_Ciphertext m)) in
  let! (content, auth) := decodePrivateMessageContent pt (pv_ContentType m) in
  let fc := mkFramedContent (pv_GroupID m) (pv_Epoch m) (mkSender SenderTypeMember (sd_LeafIndex sd) 0)
    (pv_AuthenticatedData m) (pv_ContentType m) content in
  let ac := mkAuthenticatedContent WireFormatPrivateMessage fc auth in
  let! pub := signaturePub (sd_LeafIndex sd) in
  let! ok := AuthenticatedContent_verify ac pub gc in
  if negb ok then Err "framing: signature verification failed" else Ok ac.

(** * generate.go *)

(* mls/framing/generate.go:23-37 SignCommit *)
Definition SignCommit (signer : Signer) (gc : option GroupContext) (fc : FramedContent) (wf : Z)
  : outcome (bytes * bytes) :=
  let! ac := AuthenticatedContent_sign (mkAuthenticatedContent wf fc (mkAuthData [] [])) signer gc in
  let! b := WriteUint16 wf NewBuilder in
  let! b := FramedContent_marshal fc b in
  let! b := WriteOpaqueV (ad_Signature (ac_Auth ac)) b in
  Ok (Bytes b, ad_Signature (ac_Auth ac)).

(* mls/framing/generate.go:42-51 AssembleCommitPublic *)
Definition AssembleCommitPublic (gc : option GroupContext) (membershipKey : bytes) (fc : FramedContent)
  (signature confTag : bytes) : outcome PublicMessage :=
  let auth := mkAuthData signature confTag in
  let! tbm := authenticatedContentTBM WireFormatPublicMessage fc auth gc in
  Ok (mkPublicMessage fc auth (MAC suite membershipKey tbm)).
End protect.

(** * message.go *)

(* mls/framing/message.go:13-18 MLSMessage *)
Record MLSMessage := mkMLSMessage {
  mm_Version : Z;
  mm_WireFormat : Z;
  mm_Public : option PublicMessage;
  mm_Private : option PrivateMessage
}.

(* mls/framing/message.go:20-43 MLSMessage.MarshalMLS *)
Definition MLSMessage_marshal (m : MLSMessage) (b : Builder) : outcome Builder :=
  let! b := WriteUint16 (mm_Version m) b in
  let! b := WriteUint16 (mm_WireFormat m) b in
  if mm_WireFormat m =? WireFormatPublicMessage then
    match mm_Public m with
    | None => Err "framing: MLSMessage public body missing"
    | Some p => PublicMessage_marshal p b
    end
  else if mm_WireFormat m =? WireFormatPrivateMessage then
    match mm_Private m with
    | None => Err "framing: MLSMessage private body missing"
    | Some p => PrivateMessage_marshal p b
    end
  else Err "framing: unsupported wire format".

(* mls/framing/message.go:20-43 MLSMessage.MarshalMLS *)
Definition MLSMessage_MarshalMLS := marshal_mls MLSMessage_marshal.

(* mls/framing/message.go:46-72 MLSMessage.UnmarshalMLS *)
Definition decodeMLSMessage (c : Cursor) : outcome (MLSMessage * Cursor) :=
  let! (v, c) := ReadUint16 c in
  let! (wf, c) := ReadUint16 c in
  if wf =? WireFormatPublicMessage then
    let! (pm, c) := decodePublicMessage c in Ok (mkMLSMessage v wf (Some pm) None, c)
  else if wf =? WireFormatPrivateMessage then
    let! (pm, c) := decodePrivateMessage c in Ok (mkMLSMessage v wf None (Some pm), c)
  else Err "framing: unsupported wire format".

(** On a fresh [MLSMessage], as every caller uses it. *)
(* mls/framing/message.go:45-77 MLSMessage.UnmarshalMLS *)
Definition MLSMessage_UnmarshalMLS := unmarshal_mls decodeMLSMessage "framing: trailing bytes after MLSMessage".

(** * Skimmers are exact

    A skimmer that succeeds has consumed a prefix that it accepts in front of
    any continuation. *)

Definition exact (f : Cursor -> outcome Cursor) : Prop :=
  forall c c', f c = Ok c' -> exists e, e <> [] /\ c = e ++ c' /\ forall t, f (e ++ t) = Ok t.

Lemma exact_read {A} {ok : A -> Prop} {w r} `{!Wire ok w r} : exact (fun c => let! (_, c) := r c in Ok c).
Proof.
  intros c c' H. apply obind_ok in H as ([v c1] & H & [= <-]).
  apply wire_sound in H as (Hok & e & Hne & -> & He). exists e. split_and!; [done..|].
  intros t. by rewrite (wire_decode v e t).
Qed.

Lemma exact_bind {A} {ok : A -> Prop} {w r} `{!Wire ok w r} (f : A -> Cursor -> outcome Cursor) :
  (forall v, exact (f v) \/ f v = Ok) -> exact (fun c => let! (v, c) := r c in f v c).
Proof.
  intros Hf c c' H. apply obind_ok in H as ([v c1] & H & H').
  apply wire_sound in H as (Hok & e & Hne & -> & He). destruct (Hf v) as [Hx|Hx].
  - apply Hx in H' as (e' & Hne' & -> & Hl). exists (e ++ e'). rewrite app_assoc. split_and!; [|done|].
    + by intros [-> _]%app_eq_nil.
    + intros t. rewrite <- app_assoc, (wire_decode v e) by done. apply Hl.
  - rewrite Hx in H'. injection H' as <-. exists e. split_and!; [done..|].
    intros t. rewrite (wire_decode v e) by done. cbn [obind]. by rewrite Hx.
Qed.

Lemma exact_err e : exact (fun _ => Err e).
Proof. by intros c c'. Qed.

Lemma exact_if (b : bool) f g : exact f -> exact g -> exact (fun c => if b then f c else g c).
Proof. by destruct b. Qed.

Ltac exact_tac :=
  repeat lazymatch goal with
  | |- exact (fun c => obind (?r c) _) =>
      first [ apply (exact_read (r := r)) | apply (exact_bind (r := r)); intros ?; try (left; progress cbn beta) ]
  | |- exact (fun c => if _ then _ else _) => apply exact_if
  | |- exact (fun _ => Err _) => apply exact_err
  | |- exact _ \/ _ => left
  end.

Lemma exact_skimPreSharedKeyID : exact skimPreSharedKeyID.
Proof. unfold skimPreSharedKeyID. exact_tac. Qed.

Lemma exact_skimKeyPackage : exact skimKeyPackage.
Proof. unfold skimKeyPackage. exact_tac. Qed.

Lemma exact_skimProposal : exact skimProposal.
Proof.
  unfold skimProposal. exact_tac; try apply exact_skimKeyPackage; try apply exact_skimPreSharedKeyID.
Qed.

Lemma exact_skimCommit : exact skimCommit.
Proof.
  unfold skimCommit. apply (exact_bind (r := ReadOpaqueV)). intros _. left.
  apply (exact_bind (r := ReadUint8)). intros v. destruct (v =? 0); [by right|]. left. exact_tac.
Qed.

Lemma skim_sound f c x c' : exact f -> skim f c = Ok (x, c') -> x <> [] /\ c = x ++ c' /\ f x = Ok [].
Proof.
  intros Hf H. unfold skim, Rest, Remaining in H. apply obind_ok in H as (c1 & H1 & H).
  apply obind_ok in H as (x1 & Hs & [= <- <-]).
  apply Hf in H1 as (e & Hne & -> & Hl). rewrite len_app in Hs.
  replace (len e + len c1 - len c1) with (len e) in Hs by lia.
  unfold slice in Hs. pose proof (len_nonneg e). pose proof (len_nonneg c1).
  rewrite !(proj2 (Z.leb_le _ _)) in Hs by (rewrite ?len_app; lia). cbn [andb] in Hs.
  rewrite Z.sub_0_r in Hs. unfold len in Hs. rewrite Nat2Z.id in Hs. change (Z.to_nat 0) with 0%nat in Hs.
  rewrite drop_0, take_app_length in Hs. injection Hs as <-. split_and!; [done..|].
  rewrite <- (app_nil_r e). apply Hl.
Qed.

Lemma skim_app f x t : exact f -> f x = Ok [] -> skim f (x ++ t) = Ok (x, t).
Proof.
  intros Hf Hx. apply Hf in Hx as (e & Hne & E & Hl). rewrite app_nil_r in E. subst e.
  unfold skim, Rest, Remaining. rewrite Hl. cbn [obind]. rewrite len_app.
  replace (len x + len t - len t) with (len x) by lia.
  unfold slice. pose proof (len_nonneg x). pose proof (len_nonneg t).
  rewrite !(proj2 (Z.leb_le _ _)) by (rewrite ?len_app; lia). cbn [andb obind].
  rewrite Z.sub_0_r. unfold len. rewrite Nat2Z.id. change (Z.to_nat 0) with 0%nat. by rewrite drop_0, take_app_length.
Qed.

Lemma skimmers_return : forall c, returns (skimProposal c) /\ returns (skimCommit c).
Proof.
  intros c. unfold skimProposal, skimKeyPackage, skimPreSharedKeyID, skimCommit. split; returns_fields.
Qed.

Lemma skim_returns f c : exact f -> returns (f c) -> returns (skim f c).
Proof.
  intros Hf Hr. unfold skim. apply returns_obind; [done|]. intros c1 H1. apply Hf in H1 as (e & _ & -> & _).
  unfold Rest, Remaining, slice. pose proof (len_nonneg e). pose proof (len_nonneg c1). rewrite len_app.
  by rewrite !(proj2 (Z.leb_le _ _)) by lia.
Qed.

(** * Wire instances *)

Definition content_ok (ct : Z) (content : bytes) : Prop :=
  (ct = ContentTypeProposal -> skimProposal content = Ok []) /\
  (ct = ContentTypeCommit -> skimCommit content = Ok []).

Lemma WriteRaw_emits p : emits (WriteRaw p) p.
Proof. by intros b. Qed.

#[global] Instance wire_content ct : Wire (content_ok ct) (marshalContent ct) (decodeContent ct).
Proof.
  split.
  - intros x. change (appends (marshalContent ct x)). unfold marshalContent.
    destruct (ct =? ContentTypeApplication); [apply wire_appends|].
    destruct (_ || _); [apply (appends_emits _ x), WriteRaw_emits|apply appends_err].
  - intros x e c [Hp Hcm] He. unfold marshalContent in He. unfold decodeContent.
    destruct (Z.eqb_spec ct ContentTypeApplication) as [->|]; [by apply wire_decode|].
    destruct (Z.eqb_spec ct ContentTypeProposal) as [->|].
    { cbn [orb] in He. rewrite (emits_det _ _ _ He (WriteRaw_emits x)).
      by apply skim_app; [apply exact_skimProposal|apply Hp]. }
    destruct (Z.eqb_spec ct ContentTypeCommit) as [->|]; [|by specialize (He [])].
    cbn [orb] in He. rewrite (emits_det _ _ _ He (WriteRaw_emits x)).
    by apply skim_app; [apply exact_skimCommit|apply Hcm].
  - intros c x c' H. unfold decodeContent in H. unfold marshalContent, content_ok.
    destruct (Z.eqb_spec ct ContentTypeApplication) as [->|].
    { apply wire_sound in H as (_ & e & ? & ? & ?). split; [done|]. by exists e. }
    destruct (Z.eqb_spec ct ContentTypeProposal) as [->|].
    { apply skim_sound in H as (Hne & -> & Hx); [|apply exact_skimProposal]. split; [done|].
      exists x. split_and!; [done..|apply WriteRaw_emits]. }
    destruct (Z.eqb_spec ct ContentTypeCommit) as [->|]; [|done].
    apply skim_sound in H as (Hne & -> & Hx); [|apply exact_skimCommit]. split; [done|].
    exists x. split_and!; [done..|apply WriteRaw_emits].
  - intros c. unfold decodeContent. destruct (skimmers_return c) as [Hp Hcm].
    repeat case_match; try done; [apply wire_returns|apply skim_returns..]; try done;
      [apply exact_skimProposal|apply exact_skimCommit].
Qed.

Definition Sender_ok (s : Sender) : Prop :=
  is_u8 (snd_Type s) /\ is_u32 (snd_LeafIndex s) /\ is_u32 (snd_Index s) /\
  (snd_Type s <> SenderTypeMember -> snd_LeafIndex s = 0) /\
  (snd_Type s <> SenderTypeExternal -> snd_Index s = 0).

(** [e1 ++ e2] with the first part known to be written by the tag byte. *)
#[global] Instance wire_Sender : Wire Sender_ok Sender_marshal decodeSender.
Proof.
  split.
  - intros x. change (appends (Sender_marshal x)). unfold Sender_marshal. appends_tac.
  - intros [ty li ix] e c (H1 & H2 & H3 & H4 & H5) He. unfold Sender_marshal in He. cbn [snd_Type snd_LeafIndex snd_Index] in *.
    apply (emits_bind_inv (WriteUint8 ty)) in He as (e1 & e2 & -> & E1 & He); [|appends_tac..].
    unfold decodeSender. rewrite <- app_assoc, (wire_decode ty e1) by done. cbn [obind].
    destruct (Z.eqb_spec ty SenderTypeMember) as [->|]; [rewrite (H5 ltac:(done)); by rewrite (wire_decode li e2)|].
    destruct (Z.eqb_spec ty SenderTypeExternal) as [->|]; [rewrite (H4 ltac:(done)); by rewrite (wire_decode ix e2)|].
    rewrite H4, H5 by done. destruct (_ || _); [|by specialize (He [])].
    by rewrite (emits_det _ _ _ He emits_nil).
  - intros c x c' H. unfold decodeSender in H. apply obind_ok in H as ([ty c1] & Ht & H).
    apply wire_sound in Ht as (Hty & e & Hne & -> & He). unfold Sender_marshal.
    destruct (Z.eqb_spec ty SenderTypeMember) as [->|]; [|destruct (Z.eqb_spec ty SenderTypeExternal) as [->|]].
    1,2: inv_ok; sound_fields; (split; [done|]);
      cbn [snd_Type snd_LeafIndex snd_Index Z.eqb Pos.eqb SenderTypeMember SenderTypeExternal]; sound_join.
    destruct ((ty =? SenderTypeNewMemberProposal) || (ty =? SenderTypeNewMemberCommit)) eqn:Ed; [|done].
    injection H as <- <-. split; [done|]. exists e. cbn [snd_Type]. split_and!; [done..|].
    rewrite (proj2 (Z.eqb_neq ty SenderTypeMember)), (proj2 (Z.eqb_neq ty SenderTypeExternal)), Ed by done.
    rewrite <- (app_nil_r e). apply (emits_bind (WriteUint8 ty)); [done|apply emits_nil].
  - intros c. unfold decodeSender. returns_fields.
Qed.

Definition FramedContent_ok (fc : FramedContent) : Prop :=
  is_u64 (fc_Epoch fc) /\ Sender_ok (fc_Sender fc) /\ is_u8 (fc_ContentType fc) /\
  content_ok (fc_ContentType fc) (fc_Content fc).

#[global] Instance wire_FramedContent : Wire FramedContent_ok FramedContent_marshal decodeFramedContent.
Proof.
  split.
  - intros x. change (appends (FramedContent_marshal x)). unfold FramedContent_marshal.
    repeat (apply appends_bind; [apply wire_appends|]). apply wire_appends.
  - intros [gid ep sd ad ct content] e c (H1 & H2 & H3 & H4) He. unfold FramedContent_marshal in He.
    cbn [fc_GroupID fc_Epoch fc_Sender fc_AuthenticatedData fc_ContentType fc_Content] in *.
    do 5 (apply emits_bind_inv in He as (? & ? & -> & ? & He);
      [|first [apply wire_appends | repeat (apply appends_bind; [apply wire_appends|]); apply wire_appends]..]).
    unfold decodeFramedContent. rewrite <- !app_assoc.
    do 5 (erewrite wire_decode by eassumption || done; cbn [obind]).
    by rewrite (wire_decode (w := marshalContent ct) content).
  - intros c x c' H. unfold decodeFramedContent in H. inv_ok. sound_fields. split; [done|].
    unfold FramedContent_marshal. sound_join.
  - intros c. unfold decodeFramedContent. returns_fields.
Qed.

Definition AuthData_ok (ct : Z) (a : FramedContentAuthData) : Prop :=
  ct <> ContentTypeCommit -> ad_ConfirmationTag a = [].

#[global] Instance wire_AuthData ct : Wire (AuthData_ok ct) (AuthData_marshal ct) (decodeFramedContentAuthData ct).
Proof.
  split.
  - intros x. change (appends (AuthData_marshal ct x)). unfold AuthData_marshal. appends_tac.
  - intros [sig tag] e c Hok He. unfold AuthData_marshal, AuthData_ok in *. cbn [ad_Signature ad_ConfirmationTag] in *.
    apply (emits_bind_inv (WriteOpaqueV sig)) in He as (e1 & e2 & -> & E1 & He); [|appends_tac..].
    unfold decodeFramedContentAuthData. rewrite <- app_assoc, (wire_decode sig e1) by done. cbn [obind].
    destruct (Z.eqb_spec ct ContentTypeCommit); [by rewrite (wire_decode tag e2)|].
    rewrite (emits_det _ _ _ He emits_nil), Hok by done. done.
  - intros c x c' H. unfold decodeFramedContentAuthData in H. apply obind_ok in H as ([sig c1] & Hs & H).
    apply wire_sound in Hs as (_ & e & Hne & -> & He). unfold AuthData_marshal, AuthData_ok.
    destruct (Z.eqb_spec ct ContentTypeCommit).
    + inv_ok. sound_fields. split; [done|]. cbn [ad_Signature ad_ConfirmationTag]. sound_join.
    + injection H as <- <-. split; [done|]. exists e. split_and!; [done..|]. cbn [ad_Signature].
      rewrite <- (app_nil_r e). apply (emits_bind (WriteOpaqueV sig)); [done|apply emits_nil].
  - intros c. unfold decodeFramedContentAuthData. returns_fields.
Qed.

Definition PublicMessage_ok (m : PublicMessage) : Prop :=
  FramedContent_ok (pm_Content m) /\ AuthData_ok (fc_ContentType (pm_Content m)) (pm_Auth m) /\
  (snd_Type (fc_Sender (pm_Content m)) <> SenderTypeMember -> pm_MembershipTag m = []).

#[global] Instance wire_PublicMessage : Wire PublicMessage_ok PublicMessage_marshal decodePublicMessage.
Proof.
  split.
  - intros x. change (appends (PublicMessage_marshal x)). unfold PublicMessage_marshal. appends_tac.
  - intros [fc au tag] e c (H1 & H2 & H3) He. unfold PublicMessage_marshal in He. cbn [pm_Content pm_Auth pm_MembershipTag] in *.
    apply (emits_bind_inv (FramedContent_marshal fc)) in He as (e1 & e2 & -> & E1 & He); [|appends_tac..].
    apply (emits_bind_inv (AuthData_marshal (fc_ContentType fc) au)) in He as (e3 & e4 & -> & E3 & He); [|appends_tac..].
    unfold decodePublicMessage. rewrite <- !app_assoc, (wire_decode fc e1) by done. cbn [obind].
    rewrite (wire_decode (w := AuthData_marshal (fc_ContentType fc)) au e3) by done. cbn [obind].
    destruct (Z.eqb_spec (snd_Type (fc_Sender fc)) SenderTypeMember); [by rewrite (wire_decode tag e4)|].
    rewrite (emits_det _ _ _ He emits_nil), H3 by done. done.
  - intros c x c' H. unfold decodePublicMessage in H. apply obind_ok in H as ([fc c1] & Hf & H).
    apply obind_ok in H as ([au c2] & Ha & H).
    apply wire_sound in Hf as (Hfok & e1 & Hne & -> & He1). apply wire_sound in Ha as (Haok & e2 & Hne2 & -> & He2).
    unfold PublicMessage_marshal, PublicMessage_ok. destruct (Z.eqb_spec (snd_Type (fc_Sender fc)) SenderTypeMember) as [Em|Em].
    + inv_ok. sound_fields. cbn [pm_Content pm_Auth pm_MembershipTag]. split; [done|]. rewrite Em. sound_join.
    + injection H as <- <-. cbn [pm_Content pm_Auth pm_MembershipTag]. split; [done|].
      rewrite (proj2 (Z.eqb_neq _ _) Em). exists (e1 ++ e2). split_and!.
      * by intros [-> _]%app_eq_nil.
      * by rewrite app_assoc.
      * apply (emits_bind (FramedContent_marshal fc)); [done|]. rewrite <- (app_nil_r e2).
        apply (emits_bind (AuthData_marshal (fc_ContentType fc) au)); [done|apply emits_nil].
  - intros c. unfold decodePublicMessage. returns_fields.
Qed.

Definition PrivateMessage_ok (m : PrivateMessage) : Prop := is_u64 (pv_Epoch m) /\ is_u8 (pv_ContentType m).

#[global] Instance wire_PrivateMessage : Wire PrivateMessage_ok PrivateMessage_marshal decodePrivateMessage.
Proof.
  wire_record PrivateMessage_marshal decodePrivateMessage.
  - destruct Hok. decode_fields. by destruct x.
  - split; [done|]. unfold PrivateMessage_marshal. sound_join.
Qed.

Definition MLSMessage_ok (m : MLSMessage) : Prop :=
  is_u16 (mm_Version m) /\ is_u16 (mm_WireFormat m) /\
  (mm_WireFormat m = WireFormatPublicMessage -> from_option PublicMessage_ok True (mm_Public m)) /\
  (mm_WireFormat m = WireFormatPrivateMessage -> from_option PrivateMessage_ok True (mm_Private m)) /\
  (mm_WireFormat m <> WireFormatPublicMessage -> mm_Public m = None) /\
  (mm_WireFormat m <> WireFormatPrivateMessage -> mm_Private m = None).

#[global] Instance wire_MLSMessage : Wire MLSMessage_ok MLSMessage_marshal decodeMLSMessage.
Proof.
  split.
  - intros x. change (appends (MLSMessage_marshal x)). unfold MLSMessage_marshal.
    destruct (mm_Public x), (mm_Private x); appends_tac.
  - intros [v wf pu pr] e c (H1 & H2 & H3 & H4 & H5 & H6) He. unfold MLSMessage_marshal in He.
    cbn [mm_Version mm_WireFormat mm_Public mm_Private] in *.
    apply (emits_bind_inv (WriteUint16 v)) in He as (e1 & e2 & -> & E1 & He); [|destruct pu, pr; appends_tac..].
    apply (emits_bind_inv (WriteUint16 wf)) in He as (e3 & e4 & -> & E3 & He); [|destruct pu, pr; appends_tac..].
    unfold decodeMLSMessage. rewrite <- !app_assoc, (wire_decode v e1) by done. cbn [obind].
    rewrite (wire_decode wf e3) by done. cbn [obind].
    destruct (Z.eqb_spec wf WireFormatPublicMessage) as [->|].
    + destruct pu as [p|]; [|by specialize (He [])]. rewrite (H6 ltac:(done)).
      rewrite (wire_decode p e4); [done|by apply H3|done].
    + destruct (Z.eqb_spec wf WireFormatPrivateMessage) as [->|]; [|by specialize (He [])].
      destruct pr as [p|]; [|by specialize (He [])]. rewrite (H5 ltac:(done)).
      rewrite (wire_decode p e4); [done|by apply H4|done].
  - intros c x c' H. unfold decodeMLSMessage in H. apply obind_ok in H as ([v c1] & Hv & H).
    apply obind_ok in H as ([wf c2] & Hw & H). sound_fields. unfold MLSMessage_marshal, MLSMessage_ok.
    destruct (Z.eqb_spec wf WireFormatPublicMessage) as [->|];
      [|destruct (Z.eqb_spec wf WireFormatPrivateMessage) as [->|]; [|done]];
      inv_ok; sound_fields; cbn [mm_Version mm_WireFormat mm_Public mm_Private];
      (split; [done|]); cbn [Z.eqb Pos.eqb WireFormatPublicMessage WireFormatPrivateMessage]; sound_join.
  - intros c. unfold decodeMLSMessage. returns_fields.
Qed.

Definition senderData_ok (sd : senderData) : Prop :=
  is_u32 (sd_LeafIndex sd) /\ is_u32 (sd_Generation sd) /\ len (sd_ReuseGuard sd) = 4.

Lemma decodeSenderData_marshal sd b : senderData_ok sd -> senderData_marshal sd NewBuilder = Ok b ->
  decodeSenderData b = Ok (sd, []).
Proof.
  intros (H1 & H2 & H3) H. unfold senderData_marshal in H. inv_ok.
  apply wire_append in Ha as (e1 & E1 & ->). apply wire_append in Ha0 as (e2 & E2 & ->).
  unfold WriteRaw in H. injection H as <-.
  unfold decodeSenderData. cbn [app NewBuilder]. rewrite <- app_assoc, (wire_decode (sd_LeafIndex sd) e1) by done. cbn [obind].
  rewrite (wire_decode (sd_Generation sd) e2) by done. cbn [obind]. unfold ReadRaw.
  destruct sd as [li gen g]. cbn [sd_LeafIndex sd_Generation sd_ReuseGuard] in *.
  pose proof (cur_take_app g []) as Hg. rewrite app_nil_r, H3 in Hg. by rewrite Hg.
Qed.

(** * Protection round trips *)

Section roundtrip.
Context {C : StdCrypto} `{!StdCryptoLaws C} (suite : Suite).

Lemma sign_verify ac ac' signer pub gc : SignaturePublicKey suite signer = Ok pub ->
  AuthenticatedContent_sign suite ac signer gc = Ok ac' ->
  ac_WireFormat ac' = ac_WireFormat ac /\ ac_Content ac' = ac_Content ac /\
  ad_ConfirmationTag (ac_Auth ac') = ad_ConfirmationTag (ac_Auth ac) /\
  AuthenticatedContent_verify suite ac' pub gc = Ok true.
Proof.
  unfold AuthenticatedContent_sign, AuthenticatedContent_verify. intros Hp H.
  apply obind_ok in H as (tbs & Ht & H). apply obind_ok in H as (sig & Hs & [= <-]).
  cbn [ac_WireFormat ac_Content ac_Auth ad_Signature ad_ConfirmationTag]. rewrite Ht. split_and!; [done..|]. f_equal. by apply (VerifyWithLabel_Sign suite signer).
Qed.

Lemma UnprotectPublic_Protect signer pub gc mk fc tag m :
  SignaturePublicKey suite signer = Ok pub ->
  ProtectPublic suite signer gc mk fc tag = Ok m ->
  UnprotectPublic suite pub gc mk m = Ok (mkAuthenticatedContent WireFormatPublicMessage fc (pm_Auth m)) /\
  pm_Content m = fc.
Proof.
  intros Hp H. unfold ProtectPublic in H. apply obind_ok in H as (ac & Ha & H).
  apply (sign_verify _ _ _ pub) in Ha as (Hw & Hc & _ & Hv); [|done]. cbn in Hw, Hc.
  destruct ac as [wf fc' auth]. cbn in *. subst wf fc'. unfold UnprotectPublic.
  destruct (snd_Type (fc_Sender fc) =? SenderTypeMember) eqn:Em.
  - apply obind_ok in H as (tbm & Ht & [= <-]). cbn. rewrite Em, Ht. cbn [obind].
    rewrite (proj2 (bytes_Equal_spec _ _)) by done. cbn [negb obind]. by rewrite Hv.
  - injection H as <-. cbn. rewrite Em. cbn [obind]. by rewrite Hv.
Qed.

Lemma all_zero_padding n : forallb (fun x => Z_of_byte x =? 0) (zero_bytes n) = true.
Proof. apply forallb_forall. intros x Hx. apply list_elem_of_In, elem_of_replicate in Hx as [-> _]. done. Qed.

Lemma decodePrivateMessageContent_marshal fc auth pad pt :
  content_ok (fc_ContentType fc) (fc_Content fc) -> AuthData_ok (fc_ContentType fc) auth ->
  privateMessageContent fc auth pad = Ok pt ->
  decodePrivateMessageContent pt (fc_ContentType fc) = Ok (fc_Content fc, auth).
Proof.
  intros Hc Ha H. unfold privateMessageContent in H.
  apply obind_ok in H as (b1 & H1 & H). apply obind_ok in H as (b2 & H2 & H). apply obind_ok in H as (b3 & H3 & [= <-]).
  apply (wire_append (w := marshalContent (fc_ContentType fc))) in H1 as (e1 & E1 & ->).
  apply (wire_append (w := AuthData_marshal (fc_ContentType fc))) in H2 as (e2 & E2 & ->).
  assert (exists n, b3 = (NewBuilder ++ e1) ++ e2 ++ zero_bytes n) as [n ->].
  { destruct (0 <? pad).
    - injection H3 as <-. exists (Z.to_nat pad). by rewrite !app_assoc.
    - injection H3 as <-. exists 0%nat. by rewrite app_nil_r. }
  unfold decodePrivateMessageContent, NewCursor, Bytes, NewBuilder. rewrite app_nil_l.
  rewrite (wire_decode (w := marshalContent (fc_ContentType fc)) _ e1) by done. cbn [obind].
  rewrite (wire_decode (w := AuthData_marshal (fc_ContentType fc)) _ e2) by done. cbn [obind].
  unfold Rest. by rewrite all_zero_padding.
Qed.

(** What a member seals, every member with the same epoch secrets opens and
    authenticates. *)
Lemma UnprotectPrivate_seal pub gc st sds fc auth gen guard pad m sigPub :
  snd_Type (fc_Sender fc) = SenderTypeMember -> sigPub (snd_LeafIndex (fc_Sender fc)) = Ok pub ->
  FramedContent_ok fc -> AuthData_ok (fc_ContentType fc) auth -> is_u32 gen -> len guard = 4 ->
  AuthenticatedContent_verify suite (mkAuthenticatedContent WireFormatPrivateMessage fc auth) pub gc = Ok true ->
  sealPrivate suite st sds fc auth gen guard pad = Ok m ->
  UnprotectPrivate suite sigPub gc st sds m = Ok (mkAuthenticatedContent WireFormatPrivateMessage fc auth).
Proof.
  intros Em Hsp (Hep & Hsnd & Hct & Hcont) Haok Hgen Hguard Hv H. unfold sealPrivate in H.
  apply obind_ok in H as ([key nonce] & Hkn & H). apply obind_ok in H as (aad & Haad & H).
  apply obind_ok in H as (pt & Hpt & H). apply obind_ok in H as (gd & Hgd & H).
  apply obind_ok in H as (ct & Hcts & H). apply obind_ok in H as ([sdk sdn] & Hsd & H).
  apply obind_ok in H as (sdaad & Hsdaad & H). apply obind_ok in H as (sdb & Hsdb & H).
  apply obind_ok in H as (enc & Henc & [= <-]).
  unfold UnprotectPrivate. cbn [pv_Ciphertext pv_GroupID pv_Epoch pv_ContentType pv_EncryptedSenderData pv_AuthenticatedData].
  rewrite Hsd. cbn [obind]. rewrite Hsdaad. cbn [obind]. rewrite (Open_Seal _ _ _ _ _ _ Henc). cbn [obind owrap].
  unfold NewCursor. rewrite (decodeSenderData_marshal (mkSenderData (snd_LeafIndex (fc_Sender fc)) gen guard) _) by
    (done || (split_and!; [apply Hsnd|done|done])).
  cbn [obind Empty negb sd_LeafIndex sd_Generation sd_ReuseGuard].
  change (Empty []) with true. cbn [negb]. rewrite Hkn. cbn [obind]. rewrite Haad. cbn [obind]. rewrite Hgd. cbn [obind].
  rewrite (Open_Seal _ _ _ _ _ _ Hcts). cbn [obind owrap].
  rewrite (decodePrivateMessageContent_marshal fc auth pad pt) by done. cbn [obind]. rewrite Hsp. cbn [obind].
  replace (mkFramedContent (fc_GroupID fc) (fc_Epoch fc) (mkSender SenderTypeMember (snd_LeafIndex (fc_Sender fc)) 0)
    (fc_AuthenticatedData fc) (fc_ContentType fc) (fc_Content fc)) with fc.
  - by rewrite Hv.
  - destruct fc as [? ? [ty li ix] ? ? ?]. cbn in *. destruct Hsnd as (_ & _ & _ & _ & Hix). cbn in Hix.
    rewrite Hix by (rewrite Em; done). by rewrite Em.
Qed.

Lemma UnprotectPrivate_Protect signer pub gc st sds fc gen guard pad tag m sigPub :
  SignaturePublicKey suite signer = Ok pub -> sigPub (snd_LeafIndex (fc_Sender fc)) = Ok pub ->
  FramedContent_ok fc -> is_u32 gen -> len guard = 4 ->
  ProtectPrivate suite signer gc st sds fc gen guard pad tag = Ok m ->
  exists auth, UnprotectPrivate suite sigPub gc st sds m =
      Ok (mkAuthenticatedContent WireFormatPrivateMessage fc auth) /\
    ad_ConfirmationTag auth = (if fc_ContentType fc =? ContentTypeCommit then tag else []).
Proof.
  intros Hp Hsp Hfc Hgen Hguard H. unfold ProtectPrivate in H.
  destruct (Z.eqb_spec (snd_Type (fc_Sender fc)) SenderTypeMember) as [Em|]; [|done]. cbn [negb] in H.
  apply obind_ok in H as (ac & Ha & H). apply (sign_verify _ _ _ pub) in Ha as (Hw & Hc & Htag & Hv); [|done].
  destruct ac as [wf fc' auth]. cbn in Hw, Hc, Htag, Hv, H. subst wf fc'. exists auth. split; [|done].
  eapply UnprotectPrivate_seal; [done..| |done|done|exact Hv|exact H].
  intros Hne. rewrite Htag. by rewrite (proj2 (Z.eqb_neq _ _) Hne).
Qed.

(** The transcript input that a committer hashes is the one that a receiver
    splits off the authenticated content. *)
Lemma SignCommit_Split signer gc fc wf ci sig tag ac :
  SignCommit suite signer gc fc wf = Ok (ci, sig) -> fc_ContentType fc = ContentTypeCommit ->
  len tag = HashLen suite ->
  AuthenticatedContent_MarshalMLS (mkAuthenticatedContent wf fc (mkAuthData sig tag)) = Ok ac ->
  SplitAuthenticatedContent suite ac = Ok (ci, tag).
Proof.
  intros H Hct Hlen Hac. unfold SignCommit in H. apply obind_ok in H as (a & Ha & H).
  apply obind_ok in H as (b1 & H1 & H). apply obind_ok in H as (b2 & H2 & H). apply obind_ok in H as (b3 & H3 & [= <- <-]).
  unfold AuthenticatedContent_MarshalMLS, AuthData_marshal in Hac. cbn [ac_WireFormat ac_Content ac_Auth ad_Signature ad_ConfirmationTag] in Hac.
  rewrite H1 in Hac. cbn [obind] in Hac. rewrite H2 in Hac. cbn [obind] in Hac. rewrite H3 in Hac. cbn [obind] in Hac.
  rewrite Hct in Hac. cbn [Z.eqb Pos.eqb ContentTypeCommit] in Hac. apply obind_ok in Hac as (b4 & H4 & [= <-]).
  unfold Bytes. apply WriteOpaqueV_ok in H4 as (h & Hh & -> & He). apply Split_append; [|done].
  by apply WriteOpaqueV_bytes_emits.
Qed.

(** A commit signed by [SignCommit] verifies with any confirmation tag: the tag
    is not signed. *)
Lemma SignCommit_verify signer pub gc fc wf ci sig tag : SignaturePublicKey suite signer = Ok pub ->
  SignCommit suite signer gc fc wf = Ok (ci, sig) ->
  AuthenticatedContent_verify suite (mkAuthenticatedContent wf fc (mkAuthData sig tag)) pub gc = Ok true.
Proof.
  intros Hp H. unfold SignCommit in H. apply obind_ok in H as (a & Ha & H).
  apply obind_ok in H as (b1 & _ & H). apply obind_ok in H as (b2 & _ & H). apply obind_ok in H as (b3 & _ & [= _ <-]).
  apply (sign_verify _ _ _ pub) in Ha as (Hw & Hc & _ & Hv); [|done]. destruct a as [wf' fc' auth].
  cbn [ac_WireFormat ac_Content ac_Auth] in *. by subst wf' fc'.
Qed.

Lemma UnprotectPublic_Assemble signer pub gc mk fc ci sig tag m : SignaturePublicKey suite signer = Ok pub ->
  SignCommit suite signer gc fc WireFormatPublicMessage = Ok (ci, sig) ->
  AssembleCommitPublic suite gc mk fc sig tag = Ok m ->
  UnprotectPublic suite pub gc mk m = Ok (mkAuthenticatedContent WireFormatPublicMessage fc (mkAuthData sig tag)).
Proof.
  intros Hp Hs H. pose proof (SignCommit_verify _ _ _ _ _ _ _ tag Hp Hs) as Hv.
  unfold AssembleCommitPublic in H. apply obind_ok in H as (tbm & Ht & [= <-]). unfold UnprotectPublic.
  cbn [pm_Content pm_Auth pm_MembershipTag]. destruct (_ =? SenderTypeMember); [|cbn [obind]; by rewrite Hv].
  rewrite Ht. cbn [obind]. rewrite (proj2 (bytes_Equal_spec _ _)) by done. cbn [negb obind]. by rewrite Hv.
Qed.
End roundtrip.

(** * What is accepted is authenticated *)

Section authentic.
Context {C : StdCrypto} (suite : Suite) (gc : option GroupContext).

Lemma UnprotectPublic_authentic pub mk m ac : UnprotectPublic suite pub gc mk m = Ok ac ->
  ac_Content ac = pm_Content m /\ AuthenticatedContent_verify suite ac pub gc = Ok true /\
  (snd_Type (fc_Sender (pm_Content m)) = SenderTypeMember ->
   exists tbm, authenticatedContentTBM WireFormatPublicMessage (pm_Content m) (pm_Auth m) gc = Ok tbm /\
     pm_MembershipTag m = MAC suite mk tbm).
Proof.
  intros H. unfold UnprotectPublic in H. apply obind_ok in H as ([] & Ht & H).
  apply obind_ok in H as (ok & Hv & H). destruct ok; [|done]. injection H as <-.
  split_and!; [done|done|]. intros Em. rewrite Em, Z.eqb_refl in Ht. apply obind_ok in Ht as (tbm & Htbm & Ht).
  exists tbm. split; [done|]. destruct (bytes_Equal _ _) eqn:E; [|done]. by apply bytes_Equal_spec in E as <-.
Qed.

Lemma UnprotectPrivate_authentic sigPub st sds m ac : UnprotectPrivate suite sigPub gc st sds m = Ok ac ->
  fc_GroupID (ac_Content ac) = pv_GroupID m /\ fc_Epoch (ac_Content ac) = pv_Epoch m /\
  fc_ContentType (ac_Content ac) = pv_ContentType m /\ snd_Type (fc_Sender (ac_Content ac)) = SenderTypeMember /\
  exists pub, sigPub (snd_LeafIndex (fc_Sender (ac_Content ac))) = Ok pub /\
    AuthenticatedContent_verify suite ac pub gc = Ok true.
Proof.
  intros H. unfold UnprotectPrivate in H.
  apply obind_ok in H as ([? ?] & _ & H). apply obind_ok in H as (? & _ & H). apply obind_ok in H as (? & _ & H).
  apply obind_ok in H as ([sd ?] & _ & H). destruct (negb _); [done|].
  apply obind_ok in H as ([? ?] & _ & H). apply obind_ok in H as (? & _ & H). apply obind_ok in H as (? & _ & H).
  apply obind_ok in H as (? & _ & H). apply obind_ok in H as ([? ?] & _ & H).
  apply obind_ok in H as (pub & Hpub & H). apply obind_ok in H as (ok & Hv & H). destruct ok; [|done].
  injection H as <-. cbn [ac_Content fc_GroupID fc_Epoch fc_ContentType fc_Sender snd_Type snd_LeafIndex].
  split_and!; [done..|]. by exists pub.
Qed.
End authentic.

(** * Properties *)

(** C35: [MLSMessage.UnmarshalMLS] accepts exactly the encodings [MarshalMLS]
    gives of well-formed messages, and returns on every input: no byte string
    a peer can send makes the outermost decoder panic or loop. *)
Theorem mls_message_codec data m :
  returns (MLSMessage_UnmarshalMLS data) /\
  (MLSMessage_UnmarshalMLS data = Ok m <-> MLSMessage_ok m /\ MLSMessage_MarshalMLS m = Ok data).
Proof.
  split; [apply unmarshal_returns|]. split; [apply marshal_unmarshal|].
  intros [Hok H]. by eapply unmarshal_marshal.
Qed.

(** A private message arrives.  What [ProtectPrivate] produced, encoded as
    an [MLSMessage] and decoded again, [UnprotectPrivate] of any holder of the
    epoch's secret tree, sender-data secret and group context opens to the
    sender's framed content, with its signature verified. *)
Theorem private_message_delivery {C : StdCrypto} `{!StdCryptoLaws C} (suite : Suite)
    signer pub gc st sds fc gen guard pad tag m sigPub version data :
  SignaturePublicKey suite signer = Ok pub -> sigPub (snd_LeafIndex (fc_Sender fc)) = Ok pub ->
  FramedContent_ok fc -> is_u32 gen -> len guard = 4 -> is_u16 version ->
  ProtectPrivate suite signer gc st sds fc gen guard pad tag = Ok m ->
  MLSMessage_MarshalMLS (mkMLSMessage version WireFormatPrivateMessage None (Some m)) = Ok data ->
  exists m' auth,
    MLSMessage_UnmarshalMLS data = Ok (mkMLSMessage version WireFormatPrivateMessage None (Some m')) /\
    UnprotectPrivate suite sigPub gc st sds m' = Ok (mkAuthenticatedContent WireFormatPrivateMessage fc auth).
Proof.
  intros Hp Hsp Hfc Hgen Hgu Hver HP Hm.
  destruct (UnprotectPrivate_Protect suite _ _ _ _ _ _ _ _ _ _ _ sigPub Hp Hsp Hfc Hgen Hgu HP) as (auth & Hu & _).
  exists m, auth. split; [|done]. eapply unmarshal_marshal; [|exact Hm].
  assert (PrivateMessage_ok m) as Hok.
  { destruct Hfc as (? & ? & ? & ?). unfold ProtectPrivate in HP. destruct (negb _); [done|].
    apply obind_ok in HP as (ac & _ & HP). unfold sealPrivate in HP.
    repeat (apply obind_ok in HP as (? & _ & HP); repeat match goal with x : _ * _ |- _ => destruct x end).
    injection HP as <-. done. }
  unfold MLSMessage_ok. cbn [mm_Version mm_WireFormat mm_Public mm_Private]. split_and!; try done; unfold is_u16; lia.
Qed.

Definition example_content : FramedContent :=
  mkFramedContent (bytes_of_string "g") 3 (mkSender SenderTypeMember 2 0) [] ContentTypeApplication (bytes_of_string "hello").

Definition example_context : option GroupContext :=
  Some (mkGroupContext 1 1 (bytes_of_string "g") 3 (toy_priv 30) (toy_priv 31) []).

Definition example_secrets : SecretTree := value (mkSecretTree 0 ∅ ∅) (NewSecretTree toy_suite (2 ^ 2) (toy_priv 9)).

Definition example_signer : Signer (StdCrypto := toy) := inl (toy_priv 40).

Definition example_private : outcome PrivateMessage :=
  ProtectPrivate toy_suite example_signer example_context example_secrets (toy_priv 10) example_content 1
    (zero_bytes 4) 7 [].

Lemma private_message_delivery_witness :
  match (let! m := example_private in
         MLSMessage_MarshalMLS (mkMLSMessage 1 WireFormatPrivateMessage None (Some m))) with
  | Ok data => exists m' auth,
      MLSMessage_UnmarshalMLS data = Ok (mkMLSMessage 1 WireFormatPrivateMessage None (Some m')) /\
      UnprotectPrivate toy_suite (fun _ => Ok (toy_hash (toy_priv 40))) example_context example_secrets (toy_priv 10) m'
        = Ok (mkAuthenticatedContent WireFormatPrivateMessage example_content auth)
  | _ => False
  end.
Proof.
  destruct (is_ok_inv example_private) as [m Em]; [vm_compute; reflexivity|].
  destruct (is_ok_inv (let! m := example_private in
    MLSMessage_MarshalMLS (mkMLSMessage 1 WireFormatPrivateMessage None (Some m)))) as [data Ed];
    [vm_compute; reflexivity|].
  rewrite Ed. rewrite Em in Ed. cbn [obind] in Ed. unfold example_private in Em.
  refine (@private_message_delivery toy toy_laws toy_suite example_signer (toy_hash (toy_priv 40)) example_context
    example_secrets (toy_priv 10) example_content 1 (zero_bytes 4) 7 [] m
    (fun _ => Ok (toy_hash (toy_priv 40))) 1 data _ _ _ _ _ _ Em Ed);
    [vm_compute; reflexivity|reflexivity| |unfold is_u32; lia|reflexivity|unfold is_u16; lia].
  unfold FramedContent_ok, Sender_ok, content_ok, is_u64, is_u32, is_u8. cbn. split_and!; try done; lia.
Defined.

(** A public message arrives: what [ProtectPublic] produced,
    [UnprotectPublic] with the sender's public key and the same membership key
    and group context accepts, with the content unchanged. *)
Theorem public_message_delivery {C : StdCrypto} `{!StdCryptoLaws C} (suite : Suite) signer pub gc mk fc tag m :
  SignaturePublicKey suite signer = Ok pub ->
  ProtectPublic suite signer gc mk fc tag = Ok m ->
  pm_Content m = fc /\
  UnprotectPublic suite pub gc mk m = Ok (mkAuthenticatedContent WireFormatPublicMessage fc (pm_Auth m)).
Proof. intros Hp H. by apply (UnprotectPublic_Protect suite _ pub) in H as [? ?]. Qed.

Lemma public_message_delivery_witness :
  match ProtectPublic toy_suite example_signer example_context (toy_priv 11) example_content [] with
  | Ok m => pm_Content m = example_content /\
      UnprotectPublic toy_suite (toy_hash (toy_priv 40)) example_context (toy_priv 11) m =
        Ok (mkAuthenticatedContent WireFormatPublicMessage example_content (pm_Auth m))
  | _ => False
  end.
Proof.
  destruct (is_ok_inv (ProtectPublic toy_suite example_signer example_context (toy_priv 11) example_content []))
    as [m Em]; [vm_compute; reflexivity|]. rewrite Em.
  refine (@public_message_delivery toy toy_laws toy_suite example_signer _ _ _ _ _ m _ Em). reflexivity.
Defined.

(** Committer and receivers hash the same transcript.  For a commit that
    was signed by [SignCommit] and assembled as a public message, or sealed as
    a private one, the receiver's unprotected content serializes to bytes that
    [SplitAuthenticatedContent] splits into the committer's transcript input
    and confirmation tag. *)
Theorem commit_transcript_agreement {C : StdCrypto} `{!StdCryptoLaws C} (suite : Suite)
    signer pub gc fc wf ci sig tag :
  SignaturePublicKey suite signer = Ok pub -> fc_ContentType fc = ContentTypeCommit -> len tag = HashLen suite ->
  SignCommit suite signer gc fc wf = Ok (ci, sig) ->
  let ac := mkAuthenticatedContent wf fc (mkAuthData sig tag) in
  (wf = WireFormatPublicMessage -> forall mk m, AssembleCommitPublic suite gc mk fc sig tag = Ok m ->
     UnprotectPublic suite pub gc mk m = Ok ac) /\
  (wf = WireFormatPrivateMessage -> FramedContent_ok fc -> forall st sds gen guard pad sigPub m,
     is_u32 gen -> len guard = 4 -> sigPub (snd_LeafIndex (fc_Sender fc)) = Ok pub ->
     AssembleCommitPrivate suite st sds fc gen guard pad sig tag = Ok m ->
     UnprotectPrivate suite sigPub gc st sds m = Ok ac) /\
  (forall raw, AuthenticatedContent_MarshalMLS ac = Ok raw -> SplitAuthenticatedContent suite raw = Ok (ci, tag)).
Proof.
  intros Hp Hct Hlen Hs ac. split_and!.
  - intros -> mk m Ha. by apply (UnprotectPublic_Assemble suite signer pub gc mk fc ci).
  - intros -> Hfc st sds gen guard pad sigPub m Hg Hgu Hsp Ha. unfold AssembleCommitPrivate in Ha.
    destruct (Z.eqb_spec (snd_Type (fc_Sender fc)) SenderTypeMember); [|done]. cbn [negb] in Ha.
    eapply UnprotectPrivate_seal; [done|exact Hsp|done|by intros []|exact Hg|done| |exact Ha].
    by apply (SignCommit_verify suite signer pub gc fc _ ci).
  - intros raw Hraw. by eapply SignCommit_Split.
Qed.

(** A commit without proposals and without path, from member 2. *)
Definition example_commit : FramedContent :=
  mkFramedContent (bytes_of_string "g") 3 (mkSender SenderTypeMember 2 0) [] ContentTypeCommit (zero_bytes 2).

Lemma commit_transcript_agreement_witness :
  match SignCommit toy_suite example_signer example_context example_commit WireFormatPublicMessage with
  | Ok (ci, sig) => forall mk m,
      AssembleCommitPublic toy_suite example_context mk example_commit sig (toy_priv 20) = Ok m ->
      UnprotectPublic toy_suite (toy_hash (toy_priv 40)) example_context mk m
        = Ok (mkAuthenticatedContent WireFormatPublicMessage example_commit (mkAuthData sig (toy_priv 20)))
  | _ => False
  end.
Proof.
  destruct (is_ok_inv (SignCommit toy_suite example_signer example_context example_commit WireFormatPublicMessage))
    as [[ci sig] E]; [vm_compute; reflexivity|]. rewrite E.
  refine (proj1 (@commit_transcript_agreement toy toy_laws toy_suite example_signer (toy_hash (toy_priv 40))
    example_context example_commit _ ci sig (toy_priv 20) _ _ _ E) _); reflexivity.
Defined.

(** C34: only authenticated content is accepted.  Content that
    [UnprotectPublic] or [UnprotectPrivate] returns carries the message's
    group, epoch and content type and a signature that verifies, over that
    content and the receiver's group context, under the key looked up for the
    sender; a member's public message also has the right membership tag. *)
Theorem unprotect_authenticates {C : StdCrypto} (suite : Suite) gc :
  (forall pub mk m ac, UnprotectPublic suite pub gc mk m = Ok ac ->
     ac_Content ac = pm_Content m /\ AuthenticatedContent_verify suite ac pub gc = Ok true /\
     (snd_Type (fc_Sender (pm_Content m)) = SenderTypeMember ->
      exists tbm, authenticatedContentTBM WireFormatPublicMessage (pm_Content m) (pm_Auth m) gc = Ok tbm /\
        pm_MembershipTag m = MAC suite mk tbm)) /\
  (forall sigPub st sds m ac, UnprotectPrivate suite sigPub gc st sds m = Ok ac ->
     fc_GroupID (ac_Content ac) = pv_GroupID m /\ fc_Epoch (ac_Content ac) = pv_Epoch m /\
     fc_ContentType (ac_Content ac) = pv_ContentType m /\ snd_Type (fc_Sender (ac_Content ac)) = SenderTypeMember /\
     exists pub, sigPub (snd_LeafIndex (fc_Sender (ac_Content ac))) = Ok pub /\
       AuthenticatedContent_verify suite ac pub gc = Ok true).
Proof.
  split; [apply UnprotectPublic_authentic|apply UnprotectPrivate_authentic].
Qed.
