(* ===== verification/GroupMessages.v ===== *)
(** [mls/group], the protocol objects: key packages, proposals, commits, group
    infos and welcomes.

    [keypackage.go], [proposal.go], [commit.go], [groupinfo.go], [welcome.go]
    and [keypackage_gen.go]: records with the source's fields, their [marshal]
    methods and decoders with a [Wire] instance each, the signed and hashed
    forms, and the [MLSMessage] envelopes.  A pointer to a body that the code
    compares with [nil] is an [option]. *)

From Stdlib Require Import ZArith Lia Strings.Byte.
From stdpp Require Import base list numbers strings gmap.
From S2P Require Import Prelude Syntax TreeNodes Cipher ToyCrypto RatchetTree KeySchedule Framing.

(** [raw, err := x.MarshalMLS(); b.WriteRaw(raw)]: a structure of another
    package written inline. *)
Definition WriteMarshalled {A} (w : A -> Builder -> outcome Builder) (x : A) (b : Builder) : outcome Builder :=
  let! raw := marshal_mls w x in
  WriteRaw raw b.

(** * keypackage.go *)

(* mls/group/keypackage.go:15-22 KeyPackage *)
Record KeyPackage := mkKeyPackage {
  kp_Version : Z;
  kp_CipherSuite : Z;
  kp_InitKey : bytes;
  kp_LeafNode : LeafNode;
  kp_Extensions : list Extension;
  kp_Signature : bytes
}.

(* mls/group/keypackage.go:25-39 KeyPackage.marshalTBS *)
Definition KeyPackage_marshalTBS (kp : KeyPackage) (b : Builder) : outcome Builder :=
  let! b := WriteUint16 (kp_Version kp) b in
  let! b := WriteUint16 (kp_CipherSuite kp) b in
  let! b := WriteOpaqueV (kp_InitKey kp) b in
  let! b := WriteMarshalled LeafNode_marshal (kp_LeafNode kp) b in
  WriteVectorV Extension_marshal (kp_Extensions kp) b.

(* mls/group/keypackage.go:41-46 KeyPackage.marshal *)
Definition KeyPackage_marshal (kp : KeyPackage) (b : Builder) : outcome Builder :=
  let! b := KeyPackage_marshalTBS kp b in
  WriteOpaqueV (kp_Signature kp) b.

(* mls/group/keypackage.go:48-73 decodeKeyPackage *)
Definition decodeKeyPackage (c : Cursor) : outcome (KeyPackage * Cursor) :=
  let! (v, c) := ReadUint16 c in
  let! (cs, c) := ReadUint16 c in
  let! (ik, c) := ReadOpaqueV c in
  let! (ln, c) := decodeLeafNode c in
  let! (exts, c) := ReadVectorV decodeExtension c in
  let! (sig, c) := ReadOpaqueV c in
  Ok (mkKeyPackage v cs ik ln exts sig, c).

(* mls/group/keypackage.go:76-82 KeyPackage.tbsBytes *)
Definition KeyPackage_tbsBytes := marshal_mls KeyPackage_marshalTBS.

(* mls/group/keypackage.go:106-112 KeyPackage.MarshalMLS *)
Definition KeyPackage_MarshalMLS := marshal_mls KeyPackage_marshal.
(* mls/group/keypackage.go:115-126 KeyPackage.UnmarshalMLS *)
Definition KeyPackage_UnmarshalMLS := unmarshal_mls decodeKeyPackage "group: trailing bytes after KeyPackage".

(** * proposal.go *)

(* mls/group/proposal.go:15-23 ProposalTypeAdd *)
Definition ProposalTypeAdd : Z := 1.
(* mls/group/proposal.go:15-23 ProposalTypeUpdate *)
Definition ProposalTypeUpdate : Z := 2.
(* mls/group/proposal.go:15-23 ProposalTypeRemove *)
Definition ProposalTypeRemove : Z := 3.
(* mls/group/proposal.go:15-23 ProposalTypePreSharedKey *)
Definition ProposalTypePreSharedKey : Z := 4.
(* mls/group/proposal.go:15-23 ProposalTypeReInit *)
Definition ProposalTypeReInit : Z := 5.
(* mls/group/proposal.go:15-23 ProposalTypeExternalInit *)
Definition ProposalTypeExternalInit : Z := 6.
(* mls/group/proposal.go:15-23 ProposalTypeGroupContextExtensions *)
Definition ProposalTypeGroupContextExtensions : Z := 7.

(* mls/group/proposal.go:26-26 Add *)
Record Add := mkAdd { add_KeyPackage : KeyPackage }.
(* mls/group/proposal.go:29-29 Update *)
Record Update := mkUpdate { update_LeafNode : LeafNode }.
(* mls/group/proposal.go:32-32 Remove *)
Record Remove := mkRemove { Removed : Z }.
(* mls/group/proposal.go:35-35 PreSharedKey *)
Record PreSharedKey := mkPreSharedKey { presharedkey_PSK : PreSharedKeyID }.
(* mls/group/proposal.go:38-43 ReInit *)
Record ReInit := mkReInit {
  ri_GroupID : bytes;
  ri_Version : Z;
  ri_CipherSuite : Z;
  ri_Extensions : list Extension
}.
(* mls/group/proposal.go:46-46 ExternalInit *)
Record ExternalInit := mkExternalInit { ei_KemOutput : bytes }.
(* mls/group/proposal.go:49-49 GroupContextExtensions *)
Record GroupContextExtensions := mkGroupContextExtensions { gce_Extensions : list Extension }.

(* mls/group/proposal.go:52-61 Proposal *)
Record Proposal := mkProposal {
  p_Type : Z;
  p_Add : option Add;
  p_Update : option Update;
  p_Remove : option Remove;
  p_PreSharedKey : option PreSharedKey;
  p_ReInit : option ReInit;
  p_ExternalInit : option ExternalInit;
  p_GroupContextExtensions : option GroupContextExtensions
}.

(** [Proposal{Type: ProposalTypeX, X: &X{...}}] *)
Definition proposal_Add (x : Add) : Proposal := mkProposal ProposalTypeAdd (Some x) None None None None None None.
Definition proposal_Update (x : Update) : Proposal := mkProposal ProposalTypeUpdate None (Some x) None None None None None.
Definition proposal_Remove (x : Remove) : Proposal := mkProposal ProposalTypeRemove None None (Some x) None None None None.
Definition proposal_PSK (x : PreSharedKey) : Proposal :=
  mkProposal ProposalTypePreSharedKey None None None (Some x) None None None.
Definition proposal_ReInit (x : ReInit) : Proposal := mkProposal ProposalTypeReInit None None None None (Some x) None None.
Definition proposal_ExternalInit (x : ExternalInit) : Proposal :=
  mkProposal ProposalTypeExternalInit None None None None None (Some x) None.
Definition proposal_GCE (x : GroupContextExtensions) : Proposal :=
  mkProposal ProposalTypeGroupContextExtensions None None None None None None (Some x).

Definition ReInit_marshal (ri : ReInit) (b : Builder) : outcome Builder :=
  let! b := WriteOpaqueV (ri_GroupID ri) b in
  let! b := WriteUint16 (ri_Version ri) b in
  let! b := WriteUint16 (ri_CipherSuite ri) b in
  WriteVectorV Extension_marshal (ri_Extensions ri) b.

Definition decodeReInit (c : Cursor) : outcome (ReInit * Cursor) :=
  let! (gid, c) := ReadOpaqueV c in
  let! (v, c) := ReadUint16 c in
  let! (cs, c) := ReadUint16 c in
  let! (exts, c) := ReadVectorV decodeExtension c in
  Ok (mkReInit gid v cs exts, c).

(** [if p.X == nil { return errors }; write the body]. *)
Definition write_body {A} (w : A -> Builder -> outcome Builder) (err : string) (x : option A) (b : Builder)
  : outcome Builder :=
  match x with None => Err err | Some x => w x b end.

(** The [switch p.Type] of [marshal]. *)
(* mls/group/proposal.go:65-118 Proposal.marshal *)
Definition marshal_proposal_body (p : Proposal) : Builder -> outcome Builder :=
  if p_Type p =? ProposalTypeAdd then
    write_body (fun x => KeyPackage_marshal (add_KeyPackage x)) "group: Proposal.Add is nil" (p_Add p)
  else if p_Type p =? ProposalTypeUpdate then
    write_body (fun x => WriteMarshalled LeafNode_marshal (update_LeafNode x)) "group: Proposal.Update is nil" (p_Update p)
  else if p_Type p =? ProposalTypeRemove then
    write_body (fun x => WriteUint32 (Removed x)) "group: Proposal.Remove is nil" (p_Remove p)
  else if p_Type p =? ProposalTypePreSharedKey then
    write_body (fun x => PreSharedKeyID_marshal (presharedkey_PSK x)) "group: Proposal.PreSharedKey is nil" (p_PreSharedKey p)
  else if p_Type p =? ProposalTypeReInit then
    write_body ReInit_marshal "group: Proposal.ReInit is nil" (p_ReInit p)
  else if p_Type p =? ProposalTypeExternalInit then
    write_body (fun x => WriteOpaqueV (ei_KemOutput x)) "group: Proposal.ExternalInit is nil" (p_ExternalInit p)
  else if p_Type p =? ProposalTypeGroupContextExtensions then
    write_body (fun x => WriteVectorV Extension_marshal (gce_Extensions x)) "group: Proposal.GroupContextExtensions is nil"
      (p_GroupContextExtensions p)
  else fun _ => Err "group: unknown proposal type".

(* mls/group/proposal.go:63-119 Proposal.marshal *)
Definition Proposal_marshal (p : Proposal) (b : Builder) : outcome Builder :=
  let! b := WriteUint16 (p_Type p) b in
  marshal_proposal_body p b.

(* mls/group/proposal.go:121-188 decodeProposal *)
Definition decodeProposal (c : Cursor) : outcome (Proposal * Cursor) :=
  let! (pt, c) := ReadUint16 c in
  if pt =? ProposalTypeAdd then
    let! (kp, c) := decodeKeyPackage c in Ok (proposal_Add (mkAdd kp), c)
  else if pt =? ProposalTypeUpdate then
    let! (ln, c) := decodeLeafNode c in Ok (proposal_Update (mkUpdate ln), c)
  else if pt =? ProposalTypeRemove then
    let! (removed, c) := ReadUint32 c in Ok (proposal_Remove (mkRemove removed), c)
  else if pt =? ProposalTypePreSharedKey then
    let! (psk, c) := decodePreSharedKeyID c in Ok (proposal_PSK (mkPreSharedKey psk), c)
  else if pt =? ProposalTypeReInit then
    let! (ri, c) := decodeReInit c in Ok (proposal_ReInit ri, c)
  else if pt =? ProposalTypeExternalInit then
    let! (k, c) := ReadOpaqueV c in Ok (proposal_ExternalInit (mkExternalInit k), c)
  else if pt =? ProposalTypeGroupContextExtensions then
    let! (exts, c) := ReadVectorV decodeExtension c in Ok (proposal_GCE (mkGroupContextExtensions exts), c)
  else Err "group: unknown proposal type".

(* mls/group/proposal.go:201-207 Proposal.MarshalMLS *)
Definition Proposal_MarshalMLS := marshal_mls Proposal_marshal.
(* mls/group/proposal.go:210-221 Proposal.UnmarshalMLS *)
Definition Proposal_UnmarshalMLS := unmarshal_mls decodeProposal "group: trailing bytes after Proposal".

(* mls/group/proposal.go:226-229 ProposalOrRefTypeProposal *)
Definition ProposalOrRefTypeProposal : Z := 1.
(* mls/group/proposal.go:226-229 ProposalOrRefTypeReference *)
Definition ProposalOrRefTypeReference : Z := 2.

(* mls/group/proposal.go:232-236 ProposalOrRef *)
Record ProposalOrRef := mkProposalOrRef {
  por_Type : Z;
  por_Proposal : option Proposal;
  por_Reference : bytes
}.

(* mls/group/proposal.go:238-251 ProposalOrRef.marshal *)
Definition ProposalOrRef_marshal (por : ProposalOrRef) (b : Builder) : outcome Builder :=
  let! b := WriteUint8 (por_Type por) b in
  (if por_Type por =? ProposalOrRefTypeProposal then
     write_body Proposal_marshal "group: ProposalOrRef.Proposal is nil" (por_Proposal por)
   else if por_Type por =? ProposalOrRefTypeReference then WriteOpaqueV (por_Reference por)
   else fun _ => Err "group: unknown ProposalOrRefType") b.

(* mls/group/proposal.go:253-275 decodeProposalOrRef *)
Definition decodeProposalOrRef (c : Cursor) : outcome (ProposalOrRef * Cursor) :=
  let! (t, c) := ReadUint8 c in
  if t =? ProposalOrRefTypeProposal then
    let! (p, c) := decodeProposal c in Ok (mkProposalOrRef t (Some p) [], c)
  else if t =? ProposalOrRefTypeReference then
    let! (r, c) := ReadOpaqueV c in Ok (mkProposalOrRef t None r, c)
  else Err "group: unknown ProposalOrRefType".

(* mls/group/proposal.go:278-284 ProposalOrRef.MarshalMLS *)
Definition ProposalOrRef_MarshalMLS := marshal_mls ProposalOrRef_marshal.
(* mls/group/proposal.go:287-298 ProposalOrRef.UnmarshalMLS *)
Definition ProposalOrRef_UnmarshalMLS := unmarshal_mls decodeProposalOrRef "group: trailing bytes after ProposalOrRef".

(** * commit.go *)

(* mls/group/commit.go:12-15 Commit *)
Record Commit := mkCommit { cm_Proposals : list ProposalOrRef; cm_Path : option UpdatePath }.

(* mls/group/commit.go:17-34 Commit.marshal *)
Definition Commit_marshal (cm : Commit) (b : Builder) : outcome Builder :=
  let! b := WriteVectorV ProposalOrRef_marshal (cm_Proposals cm) b in
  match cm_Path cm with
  | None => WriteUint8 0 b
  | Some path =>
      let! b := WriteUint8 1 b in
      WriteMarshalled UpdatePath_marshal path b
  end.

(* mls/group/commit.go:36-59 decodeCommit *)
Definition decodeCommit (c : Cursor) : outcome (Commit * Cursor) :=
  let! (props, c) := ReadVectorV decodeProposalOrRef c in
  let! (present, c) := ReadUint8 c in
  if present =? 0 then Ok (mkCommit props None, c)
  else if present =? 1 then
    let! (up, c) := decodeUpdatePath c in Ok (mkCommit props (Some up), c)
  else Err "group: invalid optional<UpdatePath> presence".

(* mls/group/commit.go:62-68 Commit.MarshalMLS *)
Definition Commit_MarshalMLS := marshal_mls Commit_marshal.
(* mls/group/commit.go:71-82 Commit.UnmarshalMLS *)
Definition Commit_UnmarshalMLS := unmarshal_mls decodeCommit "group: trailing bytes after Commit".

(** * groupinfo.go *)

(* mls/group/groupinfo.go:15-15 ExtensionTypeRatchetTree *)
Definition ExtensionTypeRatchetTree : Z := 2.
(* mls/group/groupinfo.go:20-20 ExtensionTypeExternalPub *)
Definition ExtensionTypeExternalPub : Z := 4.

(* mls/group/groupinfo.go:25-31 GroupInfo *)
Record GroupInfo := mkGroupInfo {
  gi_GroupContext : GroupContext;
  gi_Extensions : list Extension;
  gi_ConfirmationTag : bytes;
  gi_Signer : Z;
  gi_Signature : bytes
}.

(* mls/group/groupinfo.go:34-50 GroupInfo.marshalTBS *)
Definition GroupInfo_marshalTBS (gi : GroupInfo) (b : Builder) : outcome Builder :=
  let! b := WriteMarshalled GroupContext_marshal (gi_GroupContext gi) b in
  let! b := WriteVectorV Extension_marshal (gi_Extensions gi) b in
  let! b := WriteOpaqueV (gi_ConfirmationTag gi) b in
  WriteUint32 (gi_Signer gi) b.

(* mls/group/groupinfo.go:52-57 GroupInfo.marshal *)
Definition GroupInfo_marshal (gi : GroupInfo) (b : Builder) : outcome Builder :=
  let! b := GroupInfo_marshalTBS gi b in
  WriteOpaqueV (gi_Signature gi) b.

(* mls/group/groupinfo.go:59-80 decodeGroupInfo *)
Definition decodeGroupInfo (c : Cursor) : outcome (GroupInfo * Cursor) :=
  let! (gc, c) := decodeGroupContext c in
  let! (exts, c) := ReadVectorV decodeExtension c in
  let! (tag, c) := ReadOpaqueV c in
  let! (signer, c) := ReadUint32 c in
  let! (sig, c) := ReadOpaqueV c in
  Ok (mkGroupInfo gc exts tag signer sig, c).

(* mls/group/groupinfo.go:83-89 GroupInfo.tbsBytes *)
Definition GroupInfo_tbsBytes := marshal_mls GroupInfo_marshalTBS.

(** [for _, ext := range gi.Extensions], the first of a type. *)
Fixpoint find_extension (t : Z) (exts : list Extension) : option bytes :=
  match exts with
  | [] => None
  | e :: exts => if ExtensionType e =? t then Some (ExtensionData e) else find_extension t exts
  end.

(** [ExtensionData] of a decoded extension is never [nil], so the result is
    [nil] exactly when the extension is absent. *)
(* mls/group/groupinfo.go:118-125 GroupInfo.RatchetTreeExtension *)
Definition RatchetTreeExtension (gi : GroupInfo) : option bytes :=
  find_extension ExtensionTypeRatchetTree (gi_Extensions gi).

(* mls/group/groupinfo.go:131-138 GroupInfo.ExternalPubExtension *)
Definition ExternalPubExtension (gi : GroupInfo) : option bytes :=
  find_extension ExtensionTypeExternalPub (gi_Extensions gi).

(* mls/group/groupinfo.go:141-147 GroupInfo.MarshalMLS *)
Definition GroupInfo_MarshalMLS := marshal_mls GroupInfo_marshal.
(* mls/group/groupinfo.go:150-161 GroupInfo.UnmarshalMLS *)
Definition GroupInfo_UnmarshalMLS := unmarshal_mls decodeGroupInfo "group: trailing bytes after GroupInfo".

(** * welcome.go *)

(* mls/group/welcome.go:13-13 wireVersion *)
Definition wireVersion : Z := 1.
(* mls/group/welcome.go:17-21 wireFormatWelcome *)
Definition wireFormatWelcome : Z := 3.
(* mls/group/welcome.go:17-21 wireFormatGroupInfo *)
Definition wireFormatGroupInfo : Z := 4.
(* mls/group/welcome.go:17-21 wireFormatKeyPackage *)
Definition wireFormatKeyPackage : Z := 5.

(* mls/group/welcome.go:24-26 PathSecret *)
Record PathSecret := mkPathSecret { ps_PathSecret : bytes }.

(* mls/group/welcome.go:28-30 PathSecret.marshal *)
Definition PathSecret_marshal (ps : PathSecret) (b : Builder) : outcome Builder := WriteOpaqueV (ps_PathSecret ps) b.

(* mls/group/welcome.go:32-39 decodePathSecret *)
Definition decodePathSecret (c : Cursor) : outcome (PathSecret * Cursor) :=
  let! (ps, c) := ReadOpaqueV c in
  Ok (mkPathSecret ps, c).

(* mls/group/welcome.go:42-48 PathSecret.MarshalMLS *)
Definition PathSecret_MarshalMLS := marshal_mls PathSecret_marshal.
(* mls/group/welcome.go:51-62 PathSecret.UnmarshalMLS *)
Definition PathSecret_UnmarshalMLS := unmarshal_mls decodePathSecret "group: trailing bytes after PathSecret".

(* mls/group/welcome.go:66-70 GroupSecrets *)
Record GroupSecrets := mkGroupSecrets {
  gs_JoinerSecret : bytes;
  gs_PathSecret : option PathSecret;
  gs_PSKs : list PreSharedKeyID
}.

(** The [optional<PathSecret>] is written out as [WriteOptional] and
    [ReadOptional] do it. *)
(* mls/group/welcome.go:72-88 GroupSecrets.marshal *)
Definition GroupSecrets_marshal (gs : GroupSecrets) (b : Builder) : outcome Builder :=
  let! b := WriteOpaqueV (gs_JoinerSecret gs) b in
  let! b := WriteOptional PathSecret_marshal (gs_PathSecret gs) b in
  WriteVectorV PreSharedKeyID_marshal (gs_PSKs gs) b.

(* mls/group/welcome.go:90-116 decodeGroupSecrets *)
Definition decodeGroupSecrets (c : Cursor) : outcome (GroupSecrets * Cursor) :=
  let! (js, c) := ReadOpaqueV c in
  let! (ps, c) := ReadOptional decodePathSecret c in
  let! (psks, c) := ReadVectorV decodePreSharedKeyID c in
  Ok (mkGroupSecrets js ps psks, c).

(* mls/group/welcome.go:119-125 GroupSecrets.MarshalMLS *)
Definition GroupSecrets_MarshalMLS := marshal_mls GroupSecrets_marshal.
(* mls/group/welcome.go:128-139 GroupSecrets.UnmarshalMLS *)
Definition GroupSecrets_UnmarshalMLS := unmarshal_mls decodeGroupSecrets "group: trailing bytes after GroupSecrets".

(* mls/group/welcome.go:143-146 EncryptedGroupSecrets *)
Record EncryptedGroupSecrets := mkEncryptedGroupSecrets {
  egs_NewMember : bytes;
  egs_EncryptedGroupSecrets : HPKECiphertext
}.

(* mls/group/welcome.go:148-153 EncryptedGroupSecrets.marshal *)
Definition EncryptedGroupSecrets_marshal (egs : EncryptedGroupSecrets) (b : Builder) : outcome Builder :=
  let! b := WriteOpaqueV (egs_NewMember egs) b in
  HPKECiphertext_marshal (egs_EncryptedGroupSecrets egs) b.

(* mls/group/welcome.go:155-165 decodeEncryptedGroupSecrets *)
Definition decodeEncryptedGroupSecrets (c : Cursor) : outcome (EncryptedGroupSecrets * Cursor) :=
  let! (nm, c) := ReadOpaqueV c in
  let! (h, c) := decodeHPKECiphertext c in
  Ok (mkEncryptedGroupSecrets nm h, c).

(* mls/group/welcome.go:168-174 EncryptedGroupSecrets.MarshalMLS *)
Definition EncryptedGroupSecrets_MarshalMLS := marshal_mls EncryptedGroupSecrets_marshal.
(* mls/group/welcome.go:177-188 EncryptedGroupSecrets.UnmarshalMLS *)
Definition EncryptedGroupSecrets_UnmarshalMLS :=
  unmarshal_mls decodeEncryptedGroupSecrets "group: trailing bytes after EncryptedGroupSecrets".

(* mls/group/welcome.go:192-196 Welcome *)
Record Welcome := mkWelcome {
  w_CipherSuite : Z;
  w_Secrets : list EncryptedGroupSecrets;
  w_EncryptedGroupInfo : bytes
}.

(* mls/group/welcome.go:198-206 Welcome.marshal *)
Definition Welcome_marshal (w : Welcome) (b : Builder) : outcome Builder :=
  let! b := WriteUint16 (w_CipherSuite w) b in
  let! b := WriteVectorV EncryptedGroupSecrets_marshal (w_Secrets w) b in
  WriteOpaqueV (w_EncryptedGroupInfo w) b.

(* mls/group/welcome.go:208-222 decodeWelcome *)
Definition decodeWelcome (c : Cursor) : outcome (Welcome * Cursor) :=
  let! (cs, c) := ReadUint16 c in
  let! (secrets, c) := ReadVectorV decodeEncryptedGroupSecrets c in
  let! (egi, c) := ReadOpaqueV c in
  Ok (mkWelcome cs secrets egi, c).

(* mls/group/welcome.go:225-231 Welcome.MarshalMLS *)
Definition Welcome_MarshalMLS := marshal_mls Welcome_marshal.
(* mls/group/welcome.go:234-245 Welcome.UnmarshalMLS *)
Definition Welcome_UnmarshalMLS := unmarshal_mls decodeWelcome "group: trailing bytes after Welcome".

(** ** Envelopes *)

(* mls/group/welcome.go:251-267 decodeEnvelopeHeader *)
Definition decodeEnvelopeHeader (c : Cursor) (expectedWireFormat : Z) : outcome Cursor :=
  let! (ver, c) := ReadUint16 c in
  if negb (ver =? wireVersion) then Err "group: MLSMessage version" else
  let! (wf, c) := ReadUint16 c in
  if negb (wf =? expectedWireFormat) then Err "group: MLSMessage wire_format" else
  Ok c.

(* mls/group/welcome.go:270-273 writeEnvelopeHeader *)
Definition writeEnvelopeHeader (b : Builder) (wireFormat : Z) : outcome Builder :=
  let! b := WriteUint16 wireVersion b in
  WriteUint16 wireFormat b.

(** The shape of the three [Decode...Message] and [Encode...Message]
    functions. *)
Definition decode_envelope {A} (wf : Z) (r : Cursor -> outcome (A * Cursor)) (trailing : string) (data : bytes)
  : outcome A :=
  let! c := decodeEnvelopeHeader (NewCursor data) wf in
  let! (x, c) := r c in
  if negb (Empty c) then Err trailing else Ok x.

Definition encode_envelope {A} (wf : Z) (w : A -> Builder -> outcome Builder) (x : A) : outcome bytes :=
  let! b := writeEnvelopeHeader NewBuilder wf in
  let! b := w x b in
  Ok (Bytes b).

(* mls/group/welcome.go:277-290 DecodeWelcomeMessage *)
Definition DecodeWelcomeMessage :=
  decode_envelope wireFormatWelcome decodeWelcome "group: trailing bytes after Welcome envelope body".
(* mls/group/welcome.go:293-300 EncodeWelcomeMessage *)
Definition EncodeWelcomeMessage := encode_envelope wireFormatWelcome Welcome_marshal.
(* mls/group/welcome.go:303-316 DecodeGroupInfoMessage *)
Definition DecodeGroupInfoMessage :=
  decode_envelope wireFormatGroupInfo decodeGroupInfo "group: trailing bytes after GroupInfo envelope body".
(* mls/group/welcome.go:319-326 EncodeGroupInfoMessage *)
Definition EncodeGroupInfoMessage := encode_envelope wireFormatGroupInfo GroupInfo_marshal.
(* mls/group/welcome.go:329-342 DecodeKeyPackageMessage *)
Definition DecodeKeyPackageMessage :=
  decode_envelope wireFormatKeyPackage decodeKeyPackage "group: trailing bytes after KeyPackage envelope body".
(* mls/group/welcome.go:345-352 EncodeKeyPackageMessage *)
Definition EncodeKeyPackageMessage := encode_envelope wireFormatKeyPackage KeyPackage_marshal.

(** * Signatures, references and key packages *)

Section crypto.
Context {C : StdCrypto} (suite : Suite).

(* mls/group/keypackage.go:86-92 KeyPackage.VerifySignature *)
Definition KeyPackage_VerifySignature (kp : KeyPackage) : outcome bool :=
  let! tbs := KeyPackage_tbsBytes kp in
  Ok (VerifyWithLabel suite (ln_SignatureKey (kp_LeafNode kp)) "KeyPackageTBS" tbs (kp_Signature kp)).

(* mls/group/keypackage.go:97-103 KeyPackage.Ref *)
Definition KeyPackage_Ref (kp : KeyPackage) : outcome bytes :=
  let! raw := KeyPackage_MarshalMLS kp in
  RefHash suite "MLS 1.0 KeyPackage Reference" raw.

(* mls/group/proposal.go:192-198 Proposal.Ref *)
Definition Proposal_Ref (p : Proposal) : outcome bytes :=
  let! raw := Proposal_MarshalMLS p in
  RefHash suite "MLS 1.0 Proposal Reference" raw.

(* mls/group/groupinfo.go:93-104 GroupInfo.Sign *)
Definition GroupInfo_Sign (gi : GroupInfo) (signer : Signer) : outcome GroupInfo :=
  let! tbs := GroupInfo_tbsBytes gi in
  let! sig := SignWithLabel suite signer "GroupInfoTBS" tbs in
  Ok (mkGroupInfo (gi_GroupContext gi) (gi_Extensions gi) (gi_ConfirmationTag gi) (gi_Signer gi) sig).

(* mls/group/groupinfo.go:108-114 GroupInfo.VerifySignature *)
Definition GroupInfo_VerifySignature (gi : GroupInfo) (signerPub : bytes) : outcome bool :=
  let! tbs := GroupInfo_tbsBytes gi in
  Ok (VerifyWithLabel suite signerPub "GroupInfoTBS" tbs (gi_Signature gi)).

(* mls/group/keypackage_gen.go:57-63 defaultCapabilities *)
Definition defaultCapabilities : Capabilities :=
  mkCapabilities [ProtocolVersionMLS10] [suite_ID suite] [] [] [CredentialTypeBasic].

(** The two random draws, of the init key and of the leaf key, are [r1] and
    [r2]. *)
(* mls/group/keypackage_gen.go:14-54 NewKeyPackage *)
Definition NewKeyPackage (r1 r2 : Rand) (cred : Credential) (signer : Signer) (lifetime : Lifetime)
  : outcome (KeyPackage * bytes * bytes) :=
  let! (initPriv, initPub) := GenerateHPKEKeyPair suite r1 in
  let! (leafPriv, leafPub) := GenerateHPKEKeyPair suite r2 in
  let! sigPub := SignaturePublicKey suite signer in
  let ln := mkLeafNode leafPub sigPub cred defaultCapabilities LeafNodeSourceKeyPackage (Some lifetime) [] [] [] in
  let! ln := SignLeafNode suite signer ln [] 0 in
  let kp := mkKeyPackage ProtocolVersionMLS10 (suite_ID suite) initPub ln [] [] in
  let! tbs := KeyPackage_tbsBytes kp in
  let! sig := SignWithLabel suite signer "KeyPackageTBS" tbs in
  Ok (mkKeyPackage (kp_Version kp) (kp_CipherSuite kp) (kp_InitKey kp) (kp_LeafNode kp) (kp_Extensions kp) sig,
      initPriv, leafPriv).
End crypto.

(** * Wire instances *)

(** Two computations with the same successful result; errors may differ. *)
Definition ok_equiv {A} (m m' : outcome A) : Prop := forall a, m = Ok a <-> m' = Ok a.

#[global] Instance ok_equiv_equivalence A : Equivalence (@ok_equiv A).
Proof. split; [by intros m a|intros m m' H a; symmetry; apply H|intros m1 m2 m3 H1 H2 a; etransitivity; [apply H1|apply H2]]. Qed.

#[global] Instance obind_proper A B :
  Proper (ok_equiv ==> pointwise_relation A ok_equiv ==> ok_equiv) (@obind A B).
Proof.
  intros m m' Hm k k' Hk b. rewrite !obind_ok. split; intros (a & Ha & Hb); exists a;
    (split; [by apply Hm|by apply Hk]).
Qed.

(** A writer with the same successes as a [Wire] writer is one too. *)
Lemma wire_equiv {A} (ok : A -> Prop) w w' r :
  (forall x b, ok_equiv (w' x b) (w x b)) -> Wire ok w r -> Wire ok w' r.
Proof.
  intros E W. assert (forall x e, emits (w x) e <-> emits (w' x) e) as Em by (split; intros H b; by apply E).
  split.
  - intros x b b' H%E. apply wire_append in H as (e & He & ->). exists e. split; [by apply Em|done].
  - intros x e c Hok He. by apply (wire_decode (w := w)), Em.
  - intros c x c' H. apply wire_sound in H as (Hok & e & ? & ? & He). split; [done|]. exists e.
    split_and!; [done..|]. by apply Em.
  - apply wire_returns.
Qed.

Lemma WriteMarshalled_equiv {A} {ok : A -> Prop} {w r} `{!Wire ok w r} x b :
  ok_equiv (WriteMarshalled w x b) (w x b).
Proof.
  intros b'. unfold WriteMarshalled. rewrite obind_ok. split.
  - intros (raw & Hr & [= <-]). by apply marshal_mls_ok in Hr.
  - intros H. apply wire_append in H as (e & He & ->). exists e. split; [by apply marshal_mls_ok|done].
Qed.

Lemma WriteMarshalled_emits {A} {ok : A -> Prop} {w r} `{!Wire ok w r} x e :
  emits (WriteMarshalled w x) e <-> emits (w x) e.
Proof. split; intros H b; by apply WriteMarshalled_equiv. Qed.

Lemma WriteMarshalled_appends {A} {ok : A -> Prop} {w r} `{!Wire ok w r} x : appends (WriteMarshalled w x).
Proof.
  intros b b' H%WriteMarshalled_equiv. apply wire_append in H as (e & He & ->). exists e.
  split; [by apply WriteMarshalled_emits|done].
Qed.

Definition KeyPackage_ok (kp : KeyPackage) : Prop :=
  is_u16 (kp_Version kp) /\ is_u16 (kp_CipherSuite kp) /\ LeafNode_ok (kp_LeafNode kp) /\
  Forall Extension_ok (kp_Extensions kp).

(** [marshal] with the nested writers unfolded: one field write after the
    other. *)
Definition KeyPackage_fields (kp : KeyPackage) (b : Builder) : outcome Builder :=
  let! b := WriteUint16 (kp_Version kp) b in
  let! b := WriteUint16 (kp_CipherSuite kp) b in
  let! b := WriteOpaqueV (kp_InitKey kp) b in
  let! b := LeafNode_marshal (kp_LeafNode kp) b in
  let! b := WriteVectorV Extension_marshal (kp_Extensions kp) b in
  WriteOpaqueV (kp_Signature kp) b.

(** Removes nested sequencing and inlined marshalling under the binds. *)
Ltac flatten_writer :=
  repeat lazymatch goal with
  | |- ok_equiv (obind (obind ?m ?f) ?g) _ => rewrite (obind_assoc m f g)
  | |- ok_equiv (obind (WriteMarshalled _ _ _) _) _ => apply obind_proper; [apply WriteMarshalled_equiv|intros ?]
  | |- ok_equiv (obind ?m _) (obind ?m _) => apply obind_proper; [reflexivity|intros ?]
  | |- ok_equiv (WriteMarshalled _ _ _) _ => apply WriteMarshalled_equiv
  | |- _ => reflexivity
  end.

#[global] Instance wire_KeyPackage : Wire KeyPackage_ok KeyPackage_marshal decodeKeyPackage.
Proof.
  apply (wire_equiv _ KeyPackage_fields).
  { intros x b. unfold KeyPackage_fields, KeyPackage_marshal, KeyPackage_marshalTBS. flatten_writer. }
  wire_record KeyPackage_fields decodeKeyPackage.
  - destruct Hok as (? & ? & ? & ?). decode_fields. by destruct x.
  - split; [done|]. unfold KeyPackage_fields. sound_join.
Qed.

#[global] Instance wire_ReInit : Wire (fun ri => is_u16 (ri_Version ri) /\ is_u16 (ri_CipherSuite ri) /\
  Forall Extension_ok (ri_Extensions ri)) ReInit_marshal decodeReInit.
Proof.
  wire_record ReInit_marshal decodeReInit.
  - destruct Hok as (? & ? & ?). decode_fields. by destruct x.
  - split; [done|]. unfold ReInit_marshal. sound_join.
Qed.

(** A proposal is well-formed when it has the body its type selects and no
    other, with integers in range. *)
Inductive Proposal_ok : Proposal -> Prop :=
| ok_Add kp : KeyPackage_ok kp -> Proposal_ok (proposal_Add (mkAdd kp))
| ok_Update ln : LeafNode_ok ln -> Proposal_ok (proposal_Update (mkUpdate ln))
| ok_Remove i : is_u32 i -> Proposal_ok (proposal_Remove (mkRemove i))
| ok_PSK id : PreSharedKeyID_ok id -> Proposal_ok (proposal_PSK (mkPreSharedKey id))
| ok_ReInit ri : is_u16 (ri_Version ri) -> is_u16 (ri_CipherSuite ri) -> Forall Extension_ok (ri_Extensions ri) ->
    Proposal_ok (proposal_ReInit ri)
| ok_ExternalInit k : Proposal_ok (proposal_ExternalInit (mkExternalInit k))
| ok_GCE exts : Forall Extension_ok exts -> Proposal_ok (proposal_GCE (mkGroupContextExtensions exts)).

Lemma write_body_appends {A} (w : A -> Builder -> outcome Builder) err x :
  (forall y, appends (w y)) -> appends (write_body w err x).
Proof. intros H. destruct x; [apply H|apply appends_err]. Qed.

Lemma proposal_body_appends p : appends (marshal_proposal_body p).
Proof.
  unfold marshal_proposal_body.
  repeat (destruct (_ =? _); [apply write_body_appends; intros y;
    first [apply WriteMarshalled_appends|appends_tac]|]). apply appends_err.
Qed.

Lemma u16_type t : 0 <= t <= 7 -> is_u16 t.
Proof. unfold is_u16. lia. Qed.

(** One case of the decoder on what [marshal] wrote: the type, then the body. *)
Ltac decode_case :=
  match goal with He : emits (Proposal_marshal ?p) ?e |- _ =>
    apply (emits_bind_inv (WriteUint16 (p_Type p)) (marshal_proposal_body p)) in He as (e1 & e2 & -> & E1 & He);
      [|apply wire_appends|apply proposal_body_appends];
    unfold decodeProposal; rewrite <- app_assoc, (wire_decode (r := ReadUint16) (p_Type p) e1) by
      (done || (apply u16_type; cbv; split; congruence)); cbn [obind];
    cbn [p_Type proposal_Add proposal_Update proposal_Remove proposal_PSK proposal_ReInit proposal_ExternalInit
      proposal_GCE ProposalTypeAdd ProposalTypeUpdate ProposalTypeRemove ProposalTypePreSharedKey ProposalTypeReInit
      ProposalTypeExternalInit ProposalTypeGroupContextExtensions Z.eqb Pos.eqb];
    cbv [marshal_proposal_body write_body p_Type p_Add p_Update p_Remove p_PreSharedKey p_ReInit p_ExternalInit p_GroupContextExtensions
      proposal_Add proposal_Update proposal_Remove proposal_PSK proposal_ReInit proposal_ExternalInit
      proposal_GCE ProposalTypeAdd ProposalTypeUpdate ProposalTypeRemove ProposalTypePreSharedKey ProposalTypeReInit
      ProposalTypeExternalInit ProposalTypeGroupContextExtensions Z.eqb Pos.eqb
      add_KeyPackage update_LeafNode Removed presharedkey_PSK ei_KemOutput gce_Extensions] in He
  end.

Lemma decodeProposal_marshal p e c : Proposal_ok p -> emits (Proposal_marshal p) e -> decodeProposal (e ++ c) = Ok (p, c).
Proof.
  intros [kp Hok|ln Hok|i Hok|id Hok|ri H1 H2 H3|k|exts Hok] He; decode_case.
  - by rewrite (wire_decode (w := KeyPackage_marshal) kp e2).
  - apply WriteMarshalled_emits in He. by rewrite (wire_decode (w := LeafNode_marshal) ln e2).
  - by rewrite (wire_decode (w := WriteUint32) i e2).
  - by rewrite (wire_decode (w := PreSharedKeyID_marshal) id e2).
  - by rewrite (wire_decode (w := ReInit_marshal) ri e2).
  - by rewrite (wire_decode (w := WriteOpaqueV) k e2).
  - by rewrite (wire_decode (w := WriteVectorV Extension_marshal) exts e2).
Qed.

Lemma decodeProposal_sound c p c' : decodeProposal c = Ok (p, c') ->
  Proposal_ok p /\ exists e, e <> [] /\ c = e ++ c' /\ emits (Proposal_marshal p) e.
Proof.
  intros H. unfold decodeProposal in H. apply obind_ok in H as ([pt c1] & Hpt & H).
  apply (wire_sound (r := ReadUint16)) in Hpt as (_ & e & Hne & -> & He).
  repeat match type of H with
  | (if ?pt =? ?k then _ else _) = _ => destruct (Z.eqb_spec pt k) as [->|_];
      [apply obind_ok in H as ([v c2] & Hv & [= <- <-]); apply wire_sound in Hv as (Hok & e2 & Hne2 & -> & He2);
       (split; [constructor; first [exact Hok|apply Hok]|]); exists (e ++ e2); rewrite app_assoc;
       (split_and!; [app_nonempty|done|]); apply (emits_bind (WriteUint16 k)); [exact He|];
       first [exact He2|apply WriteMarshalled_emits, He2]|]
  end. done.
Qed.

#[global] Instance wire_Proposal : Wire Proposal_ok Proposal_marshal decodeProposal.
Proof.
  split.
  - intros x. change (appends (Proposal_marshal x)). unfold Proposal_marshal.
    apply appends_bind; [apply wire_appends|apply proposal_body_appends].
  - apply decodeProposal_marshal.
  - apply decodeProposal_sound.
  - intros c. unfold decodeProposal. returns_fields.
Qed.

Definition ProposalOrRef_ok (por : ProposalOrRef) : Prop :=
  (por_Type por = ProposalOrRefTypeProposal /\ por_Reference por = [] /\
     exists p, por_Proposal por = Some p /\ Proposal_ok p) \/
  (por_Type por = ProposalOrRefTypeReference /\ por_Proposal por = None).

Lemma ProposalOrRef_body_appends por : appends
  (if por_Type por =? ProposalOrRefTypeProposal then
     write_body Proposal_marshal "group: ProposalOrRef.Proposal is nil" (por_Proposal por)
   else if por_Type por =? ProposalOrRefTypeReference then WriteOpaqueV (por_Reference por)
   else fun _ => Err "group: unknown ProposalOrRefType").
Proof.
  repeat case_match; [apply write_body_appends; intros; apply wire_appends|apply wire_appends|apply appends_err].
Qed.

#[global] Instance wire_ProposalOrRef : Wire ProposalOrRef_ok ProposalOrRef_marshal decodeProposalOrRef.
Proof.
  split.
  - intros x. change (appends (ProposalOrRef_marshal x)). unfold ProposalOrRef_marshal.
    apply appends_bind; [apply wire_appends|apply ProposalOrRef_body_appends].
  - intros x e c Hok He. unfold ProposalOrRef_marshal in He.
    apply emits_bind_inv in He as (e1 & e2 & -> & E1 & He); [|apply wire_appends|apply ProposalOrRef_body_appends].
    change (emits (WriteUint8 (por_Type x)) e1) in E1. unfold decodeProposalOrRef. rewrite <- app_assoc.
    destruct x as [t op r]. unfold ProposalOrRef_ok in Hok. cbn [por_Type por_Proposal por_Reference] in *.
    assert (is_u8 t) as Ht by (unfold is_u8, ProposalOrRefTypeProposal, ProposalOrRefTypeReference in *; lia).
    rewrite (wire_decode (r := ReadUint8) t e1 _ Ht E1). cbn [obind].
    destruct Hok as [(-> & -> & p & -> & Hp)|[-> ->]].
    + by rewrite (wire_decode (w := Proposal_marshal) p e2).
    + by rewrite (wire_decode (w := WriteOpaqueV) r e2).
  - intros c x c' H. unfold decodeProposalOrRef in H. apply obind_ok in H as ([t c1] & Ht & H).
    apply (wire_sound (r := ReadUint8)) in Ht as (_ & e & Hne & -> & He).
    destruct (Z.eqb_spec t ProposalOrRefTypeProposal) as [->|_];
      [|destruct (Z.eqb_spec t ProposalOrRefTypeReference) as [->|_]; [|done]].
    all: apply obind_ok in H as ([v c2] & Hv & [= <- <-]); apply wire_sound in Hv as (Hok & e2 & Hne2 & -> & He2).
    all: split; [|exists (e ++ e2); rewrite app_assoc; split_and!; [app_nonempty|done|]].
    + left. split_and!; [done..|]. by exists v.
    + exact (emits_bind (WriteUint8 _) _ _ _ He He2).
    + by right.
    + exact (emits_bind (WriteUint8 _) _ _ _ He He2).
  - intros c. unfold decodeProposalOrRef. returns_fields.
Qed.

Definition Commit_ok (cm : Commit) : Prop :=
  Forall ProposalOrRef_ok (cm_Proposals cm) /\ from_option UpdatePath_ok True (cm_Path cm).

(** A commit is a vector of proposals and an optional path. *)
Definition Commit_fields (cm : Commit) (b : Builder) : outcome Builder :=
  let! b := WriteVectorV ProposalOrRef_marshal (cm_Proposals cm) b in
  WriteOptional UpdatePath_marshal (cm_Path cm) b.

Lemma Commit_marshal_fields cm b : ok_equiv (Commit_marshal cm b) (Commit_fields cm b).
Proof.
  unfold Commit_marshal, Commit_fields, WriteOptional. apply obind_proper; [reflexivity|intros b1].
  destruct (cm_Path cm); [|reflexivity]. apply obind_proper; [reflexivity|]. intros b2. apply WriteMarshalled_equiv.
Qed.

#[global] Instance wire_Commit : Wire Commit_ok Commit_marshal decodeCommit.
Proof.
  apply (wire_equiv _ Commit_fields); [apply Commit_marshal_fields|]. split.
  - intros x. change (appends (Commit_fields x)). unfold Commit_fields. appends_tac.
  - intros [ps path] e c [H1 H2] He. unfold Commit_fields in He. cbn [cm_Proposals cm_Path] in *.
    emits_split He. unfold decodeCommit. decode_fields. destruct path as [up|].
    + apply (emits_bind_inv (WriteUint8 1)) in He as (e1 & e2 & -> & E1 & He); [|apply wire_appends..].
      rewrite <- app_assoc, (wire_decode (w := WriteUint8) 1 e1) by done. cbn [obind Z.eqb Pos.eqb].
      by rewrite (wire_decode (w := UpdatePath_marshal) up e2).
    + by rewrite (wire_decode (w := WriteUint8) 0).
  - intros c x c' H. unfold decodeCommit in H. apply obind_ok in H as ([ps c1] & H1 & H).
    apply obind_ok in H as ([v c2] & H2 & H). apply wire_sound in H1 as (Hps & e & Hne & -> & He).
    assert (ReadOptional decodeUpdatePath c1 = Ok (cm_Path x, c') /\ cm_Proposals x = ps) as [Hr <-].
    { unfold ReadOptional. rewrite H2. cbn [obind]. destruct (v =? 0); [by injection H as <- <-|].
      destruct (v =? 1); [|done]. apply obind_ok in H as ([up c3] & -> & [= <- <-]). done. }
    apply wire_sound in Hr as (Hup & e2 & Hne2 & -> & He2). split; [split; [done|by destruct (cm_Path x)]|].
    exists (e ++ e2). rewrite app_assoc. split_and!; [app_nonempty|done|].
    unfold Commit_fields. by apply emits_bind.
  - intros c. unfold decodeCommit. returns_fields.
Qed.

Definition GroupInfo_ok (gi : GroupInfo) : Prop :=
  GroupContext_ok (gi_GroupContext gi) /\ Forall Extension_ok (gi_Extensions gi) /\ is_u32 (gi_Signer gi).

Definition GroupInfo_fields (gi : GroupInfo) (b : Builder) : outcome Builder :=
  let! b := GroupContext_marshal (gi_GroupContext gi) b in
  let! b := WriteVectorV Extension_marshal (gi_Extensions gi) b in
  let! b := WriteOpaqueV (gi_ConfirmationTag gi) b in
  let! b := WriteUint32 (gi_Signer gi) b in
  WriteOpaqueV (gi_Signature gi) b.

#[global] Instance wire_GroupInfo : Wire GroupInfo_ok GroupInfo_marshal decodeGroupInfo.
Proof.
  apply (wire_equiv _ GroupInfo_fields).
  { intros x b. unfold GroupInfo_fields, GroupInfo_marshal, GroupInfo_marshalTBS. flatten_writer. }
  wire_record GroupInfo_fields decodeGroupInfo.
  - destruct Hok as (? & ? & ?). decode_fields. by destruct x.
  - split; [done|]. unfold GroupInfo_fields. sound_join.
Qed.

#[global] Instance wire_PathSecret : Wire (fun _ => True) PathSecret_marshal decodePathSecret.
Proof.
  wire_record PathSecret_marshal decodePathSecret.
  - by destruct x.
  - split; [done|]. unfold PathSecret_marshal. sound_join.
Qed.

Definition GroupSecrets_ok (gs : GroupSecrets) : Prop := Forall PreSharedKeyID_ok (gs_PSKs gs).

#[global] Instance wire_GroupSecrets : Wire GroupSecrets_ok GroupSecrets_marshal decodeGroupSecrets.
Proof.
  wire_record GroupSecrets_marshal decodeGroupSecrets.
  - rewrite (wire_decode (r := ReadOptional decodePathSecret) (gs_PathSecret x)) by (done || by destruct (gs_PathSecret x)).
    cbn [obind]. change (Forall PreSharedKeyID_ok (gs_PSKs x)) in Hok.
    rewrite (wire_decode (w := WriteVectorV PreSharedKeyID_marshal) _ _ _ Hok He). by destruct x.
  - split; [done|]. unfold GroupSecrets_marshal. sound_join.
Qed.

#[global] Instance wire_EncryptedGroupSecrets :
  Wire (fun _ => True) EncryptedGroupSecrets_marshal decodeEncryptedGroupSecrets.
Proof.
  wire_record EncryptedGroupSecrets_marshal decodeEncryptedGroupSecrets.
  - by destruct x.
  - split; [done|]. unfold EncryptedGroupSecrets_marshal. sound_join.
Qed.

Definition Welcome_ok (w : Welcome) : Prop := is_u16 (w_CipherSuite w).

#[global] Instance wire_Welcome : Wire Welcome_ok Welcome_marshal decodeWelcome.
Proof.
  wire_record Welcome_marshal decodeWelcome.
  - match goal with E : emits (WriteVectorV _ _) _ |- _ =>
      rewrite (wire_decode (w := WriteVectorV EncryptedGroupSecrets_marshal) _ _ _
        (Forall_trivial (fun _ => True) _ (fun _ => I)) E) end.
    cbn [obind]. decode_fields. by destruct x.
  - split; [done|]. unfold Welcome_marshal. sound_join.
Qed.

(** * Envelopes *)

Section envelope.
Context {A : Type} {ok : A -> Prop} {w : A -> Builder -> outcome Builder} {r : Cursor -> outcome (A * Cursor)}
  `{W : !Wire ok w r} (wf : Z) (Hwf : is_u16 wf) (s : string).

Lemma decode_envelope_app x e : ok x -> emits (w x) e ->
  decode_envelope wf r s (be_bytes 2 wireVersion ++ be_bytes 2 wf ++ e) = Ok x.
Proof.
  intros Hok He. unfold decode_envelope, decodeEnvelopeHeader, NewCursor.
  rewrite (wire_decode (w := WriteUint16) wireVersion) by (done || (unfold is_u16, wireVersion; lia)).
  cbn [obind Z.eqb Pos.eqb negb wireVersion]. rewrite (wire_decode (w := WriteUint16) wf) by done.
  cbn [obind]. rewrite Z.eqb_refl. cbn [negb obind].
  by rewrite <- (app_nil_r e), (wire_decode x e) by done.
Qed.

Lemma encode_envelope_ok x data : encode_envelope wf w x = Ok data <->
  exists e, emits (w x) e /\ data = be_bytes 2 wireVersion ++ be_bytes 2 wf ++ e.
Proof.
  unfold encode_envelope, writeEnvelopeHeader, WriteUint16, NewBuilder, Bytes. cbn [obind]. rewrite obind_ok. split.
  - intros (b & H & [= <-]). apply wire_append in H as (e & He & ->). exists e. split; [done|].
    by rewrite app_nil_l, <- app_assoc.
  - intros (e & He & ->). eexists. split; [apply He|]. by rewrite app_nil_l, <- app_assoc.
Qed.

Lemma decode_encode_envelope x data : ok x -> encode_envelope wf w x = Ok data -> decode_envelope wf r s data = Ok x.
Proof. intros Hok (e & He & ->)%encode_envelope_ok. by apply decode_envelope_app. Qed.

Lemma encode_decode_envelope x data : decode_envelope wf r s data = Ok x -> ok x /\ encode_envelope wf w x = Ok data.
Proof.
  unfold decode_envelope, decodeEnvelopeHeader, NewCursor. intros H. apply obind_ok in H as (c & Hh & H).
  apply obind_ok in Hh as ([v c1] & Hv & Hh). apply (wire_sound (r := ReadUint16)) in Hv as (_ & e1 & _ & -> & E1).
  destruct (Z.eqb_spec v wireVersion) as [->|]; [|done]. cbn [negb] in Hh.
  apply obind_ok in Hh as ([v c2] & Hv & Hh). apply (wire_sound (r := ReadUint16)) in Hv as (_ & e2 & _ & -> & E2).
  destruct (Z.eqb_spec v wf) as [->|]; [|done]. cbn [negb] in Hh. injection Hh as <-.
  apply obind_ok in H as ([y c3] & Hy & H). destruct (Empty c3) eqn:E; [|done]. injection H as <-.
  apply Empty_true in E as ->. apply wire_sound in Hy as (Hok & e & _ & -> & He). split; [done|].
  apply encode_envelope_ok. exists e. split; [done|]. rewrite app_nil_r.
  rewrite (emits_det _ _ _ E1 (emits_ok _)), (emits_det _ _ _ E2 (emits_ok _)). done.
Qed.

Lemma decode_envelope_returns data : returns (decode_envelope wf r s data).
Proof.
  unfold decode_envelope, decodeEnvelopeHeader. apply returns_obind; [returns_fields|].
  intros c _. apply returns_obind; [apply wire_returns|]. intros [x c'] _. by case_match.
Qed.

Lemma envelope_exact x data :
  returns (decode_envelope wf r s data) /\ (decode_envelope wf r s data = Ok x <-> ok x /\ encode_envelope wf w x = Ok data).
Proof.
  split; [apply decode_envelope_returns|]. split; [apply encode_decode_envelope|].
  intros [Hok H]. by apply decode_encode_envelope.
Qed.
End envelope.

(** * Framing carries proposals and commits

    The skimmers of [mls/framing] delimit what the decoders of this package
    read. *)

Lemma ReadOpaqueV_vector {T} {ok : T -> Prop} {enc dec} `{!Wire ok enc dec} items e c :
  emits (WriteVectorV enc items) e -> exists body, ReadOpaqueV (e ++ c) = Ok (body, c).
Proof.
  intros He. pose proof (He []) as H. unfold WriteVectorV in H. apply obind_ok in H as (inner & Hi & H).
  exists (Bytes inner). apply (wire_decode (w := WriteOpaqueV)); [done|].
  intros b. specialize (He b). unfold WriteVectorV in He. rewrite Hi in He. exact He.
Qed.

Lemma skimKeyPackage_marshal kp e c : KeyPackage_ok kp -> emits (KeyPackage_marshal kp) e ->
  skimKeyPackage (e ++ c) = Ok c.
Proof.
  intros Hok He. pose proof (wire_decode kp e c Hok He) as H. unfold decodeKeyPackage in H. unfold skimKeyPackage.
  do 6 (apply obind_ok in H as ([? ?] & -> & H); cbn [obind]). by injection H as _ <-.
Qed.

Lemma skimPreSharedKeyID_marshal id e c : PreSharedKeyID_ok id -> emits (PreSharedKeyID_marshal id) e ->
  skimPreSharedKeyID (e ++ c) = Ok c.
Proof.
  intros Hok He. pose proof (wire_decode id e c Hok He) as H. unfold decodePreSharedKeyID in H. unfold skimPreSharedKeyID.
  apply obind_ok in H as ([t c1] & -> & H). cbn [obind]. unfold PSKTypeExternal, PSKTypeResumption in H.
  destruct (t =? 1); [|destruct (t =? 2); [|done]];
    repeat (apply obind_ok in H as ([? ?] & -> & H); cbn [obind]); by injection H as _ <-.
Qed.

Lemma skimProposal_marshal p e : Proposal_ok p -> emits (Proposal_marshal p) e -> skimProposal e = Ok [].
Proof.
  intros Hok He. rewrite <- (app_nil_r e).
  destruct Hok as [kp Hok|ln Hok|i Hok|id Hok|ri H1 H2 H3|k|exts Hok];
    match goal with He : emits (Proposal_marshal ?p) ?e |- _ =>
      apply (emits_bind_inv (WriteUint16 (p_Type p)) (marshal_proposal_body p)) in He as (e1 & e2 & -> & E1 & He);
        [|apply wire_appends|apply proposal_body_appends];
      unfold skimProposal; rewrite <- app_assoc, (wire_decode (r := ReadUint16) (p_Type p) e1 (e2 ++ []));
        [|apply u16_type; cbv; split; congruence|done]; cbn [obind]
    end.
  - by apply (skimKeyPackage_marshal kp).
  - apply WriteMarshalled_emits in He. cbn [p_Type proposal_Update ProposalTypeUpdate Z.eqb Pos.eqb].
    by rewrite (wire_decode (r := decodeLeafNode) ln e2).
  - cbn [p_Type proposal_Remove ProposalTypeRemove Z.eqb Pos.eqb]. by rewrite (wire_decode (r := ReadUint32) i e2).
  - by apply (skimPreSharedKeyID_marshal id).
  - cbn [p_Type proposal_ReInit ProposalTypeReInit Z.eqb Pos.eqb]. change (emits (ReInit_marshal ri) e2) in He.
    unfold ReInit_marshal in He. emits_split He. rewrite <- !app_assoc. decode_fields.
    by destruct (ReadOpaqueV_vector (ri_Extensions ri) _ [] He) as [body ->].
  - cbn [p_Type proposal_ExternalInit ProposalTypeExternalInit Z.eqb Pos.eqb].
    by rewrite (wire_decode (r := ReadOpaqueV) k e2).
  - cbn [p_Type proposal_GCE ProposalTypeGroupContextExtensions Z.eqb Pos.eqb].
    by destruct (ReadOpaqueV_vector exts e2 [] He) as [body ->].
Qed.

Lemma skimCommit_marshal cm e : Commit_ok cm -> emits (Commit_marshal cm) e -> skimCommit e = Ok [].
Proof.
  intros Hok He. pose proof (wire_decode cm e [] Hok He) as H. rewrite app_nil_r in H. unfold decodeCommit in H.
  unfold skimCommit. apply obind_ok in H as ([ps c1] & Hps & H). unfold ReadVectorV in Hps.
  apply obind_ok in Hps as ([body c2] & -> & Hps). apply obind_ok in Hps as (items & _ & [= <- <-]). cbn [obind].
  apply obind_ok in H as ([v c3] & -> & H). cbn [obind]. destruct (v =? 0); [by injection H as _ <-|].
  destruct (v =? 1); [|done]. apply obind_ok in H as ([up c4] & -> & [= _ <-]). done.
Qed.

Lemma proposal_content_ok p raw : Proposal_ok p -> Proposal_MarshalMLS p = Ok raw -> content_ok ContentTypeProposal raw.
Proof. intros Hok H%marshal_mls_ok. split; [|done]. intros _. by eapply skimProposal_marshal. Qed.

Lemma commit_content_ok cm raw : Commit_ok cm -> Commit_MarshalMLS cm = Ok raw -> content_ok ContentTypeCommit raw.
Proof. intros Hok H%marshal_mls_ok. split; [done|]. intros _. by eapply skimCommit_marshal. Qed.

(** * Fresh key packages and signed group infos *)

Section fresh.
Context {C : StdCrypto} `{!StdCryptoLaws C} (suite : Suite).

Lemma SignLeafNode_verifies signer pub ln ln' gid i : SignaturePublicKey suite signer = Ok pub -> ln_SignatureKey ln = pub ->
  SignLeafNode suite signer ln gid i = Ok ln' ->
  ln' = with_signature ln (ln_Signature ln') /\ LeafNode_VerifySignature ln' suite gid i = Ok true.
Proof.
  intros Hp Hk H. unfold SignLeafNode in H. apply obind_ok in H as (tbs & Ht & H).
  apply obind_ok in H as (sig & Hs & [= <-]). split; [done|].
  unfold LeafNode_VerifySignature, LeafNode_verifySignature.
  change (LeafNode_tbs (with_signature ln sig) gid i) with (LeafNode_tbs ln gid i). rewrite Ht. cbn [obind]. f_equal.
  unfold with_signature. cbn [ln_SignatureKey ln_Signature]. rewrite Hk. by apply (VerifyWithLabel_Sign suite signer).
Qed.

Lemma GroupInfo_Sign_verifies signer pub gi gi' : SignaturePublicKey suite signer = Ok pub ->
  GroupInfo_Sign suite gi signer = Ok gi' ->
  gi' = mkGroupInfo (gi_GroupContext gi) (gi_Extensions gi) (gi_ConfirmationTag gi) (gi_Signer gi) (gi_Signature gi') /\
  GroupInfo_VerifySignature suite gi' pub = Ok true.
Proof.
  intros Hp H. unfold GroupInfo_Sign in H. apply obind_ok in H as (tbs & Ht & H).
  apply obind_ok in H as (sig & Hs & [= <-]). split; [done|]. unfold GroupInfo_VerifySignature.
  change (GroupInfo_tbsBytes (mkGroupInfo _ _ _ _ sig)) with (GroupInfo_tbsBytes gi). rewrite Ht. cbn [obind]. f_equal.
  by apply (VerifyWithLabel_Sign suite signer).
Qed.
End fresh.

(** * Properties *)

(** C36: the bodies of handshake messages have one encoding each.
    [Proposal.UnmarshalMLS] and [Commit.UnmarshalMLS] return on every input
    and accept exactly the encodings [MarshalMLS] gives of well-formed values
    (each proposal with the body its type selects and no other); and every
    such encoding is a content that the framing layer delimits. *)
Theorem handshake_body_codec data p cm :
  returns (Proposal_UnmarshalMLS data) /\ returns (Commit_UnmarshalMLS data) /\
  (Proposal_UnmarshalMLS data = Ok p <-> Proposal_ok p /\ Proposal_MarshalMLS p = Ok data) /\
  (Commit_UnmarshalMLS data = Ok cm <-> Commit_ok cm /\ Commit_MarshalMLS cm = Ok data) /\
  (Proposal_UnmarshalMLS data = Ok p -> content_ok ContentTypeProposal data) /\
  (Commit_UnmarshalMLS data = Ok cm -> content_ok ContentTypeCommit data).
Proof.
  split; [apply unmarshal_returns|]. split; [apply unmarshal_returns|]. split_and!.
  - split; [apply marshal_unmarshal|]. intros [Hok H]. by eapply unmarshal_marshal.
  - split; [apply marshal_unmarshal|]. intros [Hok H]. by eapply unmarshal_marshal.
  - intros [Hok H]%marshal_unmarshal. by eapply proposal_content_ok.
  - intros [Hok H]%marshal_unmarshal. by eapply commit_content_ok.
Qed.

(** The envelopes of welcomes, group infos and key packages: each
    [Decode...Message] returns on every input and accepts exactly what its
    [Encode...Message] produces of a well-formed value, version and wire
    format included; so no envelope decodes as two kinds of message. *)
Lemma envelope_codec data w gi kp :
  (returns (DecodeWelcomeMessage data) /\
   (DecodeWelcomeMessage data = Ok w <-> Welcome_ok w /\ EncodeWelcomeMessage w = Ok data)) /\
  (returns (DecodeGroupInfoMessage data) /\
   (DecodeGroupInfoMessage data = Ok gi <-> GroupInfo_ok gi /\ EncodeGroupInfoMessage gi = Ok data)) /\
  (returns (DecodeKeyPackageMessage data) /\
   (DecodeKeyPackageMessage data = Ok kp <-> KeyPackage_ok kp /\ EncodeKeyPackageMessage kp = Ok data)).
Proof. split_and!; apply envelope_exact; unfold is_u16; done. Qed.

(** A fresh key package is valid: [NewKeyPackage] returns a package for the
    suite whose own signature and whose leaf's signature verify (the leaf's at
    every position of every group, since a [key_package] leaf is not bound to
    one), whose two public keys belong to the private keys returned, and whose
    envelope decodes to it again when the credential and lifetime are
    encodable. *)
Lemma new_key_package_valid {C : StdCrypto} `{!StdCryptoLaws C} (suite : Suite) r1 r2 cred signer lifetime kp initPriv leafPriv :
  NewKeyPackage suite r1 r2 cred signer lifetime = Ok (kp, initPriv, leafPriv) ->
  kp_CipherSuite kp = suite_ID suite /\ KeyPackage_VerifySignature suite kp = Ok true /\
  (forall gid i, LeafNode_VerifySignature (kp_LeafNode kp) suite gid i = Ok true) /\
  GenerateHPKEKeyPair suite r1 = Ok (initPriv, kp_InitKey kp) /\
  GenerateHPKEKeyPair suite r2 = Ok (leafPriv, ln_EncryptionKey (kp_LeafNode kp)) /\
  (forall data, Credential_ok cred -> Lifetime_ok lifetime -> is_u16 (suite_ID suite) ->
     EncodeKeyPackageMessage kp = Ok data -> DecodeKeyPackageMessage data = Ok kp).
Proof.
  intros H. unfold NewKeyPackage in H. apply obind_ok in H as ([ip ipub] & Hi & H).
  apply obind_ok in H as ([lp lpub] & Hl & H). apply obind_ok in H as (pub & Hp & H).
  apply obind_ok in H as (ln & Hln & H). apply obind_ok in H as (tbs & Ht & H). apply obind_ok in H as (sig & Hs & H).
  injection H as <- <- <-. apply (SignLeafNode_verifies suite signer pub) in Hln as [Eln Hv]; [|done|done].
  cbn [kp_CipherSuite kp_LeafNode kp_InitKey kp_Version kp_Extensions kp_Signature]. rewrite Eln in *.
  split_and!; [done|..]; try done.
  - unfold KeyPackage_VerifySignature.
    change (KeyPackage_tbsBytes (mkKeyPackage _ _ _ _ _ sig)) with
      (KeyPackage_tbsBytes (mkKeyPackage ProtocolVersionMLS10 (suite_ID suite) ipub (with_signature
        (mkLeafNode lpub pub cred (defaultCapabilities suite) LeafNodeSourceKeyPackage (Some lifetime) [] [] []) (ln_Signature ln)) [] [])).
    rewrite Ht. cbn [obind]. f_equal. by apply (VerifyWithLabel_Sign suite signer).
  - intros data Hc Hlt Hid Hd. apply (decode_encode_envelope (w := KeyPackage_marshal) wireFormatKeyPackage); [by unfold is_u16| |exact Hd].
    unfold KeyPackage_ok, LeafNode_ok, Source_ok, Capabilities_ok, is_u8. cbn.
    rewrite ?Forall_cons, ?Forall_nil. split_and!; try done; unfold is_u16; lia.
Qed.
