(* ===== verification/Group.v ===== *)
(** [mls/group], the group state machine.

    [group.go], [create.go], [process.go], [commit_gen.go], [welcome_gen.go],
    [join.go], [propose.go], [application.go], [members.go], [ports.go],
    [external_commit.go] and [external_join.go].

    A [*Group] is the record [Group]; a method that assigns to its fields is a
    computation of the state monad [GM], in which an assignment stays when a
    later step fails, as it does in Go.  Methods that only read the group take
    it as an argument.  Errors carry the innermost message; the prefixes that
    the code wraps around them are left out.  Randomness is an argument: the
    bytes that [rand.Read] fills in and the [Rand] values the HPKE operations
    draw.  A [nil] signer is [None], and the call that would sign with it
    panics. *)

From Stdlib Require Import ZArith Lia Strings.Byte.
From stdpp Require Import base list numbers strings sets gmap.
From S2P Require Import Prelude Syntax TreeNodes TreeMath Cipher ToyCrypto RatchetTree TreeSync TreeKEM.
From S2P Require Import KeySchedule Framing GroupMessages.

(* mls/group/process.go:15-18 cachedProposal *)
Record cachedProposal := mkCached { cp_proposal : Proposal; cp_sender : Z }.

Section group.
Context {C : StdCrypto}.

(* mls/group/group.go:16-48 Group *)
Record Group := mkGroup {
  g_suite : Suite;
  g_groupContext : GroupContext;
  g_tree : RatchetTree;
  g_priv : TreeKEMPrivate;
  g_epoch : EpochSecrets;
  g_secretTree : SecretTree;
  g_interim : bytes;
  g_initSecret : bytes;
  g_ownLeaf : Z;
  g_signer : option Signer;
  g_externalPSKs : gmap bytes bytes;
  g_resumptionPSKHistory : gmap Z bytes;
  g_appGeneration : Z;
  g_handshakeGeneration : Z;
  g_encryptHandshakes : bool;
  g_pendingUpdates : gmap bytes bytes
}.

(** ** The state monad of the methods *)

Definition GM (A : Type) : Type := Group -> outcome A * Group.

Definition gbind {A B} (m : GM A) (k : A -> GM B) : GM B := fun g =>
  match m g with
  | (Ok a, g') => k a g'
  | (Err e, g') => (Err e, g')
  | (Panic, g') => (Panic, g')
  | (Diverge, g') => (Diverge, g')
  end.
Definition glift {A} (m : outcome A) : GM A := fun g => (m, g).
Definition gget : GM Group := fun g => (Ok g, g).
Definition gput (g' : Group) : GM unit := fun _ => (Ok tt, g').

(** ** group.go *)

(* mls/group/group.go:51-51 Group.Epoch *)
Definition Epoch (g : Group) : Z := gc_Epoch (g_groupContext g).
(* mls/group/group.go:55-55 Group.EpochAuthenticator *)
Definition EpochAuthenticator (g : Group) : bytes := es_EpochAuthenticator (g_epoch g).
(* mls/group/group.go:58-58 Group.GroupContext *)
Definition Group_GroupContext (g : Group) : GroupContext := g_groupContext g.
(* mls/group/group.go:61-61 Group.OwnLeaf *)
Definition OwnLeaf (g : Group) : Z := g_ownLeaf g.

Definition with_encryptHandshakes (v : bool) (g : Group) : Group :=
  mkGroup (g_suite g) (g_groupContext g) (g_tree g) (g_priv g) (g_epoch g) (g_secretTree g) (g_interim g)
    (g_initSecret g) (g_ownLeaf g) (g_signer g) (g_externalPSKs g) (g_resumptionPSKHistory g) (g_appGeneration g)
    (g_handshakeGeneration g) v (g_pendingUpdates g).
Definition with_handshakeGeneration (n : Z) (g : Group) : Group :=
  mkGroup (g_suite g) (g_groupContext g) (g_tree g) (g_priv g) (g_epoch g) (g_secretTree g) (g_interim g)
    (g_initSecret g) (g_ownLeaf g) (g_signer g) (g_externalPSKs g) (g_resumptionPSKHistory g) (g_appGeneration g)
    n (g_encryptHandshakes g) (g_pendingUpdates g).
Definition with_appGeneration (n : Z) (g : Group) : Group :=
  mkGroup (g_suite g) (g_groupContext g) (g_tree g) (g_priv g) (g_epoch g) (g_secretTree g) (g_interim g)
    (g_initSecret g) (g_ownLeaf g) (g_signer g) (g_externalPSKs g) (g_resumptionPSKHistory g) n
    (g_handshakeGeneration g) (g_encryptHandshakes g) (g_pendingUpdates g).
Definition with_pendingUpdates (p : gmap bytes bytes) (g : Group) : Group :=
  mkGroup (g_suite g) (g_groupContext g) (g_tree g) (g_priv g) (g_epoch g) (g_secretTree g) (g_interim g)
    (g_initSecret g) (g_ownLeaf g) (g_signer g) (g_externalPSKs g) (g_resumptionPSKHistory g) (g_appGeneration g)
    (g_handshakeGeneration g) (g_encryptHandshakes g) p.

(* mls/group/group.go:67-67 Group.SetEncryptHandshakes *)
Definition SetEncryptHandshakes (v : bool) : GM unit := fun g => (Ok tt, with_encryptHandshakes v g).

(* mls/group/group.go:71-77 Group.sigPubByLeaf *)
Definition sigPubByLeaf (g : Group) (leaf : Z) : outcome bytes :=
  let! ln := LeafNodeAt (g_tree g) leaf in
  Ok (ln_SignatureKey ln).

(* mls/group/group.go:80-82 Group.Exporter *)
Definition Exporter (g : Group) (label : string) (context : bytes) (length : Z) : outcome bytes :=
  MLSExporter (g_suite g) (es_ExporterSecret (g_epoch g)) label context length.

(* mls/group/group.go:87-96 levelOf *)
Definition levelOf (x : Z) : Z := if Z.land x 1 =? 0 then 0 else level_loop 33 x 0.

(** [for levelOf(x) < levelOf(y) { x, _ = tree.Parent(x, nLeaves) }]; [Parent]
    yields 0 for the root.  Every step raises the level, of which there are
    32. *)
(* mls/group/group.go:101-103 commonAncestor *)
Fixpoint raise_to (fuel : nat) (x y nLeaves : Z) : outcome Z :=
  if levelOf x <? levelOf y then
    match fuel with
    | O => Diverge
    | S fuel => let! p := Parent x nLeaves in raise_to fuel (default 0 p) y nLeaves
    end
  else Ok x.

(* mls/group/group.go:107-110 commonAncestor *)
Fixpoint climb_both (fuel : nat) (x y nLeaves : Z) : outcome Z :=
  if x =? y then Ok x else
  match fuel with
  | O => Diverge
  | S fuel =>
      let! px := Parent x nLeaves in
      let! py := Parent y nLeaves in
      climb_both fuel (default 0 px) (default 0 py) nLeaves
  end.

(* mls/group/group.go:100-112 commonAncestor *)
Definition commonAncestor (x y nLeaves : Z) : outcome Z :=
  let! x := raise_to tree_fuel x y nLeaves in
  let! y := raise_to tree_fuel y x nLeaves in
  climb_both tree_fuel x y nLeaves.

(** The loop from the common ancestor to the root. *)
(* mls/group/group.go:120-133 installJoinerPriv *)
Fixpoint install_up (fuel : nat) (suite : Suite) (priv : TreeKEMPrivate) (sec : bytes) (node root nLeaves : Z)
  : outcome TreeKEMPrivate :=
  match fuel with
  | O => Diverge
  | S fuel =>
      let! priv := AddPathSecret suite priv node sec in
      if node =? root then Ok priv else
      let! sec := DeriveSecret suite sec "path" in
      let! p := Parent node nLeaves in
      install_up fuel suite priv sec (default 0 p) root nLeaves
  end.

(* mls/group/group.go:116-135 installJoinerPriv *)
Definition installJoinerPriv (suite : Suite) (priv : TreeKEMPrivate) (pathSecret : bytes)
  (ownLeaf senderLeaf nLeaves : Z) : outcome TreeKEMPrivate :=
  let! node := commonAncestor (u32 (2 * ownLeaf)) (u32 (2 * senderLeaf)) nLeaves in
  let root := Root nLeaves in
  install_up tree_fuel suite priv pathSecret node root nLeaves.

(** ** create.go *)

(* mls/group/create.go:19-76 NewGroup *)
Definition NewGroup (r1 r2 : Rand) (suite : Suite) (groupID : bytes) (cred : Credential) (signer : Signer)
  (lifetime : Lifetime) : outcome Group :=
  let! (kp, _, leafPriv) := NewKeyPackage suite r1 r2 cred signer lifetime in
  let rt := NewRatchetTree suite (kp_LeafNode kp) in
  let! treeHash := RootTreeHash rt in
  let gc0 := mkGroupContext ProtocolVersionMLS10 (suite_ID suite) groupID 0 treeHash [] [] in
  let! gc0Bytes := GroupContext_MarshalMLS gc0 in
  let! es0 := DeriveEpochSecrets suite (zero_bytes (Z.to_nat (HashLen suite))) None None gc0Bytes in
  let! st := NewSecretTree suite 1 (es_EncryptionSecret es0) in
  Ok (mkGroup suite gc0 rt (NewTreeKEMPrivate 0 leafPriv) es0 st [] (es_InitSecret es0) 0 (Some signer) ∅
        {[0 := es_ResumptionPSK es0]} 0 0 false ∅).

(** ** process.go: proposals *)

(** Step 1 of [applyProposals]: the proposals with their senders, in commit
    order. *)
(* mls/group/process.go:57-74 applyProposals *)
Fixpoint resolve_proposals (cache : gmap bytes cachedProposal) (committerLeaf : Z) (pors : list ProposalOrRef)
  : outcome (list cachedProposal) :=
  match pors with
  | [] => Ok []
  | por :: pors =>
      let! r :=
        (if por_Type por =? ProposalOrRefTypeProposal then
           match por_Proposal por with
           | None => Err "group: applyProposals: by-value ProposalOrRef has nil Proposal"
           | Some p => Ok (mkCached p committerLeaf)
           end
         else if por_Type por =? ProposalOrRefTypeReference then
           match cache !! por_Reference por with
           | None => Err "group: applyProposals: ProposalRef not in cache"
           | Some cp => Ok cp
           end
         else Err "group: applyProposals: unknown ProposalOrRefType") in
      let! rest := resolve_proposals cache committerLeaf pors in
      Ok (r :: rest)
  end.

(** Step 2: the bucket of one type. *)
Definition of_type (t : Z) (rs : list cachedProposal) : list cachedProposal :=
  List.filter (fun r => p_Type (cp_proposal r) =? t) rs.

(* mls/group/process.go:77-96 applyProposals *)
Definition path_required (rs : list cachedProposal) : bool :=
  existsb (fun r => let t := p_Type (cp_proposal r) in
    (t =? ProposalTypeUpdate) || (t =? ProposalTypeRemove) || (t =? ProposalTypeAdd)) rs.

(** Step 3, bucket after bucket. *)
(* mls/group/process.go:101-108 applyProposals *)
Fixpoint apply_updates (wt : RatchetTree) (rs : list cachedProposal) : outcome RatchetTree :=
  match rs with
  | [] => Ok wt
  | r :: rs =>
      match p_Update (cp_proposal r) with
      | None => Err "group: applyProposals: Update proposal body is nil"
      | Some u => let! wt := UpdateLeaf wt (cp_sender r) (update_LeafNode u) in apply_updates wt rs
      end
  end.

(* mls/group/process.go:111-118 applyProposals *)
Fixpoint apply_removes (wt : RatchetTree) (rs : list cachedProposal) : outcome RatchetTree :=
  match rs with
  | [] => Ok wt
  | r :: rs =>
      match p_Remove (cp_proposal r) with
      | None => Err "group: applyProposals: Remove proposal body is nil"
      | Some rm => let! wt := RemoveLeaf wt (Removed rm) in apply_removes wt rs
      end
  end.

(* mls/group/process.go:124-138 applyProposals *)
Fixpoint apply_adds (wt : RatchetTree) (rs : list cachedProposal) : outcome (RatchetTree * list Z * list KeyPackage) :=
  match rs with
  | [] => Ok (wt, [], [])
  | r :: rs =>
      match p_Add (cp_proposal r) with
      | None => Err "group: applyProposals: Add proposal body is nil"
      | Some a =>
          let! (wt, li) := AddLeaf wt (kp_LeafNode (add_KeyPackage a)) in
          let! (wt, lis, kps) := apply_adds wt rs in
          Ok (wt, li :: lis, add_KeyPackage a :: kps)
      end
  end.

(* mls/group/process.go:141-147 applyProposals *)
Fixpoint apply_gces (ext : list Extension) (rs : list cachedProposal) : outcome (list Extension) :=
  match rs with
  | [] => Ok ext
  | r :: rs =>
      match p_GroupContextExtensions (cp_proposal r) with
      | None => Err "group: applyProposals: GCE proposal body is nil"
      | Some e => apply_gces (gce_Extensions e) rs
      end
  end.

(** The secret of one pre-shared key id. *)
(* mls/group/process.go:157-178 applyProposals *)
Definition lookup_psk (externalPSKs : gmap bytes bytes) (resumptionPSKs : gmap Z bytes) (groupID : bytes)
  (id : PreSharedKeyID) : outcome PSK :=
  if psk_Type id =? PSKTypeExternal then
    match externalPSKs !! psk_ID id with
    | None => Err "group: applyProposals: external PSK not found"
    | Some b => Ok (mkPSK id b)
    end
  else if psk_Type id =? PSKTypeResumption then
    if negb (bytes_Equal (psk_GroupID id) groupID)
    then Err "group: applyProposals: resumption PSK references foreign group" else
    match resumptionPSKs !! psk_Epoch id with
    | None => Err "group: applyProposals: resumption PSK not in history"
    | Some b => Ok (mkPSK id b)
    end
  else Err "group: applyProposals: unknown PSKType".

(* mls/group/process.go:150-179 applyProposals *)
Fixpoint collect_psks (externalPSKs : gmap bytes bytes) (resumptionPSKs : gmap Z bytes) (groupID : bytes)
  (rs : list cachedProposal) : outcome (list PSK) :=
  match rs with
  | [] => Ok []
  | r :: rs =>
      if negb (p_Type (cp_proposal r) =? ProposalTypePreSharedKey)
      then collect_psks externalPSKs resumptionPSKs groupID rs else
      match p_PreSharedKey (cp_proposal r) with
      | None => Err "group: applyProposals: PreSharedKey proposal body is nil"
      | Some p =>
          let! psk := lookup_psk externalPSKs resumptionPSKs groupID (presharedkey_PSK p) in
          let! rest := collect_psks externalPSKs resumptionPSKs groupID rs in
          Ok (psk :: rest)
      end
  end.

(** The results of [applyProposals], with the tree it mutated. *)
Record Applied := mkApplied {
  ap_tree : RatchetTree;
  ap_ext : list Extension;
  ap_psks : list PSK;
  ap_pathRequired : bool;
  ap_newlyAdded : list Z;
  ap_addedKPs : list KeyPackage
}.

(* mls/group/process.go:40-182 applyProposals *)
Definition applyProposals (wt : RatchetTree) (cm : Commit) (cache : gmap bytes cachedProposal)
  (currentExt : list Extension) (externalPSKs : gmap bytes bytes) (resumptionPSKs : gmap Z bytes)
  (groupID : bytes) (committerLeaf : Z) : outcome Applied :=
  let! all := resolve_proposals cache committerLeaf (cm_Proposals cm) in
  let! wt := apply_updates wt (of_type ProposalTypeUpdate all) in
  let! wt := apply_removes wt (of_type ProposalTypeRemove all) in
  let! (wt, newlyAdded, addedKPs) := apply_adds wt (of_type ProposalTypeAdd all) in
  let! ext := apply_gces currentExt (of_type ProposalTypeGroupContextExtensions all) in
  let! psks := collect_psks externalPSKs resumptionPSKs groupID all in
  Ok (mkApplied wt ext psks (path_required all) newlyAdded addedKPs).

(** ** process.go: commits *)

(** [nil] is [None]. *)
(* mls/group/process.go:187-217 Group.resolveOwnUpdatePriv *)
Fixpoint resolveOwnUpdatePriv (g : Group) (pors : list ProposalOrRef) (cache : gmap bytes cachedProposal)
  (committerLeaf : Z) : outcome (option bytes) :=
  match pors with
  | [] => Ok None
  | por :: pors =>
      let r :=
        if por_Type por =? ProposalOrRefTypeProposal then
          option_map (fun p => mkCached p committerLeaf) (por_Proposal por)
        else if por_Type por =? ProposalOrRefTypeReference then cache !! por_Reference por
        else None in
      match r with
      | None => resolveOwnUpdatePriv g pors cache committerLeaf
      | Some (mkCached prop sender) =>
          match p_Update prop with
          | Some u =>
              if negb (p_Type prop =? ProposalTypeUpdate) || negb (sender =? g_ownLeaf g)
              then resolveOwnUpdatePriv g pors cache committerLeaf else
              match g_pendingUpdates g !! ln_EncryptionKey (update_LeafNode u) with
              | None => Err "own Update committed but no pending leaf key tracked"
              | Some priv => Ok (Some priv)
              end
          | None => resolveOwnUpdatePriv g pors cache committerLeaf
          end
      end
  end.

(* mls/group/process.go:224-262 Group.authenticateProposalMessage *)
Definition authenticateProposalMessage (g : Group) (propBytes : bytes) : outcome (bytes * Proposal * Z) :=
  let! m := MLSMessage_UnmarshalMLS propBytes in
  let gc := g_groupContext g in
  let! ac :=
    match (mm_WireFormat m =? WireFormatPublicMessage), mm_Public m,
          (mm_WireFormat m =? WireFormatPrivateMessage), mm_Private m with
    | true, Some pub, _, _ =>
        let! ln := LeafNodeAt (g_tree g) (snd_LeafIndex (fc_Sender (pm_Content pub))) in
        UnprotectPublic (g_suite g) (ln_SignatureKey ln) (Some gc) (es_MembershipKey (g_epoch g)) pub
    | _, _, true, Some pv =>
        let! ac := UnprotectPrivate (g_suite g) (sigPubByLeaf g) (Some gc) (g_secretTree g)
                     (es_SenderDataSecret (g_epoch g)) pv in
        if negb (snd_Type (fc_Sender (ac_Content ac)) =? SenderTypeMember)
        then Err "authenticateProposalMessage: external sender in PrivateMessage proposal" else Ok ac
    | _, _, _, _ => Err "authenticateProposalMessage: unsupported proposal wire format"
    end in
  let! acBytes := AuthenticatedContent_MarshalMLS ac in
  let! ref := RefHash (g_suite g) "MLS 1.0 Proposal Reference" acBytes in
  let! prop := Proposal_UnmarshalMLS (fc_Content (ac_Content ac)) in
  Ok (ref, prop, snd_LeafIndex (fc_Sender (ac_Content ac))).

(* mls/group/process.go:268-292 Group.authenticateCommit *)
Definition authenticateCommit (g : Group) (m : MLSMessage) : outcome AuthenticatedContent :=
  let gc := g_groupContext g in
  match (mm_WireFormat m =? WireFormatPublicMessage), mm_Public m,
        (mm_WireFormat m =? WireFormatPrivateMessage), mm_Private m with
  | true, Some pub, _, _ =>
      let! ln := LeafNodeAt (g_tree g) (snd_LeafIndex (fc_Sender (pm_Content pub))) in
      UnprotectPublic (g_suite g) (ln_SignatureKey ln) (Some gc) (es_MembershipKey (g_epoch g)) pub
  | _, _, true, Some pv =>
      let! ac := UnprotectPrivate (g_suite g) (sigPubByLeaf g) (Some gc) (g_secretTree g)
                   (es_SenderDataSecret (g_epoch g)) pv in
      if negb (snd_Type (fc_Sender (ac_Content ac)) =? SenderTypeMember)
      then Err "authenticateCommit: external sender in PrivateMessage commit" else Ok ac
  | _, _, _, _ => Err "authenticateCommit: unsupported commit wire format"
  end.

(** The message is a [PublicMessage] whose sender type satisfies [b]. *)
Definition public_sender (b : Z -> bool) (m : MLSMessage) : bool :=
  (mm_WireFormat m =? WireFormatPublicMessage) &&
  match mm_Public m with Some pub => b (snd_Type (fc_Sender (pm_Content pub))) | None => false end.

(* mls/group/process.go:300-322 Group.PeekCommit *)
Definition PeekCommit (g : Group) (commitMsg : bytes) : outcome Commit :=
  let! m := MLSMessage_UnmarshalMLS commitMsg in
  if public_sender (fun t => negb (t =? SenderTypeMember)) m then Err "group: PeekCommit: not a member commit" else
  let! ac := authenticateCommit g m in
  if negb (fc_ContentType (ac_Content ac) =? ContentTypeCommit) then Err "group: PeekCommit: not a commit" else
  Commit_UnmarshalMLS (fc_Content (ac_Content ac)).

(** Step 1: the cache of the proposals delivered by reference, and their
    references in order. *)
(* mls/group/process.go:343-350 Group.ProcessCommit *)
Fixpoint proposal_cache (g : Group) (proposals : list bytes) (cache : gmap bytes cachedProposal) (refs : list bytes)
  : outcome (gmap bytes cachedProposal * list bytes) :=
  match proposals with
  | [] => Ok (cache, refs)
  | propBytes :: proposals =>
      let! (ref, prop, senderLeaf) := authenticateProposalMessage g propBytes in
      proposal_cache g proposals (<[ref := mkCached prop senderLeaf]> cache) (refs ++ [ref])
  end.

(** The resumption secrets that proposals may name: the history and the
    current epoch. *)
(* mls/group/process.go:384-392 Group.ProcessCommit *)
Definition resumption_psks (g : Group) : gmap Z bytes :=
  <[gc_Epoch (g_groupContext g) := es_ResumptionPSK (g_epoch g)]> (g_resumptionPSKHistory g).

(** The two group contexts of the next epoch, which differ in the transcript
    hash. *)
(* mls/group/process.go:454-462 Group.ProcessCommit *)
Definition next_context (gc : GroupContext) (treeHash confirmed : bytes) (ext : list Extension) : GroupContext :=
  mkGroupContext (gc_Version gc) (gc_CipherSuite gc) (gc_GroupID gc) (u64 (gc_Epoch gc + 1)) treeHash confirmed ext.

(** Step 5, the transcript: the confirmed hash and the confirmation tag. *)
(* mls/group/process.go:417-428 Group.ProcessCommit *)
Definition commit_transcript (g : Group) (ac : AuthenticatedContent) : outcome (bytes * bytes) :=
  let! acBytes := AuthenticatedContent_MarshalMLS ac in
  let! (confirmedInput, confTag) := SplitAuthenticatedContent (g_suite g) acBytes in
  Ok (ConfirmedTranscriptHash (g_suite g) (g_interim g) confirmedInput, confTag).

(** Step 5, the path: the merged tree and its hash, the commit secret and the
    decrypted path secret. *)
(* mls/group/process.go:438-484 Group.ProcessCommit *)
Definition receive_path (g : Group) (wt : RatchetTree) (committerLeaf : Z) (path : UpdatePath)
  (workingPriv : TreeKEMPrivate) (ext : list Extension) (newlyAdded : list Z)
  : outcome (RatchetTree * bytes * bytes * option bytes) :=
  let! ct := Clone wt in
  let! ct := Merge ct committerLeaf path in
  let! newTreeHash := RootTreeHash ct in
  let encGC := next_context (g_groupContext g) newTreeHash (gc_ConfirmedTranscriptHash (g_groupContext g)) ext in
  let! encGCBytes := GroupContext_MarshalMLS encGC in
  let! found := ProcessUpdatePath wt committerLeaf path workingPriv encGCBytes newlyAdded in
  let commitSecret := match found with Some (_, cs) => cs | None => zero_bytes (Z.to_nat (HashLen (g_suite g))) end in
  let! wt := Merge wt committerLeaf path in
  Ok (wt, newTreeHash, commitSecret, option_map fst found).

(* mls/group/process.go:430-492 Group.ProcessCommit *)
Definition receive_optional_path (g : Group) (wt : RatchetTree) (committerLeaf : Z) (path : option UpdatePath)
  (workingPriv : TreeKEMPrivate) (ext : list Extension) (newlyAdded : list Z)
  : outcome (RatchetTree * bytes * option bytes * option bytes) :=
  match path with
  | Some path =>
      let! (wt, newTreeHash, commitSecret, decryptedPS) :=
        receive_path g wt committerLeaf path workingPriv ext newlyAdded in
      Ok (wt, newTreeHash, Some commitSecret, decryptedPS)
  | None =>
      let! newTreeHash := RootTreeHash wt in
      Ok (wt, newTreeHash, None, None)
  end.

(** The private state after a path: the own leaf key and what is derived from
    the decrypted path secret. *)
(* mls/group/process.go:530-544 Group.ProcessCommit *)
Definition rebuild_priv (g : Group) (wt : RatchetTree) (workingPriv : TreeKEMPrivate) (decryptedPS : option bytes)
  (committerLeaf : Z) : outcome TreeKEMPrivate :=
  match decryptedPS with
  | Some ps =>
      match PrivateKeyAt workingPriv (u32 (2 * g_ownLeaf g)) with
      | None => Err "group: ProcessCommit: own leaf private key missing"
      | Some ownKey =>
          installJoinerPriv (g_suite g) (NewTreeKEMPrivate (g_ownLeaf g) ownKey) ps (g_ownLeaf g) committerLeaf (LeafCount wt)
      end
  | None => Ok workingPriv
  end.

(** "Commit all state atomically", with the handshake counter as given. *)
(* mls/group/process.go:552-569 Group.ProcessCommit *)
Definition next_state (g : Group) (wt : RatchetTree) (newGC : GroupContext) (es : EpochSecrets) (interim : bytes)
  (newPriv : TreeKEMPrivate) (st : SecretTree) (handshakeGeneration : Z) : Group :=
  mkGroup (g_suite g) newGC wt newPriv es st interim (es_InitSecret es) (g_ownLeaf g) (g_signer g) (g_externalPSKs g)
    (<[gc_Epoch newGC := es_ResumptionPSK es]>
       (<[gc_Epoch (g_groupContext g) := es_ResumptionPSK (g_epoch g)]> (g_resumptionPSKHistory g)))
    0 handshakeGeneration (g_encryptHandshakes g) ∅.
End group.

Notation "'do!' x := m 'in' k" := (gbind m (fun x => k))
  (at level 10, x pattern, m at level 100, k at level 200) : go_scope.

Section methods.
Context {C : StdCrypto}.

(** ** external_join.go *)

(* mls/group/external_join.go:16-42 Group.PublishGroupInfo *)
Definition PublishGroupInfo (g : Group) : outcome GroupInfo :=
  match g_signer g with
  | None => Err "group: PublishGroupInfo: no signer (pure receiver)"
  | Some signer =>
      let! rtree := RatchetTree_MarshalMLS (g_tree g) in
      let! (_, extPub) := ExternalPub (g_suite g) (es_ExternalSecret (g_epoch g)) in
      let confTag := ConfirmationTag (g_suite g) (es_ConfirmationKey (g_epoch g))
                       (gc_ConfirmedTranscriptHash (g_groupContext g)) in
      GroupInfo_Sign (g_suite g)
        (mkGroupInfo (g_groupContext g)
           [mkExtension ExtensionTypeRatchetTree rtree; mkExtension ExtensionTypeExternalPub extPub]
           confTag (g_ownLeaf g) []) signer
  end.

(** The loop of [validateExternalCommit]: the last [ExternalInit] seen and how
    many there were. *)
(* mls/group/external_join.go:332-356 validateExternalCommit *)
Fixpoint validate_external_loop (pors : list ProposalOrRef) (extInit : option ExternalInit) (n : Z)
  : outcome (option ExternalInit * Z) :=
  match pors with
  | [] => Ok (extInit, n)
  | por :: pors =>
      if por_Type por =? ProposalOrRefTypeReference
      then Err "group: external commit: by-reference proposals not allowed" else
      match por_Proposal por with
      | None => Err "group: external commit: nil inline proposal"
      | Some p =>
          if p_Type p =? ProposalTypeExternalInit then
            match p_ExternalInit p with
            | None => Err "group: external commit: ExternalInit proposal has nil body"
            | Some e => validate_external_loop pors (Some e) (n + 1)
            end
          else if (p_Type p =? ProposalTypeRemove) || (p_Type p =? ProposalTypePreSharedKey) ||
                  (p_Type p =? ProposalTypeGroupContextExtensions) then validate_external_loop pors extInit n
          else if (p_Type p =? ProposalTypeAdd) || (p_Type p =? ProposalTypeUpdate) || (p_Type p =? ProposalTypeReInit)
          then Err "group: external commit: proposal type not allowed"
          else Err "group: external commit: unknown proposal type"
      end
  end.

(** With exactly one [ExternalInit] the pointer returned is not [nil]. *)
(* mls/group/external_join.go:328-362 validateExternalCommit *)
Definition validateExternalCommit (cm : Commit) : outcome (option ExternalInit) :=
  match cm_Path cm with
  | None => Err "group: external commit: path is required"
  | Some _ =>
      let! (extInit, n) := validate_external_loop (cm_Proposals cm) None 0 in
      if negb (n =? 1) then Err "group: external commit: must have exactly 1 ExternalInit proposal" else
      Ok extInit
  end.

(** The leaf that an inline Remove targets. *)
Definition inline_remove (por : ProposalOrRef) : option Z :=
  if negb (por_Type por =? ProposalOrRefTypeProposal) then None else
  match por_Proposal por with
  | Some p => if p_Type p =? ProposalTypeRemove then option_map Removed (p_Remove p) else None
  | None => None
  end.

(** A Remove may only target a leaf with the joiner's signature key. *)
(* mls/group/external_join.go:123-137 Group.processExternalCommit *)
Fixpoint authorize_removes (t : RatchetTree) (joinerSigKey : bytes) (pors : list ProposalOrRef) : outcome unit :=
  match pors with
  | [] => Ok tt
  | por :: pors =>
      match inline_remove por with
      | None => authorize_removes t joinerSigKey pors
      | Some removed =>
          let! ln := LeafNodeAt t removed in
          if negb (bytes_Equal (ln_SignatureKey ln) joinerSigKey)
          then Err "group: processExternalCommit: Remove is not the joiner's own leaf" else
          authorize_removes t joinerSigKey pors
      end
  end.

(* mls/group/external_join.go:170-180 Group.processExternalCommit *)
Fixpoint apply_inline_removes (wt : RatchetTree) (pors : list ProposalOrRef) : outcome RatchetTree :=
  match pors with
  | [] => Ok wt
  | por :: pors =>
      match inline_remove por with
      | None => apply_inline_removes wt pors
      | Some removed => let! wt := RemoveLeaf wt removed in apply_inline_removes wt pors
      end
  end.

(** Step 1: the parsed commit, its [ExternalInit], the path and the
    authenticated content. *)
(* mls/group/external_join.go:64-137 Group.processExternalCommit *)
Definition authenticate_external (g : Group) (m : MLSMessage)
  : outcome (Commit * ExternalInit * UpdatePath * AuthenticatedContent) :=
  match (mm_WireFormat m =? WireFormatPublicMessage), mm_Public m with
  | true, Some pub =>
      if negb (snd_Type (fc_Sender (pm_Content pub)) =? SenderTypeNewMemberCommit)
      then Err "group: processExternalCommit: sender type, want new_member_commit" else
      if negb (fc_ContentType (pm_Content pub) =? ContentTypeCommit)
      then Err "group: processExternalCommit: content type, want commit" else
      let! cm := Commit_UnmarshalMLS (fc_Content (pm_Content pub)) in
      let! extInit := validateExternalCommit cm in
      match extInit, cm_Path cm with
      | Some extInit, Some path =>
          let joinerSigKey := ln_SignatureKey (up_LeafNode path) in
          let! ac := UnprotectPublic (g_suite g) joinerSigKey (Some (g_groupContext g)) [] pub in
          if negb (fc_Epoch (ac_Content ac) =? gc_Epoch (g_groupContext g))
          then Err "group: processExternalCommit: commit epoch != group epoch" else
          if negb (ln_LeafNodeSource (up_LeafNode path) =? LeafNodeSourceCommit)
          then Err "group: processExternalCommit: joiner leaf_node_source, want commit" else
          let! _ := authorize_removes (g_tree g) joinerSigKey (cm_Proposals cm) in
          Ok (cm, extInit, path, ac)
      | _, _ => Panic
      end
  | _, _ => Err "group: processExternalCommit: not a PublicMessage"
  end.

(** Step 3: the working tree with the joiner's leaf, and its index. *)
(* mls/group/external_join.go:161-194 Group.processExternalCommit *)
Definition admit_joiner (g : Group) (cm : Commit) (path : UpdatePath) : outcome (RatchetTree * Z) :=
  let! wt := Clone (g_tree g) in
  let! wt := apply_inline_removes wt (cm_Proposals cm) in
  let! (wt, liC) := AddLeaf wt (up_LeafNode path) in
  let! ok := LeafNode_VerifySignature (up_LeafNode path) (g_suite g) (gc_GroupID (g_groupContext g)) liC in
  if negb ok then Err "group: processExternalCommit: joiner leaf signature invalid" else
  Ok (wt, liC).

(* mls/group/external_join.go:64-314 Group.processExternalCommit *)
Definition processExternalCommit (m : MLSMessage) : GM unit :=
  do! g := gget in
  let suite := g_suite g in
  do! (cm, extInit, path, ac) := glift (authenticate_external g m) in
  do! acBytes := glift (AuthenticatedContent_MarshalMLS ac) in
  do! (confirmedInput, confTag) := glift (SplitAuthenticatedContent suite acBytes) in
  do! (extPriv, _) := glift (ExternalPub suite (es_ExternalSecret (g_epoch g))) in
  do! initSecret := glift (ExternalInitDecap suite extPriv (ei_KemOutput extInit)) in
  do! (wt, liC) := glift (admit_joiner g cm path) in
  let ext := gc_Extensions (g_groupContext g) in
  do! (wt, newTreeHash, commitSecret, decryptedPS) := glift (receive_path g wt liC path (g_priv g) ext []) in
  do! ok := glift (VerifyParentHashes wt) in
  do! _ := glift (if negb ok then Err "group: processExternalCommit: parent hash verification failed" else Ok tt) in
  let confirmed := ConfirmedTranscriptHash suite (g_interim g) confirmedInput in
  let newGC := next_context (g_groupContext g) newTreeHash confirmed ext in
  do! newGCBytes := glift (GroupContext_MarshalMLS newGC) in
  do! es := glift (DeriveEpochSecrets suite initSecret (Some commitSecret) None newGCBytes) in
  do! _ := glift (if negb (bytes_Equal (ConfirmationTag suite (es_ConfirmationKey es) confirmed) confTag)
                  then Err "group: processExternalCommit: confirmation_tag mismatch" else Ok tt) in
  do! interim := glift (InterimTranscriptHash suite confirmed confTag) in
  do! newPriv := glift match PrivateKeyAt (g_priv g) (u32 (2 * g_ownLeaf g)) with
    | None => Err "group: processExternalCommit: own leaf private key missing"
    | Some ownKey =>
        let newPriv := NewTreeKEMPrivate (g_ownLeaf g) ownKey in
        match decryptedPS with
        | Some ps => installJoinerPriv suite newPriv ps (g_ownLeaf g) liC (LeafCount wt)
        | None => Ok newPriv
        end
    end in
  do! st := glift (NewSecretTree suite (LeafCount wt) (es_EncryptionSecret es)) in
  gput (next_state g wt newGC es interim newPriv st (g_handshakeGeneration g)).

(* mls/group/external_join.go:53-59 Group.ProcessExternalCommit *)
Definition ProcessExternalCommit (commit : bytes) : GM unit :=
  do! m := glift (MLSMessage_UnmarshalMLS commit) in
  processExternalCommit m.

(** ** process.go: ProcessCommit *)

(* mls/group/process.go:337-572 Group.ProcessCommit *)
Definition ProcessCommit (proposals : list bytes) (commit : bytes) : GM unit :=
  do! g := gget in
  let suite := g_suite g in
  do! (cache, _) := glift (proposal_cache g proposals ∅ []) in
  do! m := glift (MLSMessage_UnmarshalMLS commit) in
  if public_sender (fun t => t =? SenderTypeNewMemberCommit) m then processExternalCommit m else
  do! ac := glift (authenticateCommit g m) in
  do! _ := glift (if negb (fc_Epoch (ac_Content ac) =? gc_Epoch (g_groupContext g))
                  then Err "group: ProcessCommit: commit epoch != group epoch" else Ok tt) in
  let committerLeaf := snd_LeafIndex (fc_Sender (ac_Content ac)) in
  do! cm := glift (Commit_UnmarshalMLS (fc_Content (ac_Content ac))) in
  do! wt := glift (Clone (g_tree g)) in
  do! a := glift (applyProposals wt cm cache (gc_Extensions (g_groupContext g)) (g_externalPSKs g)
                    (resumption_psks g) (gc_GroupID (g_groupContext g)) committerLeaf) in
  do! ownUpdatePriv := glift (resolveOwnUpdatePriv g (cm_Proposals cm) cache committerLeaf) in
  let workingPriv := match ownUpdatePriv with Some k => NewTreeKEMPrivate (g_ownLeaf g) k | None => g_priv g end in
  do! (confirmed, confTag) := glift (commit_transcript g ac) in
  do! (wt, newTreeHash, commitSecret, decryptedPS) :=
    glift (receive_optional_path g (ap_tree a) committerLeaf (cm_Path cm) workingPriv (ap_ext a) (ap_newlyAdded a)) in
  let newGC := next_context (g_groupContext g) newTreeHash confirmed (ap_ext a) in
  do! newGCBytes := glift (GroupContext_MarshalMLS newGC) in
  do! pskSecret := glift (PSKSecret suite (ap_psks a)) in
  do! es := glift (DeriveEpochSecrets suite (g_initSecret g) commitSecret (Some pskSecret) newGCBytes) in
  do! _ := glift (if negb (bytes_Equal (ConfirmationTag suite (es_ConfirmationKey es) confirmed) confTag)
                  then Err "group: ProcessCommit: confirmation_tag mismatch" else Ok tt) in
  do! interim := glift (InterimTranscriptHash suite confirmed confTag) in
  do! newPriv := glift (rebuild_priv g wt workingPriv decryptedPS committerLeaf) in
  do! st := glift (NewSecretTree suite (LeafCount wt) (es_EncryptionSecret es)) in
  gput (next_state g wt newGC es interim newPriv st 0).
End methods.

(** [CommitOptions] *)
(* mls/group/commit_gen.go:13-20 CommitOptions *)
Record CommitOptions := mkCommitOptions { ByValue : list Proposal; ByReference : list bytes }.

Section generate.
Context {C : StdCrypto}.

(** What a commit draws: the leaf secret, the reuse guard, and the randomness
    of the path and of the welcome encryptions. *)
Record CommitRand := mkCommitRand {
  cr_leafSecret : bytes;
  cr_guard : bytes;
  cr_path : Z -> Z -> Rand;
  cr_welcome : Z -> Rand
}.

Definition need_signer (g : Group) : outcome Signer := match g_signer g with Some s => Ok s | None => Panic end.

(** ** welcome_gen.go *)

(** The loop over the added members, from index [i] on. *)
(* mls/group/welcome_gen.go:78-117 buildWelcome *)
Fixpoint welcome_secrets (suite : Suite) (rng : Z -> Rand) (joinerSecret encGI : bytes) (pskIDs : list PreSharedKeyID)
  (committerLeaf nLeaves : Z) (pathSecretByNode : gmap Z bytes) (i : Z) (newlyAdded : list Z) (addedKPs : list KeyPackage)
  : outcome (list EncryptedGroupSecrets) :=
  match newlyAdded, addedKPs with
  | addedLeaf :: newlyAdded, kp :: addedKPs =>
      let! node := commonAncestor (u32 (2 * addedLeaf)) (u32 (2 * committerLeaf)) nLeaves in
      match pathSecretByNode !! node with
      | None => Err "group: buildWelcome: no path secret for node"
      | Some ps =>
          let! gsBytes := GroupSecrets_MarshalMLS (mkGroupSecrets joinerSecret (Some (mkPathSecret ps)) pskIDs) in
          let! (kem, ct) := EncryptWithLabel suite (rng i) (kp_InitKey kp) "Welcome" encGI gsBytes in
          let! ref := KeyPackage_Ref suite kp in
          let! rest := welcome_secrets suite rng joinerSecret encGI pskIDs committerLeaf nLeaves pathSecretByNode
                         (i + 1) newlyAdded addedKPs in
          Ok (mkEncryptedGroupSecrets ref (mkHPKECiphertext kem ct) :: rest)
      end
  | [], _ => Ok []
  | _ :: _, [] => Panic
  end.

(* mls/group/welcome_gen.go:26-125 buildWelcome *)
Definition buildWelcome (suite : Suite) (rng : Z -> Rand) (es : EpochSecrets) (newGC : GroupContext) (wt : RatchetTree)
  (committerLeaf : Z) (signer : Signer) (newlyAdded : list Z) (addedKPs : list KeyPackage)
  (pathSecretByNode : gmap Z bytes) (confTag : bytes) (pskIDs : list PreSharedKeyID) : outcome bytes :=
  if negb (len newlyAdded =? len addedKPs) then Err "group: buildWelcome: newlyAdded len != addedKPs len" else
  let! rtreeData := RatchetTree_MarshalMLS wt in
  let! gi := GroupInfo_Sign suite
    (mkGroupInfo newGC [mkExtension ExtensionTypeRatchetTree rtreeData] confTag committerLeaf []) signer in
  let! giBytes := GroupInfo_MarshalMLS gi in
  let! (wk, wn) := WelcomeKeyNonce suite (es_WelcomeSecret es) in
  let! encGI := Seal suite wk wn [] giBytes in
  let nLeaves := LeafCount wt in
  let! secrets := welcome_secrets suite rng (es_JoinerSecret es) encGI pskIDs committerLeaf nLeaves pathSecretByNode
                    0 newlyAdded addedKPs in
  EncodeWelcomeMessage (mkWelcome (suite_ID suite) secrets encGI).

(** ** commit_gen.go *)

(** [for nodeIdx, ps := range pathSecretByNode]: the order does not matter for
    the map that results. *)
(* mls/group/commit_gen.go:227-231 Group.Commit *)
Fixpoint add_path_secrets (suite : Suite) (priv : TreeKEMPrivate) (l : list (Z * bytes)) : outcome TreeKEMPrivate :=
  match l with
  | [] => Ok priv
  | (nodeIdx, ps) :: l => let! priv := AddPathSecret suite priv nodeIdx ps in add_path_secrets suite priv l
  end.

(** The committer's private state: the leaf key of the leaf secret and the keys
    of the path secrets. *)
(* mls/group/commit_gen.go:216-231 Group.Commit *)
Definition committer_priv (suite : Suite) (ownLeaf : Z) (leafSecret : bytes) (pathSecretByNode : gmap Z bytes)
  : outcome TreeKEMPrivate :=
  let! leafNodeSecret := DeriveSecret suite leafSecret "node" in
  let! (newLeafPriv, _) := DeriveKeyPair suite leafNodeSecret in
  add_path_secrets suite (NewTreeKEMPrivate ownLeaf newLeafPriv) (map_to_list pathSecretByNode).

(** The commit body before the path: references first, then the inline
    proposals. *)
(* mls/group/commit_gen.go:45-63 Group.Commit *)
Definition commit_proposals (refs : list bytes) (byValue : list Proposal) : list ProposalOrRef :=
  map (fun ref => mkProposalOrRef ProposalOrRefTypeReference None ref) refs ++
  map (fun p => mkProposalOrRef ProposalOrRefTypeProposal (Some p) []) byValue.

(** The [MLSMessage] of the commit.  A private one advances the handshake
    ratchet at once. *)
(* mls/group/commit_gen.go:168-193 Group.Commit *)
Definition frame_commit (g : Group) (guard : bytes) (fc : FramedContent) (sig confTag : bytes) : GM MLSMessage :=
  let gc := g_groupContext g in
  if g_encryptHandshakes g then
    do! privMsg := glift (AssembleCommitPrivate (g_suite g) (g_secretTree g) (es_SenderDataSecret (g_epoch g)) fc
                            (g_handshakeGeneration g) guard 0 sig confTag) in
    do! _ := gput (with_handshakeGeneration (u32 (g_handshakeGeneration g + 1)) g) in
    glift (Ok (mkMLSMessage ProtocolVersionMLS10 WireFormatPrivateMessage None (Some privMsg)))
  else
    do! pubMsg := glift (AssembleCommitPublic (g_suite g) (Some gc) (es_MembershipKey (g_epoch g)) fc sig confTag) in
    glift (Ok (mkMLSMessage ProtocolVersionMLS10 WireFormatPublicMessage (Some pubMsg) None)).

(** The message and, when members were added, the Welcome. *)
(* mls/group/commit_gen.go:34-255 Group.Commit *)
Definition Group_Commit (r : CommitRand) (opt : CommitOptions) : GM (bytes * option bytes) :=
  do! g := gget in
  let suite := g_suite g in
  let gc := g_groupContext g in
  do! wt := glift (Clone (g_tree g)) in
  do! (cache, refs) := glift (proposal_cache g (ByReference opt) ∅ []) in
  let props := commit_proposals refs (ByValue opt) in
  do! a := glift (applyProposals wt (mkCommit props None) cache (gc_Extensions gc) (g_externalPSKs g)
                    (resumption_psks g) (gc_GroupID gc) (g_ownLeaf g)) in
  let mkGC treeHash := GroupContext_MarshalMLS (next_context gc treeHash (gc_ConfirmedTranscriptHash gc) (ap_ext a)) in
  do! signer := glift (need_signer g) in
  do! (wt, (up, commitSecret, pathSecretByNode)) :=
    glift (GenerateUpdatePath (ap_tree a) (g_ownLeaf g) (cr_leafSecret r) signer (gc_GroupID gc) (ap_newlyAdded a)
             mkGC (cr_path r)) in
  do! commitBody := glift (Commit_MarshalMLS (mkCommit props (Some up))) in
  let fc := mkFramedContent (gc_GroupID gc) (gc_Epoch gc) (mkSender SenderTypeMember (g_ownLeaf g) 0) []
              ContentTypeCommit commitBody in
  let wf := if g_encryptHandshakes g then WireFormatPrivateMessage else WireFormatPublicMessage in
  do! (confirmedInput, sig) := glift (SignCommit suite signer (Some gc) fc wf) in
  let confirmed := ConfirmedTranscriptHash suite (g_interim g) confirmedInput in
  do! newTreeHash := glift (RootTreeHash wt) in
  let newGC := next_context gc newTreeHash confirmed (ap_ext a) in
  do! newGCBytes := glift (GroupContext_MarshalMLS newGC) in
  do! pskSecret := glift (PSKSecret suite (ap_psks a)) in
  do! es := glift (DeriveEpochSecrets suite (g_initSecret g) (Some commitSecret) (Some pskSecret) newGCBytes) in
  let confTag := ConfirmationTag suite (es_ConfirmationKey es) confirmed in
  do! commitMLS := frame_commit g (cr_guard r) fc sig confTag in
  do! commitBytes := glift (MLSMessage_MarshalMLS commitMLS) in
  do! welcomeBytes := glift
    (if 0 <? len (ap_newlyAdded a) then
       let! w := buildWelcome suite (cr_welcome r) es newGC wt (g_ownLeaf g) signer (ap_newlyAdded a) (ap_addedKPs a)
                   pathSecretByNode confTag (map PSK_ID (ap_psks a)) in
       Ok (Some w)
     else Ok None) in
  do! interim := glift (InterimTranscriptHash suite confirmed confTag) in
  do! newPriv := glift (committer_priv suite (g_ownLeaf g) (cr_leafSecret r) pathSecretByNode) in
  do! st := glift (NewSecretTree suite (LeafCount wt) (es_EncryptionSecret es)) in
  do! _ := gput (next_state g wt newGC es interim newPriv st 0) in
  glift (Ok (commitBytes, welcomeBytes)).

(** ** propose.go *)

(* mls/group/propose.go:12-14 ProposeAdd *)
Definition ProposeAdd (kp : KeyPackage) : Proposal := proposal_Add (mkAdd kp).
(* mls/group/propose.go:18-20 ProposeRemove *)
Definition ProposeRemove (leaf : Z) : Proposal := proposal_Remove (mkRemove leaf).
(* mls/group/propose.go:24-26 ProposeGroupContextExtensions *)
Definition ProposeGroupContextExtensions (ext : list Extension) : Proposal :=
  proposal_GCE (mkGroupContextExtensions ext).

(* mls/group/propose.go:33-54 Group.ProposeUpdate *)
Definition ProposeUpdate (r : Rand) : GM Proposal :=
  do! g := gget in
  do! (leafPriv, leafPub) := glift (GenerateHPKEKeyPair (g_suite g) r) in
  do! cur := glift (LeafNodeAt (g_tree g) (g_ownLeaf g)) in
  let ln := mkLeafNode leafPub (ln_SignatureKey cur) (ln_Credential cur) (ln_Capabilities cur) LeafNodeSourceUpdate
              None [] (ln_Extensions cur) (ln_Signature cur) in
  do! signer := glift (need_signer g) in
  do! ln := glift (SignLeafNode (g_suite g) signer ln (gc_GroupID (g_groupContext g)) (g_ownLeaf g)) in
  do! _ := gput (with_pendingUpdates (<[leafPub := leafPriv]> (g_pendingUpdates g)) g) in
  glift (Ok (proposal_Update (mkUpdate ln))).

(* mls/group/propose.go:59-99 Group.FrameProposal *)
Definition FrameProposal (guard : bytes) (p : Proposal) : GM bytes :=
  do! g := gget in
  do! body := glift (Proposal_MarshalMLS p) in
  let gc := g_groupContext g in
  let fc := mkFramedContent (gc_GroupID gc) (gc_Epoch gc) (mkSender SenderTypeMember (g_ownLeaf g) 0) []
              ContentTypeProposal body in
  if g_encryptHandshakes g then
    do! signer := glift (need_signer g) in
    do! pm := glift (ProtectPrivate (g_suite g) signer (Some gc) (g_secretTree g) (es_SenderDataSecret (g_epoch g)) fc
                       (g_handshakeGeneration g) guard 0 []) in
    do! _ := gput (with_handshakeGeneration (u32 (g_handshakeGeneration g + 1)) g) in
    glift (MLSMessage_MarshalMLS (mkMLSMessage ProtocolVersionMLS10 WireFormatPrivateMessage None (Some pm)))
  else
    do! signer := glift (need_signer g) in
    do! pm := glift (ProtectPublic (g_suite g) signer (Some gc) (es_MembershipKey (g_epoch g)) fc []) in
    glift (MLSMessage_MarshalMLS (mkMLSMessage ProtocolVersionMLS10 WireFormatPublicMessage (Some pm) None)).

(** ** application.go *)

(* mls/group/application.go:20-45 Group.ProtectApplication *)
Definition ProtectApplication (guard plaintext authenticatedData : bytes) : GM bytes :=
  do! g := gget in
  let gc := g_groupContext g in
  let fc := mkFramedContent (gc_GroupID gc) (gc_Epoch gc) (mkSender SenderTypeMember (g_ownLeaf g) 0) authenticatedData
              ContentTypeApplication plaintext in
  do! signer := glift (need_signer g) in
  do! pm := glift (ProtectPrivate (g_suite g) signer (Some gc) (g_secretTree g) (es_SenderDataSecret (g_epoch g)) fc
                     (g_appGeneration g) guard 0 []) in
  do! _ := gput (with_appGeneration (u32 (g_appGeneration g + 1)) g) in
  glift (MLSMessage_MarshalMLS (mkMLSMessage ProtocolVersionMLS10 WireFormatPrivateMessage None (Some pm))).

(* mls/group/application.go:50-74 Group.UnprotectApplication *)
Definition UnprotectApplication (g : Group) (msg : bytes) : outcome (bytes * bytes) :=
  let! m := MLSMessage_UnmarshalMLS msg in
  match (mm_WireFormat m =? WireFormatPrivateMessage), mm_Private m with
  | true, Some pv =>
      if negb (pv_ContentType pv =? ContentTypeApplication) then Err "group: not an application message" else
      let! ac := UnprotectPrivate (g_suite g) (sigPubByLeaf g) (Some (g_groupContext g)) (g_secretTree g)
                   (es_SenderDataSecret (g_epoch g)) pv in
      Ok (fc_Content (ac_Content ac), fc_AuthenticatedData (ac_Content ac))
  | _, _ => Err "group: not a PrivateMessage"
  end.

(** ** members.go, ports.go *)

(** [for i := uint32(0); i < LeafCount(); i++], keeping the leaves that are
    not blank, [n] of them left. *)
(* mls/group/members.go:11-15 Group.ActiveLeaves *)
Fixpoint active_leaves (t : RatchetTree) (n : nat) (i : Z) : outcome (list Z) :=
  match n with
  | O => Ok []
  | S n =>
      match LeafNodeAt t i with
      | Ok _ => let! rest := active_leaves t n (i + 1) in Ok (i :: rest)
      | Err _ => active_leaves t n (i + 1)
      | Panic => Panic
      | Diverge => Diverge
      end
  end.

(* mls/group/members.go:9-17 Group.ActiveLeaves *)
Definition ActiveLeaves (g : Group) : outcome (list Z) :=
  active_leaves (g_tree g) (Z.to_nat (LeafCount (g_tree g))) 0.

(* mls/group/members.go:24-30 Group.LeafCredential *)
Definition LeafCredential (g : Group) (leaf : Z) : outcome (Credential * bytes) :=
  let! ln := LeafNodeAt (g_tree g) leaf in
  Ok (ln_Credential ln, ln_SignatureKey ln).

(* mls/group/ports.go:51-56 BasicCredentialValidator.Validate *)
Definition BasicCredentialValidator_Validate (cred : Credential) (sigPub : bytes) : outcome bytes :=
  if negb (CredentialType cred =? CredentialTypeBasic) || (len (Identity cred) =? 0)
  then Err "group: BasicCredentialValidator requires a non-empty basic credential" else
  Ok (Identity cred).
End generate.

Section join.
Context {C : StdCrypto}.

(** ** join.go *)

(** A [nil] or empty [RatchetTree] is the empty list. *)
(* mls/group/join.go:15-22 JoinOptions *)
Record JoinOptions := mkJoinOptions {
  jo_KeyPackage : bytes;
  jo_InitPriv : bytes;
  jo_EncryptionPriv : bytes;
  jo_Signer : option Signer;
  jo_RatchetTree : bytes;
  jo_ExternalPSKs : gmap bytes bytes
}.

(* mls/group/join.go:45-51 JoinFromWelcome *)
Fixpoint find_secrets (ref : bytes) (secrets : list EncryptedGroupSecrets) : option EncryptedGroupSecrets :=
  match secrets with
  | [] => None
  | egs :: secrets => if bytes_Equal (egs_NewMember egs) ref then Some egs else find_secrets ref secrets
  end.

(* mls/group/join.go:74-84 JoinFromWelcome *)
Fixpoint join_psks (externalPSKs : gmap bytes bytes) (ids : list PreSharedKeyID) : outcome (list PSK) :=
  match ids with
  | [] => Ok []
  | id :: ids =>
      if negb (psk_Type id =? PSKTypeExternal) then Err "group: JoinFromWelcome: resumption PSKs not supported" else
      match externalPSKs !! psk_ID id with
      | None => Err "group: JoinFromWelcome: PSK not in ExternalPSKs"
      | Some b => let! rest := join_psks externalPSKs ids in Ok (mkPSK id b :: rest)
      end
  end.

(** Steps 1 to 5: our key package, the group secrets and the group info, with
    the psk secret. *)
(* mls/group/join.go:28-112 JoinFromWelcome *)
Definition open_welcome (suite : Suite) (welcome : bytes) (opt : JoinOptions)
  : outcome (KeyPackage * GroupSecrets * bytes * GroupInfo) :=
  let! w := DecodeWelcomeMessage welcome in
  let! kp := DecodeKeyPackageMessage (jo_KeyPackage opt) in
  let! ref := KeyPackage_Ref suite kp in
  match find_secrets ref (w_Secrets w) with
  | None => Err "group: JoinFromWelcome: no EncryptedGroupSecrets for our KeyPackageRef"
  | Some egs =>
      let! gsBytes := DecryptWithLabel suite (jo_InitPriv opt) "Welcome" (w_EncryptedGroupInfo w)
                        (KemOutput (egs_EncryptedGroupSecrets egs)) (Ciphertext (egs_EncryptedGroupSecrets egs)) in
      let! gs := GroupSecrets_UnmarshalMLS gsBytes in
      let! psks := join_psks (jo_ExternalPSKs opt) (gs_PSKs gs) in
      let! pskSecret := PSKSecret suite psks in
      let! member := Extract suite (gs_JoinerSecret gs) pskSecret in
      let! welcomeSecret := DeriveSecret suite member "welcome" in
      let! (wk, wn) := WelcomeKeyNonce suite welcomeSecret in
      let! giBytes := Open suite wk wn [] (w_EncryptedGroupInfo w) in
      let! gi := GroupInfo_UnmarshalMLS giBytes in
      Ok (kp, gs, pskSecret, gi)
  end.

(** Steps 6 to 8: the validated tree. *)
(* mls/group/join.go:114-156 JoinFromWelcome *)
Definition install_tree (suite : Suite) (opt : JoinOptions) (gi : GroupInfo) : outcome RatchetTree :=
  let! rtreeData :=
    (if 0 <? len (jo_RatchetTree opt) then Ok (jo_RatchetTree opt)
     else match RatchetTreeExtension gi with
          | Some d => Ok d
          | None => Err "group: JoinFromWelcome: no ratchet_tree in GroupInfo and none provided"
          end) in
  let! rt := ParseRatchetTree suite rtreeData in
  let! ok := VerifyParentHashes rt in
  if negb ok then Err "group: JoinFromWelcome: parent hash verification failed" else
  let! _ := VerifyLeafSignatures rt (gc_GroupID (gi_GroupContext gi)) in
  let! treeHash := RootTreeHash rt in
  if negb (bytes_Equal treeHash (gc_TreeHash (gi_GroupContext gi)))
  then Err "group: JoinFromWelcome: tree hash mismatch" else
  let! signerLeaf := LeafNodeAt rt (gi_Signer gi) in
  let! ok := GroupInfo_VerifySignature suite gi (ln_SignatureKey signerLeaf) in
  if negb ok then Err "group: JoinFromWelcome: GroupInfo signature invalid" else
  Ok rt.

(* mls/group/join.go:28-219 JoinFromWelcome *)
Definition JoinFromWelcome (suite : Suite) (welcome : bytes) (opt : JoinOptions) : outcome Group :=
  let! (kp, gs, pskSecret, gi) := open_welcome suite welcome opt in
  let! rt := install_tree suite opt gi in
  let gc := gi_GroupContext gi in
  let! ownLeaf := FindLeafByEncryptionKey rt (ln_EncryptionKey (kp_LeafNode kp)) in
  match ownLeaf with
  | None => Err "group: JoinFromWelcome: own encryption key not found in tree"
  | Some ownLeaf =>
      let priv := NewTreeKEMPrivate ownLeaf (jo_EncryptionPriv opt) in
      let! priv := match gs_PathSecret gs with
                   | Some ps => installJoinerPriv suite priv (ps_PathSecret ps) ownLeaf (gi_Signer gi) (LeafCount rt)
                   | None => Ok priv
                   end in
      let! gcBytes := GroupContext_MarshalMLS gc in
      let! es := EpochSecretsFromJoiner suite (gs_JoinerSecret gs) (Some pskSecret) gcBytes in
      let ct := ConfirmationTag suite (es_ConfirmationKey es) (gc_ConfirmedTranscriptHash gc) in
      if negb (bytes_Equal ct (gi_ConfirmationTag gi)) then Err "group: JoinFromWelcome: confirmation_tag mismatch" else
      let! interim := InterimTranscriptHash suite (gc_ConfirmedTranscriptHash gc) (gi_ConfirmationTag gi) in
      let! st := NewSecretTree suite (LeafCount rt) (es_EncryptionSecret es) in
      Ok (mkGroup suite gc rt priv es st interim (es_InitSecret es) ownLeaf (jo_Signer opt) (jo_ExternalPSKs opt)
            {[gc_Epoch gc := es_ResumptionPSK es]} 0 0 false ∅)
  end.

(** ** external_commit.go *)

(* mls/group/external_commit.go:244-255 findLeafBySignatureKey *)
Fixpoint find_signature_key (t : RatchetTree) (sigKey : bytes) (n : nat) (i : Z) : outcome (option Z) :=
  match n with
  | O => Ok None
  | S n =>
      match LeafNodeAt t i with
      | Ok ln => if bytes_Equal (ln_SignatureKey ln) sigKey then Ok (Some i) else find_signature_key t sigKey n (i + 1)
      | Err _ => find_signature_key t sigKey n (i + 1)
      | Panic => Panic
      | Diverge => Diverge
      end
  end.

(* mls/group/external_commit.go:244-255 findLeafBySignatureKey *)
Definition findLeafBySignatureKey (t : RatchetTree) (sigKey : bytes) : outcome (option Z) :=
  find_signature_key t sigKey (Z.to_nat (LeafCount t)) 0.

(** What an external commit draws: the encapsulation ([mlkem] and
    Diffie-Hellman parts), the two keys of the key package, the leaf secret
    and the path encryptions. *)
Record ExternalRand := mkExternalRand {
  er_init1 : Rand;
  er_init2 : Rand;
  er_kp1 : Rand;
  er_kp2 : Rand;
  er_leafSecret : bytes;
  er_path : Z -> Z -> Rand
}.

(** Steps 2 to 4: the validated tree with a prior leaf of the signer removed
    and the joiner's leaf added. *)
(* mls/group/external_commit.go:39-84 ExternalCommit *)
Definition external_tree (r : ExternalRand) (suite : Suite) (gi : GroupInfo) (cred : Credential) (signer : Signer)
  (lifetime : Lifetime) : outcome (RatchetTree * list Proposal * Z) :=
  match RatchetTreeExtension gi with
  | None => Err "group: ExternalCommit: GroupInfo has no ratchet_tree extension"
  | Some rtreeData =>
      let! wt := ParseRatchetTree suite rtreeData in
      let! ok := VerifyParentHashes wt in
      if negb ok then Err "group: ExternalCommit: parent hash verification failed" else
      let! _ := VerifyLeafSignatures wt (gc_GroupID (gi_GroupContext gi)) in
      let! th := RootTreeHash wt in
      if negb (bytes_Equal th (gc_TreeHash (gi_GroupContext gi))) then Err "group: ExternalCommit: tree hash mismatch" else
      let! sigPub := SignaturePublicKey suite signer in
      let! oldLeaf := findLeafBySignatureKey wt sigPub in
      let! (wt, byValue) := match oldLeaf with
                            | Some oldLeaf => let! wt := RemoveLeaf wt oldLeaf in Ok (wt, [ProposeRemove oldLeaf])
                            | None => Ok (wt, [])
                            end in
      let! (kp, _, _) := NewKeyPackage suite (er_kp1 r) (er_kp2 r) cred signer lifetime in
      let! (wt, liC) := AddLeaf wt (kp_LeafNode kp) in
      Ok (wt, byValue, liC)
  end.

(* mls/group/external_commit.go:28-239 ExternalCommit *)
Definition ExternalCommit (r : ExternalRand) (suite : Suite) (gi : GroupInfo) (cred : Credential) (signer : Signer)
  (lifetime : Lifetime) : outcome (Group * bytes) :=
  match ExternalPubExtension gi with
  | None => Err "group: ExternalCommit: GroupInfo has no external_pub extension"
  | Some extPub =>
      let! (kemOutput, initSecret) := ExternalInitEncap suite (er_init1 r) (er_init2 r) extPub in
      let! (wt, byValue, liC) := external_tree r suite gi cred signer lifetime in
      let gc := gi_GroupContext gi in
      let props := commit_proposals [] (proposal_ExternalInit (mkExternalInit kemOutput) :: byValue) in
      let mkGC treeHash :=
        GroupContext_MarshalMLS (next_context gc treeHash (gc_ConfirmedTranscriptHash gc) (gc_Extensions gc)) in
      let! (wt, (up, commitSecret, pathByNode)) :=
        GenerateUpdatePath wt liC (er_leafSecret r) signer (gc_GroupID gc) [] mkGC (er_path r) in
      let! commitBody := Commit_MarshalMLS (mkCommit props (Some up)) in
      let fc := mkFramedContent (gc_GroupID gc) (gc_Epoch gc) (mkSender SenderTypeNewMemberCommit 0 0) []
                  ContentTypeCommit commitBody in
      let! (confirmedInput, sig) := SignCommit suite signer (Some gc) fc WireFormatPublicMessage in
      let! interimN := InterimTranscriptHash suite (gc_ConfirmedTranscriptHash gc) (gi_ConfirmationTag gi) in
      let confirmed := ConfirmedTranscriptHash suite interimN confirmedInput in
      let! newTreeHash := RootTreeHash wt in
      let newGC := next_context gc newTreeHash confirmed (gc_Extensions gc) in
      let! newGCBytes := GroupContext_MarshalMLS newGC in
      let! es := DeriveEpochSecrets suite initSecret (Some commitSecret) None newGCBytes in
      let confTag := ConfirmationTag suite (es_ConfirmationKey es) confirmed in
      let pubMsg := mkPublicMessage fc (mkAuthData sig confTag) [] in
      let! commitBytes := MLSMessage_MarshalMLS
        (mkMLSMessage ProtocolVersionMLS10 WireFormatPublicMessage (Some pubMsg) None) in
      let! interim := InterimTranscriptHash suite confirmed confTag in
      let! priv := committer_priv suite liC (er_leafSecret r) pathByNode in
      let! st := NewSecretTree suite (LeafCount wt) (es_EncryptionSecret es) in
      Ok (mkGroup suite newGC wt priv es st interim (es_InitSecret es) liC (Some signer) ∅
            {[gc_Epoch newGC := es_ResumptionPSK es]} 0 0 false ∅, commitBytes)
  end.
End join.
