(* ===== verification/GroupProposals.v ===== *)
(** [applyProposals]: what the proposals of a commit do to the tree.

    The abstract machine is the roster of [RatchetTree]: a commit runs its
    Updates, then its Removes, then its Adds on the map from leaf indices to
    leaf nodes.  The file shows that [applyProposals] refines it, that it keeps
    the tree well formed, and that a member whom no proposal touches keeps the
    keys it needs for the commit's path. *)

From Stdlib Require Import ZArith Lia Strings.Byte.
From stdpp Require Import base list numbers strings sorting sets gmap.
From S2P Require Import Prelude Syntax TreeNodes TreeMath Cipher ToyCrypto RatchetTree TreeSync TreeKEM.
From S2P Require Import KeySchedule Framing GroupMessages Group.

(** * Well-formed trees *)

(** The indices of the wire are 32 bits wide and a leaf's node index is
    [2 * l] modulo [2 ^ 32], so that index [l] names the leaf [l mod 2 ^ 31]. *)
Definition leaf_index (l : Z) : Z := l mod 2 ^ 31.

Lemma u32_double l : u32 (2 * l) = u32 (2 * leaf_index l).
Proof.
  unfold u32, leaf_index. rewrite <- (Z.mul_mod_distr_l l (2 ^ 31) 2) by lia.
  change (2 * 2 ^ 31) with (2 ^ 32). by rewrite Z.mod_mod by lia.
Qed.

Lemma leaf_index_range l : 0 <= leaf_index l < 2 ^ 31.
Proof. apply Z.mod_pos_bound. lia. Qed.

Lemma leaf_index_small l : 0 <= l < 2 ^ 31 -> leaf_index l = l.
Proof. apply Z.mod_small. Qed.

(** The width is the least one that holds the members. *)
Definition snug (d : Z) (nodes : list (option Node)) : Prop :=
  tight d nodes \/ d = 0 /\ slot nodes 0 = None.

Lemma slots_ok_slot nodes : slots_ok nodes <->
  forall x, 0 <= x -> match slot nodes x with Some n => Node_ok n | None => True end.
Proof.
  unfold slots_ok. rewrite Forall_lookup. split.
  - intros H x _. unfold slot. destruct (nodes !! Z.to_nat x) as [n|] eqn:E; [|done]. by specialize (H _ _ E).
  - intros H i n E. specialize (H (Z.of_nat i) ltac:(lia)). unfold slot in H. rewrite Nat2Z.id, E in H. done.
Qed.

Lemma snug_tight d nodes l : tree_inv d nodes -> snug d nodes -> 0 <= l -> populated nodes l -> tight d nodes.
Proof.
  intros Hinv [Ht|[-> H0]] Hl Hp; [done|]. pose proof (ti_len _ _ Hinv).
  pose proof (populated_range 0 nodes l ltac:(done) ltac:(lia) Hp). assert (l = 0) as -> by lia.
  destruct Hp as [n Hn]. rewrite Z.mul_0_r in Hn. congruence.
Qed.

Lemma tight_mono d nodes nodes' : (forall l, 0 <= l -> populated nodes l -> populated nodes' l) ->
  0 <= d -> tight d nodes -> tight d nodes'.
Proof.
  intros H Hd (l & Hl & Hp). exists l. split; [done|]. apply H; [|done].
  pose proof (pow2_pos d Hd). lia.
Qed.

Section wf.
Context {C : StdCrypto}.
Implicit Types t : RatchetTree.

Record tree_wf (d : Z) t : Prop := {
  wf_inv : tree_inv d (rt_nodes t);
  wf_snug : snug d (rt_nodes t);
  wf_slots : slots_ok (rt_nodes t)
}.

Definition members t : Z := Z.of_nat (size (roster_of (rt_nodes t))).

(** A tree with fewer than [2 ^ 30] members has room. *)
Lemma room_of_size d t : tree_inv d (rt_nodes t) -> members t < 2 ^ 30 -> room d (rt_nodes t).
Proof.
  intros Hinv Hs. pose proof (ti_depth _ _ Hinv). destruct (Z.lt_ge_cases d 30) as [|Hd]; [by left|right].
  assert (d = 30) as -> by lia.
  destruct (decide (Exists (fun l => ~ is_Some (roster_of (rt_nodes t) !! l)) (seqZ 0 (2 ^ 30)))) as [He|Hn].
  - apply Exists_exists in He as (l & Hl%elem_of_seqZ & Hn). exists l. split; [lia|].
    rewrite (populated_roster 30) by (done || lia). done.
  - exfalso. unfold members in Hs.
    assert (list_to_set (seqZ 0 (2 ^ 30)) ⊆ dom (roster_of (rt_nodes t))) as Hsub.
    { intros l. rewrite elem_of_list_to_set, elem_of_dom. intros Hl.
      destruct (decide (is_Some (roster_of (rt_nodes t) !! l))) as [|Hno]; [done|].
      destruct Hn. apply Exists_exists. eauto. }
    apply subseteq_size in Hsub. rewrite size_list_to_set, size_dom in Hsub by apply NoDup_seqZ.
    rewrite length_seqZ in Hsub. lia.
Qed.

Lemma roster_step_size m op m' : roster_step m op m' ->
  (size m' <= match op with OpRemove _ => size m | _ => S (size m) end)%nat.
Proof.
  intros [ln i _ Hn _|l ln|l].
  - by rewrite map_size_insert_None.
  - rewrite map_size_insert. destruct (m !! l); unfold id; lia.
  - rewrite map_size_delete. destruct (m !! l); unfold id; lia.
Qed.

(** ** One operation *)

(** The leaf nodes an operation brings in are encodable. *)
Definition op_ok (op : roster_op) : Prop :=
  match op with OpAdd ln | OpUpdate _ ln => LeafNode_ok ln | OpRemove _ => True end.

(** What an operation that does not touch member [m] leaves of its leaf and its
    ancestors: an ancestor is blanked, or keeps its key and gains unmerged
    leaves other than [m]. *)
Definition kept (m : Z) (nodes nodes' : list (option Node)) : Prop :=
  slot nodes' (2 * m) = slot nodes (2 * m) /\
  forall k, 0 < k -> slot nodes' (node k (m / 2 ^ k)) = None \/
    exists p p', slot nodes (node k (m / 2 ^ k)) = parent_node p /\ slot nodes' (node k (m / 2 ^ k)) = parent_node p' /\
      pn_EncryptionKey p' = pn_EncryptionKey p /\ (m ∈ pn_UnmergedLeaves p -> m ∈ pn_UnmergedLeaves p').

Lemma kept_trans m n1 n2 n3 : kept m n1 n2 -> kept m n2 n3 -> kept m n1 n3.
Proof.
  intros [L1 P1] [L2 P2]. split; [congruence|]. intros k Hk. destruct (P2 k Hk) as [|(p2 & p3 & E2 & E3 & Ek & Hu)]; [by left|].
  destruct (P1 k Hk) as [E|(p1 & p2' & E1 & E2' & Ek' & Hu')]; [by rewrite E in E2|].
  rewrite E2 in E2'. injection E2' as <-. right. exists p1, p3. split_and!; [done|done|congruence|auto].
Qed.

Definition op_avoids (m : Z) (op : roster_op) : Prop :=
  match op with OpAdd _ => True | OpUpdate l _ | OpRemove l => l <> m end.

Lemma kept_refl_at m nodes nodes' d k : tree_inv d nodes -> 0 <= m -> 0 < k ->
  slot nodes' (node k (m / 2 ^ k)) = slot nodes (node k (m / 2 ^ k)) ->
  slot nodes' (node k (m / 2 ^ k)) = None \/
    exists p p', slot nodes (node k (m / 2 ^ k)) = parent_node p /\ slot nodes' (node k (m / 2 ^ k)) = parent_node p' /\
      pn_EncryptionKey p' = pn_EncryptionKey p /\ (m ∈ pn_UnmergedLeaves p -> m ∈ pn_UnmergedLeaves p').
Proof.
  intros Hinv Hm Hk E. rewrite E. destruct (slot nodes _) as [n|] eqn:En; [right|by left].
  assert (0 <= m / 2 ^ k) by (apply Z.div_pos; [lia|apply pow2_pos; lia]).
  destruct (ti_parent _ _ Hinv k (m / 2 ^ k) n) as [p [-> _ _ _ _]]; [done..|]. by exists p, p.
Qed.

Lemma replaced_kept d l v m nodes nodes' : tree_inv d nodes -> 0 <= m -> l <> m ->
  replaced d l v nodes nodes' -> kept m nodes nodes'.
Proof.
  intros Hinv Hm Hne [HL HP]. split; [by rewrite HL, decide_False by congruence|]. intros k Hk.
  assert (0 <= m / 2 ^ k) by (apply Z.div_pos; [lia|apply pow2_pos; lia]).
  specialize (HP k (m / 2 ^ k) Hk ltac:(done)). case_decide; [by left|]. by apply (kept_refl_at m nodes nodes' d).
Qed.

Lemma added_kept d l ln m nodes nodes' : tree_inv d nodes -> 0 <= m -> l <> m ->
  added l ln nodes nodes' -> kept m nodes nodes'.
Proof.
  intros Hinv Hm Hne [HL HP]. split; [by rewrite HL, decide_False by congruence|]. intros k Hk.
  assert (0 <= m / 2 ^ k) by (apply Z.div_pos; [lia|apply pow2_pos; lia]).
  specialize (HP k (m / 2 ^ k) Hk ltac:(done)). case_decide; [|by apply (kept_refl_at m nodes nodes' d)].
  rewrite HP. destruct (slot nodes (node k (m / 2 ^ k))) as [n|] eqn:En; [right|by left].
  destruct (ti_parent _ _ Hinv k (m / 2 ^ k) n) as [p [-> _ _ _ _]]; [done..|]. cbn [bump].
  exists p, (mkParentNode (pn_EncryptionKey p) (pn_ParentHash p) (insert_unmerged l (pn_UnmergedLeaves p))).
  split_and!; [done..|]. cbn [pn_UnmergedLeaves]. rewrite elem_insert_unmerged. auto.
Qed.

Lemma replaced_slots d l v nodes nodes' : slots_ok nodes -> 0 <= d ->
  match v with Some n => Node_ok n | None => True end -> replaced d l v nodes nodes' -> slots_ok nodes'.
Proof.
  rewrite !slots_ok_slot. intros Hs Hd Hv [HL HP] x Hx. destruct (node_surj x Hx) as (k & j & Hk & Hj & ->).
  destruct (Z.eq_dec k 0) as [->|].
  - rewrite node_leaf, HL by done. case_decide; [done|]. apply Hs. lia.
  - rewrite HP by lia. case_decide; [done|by apply Hs].
Qed.

Lemma added_slots l ln nodes nodes' : slots_ok nodes -> LeafNode_ok ln -> is_u32 l ->
  added l ln nodes nodes' -> slots_ok nodes'.
Proof.
  rewrite !slots_ok_slot. intros Hs Hln Hl [HL HP] x Hx. destruct (node_surj x Hx) as (k & j & Hk & Hj & ->).
  destruct (Z.eq_dec k 0) as [->|].
  - rewrite node_leaf, HL by done. case_decide; [done|]. apply Hs. lia.
  - rewrite HP by lia. specialize (Hs (node k j) Hx). case_decide; [|done].
    destruct (slot nodes (node k j)) as [[[lf|] [pn|]]|]; cbn [bump] in *; try done.
    cbn [Node_ok] in *. unfold ParentNode_ok in *. cbn [pn_UnmergedLeaves]. rewrite Forall_forall in *.
    intros y [->|Hy]%elem_insert_unmerged; [done|by apply Hs].
Qed.

(** The roster operation an operation with 32-bit indices performs. *)
Definition wrapped (op : roster_op) : roster_op :=
  match op with
  | OpAdd ln => OpAdd ln
  | OpUpdate l ln => OpUpdate (leaf_index l) ln
  | OpRemove l => OpRemove (leaf_index l)
  end.

Lemma tree_apply_wrapped t op : tree_apply t op = tree_apply t (wrapped op).
Proof.
  destruct op as [ln|l ln|l]; cbn [wrapped tree_apply]; [done|unfold UpdateLeaf|unfold RemoveLeaf];
    by rewrite (u32_double l).
Qed.

(** Blank parents stay blank, and a removal blanks the path of its leaf. *)
Definition blanks (op : roster_op) (nodes nodes' : list (option Node)) : Prop :=
  (forall k j, 0 < k -> 0 <= j -> slot nodes (node k j) = None -> slot nodes' (node k j) = None) /\
  (forall l k, op = OpRemove l -> 0 <= l -> 0 < k -> slot nodes' (node k (l / 2 ^ k)) = None).

Lemma replaced_blanks d l v op nodes nodes' : (forall l', op = OpRemove l' -> l' = l) -> replaced d l v nodes nodes' ->
  blanks op nodes nodes'.
Proof.
  intros Hop [_ Hp]. split.
  - intros k j Hk Hj E. rewrite Hp by done. by case_decide.
  - intros l' k ->%Hop Hl Hk. rewrite Hp by (done || apply Z.div_pos; lia || by apply pow2_pos; lia). by rewrite decide_True.
Qed.

Lemma added_blanks l ln ln' nodes nodes' : added l ln nodes nodes' -> blanks (OpAdd ln') nodes nodes'.
Proof. intros [_ Hp]. split; [|done]. intros k j Hk Hj E. rewrite Hp, E by done. by case_decide. Qed.

(** What a step does to a member that it does not concern, and to the shape. *)
Definition step_ok t (op : roster_op) (d' : Z) t' : Prop :=
  tree_wf d' t' /\ rt_suite t' = rt_suite t /\
  roster_step (roster_of (rt_nodes t)) (wrapped op) (roster_of (rt_nodes t')) /\
  (forall m, 0 <= m -> populated (rt_nodes t) m -> op_avoids m (wrapped op) -> kept m (rt_nodes t) (rt_nodes t')) /\
  blanks (wrapped op) (rt_nodes t) (rt_nodes t').

Lemma replaced_roster d l v nodes nodes' : replaced d l v nodes nodes' -> 0 <= l ->
  roster_of nodes' = match leaf_of v with Some ln => <[l := ln]> (roster_of nodes) | None => delete l (roster_of nodes) end.
Proof.
  intros [HL _] Hl. apply roster_eq; intros m Hm.
  - rewrite HL by done. case_decide as E; [subst m|].
    + destruct (leaf_of v); [by rewrite lookup_insert_eq|by rewrite lookup_delete_eq].
    + destruct (leaf_of v); [rewrite lookup_insert_ne by done|rewrite lookup_delete_ne by done]; by rewrite lookup_roster.
  - destruct (leaf_of v); [rewrite lookup_insert_ne by lia|rewrite lookup_delete_ne by lia]; by apply lookup_roster_neg.
Qed.

Lemma replaced_populated d l ln nodes nodes' m : replaced d l (leaf_node ln) nodes nodes' -> 0 <= m ->
  populated nodes m -> populated nodes' m.
Proof. intros [HL _] Hm Hp. unfold populated. rewrite HL by done. case_decide; [by eexists|done]. Qed.

Lemma update_wf t d l ln : tree_wf d t -> LeafNode_ok ln -> 0 <= l < 2 ^ d ->
  exists t', UpdateLeaf t l ln = Ok t' /\ step_ok t (OpUpdate l ln) d t'.
Proof.
  intros [Hinv Hsn Hsl] Hln Hl. pose proof (ti_depth _ _ Hinv).
  assert (2 ^ d <= 2 ^ 30) by (apply Z.pow_le_mono_r; lia).
  destruct (UpdateLeaf_ok t d l ln Hinv Hl) as (t' & E & Hs & Hinv' & Hr). exists t'. split; [done|].
  assert (slots_ok (rt_nodes t')) by (eapply (replaced_slots d l (leaf_node ln)); eauto; lia).
  assert (tight d (rt_nodes t')).
  { destruct Hsn as [Ht|[-> _]].
    - eapply tight_mono; [intros m ? ?; by eapply replaced_populated|lia|done].
    - assert (l = 0) as -> by lia. exists 0. split; [done|]. unfold populated. rewrite (proj1 Hr) by done. by eexists. }
  unfold step_ok. cbn [wrapped op_avoids]. rewrite leaf_index_small by lia. split_and!.
  - split; [done|by left|done].
  - done.
  - rewrite (replaced_roster _ _ _ _ _ Hr) by lia. cbn. constructor.
  - intros m Hm _ Hne. by eapply replaced_kept.
  - eapply replaced_blanks; [|done]. by intros l' [= <-].
Qed.

Lemma remove_wf t d l : tree_wf d t -> 0 <= l < 2 ^ d ->
  exists t' d', RemoveLeaf t l = Ok t' /\ step_ok t (OpRemove l) d' t'.
Proof.
  intros [Hinv Hsn Hsl] Hl. pose proof (ti_depth _ _ Hinv).
  assert (2 ^ d <= 2 ^ 30) by (apply Z.pow_le_mono_r; lia).
  destruct (RemoveLeaf_ok t d l Hinv Hl) as (t' & d' & E & Hs & Hinv' & _ & Hr & Hsn'). exists t', d'. split; [done|].
  unfold step_ok. cbn [wrapped op_avoids]. rewrite leaf_index_small by lia. split_and!.
  - split; [done|done|]. eapply (replaced_slots d l None); eauto; lia.
  - done.
  - rewrite (replaced_roster _ _ _ _ _ Hr) by lia. cbn. constructor.
  - intros m Hm _ Hne. by eapply replaced_kept.
  - eapply replaced_blanks; [|done]. by intros l' [= <-].
Qed.

(** What an addition leaves: the member at the first free index. *)
Definition fresh_at (d : Z) t l ln t' : Prop :=
  0 <= l < 2 ^ d /\ roster_of (rt_nodes t) !! l = None /\ roster_of (rt_nodes t') = <[l := ln]> (roster_of (rt_nodes t)).

Lemma add_wf t d ln : tree_wf d t -> LeafNode_ok ln -> members t < 2 ^ 30 ->
  exists t' d' l, AddLeaf t ln = Ok (t', l) /\ step_ok t (OpAdd ln) d' t' /\ fresh_at d' t l ln t' /\ d <= d'.
Proof.
  intros [Hinv Hsn Hsl] Hln Hsz. pose proof (ti_depth _ _ Hinv) as Hd.
  destruct (AddLeaf_ok t d ln Hinv (room_of_size d t Hinv Hsz)) as (t' & d' & l & E & Hs & Hinv' & Hl & Hgrow & Hb & Hm & Ha).
  exists t', d', l. split; [done|]. pose proof (ti_depth _ _ Hinv') as Hd'.
  assert (2 ^ d' <= 2 ^ 30) by (apply Z.pow_le_mono_r; lia).
  assert (roster_of (rt_nodes t') = <[l := ln]> (roster_of (rt_nodes t))) as Hro.
  { apply roster_eq; intros m Hm'.
    - rewrite (proj1 Ha) by done. case_decide as Em; [subst m; by rewrite lookup_insert_eq|].
      by rewrite lookup_insert_ne, lookup_roster by done.
    - rewrite lookup_insert_ne by lia. by apply lookup_roster_neg. }
  assert (roster_of (rt_nodes t) !! l = None) by (by rewrite lookup_roster, Hb by lia).
  split; [|split; [by repeat split; try lia|lia]].
  assert (tight d' (rt_nodes t')).
  { destruct Hgrow as [->|[-> ->]].
    - destruct Hsn as [Ht|[-> _]].
      + eapply tight_mono; [|lia|done]. intros m Hm0 [n Hn]. unfold populated. rewrite (proj1 Ha) by done.
        case_decide; by eexists.
      + assert (l = 0) as -> by lia. exists 0. split; [done|]. unfold populated. rewrite (proj1 Ha) by done. by eexists.
    - exists (2 ^ d). rewrite Z.pow_add_r by lia. split; [lia|]. unfold populated. rewrite (proj1 Ha) by lia.
      rewrite decide_True by done. by eexists. }
  split_and!; [|done|..].
  - split; [done|by left|]. eapply added_slots; eauto. unfold is_u32. lia.
  - cbn [wrapped]. rewrite Hro. constructor; [lia|done|].
    intros j Hj. rewrite <- (populated_roster d) by (done || lia). by apply Hm.
  - intros m Hm0 Hp _. eapply (added_kept d l ln); eauto. intros ->. unfold populated in Hp. rewrite Hb in Hp. by destruct Hp.
  - by eapply added_blanks.
Qed.

Lemma tree_apply_wf t d op : tree_wf d t -> op_ok op -> members t < 2 ^ 30 ->
  returns (tree_apply t op) /\ forall t', tree_apply t op = Ok t' -> exists d', step_ok t op d' t'.
Proof.
  intros Hwf Hop Hsz. pose proof (ti_depth _ _ (wf_inv _ _ Hwf)) as Hd.
  assert (2 ^ d <= 2 ^ 30) by (apply Z.pow_le_mono_r; lia).
  pose proof (proj2 (leafCount_complete t d Hd (ti_len _ _ (wf_inv _ _ Hwf)))) as HW. rewrite pow2_S in HW by lia.
  rewrite tree_apply_wrapped. destruct op as [ln|l ln|l]; cbn [wrapped tree_apply op_ok] in *.
  - destruct (add_wf t d ln) as (t1 & d1 & l & -> & Hst & _); [done..|]. cbn [obind]. split; [done|]. intros t' [= <-]. eauto.
  - pose proof (leaf_index_range l). destruct (Z.lt_ge_cases (leaf_index l) (2 ^ d)).
    + destruct (update_wf t d (leaf_index l) ln) as (t1 & -> & Hst); [done..|lia|]. split; [done|]. intros t' [= <-].
      exists d. unfold step_ok in *. cbn [wrapped] in *. by rewrite (leaf_index_small (leaf_index l)) in Hst.
    + pose proof (UpdateLeaf_err t (leaf_index l) ln) as He. rewrite HW, u32_small in He by lia.
      specialize (He ltac:(lia)). by destruct (UpdateLeaf _ _ _).
  - pose proof (leaf_index_range l). destruct (Z.lt_ge_cases (leaf_index l) (2 ^ d)).
    + destruct (remove_wf t d (leaf_index l)) as (t1 & d1 & -> & Hst); [done|lia|]. split; [done|]. intros t' [= <-].
      exists d1. unfold step_ok in *. cbn [wrapped] in *. by rewrite (leaf_index_small (leaf_index l)) in Hst.
    + pose proof (RemoveLeaf_err t (leaf_index l)) as He. rewrite HW, u32_small in He by lia.
      specialize (He ltac:(lia)). by destruct (RemoveLeaf _ _).
Qed.

(** ** Sequences of operations *)

Inductive roster_run : gmap Z LeafNode -> list roster_op -> gmap Z LeafNode -> Prop :=
| run_nil m : roster_run m [] m
| run_cons m op m1 ops m2 : roster_step m op m1 -> roster_run m1 ops m2 -> roster_run m (op :: ops) m2.

Lemma roster_run_app m1 o1 m2 o2 m3 : roster_run m1 o1 m2 -> roster_run m2 o2 m3 -> roster_run m1 (o1 ++ o2) m3.
Proof. induction 1; [done|]. intros. econstructor; eauto. Qed.

Lemma roster_run_size m ops m' : roster_run m ops m' -> (size m' <= size m + length ops)%nat.
Proof. induction 1 as [|m op m1 ops m2 H%roster_step_size _ IH]; cbn; [lia|]. destruct op; lia. Qed.

(** Well-formedness, the roster run, and the members the run leaves alone. *)
Record run_ok t (ops : list roster_op) t' : Prop := {
  rk_wf : exists d, tree_wf d t';
  rk_suite : rt_suite t' = rt_suite t;
  rk_roster : roster_run (roster_of (rt_nodes t)) (wrapped <$> ops) (roster_of (rt_nodes t'));
  rk_kept : forall m, 0 <= m -> populated (rt_nodes t) m -> Forall (op_avoids m) (wrapped <$> ops) ->
    kept m (rt_nodes t) (rt_nodes t');
  rk_blank : forall k j, 0 < k -> 0 <= j -> slot (rt_nodes t) (node k j) = None -> slot (rt_nodes t') (node k j) = None;
  rk_removed : forall l k, OpRemove l ∈ wrapped <$> ops -> 0 <= l -> 0 < k -> slot (rt_nodes t') (node k (l / 2 ^ k)) = None
}.

Lemma kept_populated m nodes nodes' : kept m nodes nodes' -> populated nodes m -> populated nodes' m.
Proof. intros [E _]. unfold populated. by rewrite E. Qed.

Lemma kept_refl m d nodes : tree_inv d nodes -> 0 <= m -> kept m nodes nodes.
Proof. intros Hinv Hm. split; [done|]. intros k Hk. by apply (kept_refl_at m nodes nodes d). Qed.

Lemma run_ok_nil t d : tree_wf d t -> run_ok t [] t.
Proof.
  intros Hwf. split; [by exists d|done|constructor| |done|by intros l k ?%elem_of_nil].
  intros m Hm _ _. apply (kept_refl m d); [by destruct Hwf|done].
Qed.

Lemma run_ok_app t1 o1 t2 o2 t3 : run_ok t1 o1 t2 -> run_ok t2 o2 t3 -> run_ok t1 (o1 ++ o2) t3.
Proof.
  intros [W1 S1 R1 K1 B1 D1] [W2 S2 R2 K2 B2 D2]. split; [done|congruence|rewrite fmap_app; by eapply roster_run_app| |auto|].
  - intros m Hm Hp. rewrite fmap_app, Forall_app. intros [A1 A2].
    pose proof (K1 m Hm Hp A1). eapply kept_trans; [done|]. apply K2; [done| |done]. by eapply kept_populated.
  - intros l k. rewrite fmap_app, elem_of_app. intros [Hin|Hin] Hl Hk; [|auto].
    apply B2; [done|apply Z.div_pos; [done|apply pow2_pos; lia]|auto].
Qed.

Lemma run_ok_step t op d t' : step_ok t op d t' -> run_ok t [op] t'.
Proof.
  intros (Hwf & Hs & Hr & Hk & Hb & Hrm). split; [by exists d|done|repeat econstructor; done| |done|].
  - intros m Hm Hp Ha. apply Hk; [done..|]. by apply Forall_cons in Ha as [? _].
  - intros l k [E|[]%elem_of_nil]%elem_of_cons. by apply Hrm.
Qed.

Lemma run_ok_members t ops t' : run_ok t ops t' -> members t' <= members t + Z.of_nat (length ops).
Proof. intros [_ _ R%roster_run_size _ _ _]. rewrite length_fmap in R. unfold members. lia. Qed.
End wf.

(** * The proposals as roster operations *)

(** The operation of a proposal on the roster: an Update replaces its sender's
    leaf. *)
Definition update_op (r : cachedProposal) : option roster_op :=
  (fun u => OpUpdate (cp_sender r) (update_LeafNode u)) <$> p_Update (cp_proposal r).
Definition remove_op (r : cachedProposal) : option roster_op := (fun x => OpRemove (Removed x)) <$> p_Remove (cp_proposal r).
Definition add_op (r : cachedProposal) : option roster_op :=
  (fun a => OpAdd (kp_LeafNode (add_KeyPackage a))) <$> p_Add (cp_proposal r).

(** The operations of a commit in the order of RFC 9420, section 12.3. *)
Definition commit_ops (rs : list cachedProposal) : list roster_op :=
  omap update_op (of_type ProposalTypeUpdate rs) ++ omap remove_op (of_type ProposalTypeRemove rs) ++
  omap add_op (of_type ProposalTypeAdd rs).

Definition cached_ok (r : cachedProposal) : Prop := Proposal_ok (cp_proposal r).

Lemma update_op_ok r op : cached_ok r -> update_op r = Some op -> op_ok op.
Proof. unfold update_op. intros [] E; cbn in E; try done. injection E as <-. done. Qed.
Lemma remove_op_ok r op : cached_ok r -> remove_op r = Some op -> op_ok op.
Proof. unfold remove_op. intros [] E; cbn in E; try done. by injection E as <-. Qed.
Lemma add_op_ok r op : cached_ok r -> add_op r = Some op -> op_ok op.
Proof. unfold add_op. intros [kp Hk| | | | | |] E; cbn in E; try done. injection E as <-. apply Hk. Qed.

Lemma Forall_of_type P t rs : Forall P rs -> Forall P (of_type t rs).
Proof.
  rewrite !Forall_forall. intros H x Hx. apply H. unfold of_type in Hx.
  apply list_elem_of_In in Hx. apply filter_In in Hx as [Hx _]. by apply list_elem_of_In.
Qed.

Lemma length_of_type t rs : (length (of_type t rs) <= length rs)%nat.
Proof. unfold of_type. induction rs as [|r rs IH]; cbn [List.filter length]; [lia|]. destruct (_ =? _); cbn [length]; lia. Qed.

Section apply.
Context {C : StdCrypto}.
Implicit Types t : RatchetTree.

(** The common shape of the buckets. *)
Fixpoint apply_ops (f : cachedProposal -> option roster_op) (e : string) t (rs : list cachedProposal) : outcome RatchetTree :=
  match rs with
  | [] => Ok t
  | r :: rs => match f r with None => Err e | Some op => let! t := tree_apply t op in apply_ops f e t rs end
  end.

Lemma apply_updates_ops t rs :
  apply_updates t rs = apply_ops update_op "group: applyProposals: Update proposal body is nil" t rs.
Proof.
  revert t. induction rs as [|[p sn] rs IH]; intros t; [done|]. cbn [apply_updates apply_ops cp_proposal cp_sender].
  unfold update_op. cbn [cp_proposal cp_sender]. destruct (p_Update p); [|done]. by apply obind_ext.
Qed.

Lemma apply_removes_ops t rs :
  apply_removes t rs = apply_ops remove_op "group: applyProposals: Remove proposal body is nil" t rs.
Proof.
  revert t. induction rs as [|[p sn] rs IH]; intros t; [done|]. cbn [apply_removes apply_ops cp_proposal cp_sender].
  unfold remove_op. cbn [cp_proposal cp_sender]. destruct (p_Remove p); [|done]. by apply obind_ext.
Qed.

Lemma apply_ops_wf f e t d rs : tree_wf d t -> Forall (fun r => forall op, f r = Some op -> op_ok op) rs ->
  members t + Z.of_nat (length rs) <= 2 ^ 30 ->
  returns (apply_ops f e t rs) /\
  forall t', apply_ops f e t rs = Ok t' -> run_ok t (omap f rs) t' /\ length (omap f rs) = length rs.
Proof.
  intros Hwf HF. revert t d Hwf. induction HF as [|r rs Hr HF IH]; intros t d Hwf Hsz; cbn [apply_ops omap list_omap length] in *.
  { split; [done|]. intros t' [= <-]. split; [by eapply run_ok_nil|done]. }
  destruct (f r) as [op|] eqn:E; [|done].
  destruct (tree_apply_wf t d op Hwf (Hr op eq_refl) ltac:(lia)) as [HR HS].
  destruct (tree_apply t op) as [t1| | |]; [|done..]. cbn [obind].
  destruct (HS t1 eq_refl) as (d1 & Hst). pose proof (run_ok_step _ _ _ _ Hst) as Hrun.
  pose proof (run_ok_members _ _ _ Hrun) as Hm. cbn [length] in Hm.
  destruct (IH t1 d1 (proj1 Hst) ltac:(lia)) as [HR1 HS1]. split; [done|]. intros t' H.
  destruct (HS1 t' H) as [Hrun' Hlen]. split; [by apply (run_ok_app t [op] t1)|cbn; lia].
Qed.

(** The indices of the added members: fresh, in range, and at the end of the
    run they still hold the leaves of their key packages. *)
Record adds_ok (d : Z) t (lis : list Z) (kps : list KeyPackage) t' : Prop := {
  ao_length : length lis = length kps;
  ao_range : Forall (fun l => 0 <= l < 2 ^ d) lis;
  ao_fresh : Forall (fun l => roster_of (rt_nodes t) !! l = None) lis;
  ao_nodup : NoDup lis;
  ao_leaf : Forall2 (fun l kp => roster_of (rt_nodes t') !! l = Some (kp_LeafNode kp)) lis kps;
  ao_rest : forall l, l ∉ lis -> roster_of (rt_nodes t') !! l = roster_of (rt_nodes t) !! l
}.

Lemma adds_ok_cons d t l kp t1 d1 lis kps t' : fresh_at d1 t l (kp_LeafNode kp) t1 -> d1 <= d -> 0 <= d1 ->
  adds_ok d t1 lis kps t' -> adds_ok d t (l :: lis) (kp :: kps) t'.
Proof.
  intros (Hl & Hn & Hro) Hd Hd1 [A B D E F G].
  assert (2 ^ d1 <= 2 ^ d) by (apply Z.pow_le_mono_r; lia).
  assert (l ∉ lis) as Hni.
  { intros Hin. rewrite Forall_forall in D. specialize (D l Hin). by rewrite Hro, lookup_insert_eq in D. }
  split.
  - cbn. by rewrite A.
  - constructor; [lia|done].
  - constructor; [done|]. eapply Forall_impl; [exact D|]. intros x. cbn. rewrite Hro.
    destruct (decide (l = x)) as [->|]; [by rewrite lookup_insert_eq|by rewrite lookup_insert_ne].
  - by constructor.
  - constructor; [|done]. by rewrite G, Hro, lookup_insert_eq.
  - intros x Hx. apply not_elem_of_cons in Hx as [? ?]. by rewrite G, Hro, lookup_insert_ne.
Qed.

Lemma apply_adds_wf t d rs : tree_wf d t -> Forall cached_ok rs -> members t + Z.of_nat (length rs) <= 2 ^ 30 ->
  returns (apply_adds t rs) /\
  forall t' lis kps, apply_adds t rs = Ok (t', lis, kps) ->
    run_ok t (omap add_op rs) t' /\ exists d', d <= d' /\ tree_wf d' t' /\ adds_ok d' t lis kps t' /\ Forall KeyPackage_ok kps.
Proof.
  intros Hwf HF. revert t d Hwf. induction HF as [|[p sn] rs Hr HF IH]; intros t d Hwf Hsz;
    cbn [apply_adds omap list_omap length cp_proposal] in *.
  { split; [done|]. intros t' lis kps [= <- <- <-]. split; [by eapply run_ok_nil|].
    exists d. split_and!; [lia|done| |done]. split; try done. constructor. }
  unfold cached_ok in Hr. cbn [cp_proposal] in Hr. destruct (p_Add p) as [[kp]|] eqn:E; [|done].
  assert (add_op (mkCached p sn) = Some (OpAdd (kp_LeafNode kp))) as Eop by (unfold add_op; cbn [cp_proposal]; by rewrite E).
  cbn [add_KeyPackage].
  assert (KeyPackage_ok kp) as Hkp by (destruct Hr; try done; by injection E as ->).
  destruct (add_wf t d (kp_LeafNode kp) Hwf) as (t1 & d1 & l & -> & Hst & Hfr & Hdd); [apply Hkp|lia|]. cbn [obind].
  pose proof (run_ok_step _ _ _ _ Hst) as Hrun. pose proof (run_ok_members _ _ _ Hrun) as Hm. cbn [length] in Hm.
  destruct (IH t1 d1 (proj1 Hst) ltac:(lia)) as [HR1 HS1].
  destruct (apply_adds t1 rs) as [[[t2 lis] kps]| | |]; [|done..]. cbn [obind]. split; [done|].
  intros t' lis' kps' [= <- <- <-]. destruct (HS1 t2 lis kps eq_refl) as (Hrun' & d2 & Hd2 & Hwf2 & Hao & Hk).
  split; [rewrite Eop; by apply (run_ok_app t [OpAdd (kp_LeafNode kp)] t1)|]. exists d2.
  pose proof (ti_depth _ _ (wf_inv _ _ (proj1 Hst))).
  split_and!; [lia|done| |by constructor]. eapply adds_ok_cons; eauto. lia.
Qed.

Lemma apply_gces_returns ext rs : returns (apply_gces ext rs).
Proof. revert ext. induction rs as [|r rs IH]; intros ext; cbn; [done|]. by destruct (p_GroupContextExtensions _). Qed.

Lemma apply_gces_ok ext rs ext' : Forall Extension_ok ext -> Forall cached_ok rs ->
  apply_gces ext rs = Ok ext' -> Forall Extension_ok ext'.
Proof.
  intros He HF. revert ext He. induction HF as [|[p sn] rs Hr HF IH]; intros ext He; cbn [apply_gces cp_proposal]; [by intros [= <-]|].
  unfold cached_ok in Hr. cbn [cp_proposal] in Hr. destruct Hr; cbn; try done. by apply IH.
Qed.

Lemma collect_psks_returns ext res gid rs : returns (collect_psks ext res gid rs).
Proof.
  induction rs as [|r rs IH]; cbn; [done|]. destruct (negb _); [done|]. destruct (p_PreSharedKey _) as [p|]; [|done].
  apply returns_obind; [|intros; by apply returns_obind]. unfold lookup_psk. repeat (case_match; try done).
Qed.

Lemma resolve_returns cache l pors : returns (resolve_proposals cache l pors).
Proof.
  induction pors as [|por pors IH]; cbn [resolve_proposals]; [done|]. apply returns_obind.
  - by repeat case_match.
  - intros r _. by apply returns_obind.
Qed.

Lemma resolve_ok cache l pors rs : map_Forall (fun _ r => cached_ok r) cache ->
  Forall (fun por => from_option Proposal_ok True (por_Proposal por)) pors ->
  resolve_proposals cache l pors = Ok rs -> Forall cached_ok rs /\ length rs = length pors.
Proof.
  intros Hc HF. revert rs. induction HF as [|por pors Hp HF IH]; intros rs; cbn [resolve_proposals]; [intros [= <-]; done|].
  intros H. apply obind_ok in H as (r & Hr & H). apply obind_ok in H as (rest & Hrest & [= <-]).
  destruct (IH _ Hrest). split; [constructor; [|done]|cbn; lia].
  repeat case_match; try done; injection Hr as <-; [done|]. by eapply Hc.
Qed.
End apply.

(** * The whole of [applyProposals] *)

Lemma of_type_lengths a b c rs : a <> b -> a <> c -> b <> c ->
  (length (of_type a rs) + length (of_type b rs) + length (of_type c rs) <= length rs)%nat.
Proof.
  intros Hab Hac Hbc. unfold of_type. induction rs as [|r rs IH]; cbn [List.filter length]; [lia|].
  destruct (Z.eqb_spec (p_Type (cp_proposal r)) a), (Z.eqb_spec (p_Type (cp_proposal r)) b),
    (Z.eqb_spec (p_Type (cp_proposal r)) c); cbn [length]; lia.
Qed.

Section whole.
Context {C : StdCrypto}.
Implicit Types t wt : RatchetTree.

(** What the commit's proposals [rs] did to the tree [wt]. *)
Record applied_ok wt (rs : list cachedProposal) (a : Applied) : Prop := {
  ak_run : run_ok wt (commit_ops rs) (ap_tree a);
  ak_adds : exists d base, tree_wf d (ap_tree a) /\ adds_ok d base (ap_newlyAdded a) (ap_addedKPs a) (ap_tree a) /\
    run_ok wt (omap update_op (of_type ProposalTypeUpdate rs) ++ omap remove_op (of_type ProposalTypeRemove rs)) base;
  ak_kps : Forall KeyPackage_ok (ap_addedKPs a)
}.

Lemma applyProposals_ok wt d cm cache ext psks res gid l rs :
  tree_wf d wt -> resolve_proposals cache l (cm_Proposals cm) = Ok rs -> Forall cached_ok rs ->
  members wt + Z.of_nat (length rs) <= 2 ^ 30 ->
  returns (applyProposals wt cm cache ext psks res gid l) /\
  forall a, applyProposals wt cm cache ext psks res gid l = Ok a -> applied_ok wt rs a /\
    apply_gces ext (of_type ProposalTypeGroupContextExtensions rs) = Ok (ap_ext a) /\
    collect_psks psks res gid rs = Ok (ap_psks a).
Proof.
  intros Hwf Hrs Hok Hsz. unfold applyProposals. rewrite Hrs. cbn [obind].
  pose proof (of_type_lengths ProposalTypeUpdate ProposalTypeRemove ProposalTypeAdd rs) as Hlen.
  specialize (Hlen ltac:(done) ltac:(done) ltac:(done)).
  rewrite apply_updates_ops.
  destruct (apply_ops_wf update_op "group: applyProposals: Update proposal body is nil" wt d (of_type ProposalTypeUpdate rs)) as [HR1 H1].
  { done. } { eapply Forall_impl; [by apply Forall_of_type|]. intros r ? op. by apply update_op_ok. } { lia. }
  destruct (apply_ops _ _ wt _) as [w1| | |]; [|done..]. cbn [obind].
  destruct (H1 w1 eq_refl) as [R1 L1]. destruct (rk_wf _ _ _ R1) as [d1 W1]. pose proof (run_ok_members _ _ _ R1).
  rewrite apply_removes_ops.
  destruct (apply_ops_wf remove_op "group: applyProposals: Remove proposal body is nil" w1 d1 (of_type ProposalTypeRemove rs)) as [HR2 H2].
  { done. } { eapply Forall_impl; [by apply Forall_of_type|]. intros r ? op. by apply remove_op_ok. } { lia. }
  destruct (apply_ops _ _ w1 _) as [w2| | |]; [|done..]. cbn [obind].
  destruct (H2 w2 eq_refl) as [R2 L2]. destruct (rk_wf _ _ _ R2) as [d2 W2]. pose proof (run_ok_members _ _ _ R2).
  destruct (apply_adds_wf w2 d2 (of_type ProposalTypeAdd rs) W2) as [HR3 H3]; [by apply Forall_of_type|lia|].
  destruct (apply_adds w2 _) as [[[w3 lis] kps]| | |]; [|done..]. cbn [obind].
  destruct (H3 w3 lis kps eq_refl) as (R3 & d3 & _ & W3 & A3 & K3).
  pose proof (apply_gces_returns ext (of_type ProposalTypeGroupContextExtensions rs)) as HRg.
  destruct (apply_gces ext _) as [e| | |]; [|done..]. cbn [obind].
  pose proof (collect_psks_returns psks res gid rs) as HRp.
  destruct (collect_psks psks res gid rs) as [ps| | |]; [|done..]. cbn [obind]. split; [done|].
  intros a [= <-]. cbn [ap_tree ap_ext ap_psks ap_newlyAdded ap_addedKPs]. split_and!; [|done|done].
  split; [|exists d3, w2|done].
  - unfold commit_ops. eapply run_ok_app; [done|]. by eapply run_ok_app.
  - split_and!; [done..|]. by eapply run_ok_app.
Qed.

(** ** The keys of a member that no proposal concerns *)

Lemma nodePublicKey_slot t x pk : 0 <= x -> nodePublicKey t x = Ok pk ->
  (exists ln q, slot (rt_nodes t) x = Some (mkNode (Some ln) q) /\ pk = ln_EncryptionKey ln) \/
  (exists p, slot (rt_nodes t) x = parent_node p /\ pk = pn_EncryptionKey p).
Proof.
  intros Hx H. unfold nodePublicKey in H. apply obind_ok in H as (n & Hn & H).
  apply index_ok in Hn as [_ Hn]. unfold slot. rewrite Hn. cbn.
  destruct n as [[[ln|] [p|]]|]; try done; injection H as <-; [left; eauto..|right; eauto].
Qed.

Lemma nodePublicKey_of_slot t x n : 0 <= x -> slot (rt_nodes t) x = Some n ->
  nodePublicKey t x = match n with
                      | mkNode (Some l) _ => Ok (ln_EncryptionKey l)
                      | mkNode None (Some p) => Ok (pn_EncryptionKey p)
                      | mkNode None None => Panic
                      end.
Proof.
  intros Hx H. unfold nodePublicKey. destruct (Z.lt_ge_cases x (len (rt_nodes t))).
  - rewrite index_slot by lia. rewrite H. cbn [obind]. by destruct n as [[] []].
  - by rewrite slot_beyond in H.
Qed.

(** Nodes above the root do not exist. *)
Lemma slot_above_root d nodes m k : tree_inv d nodes -> 0 <= m -> d < k -> slot nodes (node k (m / 2 ^ k)) = None.
Proof.
  intros Hinv Hm Hk. pose proof (ti_len _ _ Hinv). pose proof (ti_depth _ _ Hinv). apply slot_beyond.
  assert (0 <= m / 2 ^ k) by (apply Z.div_pos; [lia|apply pow2_pos; lia]).
  rewrite node_eq by lia. assert (2 ^ (d + 1) <= 2 ^ k) by (apply Z.pow_le_mono_r; lia).
  pose proof (pow2_pos (k + 1)). nia.
Qed.

(** All the keys of a member are those below every level. *)
Lemma member_keys_all `{!StdCryptoLaws C} d t m priv : tree_inv d (rt_nodes t) -> 0 <= m ->
  member_keys d t m priv <-> forall K, usable_keys t m K priv.
Proof.
  intros Hinv Hm. split.
  - intros [Hl Hp Ho Hc] K. split; [done| |done|].
    + intros k p Hk Hs. destruct (Z.le_gt_cases k d); [apply Hp; [lia|done]|]. by rewrite (slot_above_root d) in Hs.
    + intros x sk pk _. apply Hc.
  - intros Hu. destruct (Hu 0) as [Hl _ Ho _]. split; [done| |done|].
    + intros k p Hk. apply (uk_path _ _ _ _ (Hu (k + 1))). lia.
    + intros x sk pk Hsk. destruct (Ho x ltac:(by eexists)) as (k & Hk & ->).
      apply (uk_pairs _ _ _ _ (Hu (k + 1))); [|done]. exists k. split; [lia|done].
Qed.

Lemma usable_keys_kept `{!StdCryptoLaws C} d' t t' m K priv : tree_inv d' (rt_nodes t') ->
  rt_suite t' = rt_suite t -> 0 <= m -> populated (rt_nodes t) m -> kept m (rt_nodes t) (rt_nodes t') ->
  usable_keys t m K priv -> usable_keys t' m K priv.
Proof.
  intros Hinv' Hsu Hm [n Hpop] [KL KP] [ML MP MO MC]. split; [done| |done|].
  - intros k p' Hk Hs Hu. destruct (KP k ltac:(lia)) as [E|(p & p'' & Ep & Ep' & _ & Hsub)]; [by rewrite E in Hs|].
    rewrite Hs in Ep'. injection Ep' as ->. apply (MP k p); [done|done|auto].
  - intros x sk pk (k & Hk & ->) Hsk Hpk. rewrite Hsu.
    assert (0 <= m / 2 ^ k) by (apply Z.div_pos; [lia|apply pow2_pos; lia]).
    assert (0 <= node k (m / 2 ^ k)) as Hx by (apply node_nonneg; lia).
    apply (MC (node k (m / 2 ^ k)) _ _ ltac:(by exists k) Hsk). destruct (Z.eq_dec k 0) as [->|].
    + rewrite Z.pow_0_r, Z.div_1_r, node_leaf in *. rewrite Hpop in KL.
      rewrite (nodePublicKey_of_slot _ _ _ Hx Hpop). by rewrite (nodePublicKey_of_slot _ _ _ Hx KL) in Hpk.
    + destruct (nodePublicKey_slot _ _ _ Hx Hpk) as [(ln & q & Es & _)|(p' & Es & ->)].
      * destruct (ti_parent _ _ Hinv' k (m / 2 ^ k) _ ltac:(lia) ltac:(done) Es) as [p [? _ _ _ _]]. done.
      * destruct (KP k ltac:(lia)) as [E|(p & p'' & Ep & Ep' & Ek & _)]; [by rewrite E in Es|].
        rewrite Es in Ep'. injection Ep' as <-. rewrite (nodePublicKey_of_slot _ _ _ Hx Ep). by rewrite Ek.
Qed.

Lemma member_keys_kept `{!StdCryptoLaws C} d d' t t' m priv : tree_inv d (rt_nodes t) -> tree_inv d' (rt_nodes t') ->
  rt_suite t' = rt_suite t -> 0 <= m -> populated (rt_nodes t) m -> kept m (rt_nodes t) (rt_nodes t') ->
  member_keys d t m priv -> member_keys d' t' m priv.
Proof.
  intros Hinv Hinv' Hsu Hm Hpop Hk. rewrite (member_keys_all d), (member_keys_all d') by done.
  intros Hu K. by eapply usable_keys_kept.
Qed.
End whole.

(** * Properties *)

(** C13: the proposals of a commit act on the group as one roster transaction.
    On a well-formed tree [applyProposals] returns, and when it succeeds it
    has run the roster machine on the Updates, then the Removes, then the Adds,
    whatever their order in the commit; the tree is well formed again; each
    added member sits at its own index with the leaf of its key package; and a
    member that no Update or Remove concerns still holds the keys the new tree
    asks of it. *)
Theorem apply_proposals_refine_roster {C : StdCrypto} `{!StdCryptoLaws C} wt d cm cache ext psks res gid l :
  tree_wf d wt -> map_Forall (fun _ r => cached_ok r) cache -> Commit_ok cm ->
  members wt + len (cm_Proposals cm) <= 2 ^ 30 ->
  returns (applyProposals wt cm cache ext psks res gid l) /\
  forall a, applyProposals wt cm cache ext psks res gid l = Ok a ->
  exists rs d', resolve_proposals cache l (cm_Proposals cm) = Ok rs /\
    tree_wf d' (ap_tree a) /\ rt_suite (ap_tree a) = rt_suite wt /\
    roster_run (roster_of (rt_nodes wt)) (wrapped <$> commit_ops rs) (roster_of (rt_nodes (ap_tree a))) /\
    NoDup (ap_newlyAdded a) /\
    Forall2 (fun i kp => roster_of (rt_nodes (ap_tree a)) !! i = Some (kp_LeafNode kp)) (ap_newlyAdded a) (ap_addedKPs a) /\
    forall m priv, 0 <= m -> populated (rt_nodes wt) m -> Forall (op_avoids m) (wrapped <$> commit_ops rs) ->
      member_keys d wt m priv -> member_keys d' (ap_tree a) m priv.
Proof.
  intros Hwf Hc [Hp _] Hsz. pose proof (resolve_returns cache l (cm_Proposals cm)) as HR.
  destruct (resolve_proposals cache l (cm_Proposals cm)) as [rs| | |] eqn:Er; [|unfold applyProposals; by rewrite Er|done..].
  destruct (resolve_ok cache l (cm_Proposals cm) rs Hc) as [Hok Hl]; [|done|].
  { eapply Forall_impl; [exact Hp|]. intros por [(_ & _ & p & -> & Hpok)|[_ ->]]; done. }
  destruct (applyProposals_ok wt d cm cache ext psks res gid l rs Hwf Er Hok) as [HRa Ha]; [unfold len in Hsz; lia|].
  split; [done|]. intros a Hap. destruct (Ha a Hap) as [[Hrun (d' & base & Hwf' & Hao & _) _] _].
  exists rs, d'. split_and!; [done|done|by destruct Hrun|by destruct Hrun|by destruct Hao|by destruct Hao|].
  intros m priv Hm Hpop Hav. apply (member_keys_kept d d'); try done; [by destruct Hwf|by destruct Hwf'|by destruct Hrun|].
  by apply (rk_kept _ _ _ Hrun).
Qed.

Module Transaction.
#[local] Existing Instances toy toy_laws.

Definition key_package (i : Z) : KeyPackage := mkKeyPackage 1 1 (toy_pub (60 + i)) (Example.leaf i) [] [].

(** An Add in front of a Remove. *)
Definition commit : Commit :=
  mkCommit (commit_proposals [] [ProposeAdd (key_package 4); ProposeRemove 1]) None.

Definition applied : outcome Applied := applyProposals (Example.tree 4) commit ∅ [] ∅ ∅ Example.group_id 0.

Lemma key_package_ok i : KeyPackage_ok (key_package i).
Proof. refine (conj _ (conj _ (conj (Example.leaf_ok i) (List.Forall_nil _)))); split; vm_compute; congruence. Qed.

Lemma proposals_ok : Forall Proposal_ok [ProposeAdd (key_package 4); ProposeRemove 1].
Proof.
  apply Forall_cons; split; [apply ok_Add, key_package_ok|]. apply Forall_cons; split; [by apply ok_Remove|constructor].
Qed.

Lemma commit_ok : Commit_ok commit.
Proof.
  split; [|done]. cbn [commit cm_Proposals commit_proposals map app].
  pose proof proposals_ok as [Ha [Hr _]%Forall_cons]%Forall_cons.
  apply Forall_cons; split; [|apply Forall_cons; split; [|constructor]]; left; (split; [done|split; [done|]]); eauto.
Qed.

Lemma tree4_wf : tree_wf 2 (Example.tree 4).
Proof.
  split; [apply Example.tree4_inv| |apply Example.tree4_slots]. left. exists 3. split; [done|].
  apply populated_b_ok. vm_compute. reflexivity.
Qed.
End Transaction.

#[local] Existing Instances toy toy_laws.

(** The Remove frees index 1 before the Add takes it. *)
Lemma apply_proposals_refine_roster_witness :
  match Transaction.applied with
  | Ok a => ap_newlyAdded a = [1] /\ exists d', member_keys d' (ap_tree a) 2 member2
  | _ => False
  end.
Proof.
  destruct (apply_proposals_refine_roster (Example.tree 4) 2 Transaction.commit ∅ [] ∅ ∅ Example.group_id 0
              Transaction.tree4_wf ltac:(apply map_Forall_empty) Transaction.commit_ok ltac:(vm_compute; congruence)) as [_ H].
  fold Transaction.applied in H.
  assert ((let! a := Transaction.applied in Ok (ap_newlyAdded a)) = Ok [1]) as Hx by (vm_compute; reflexivity).
  apply obind_ok in Hx as (a & E & Hx). rewrite E. apply Ok_inj in Hx.
  destruct (H a E) as (rs & d' & Hrs & _ & _ & _ & _ & _ & Hk). split; [exact Hx|].
  exists d'. apply Hk; [lia|apply populated_b_ok; vm_compute; reflexivity| |apply member2_keys].
  apply Ok_inj in Hrs as <-. cbn [map Transaction.commit cm_Proposals commit_proposals commit_ops]. vm_compute. repeat constructor; congruence.
Defined.
