(* ===== verification/GroupSync.v ===== *)
(** The group state machine: commits are atomic, and members stay in step.

    A failed [ProcessCommit] leaves the group as it was; a successful one moves
    it to the next epoch.  When a member commits, every other member that
    processes the commit ends in the committer's epoch, with its tree, its
    group context and all its secrets, and application messages of the new
    epoch are read. *)

From Stdlib Require Import ZArith Lia Strings.Byte.
From stdpp Require Import base list numbers strings sorting sets gmap.
From S2P Require Import Prelude Syntax TreeNodes TreeMath Cipher ToyCrypto RatchetTree TreeSync TreeKEM.
From S2P Require Import KeySchedule Framing GroupMessages Group GroupProposals.

(** * Computing with methods *)

Section gm.
Context {C : StdCrypto}.
Implicit Types g : Group.

Lemma gbind_ok {A B} (m : GM A) (k : A -> GM B) g b g' :
  gbind m k g = (Ok b, g') <-> exists a g1, m g = (Ok a, g1) /\ k a g1 = (Ok b, g').
Proof.
  unfold gbind. split.
  - destruct (m g) as [[a| | |] g1]; [eauto|by intros [=]..].
  - by intros (a & g1 & -> & H).
Qed.

Lemma gbind_lift {A B} (m : outcome A) (k : A -> GM B) g a : m = Ok a -> gbind (glift m) k g = k a g.
Proof. by intros ->. Qed.

Lemma glift_ok {A} (m : outcome A) g a g' : glift m g = (Ok a, g') <-> m = Ok a /\ g' = g.
Proof. unfold glift. split; [by intros [= -> ->]|by intros [-> ->]]. Qed.

Lemma gbind_get {B} (k : Group -> GM B) g : gbind gget k g = k g g.
Proof. done. Qed.

(** [m] fails on [g] only with a state that [P] allows. *)
Definition fails_in {A} (P : Group -> Prop) (m : GM A) g : Prop :=
  match m g with (Ok _, _) => True | (_, g') => P g' end.

Lemma fails_in_lift {A B} P (m : outcome A) (k : A -> GM B) g :
  P g -> (forall a, m = Ok a -> fails_in P (k a) g) -> fails_in P (gbind (glift m) k) g.
Proof. unfold fails_in, gbind, glift. intros Hg Hk. destruct m; [by apply Hk|done..]. Qed.

Lemma fails_in_get {B} P (k : Group -> GM B) g : fails_in P (k g) g -> fails_in P (gbind gget k) g.
Proof. done. Qed.

Lemma fails_in_put {B} P g' (k : unit -> GM B) g : fails_in P (k tt) g' -> fails_in P (gbind (gput g') k) g.
Proof. done. Qed.

Lemma fails_in_bind {A B} P (m : GM A) (k : A -> GM B) g :
  fails_in P m g -> (forall a g1, m g = (Ok a, g1) -> fails_in P (k a) g1) -> fails_in P (gbind m k) g.
Proof. unfold fails_in, gbind. intros Hm Hk. destruct (m g) as [[] ?]; [by apply Hk|done..]. Qed.

Lemma fails_in_pure {A} P (m : outcome A) g : P g -> fails_in P (glift m) g.
Proof. unfold fails_in, glift. by destruct m. Qed.
End gm.

(** Steps through a method that reads the group and lifts. *)
Ltac read_only :=
  repeat lazymatch goal with
  | |- fails_in _ (gbind gget _) _ => apply fails_in_get
  | |- fails_in _ (gbind (glift _) _) _ => apply fails_in_lift; [done|intros ? _]
  | |- fails_in _ (gbind (gput _) _) _ => apply fails_in_put
  | |- fails_in _ (gput _) _ => exact I
  | |- fails_in _ (glift (Ok _)) _ => exact I
  | |- fails_in _ (glift _) _ => by apply fails_in_pure
  | |- context [let '(_, _) := ?p in _] => destruct p
  | |- fails_in _ (match ?p with (_, _) => _ end) _ => destruct p
  | |- fails_in _ (if ?b then _ else _) _ => destruct b
  end.

(** Opens a successful run of a method, one statement at a time. *)
Ltac run_ok_in H :=
  repeat match type of H with
  | gbind gget _ _ = (Ok _, _) => rewrite gbind_get in H
  | gbind (glift _) _ _ = (Ok _, _) =>
      let a := fresh "a" in let E := fresh "E" in let g1 := fresh "g" in
      apply gbind_ok in H as (a & g1 & E & H); apply glift_ok in E as [E ->];
      repeat match goal with x : (_ * _)%type |- _ => destruct x end; cbv beta match in H
  end.

Section atomic.
Context {C : StdCrypto}.
Implicit Types g : Group.

Lemma processExternalCommit_fails m g : fails_in (eq g) (processExternalCommit m) g.
Proof. unfold processExternalCommit. read_only. Qed.

Lemma ProcessCommit_fails proposals commit g : fails_in (eq g) (ProcessCommit proposals commit) g.
Proof.
  unfold ProcessCommit. apply fails_in_get. apply fails_in_lift; [done|intros [cache ?] _].
  apply fails_in_lift; [done|intros m _]. destruct (public_sender _ m); [apply processExternalCommit_fails|]. read_only.
Qed.

(** A failed [Commit] may have used up one generation of the handshake
    ratchet. *)
Definition spent_handshake g g' : Prop :=
  g' = g \/ g' = with_handshakeGeneration (u32 (g_handshakeGeneration g + 1)) g.

Lemma frame_commit_state g guard fc sig tag :
  fails_in (spent_handshake g) (frame_commit g guard fc sig tag) g /\
  forall mm g', frame_commit g guard fc sig tag g = (Ok mm, g') -> spent_handshake g g'.
Proof.
  unfold frame_commit, spent_handshake. destruct (g_encryptHandshakes g); split.
  - apply fails_in_lift; [auto|]. intros a _. apply fails_in_put, fails_in_pure. auto.
  - intros mm g' H. run_ok_in H. unfold gbind, gput in H. apply glift_ok in H as [_ ->]. auto.
  - apply fails_in_lift; [auto|]. intros a _. apply fails_in_pure. auto.
  - intros mm g' H. run_ok_in H. apply glift_ok in H as [_ ->]. auto.
Qed.

Lemma Group_Commit_fails r opt g : fails_in (spent_handshake g) (Group_Commit r opt) g.
Proof.
  assert (spent_handshake g g) by (by left). unfold Group_Commit. read_only.
  apply fails_in_bind; [apply frame_commit_state|]. intros mm g_after Hf.
  pose proof (proj2 (frame_commit_state _ _ _ _ _) _ _ Hf). read_only.
Qed.
End atomic.

(** * What a commit that succeeds leaves behind *)

Section epoch.
Context {C : StdCrypto}.
Implicit Types g : Group.

(** The next epoch of the same group, for the same member. *)
Record next_epoch g g' : Prop := {
  ne_epoch : Epoch g' = u64 (Epoch g + 1);
  ne_group : gc_GroupID (g_groupContext g') = gc_GroupID (g_groupContext g);
  ne_suite : g_suite g' = g_suite g;
  ne_leaf : g_ownLeaf g' = g_ownLeaf g;
  ne_signer : g_signer g' = g_signer g;
  ne_app : g_appGeneration g' = 0;
  ne_pending : g_pendingUpdates g' = ∅;
  ne_init : g_initSecret g' = es_InitSecret (g_epoch g');
  ne_secrets : NewSecretTree (g_suite g') (LeafCount (g_tree g')) (es_EncryptionSecret (g_epoch g')) = Ok (g_secretTree g');
  ne_history : g_resumptionPSKHistory g' !! Epoch g' = Some (es_ResumptionPSK (g_epoch g'))
}.

Lemma next_state_epoch g wt h confirmed ext es interim priv st hs :
  NewSecretTree (g_suite g) (LeafCount wt) (es_EncryptionSecret es) = Ok st ->
  next_epoch g (next_state g wt (next_context (g_groupContext g) h confirmed ext) es interim priv st hs).
Proof.
  intros Hst. split; try done. unfold next_state. cbn [g_resumptionPSKHistory]. by rewrite lookup_insert_eq.
Qed.

Lemma processExternalCommit_epoch m g g' : processExternalCommit m g = (Ok tt, g') -> next_epoch g g'.
Proof.
  intros H. unfold processExternalCommit in H. run_ok_in H. injection H as <-. by eapply next_state_epoch.
Qed.

Lemma ProcessCommit_epoch proposals commit g g' : ProcessCommit proposals commit g = (Ok tt, g') -> next_epoch g g'.
Proof.
  intros H. unfold ProcessCommit in H. rewrite gbind_get in H.
  apply gbind_ok in H as ([cache refs] & g1 & [_ ->]%glift_ok & H).
  apply gbind_ok in H as (m & g1 & [_ ->]%glift_ok & H).
  destruct (public_sender _ m); [by eapply processExternalCommit_epoch|]. run_ok_in H. injection H as <-.
  by eapply next_state_epoch.
Qed.

Lemma Group_Commit_epoch r opt g out g' : Group_Commit r opt g = (Ok out, g') ->
  next_epoch g g' /\ g_handshakeGeneration g' = 0.
Proof.
  intros H. unfold Group_Commit in H. run_ok_in H. apply gbind_ok in H as (mm & gx & _ & H). run_ok_in H.
  apply gbind_ok in H as ([] & gy & Eput & H). apply glift_ok in H as [_ ->]. injection Eput as <-.
  split; [by eapply next_state_epoch|done].
Qed.
End epoch.

(** * Members in the same epoch *)

Section sync.
Context {C : StdCrypto}.
Implicit Types g h : Group.

(** What all members of an epoch share. *)
Record same_epoch g h : Prop := {
  se_suite : g_suite h = g_suite g;
  se_context : g_groupContext h = g_groupContext g;
  se_tree : g_tree h = g_tree g;
  se_epoch : g_epoch h = g_epoch g;
  se_secretTree : g_secretTree h = g_secretTree g;
  se_interim : g_interim h = g_interim g;
  se_init : g_initSecret h = g_initSecret g
}.

#[global] Instance same_epoch_equivalence : Equivalence same_epoch.
Proof.
  split; [by intros g|intros g h []; by split|intros g h k [] []; split; congruence].
Qed.

(** The pre-shared keys that proposals may name. *)
Definition same_psks g h : Prop :=
  g_externalPSKs h = g_externalPSKs g /\ resumption_psks h = resumption_psks g.

(** Reading a message depends on the epoch only. *)
#[global] Instance sigPubByLeaf_proper : Proper (same_epoch ==> eq) sigPubByLeaf.
Proof. intros g h []. unfold sigPubByLeaf. by rewrite se_tree0. Qed.

#[global] Instance authenticateProposalMessage_proper : Proper (same_epoch ==> eq ==> eq) authenticateProposalMessage.
Proof.
  intros g h Hs p _ <-. unfold authenticateProposalMessage. rewrite (sigPubByLeaf_proper g h Hs). destruct Hs as [-> -> -> -> -> _ _]. done.
Qed.

#[global] Instance authenticateCommit_proper : Proper (same_epoch ==> eq ==> eq) authenticateCommit.
Proof. intros g h Hs m _ <-. unfold authenticateCommit. rewrite (sigPubByLeaf_proper g h Hs). destruct Hs as [-> -> -> -> -> _ _]. done. Qed.

Lemma proposal_cache_same g h ps cache refs : same_epoch g h -> proposal_cache g ps cache refs = proposal_cache h ps cache refs.
Proof.
  intros Hs. revert cache refs. induction ps as [|p ps IH]; intros cache refs; [done|]. cbn [proposal_cache].
  rewrite (authenticateProposalMessage_proper g h Hs p p eq_refl). apply obind_ext. intros [[ref prop] l]. apply IH.
Qed.

Lemma authenticateProposalMessage_ok g p ref prop l : authenticateProposalMessage g p = Ok (ref, prop, l) -> Proposal_ok prop.
Proof.
  unfold authenticateProposalMessage. intros H. apply obind_ok in H as (m & _ & H). apply obind_ok in H as (ac & _ & H).
  apply obind_ok in H as (acb & _ & H). apply obind_ok in H as (rf & _ & H). apply obind_ok in H as (pr & Hp & H).
  injection H as _ <- _. by destruct (marshal_unmarshal (r := decodeProposal) _ _ _ Hp).
Qed.

Lemma proposal_cache_ok g ps cache refs cache' refs' : map_Forall (fun _ r => cached_ok r) cache ->
  proposal_cache g ps cache refs = Ok (cache', refs') -> map_Forall (fun _ r => cached_ok r) cache'.
Proof.
  revert cache refs. induction ps as [|p ps IH]; intros cache refs Hc; cbn [proposal_cache]; [by intros [= <- _]|].
  intros H. apply obind_ok in H as ([[ref prop] l] & Ha & H). eapply IH; [|exact H].
  apply map_Forall_insert_2; [|done]. by eapply authenticateProposalMessage_ok.
Qed.
End sync.

(** * Delivery of a commit *)

Section deliver.
Context {C : StdCrypto} `{!StdCryptoLaws C}.
Implicit Types g h : Group.

(** The signer of the group belongs to its leaf. *)
Definition signs_for g (signer : Signer) : Prop :=
  g_signer g = Some signer /\ exists ln, LeafNodeAt (g_tree g) (g_ownLeaf g) = Ok ln /\
    SignaturePublicKey (g_suite g) signer = Ok (ln_SignatureKey ln).

Lemma sealPrivate_ok suite st sds fc auth gen guard pad m : FramedContent_ok fc ->
  sealPrivate suite st sds fc auth gen guard pad = Ok m -> PrivateMessage_ok m.
Proof.
  intros (? & ? & ? & ?) Hx. unfold sealPrivate in Hx.
  repeat (apply obind_ok in Hx as (? & _ & Hx); repeat match goal with x : _ * _ |- _ => destruct x end).
  by injection Hx as <-.
Qed.

Definition commit_format g : Z := if g_encryptHandshakes g then WireFormatPrivateMessage else WireFormatPublicMessage.

Lemma frame_commit_delivers g h guard fc ci sig tag signer mm g' data :
  same_epoch g h -> signs_for g signer -> snd_Type (fc_Sender fc) = SenderTypeMember ->
  snd_LeafIndex (fc_Sender fc) = g_ownLeaf g -> FramedContent_ok fc -> fc_ContentType fc = ContentTypeCommit ->
  is_u32 (g_handshakeGeneration g) -> len guard = 4 ->
  SignCommit (g_suite g) signer (Some (g_groupContext g)) fc (commit_format g) = Ok (ci, sig) ->
  frame_commit g guard fc sig tag g = (Ok mm, g') -> MLSMessage_MarshalMLS mm = Ok data ->
  MLSMessage_UnmarshalMLS data = Ok mm /\ public_sender (fun t => t =? SenderTypeNewMemberCommit) mm = false /\
  authenticateCommit h mm = Ok (mkAuthenticatedContent (commit_format g) fc (mkAuthData sig tag)).
Proof.
  intros Hs (Hsg & ln & Hln & Hpub) Hty Hli Hfc Hct Hgen Hgu Hsc Hf Hm.
  rewrite <- (authenticateCommit_proper g h Hs mm mm eq_refl).
  assert (AuthData_ok (fc_ContentType fc) (mkAuthData sig tag)) as Had by (intros ?; congruence).
  unfold frame_commit in Hf. unfold commit_format in *. destruct (g_encryptHandshakes g); run_ok_in Hf.
  - unfold gbind, gput in Hf. apply glift_ok in Hf as [[= <-] _]. unfold AssembleCommitPrivate in E.
    destruct (negb _); [done|]. pose proof (sealPrivate_ok _ _ _ _ _ _ _ _ _ Hfc E) as Hok. split_and!.
    + eapply unmarshal_marshal; [|exact Hm]. unfold MLSMessage_ok. cbn. split_and!; try done; unfold is_u16; lia.
    + done.
    + unfold authenticateCommit. cbn [mm_WireFormat mm_Public mm_Private].
      change (WireFormatPrivateMessage =? WireFormatPublicMessage) with false. rewrite Z.eqb_refl.
      erewrite (UnprotectPrivate_seal (g_suite g)); [|exact Hty| |exact Hfc|exact Had|exact Hgen|exact Hgu| |exact E].
      * cbn [obind ac_Content]. by rewrite Hty.
      * rewrite Hli. unfold sigPubByLeaf. by rewrite Hln.
      * by eapply SignCommit_verify.
  - apply glift_ok in Hf as [[= <-] _].
    pose proof (UnprotectPublic_Assemble _ _ _ _ _ _ _ _ _ _ Hpub Hsc E) as Hun.
    unfold AssembleCommitPublic in E. apply obind_ok in E as (tbm & _ & [= <-]).
    split_and!.
    + eapply unmarshal_marshal; [|exact Hm]. unfold MLSMessage_ok. cbn. split_and!; try done; unfold is_u16; try lia.
    + unfold public_sender. cbn. by rewrite Hty.
    + unfold authenticateCommit. cbn [mm_WireFormat mm_Public mm_Private pm_Content]. rewrite Z.eqb_refl, Hli, Hln.
      exact Hun.
Qed.
End deliver.

(** * Where two members' paths meet *)

Section ancestor.
Context (d : Z) (Hd : 0 <= d <= 30).

Lemma levelOf_even x : Z.even x = true -> levelOf x = 0.
Proof.
  intros H. unfold levelOf. replace (Z.land x 1) with 0; [done|].
  change 1 with (2 ^ 1 - 1). rewrite land_low by lia. change (2 ^ 1) with 2. by rewrite Zmod_even, H.
Qed.

Lemma meet_below s m K k : meet d s m K -> 0 <= k < K -> m / 2 ^ k <> s / 2 ^ k.
Proof.
  intros (HK & _ & Hf) Hk E. destruct (flip_spec (s / 2 ^ (K - 1))) as (_ & Hne & _). apply Hne. rewrite <- Hf.
  replace (K - 1) with (k + (K - 1 - k)) by lia. rewrite Z.pow_add_r by lia.
  rewrite <- !Z.div_div by (apply Z.pow_nonzero || apply pow2_pos; lia). by rewrite E.
Qed.

Lemma climb_both_ok s m K fuel k : 0 <= s < 2 ^ d -> 0 <= m < 2 ^ d -> meet d s m K ->
  0 <= k <= K -> K - k <= Z.of_nat fuel ->
  climb_both fuel (node k (m / 2 ^ k)) (node k (s / 2 ^ k)) (2 ^ d) = Ok (node K (s / 2 ^ K)).
Proof using Hd.
  intros Hs Hm HK. pose proof HK as (HKd & EK & _).
  revert k. induction fuel as [|fuel IH]; intros k Hk Hf; cbn [climb_both];
    (destruct (Z.eq_dec k K) as [->|]; [by rewrite EK, Z.eqb_refl|]); [lia|].
  pose proof (meet_below s m K k HK ltac:(lia)) as Hne.
  pose proof (div_pow_range d Hd s k Hs ltac:(lia)). pose proof (div_pow_range d Hd m k Hm ltac:(lia)).
  rewrite (proj2 (Z.eqb_neq _ _)) by (intros [_ ?]%node_inj; [done|lia..]).
  rewrite !complete_Parent by lia. cbn [obind default]. unfold id.
  replace (m / 2 ^ k / 2) with (m / 2 ^ (k + 1)); [replace (s / 2 ^ k / 2) with (s / 2 ^ (k + 1))|].
  - apply IH; lia.
  - rewrite (div_pow_step s (k + 1)) by lia. by replace (k + 1 - 1) with k by lia.
  - rewrite (div_pow_step m (k + 1)) by lia. by replace (k + 1 - 1) with k by lia.
Qed.

Lemma commonAncestor_ok s m K : 0 <= s < 2 ^ d -> 0 <= m < 2 ^ d -> meet d s m K ->
  commonAncestor (2 * m) (2 * s) (2 ^ d) = Ok (node K (s / 2 ^ K)).
Proof using Hd.
  intros Hs Hm HK. unfold commonAncestor.
  assert (forall f x y n, levelOf x = levelOf y -> raise_to f x y n = Ok x) as Hr.
  { intros f x y n E. destruct f; cbn [raise_to]; rewrite E, Z.ltb_irrefl; done. }
  assert (forall a, levelOf (2 * a) = 0) as Hl by (intros; apply levelOf_even; by rewrite Z.even_mul).
  rewrite !Hr by (by rewrite !Hl). cbn [obind]. rewrite !Hr by (by rewrite !Hl). cbn [obind].
  pose proof (climb_both_ok s m K tree_fuel 0 Hs Hm HK) as Hc. rewrite Z.pow_0_r, !Z.div_1_r, !node_leaf in Hc.
  destruct HK as (? & _). apply Hc; [lia|]. unfold tree_fuel. lia.
Qed.
End ancestor.

(** ** Installing a path secret *)

Section install.
Context {C : StdCrypto}.

(** Secrets can be derived from every secret, as HKDF and the KEMs do for the
    lengths the suites use. *)
Definition derivable (suite : Suite) : Prop :=
  forall s, is_ok (DeriveSecret suite s "path") = true /\ is_ok (nodeKeyPair suite s) = true.

(** [n] steps of the path ratchet. *)
Fixpoint path_ratchet (suite : Suite) (sec : bytes) (n : nat) : outcome bytes :=
  match n with
  | O => Ok sec
  | S n => let! sec := DeriveSecret suite sec "path" in path_ratchet suite sec n
  end.

Lemma install_up_ok suite d m : 0 <= d <= 30 -> 0 <= m < 2 ^ d -> derivable suite ->
  forall fuel k priv sec, 0 <= k <= d -> d - k < Z.of_nat fuel ->
  exists priv', install_up fuel suite priv sec (node k (m / 2 ^ k)) (Root (2 ^ d)) (2 ^ d) = Ok priv' /\
    (forall x, (forall i, k <= i <= d -> x <> node i (m / 2 ^ i)) -> privateKey priv' x = privateKey priv x) /\
    (forall i, k <= i <= d -> exists s sk pk, path_ratchet suite sec (Z.to_nat (i - k)) = Ok s /\
       nodeKeyPair suite s = Ok (sk, pk) /\ privateKey priv' (node i (m / 2 ^ i)) = Some sk).
Proof.
  intros Hd Hm Hder. rewrite complete_Root by lia. induction fuel as [|fuel IH]; intros k priv sec Hk Hf; [lia|].
  cbn [install_up]. unfold AddPathSecret. destruct (Hder sec) as [Hps Hnk].
  apply is_ok_inv in Hnk as [[sk pk] Hnk]. rewrite Hnk. cbn [obind].
  set (priv1 := mkTreeKEMPrivate _ _).
  assert (forall x, x <> node k (m / 2 ^ k) -> privateKey priv1 x = privateKey priv x) as Hother.
  { intros x Hx. unfold privateKey, priv1. cbn [privs]. by rewrite lookup_insert_ne. }
  assert (privateKey priv1 (node k (m / 2 ^ k)) = Some sk) as Hown by (unfold privateKey, priv1; cbn [privs]; by rewrite lookup_insert_eq).
  destruct (Z.eq_dec k d) as [->|Hkd].
  { assert (node d (m / 2 ^ d) =? node d 0 = true) as -> by (rewrite Z.div_small by lia; apply Z.eqb_refl).
    exists priv1. split_and!; [done|intros x Hx; apply Hother, Hx; lia|].
    intros i Hi. assert (i = d) as -> by lia. rewrite Z.sub_diag. by exists sec, sk, pk. }
  pose proof (div_pow_range d Hd m k Hm ltac:(lia)) as Hj.
  rewrite (proj2 (Z.eqb_neq _ _)) by (intros [? _]%node_inj; lia).
  apply is_ok_inv in Hps as [sec' Hps]. rewrite Hps. cbn [obind]. rewrite complete_Parent by lia. cbn [obind default]. unfold id.
  assert (m / 2 ^ k / 2 = m / 2 ^ (k + 1)) as ->.
  { rewrite (div_pow_step m (k + 1)) by lia. by replace (k + 1 - 1) with k by lia. }
  destruct (IH (k + 1) priv1 sec') as (priv' & -> & Hrest & Hall); [lia..|]. exists priv'. split_and!; [done|..].
  - intros x Hx. rewrite Hrest by (intros i Hi; apply Hx; lia). apply Hother, Hx. lia.
  - intros i Hi. destruct (Z.eq_dec i k) as [->|Hik].
    + rewrite Z.sub_diag. exists sec, sk, pk. split_and!; [done..|]. rewrite Hrest; [done|].
      intros i Hi' [? _]%node_inj; lia.
    + destruct (Hall i ltac:(lia)) as (s & sk' & pk' & Hr & Hkp & Hp). exists s, sk', pk'. split_and!; [|done..].
      replace (Z.to_nat (i - k)) with (S (Z.to_nat (i - (k + 1)))) by lia. cbn [path_ratchet]. by rewrite Hps.
Qed.

Lemma installJoinerPriv_ok suite d s m K priv ps : 0 <= d <= 30 -> 0 <= s < 2 ^ d -> 0 <= m < 2 ^ d ->
  meet d s m K -> derivable suite ->
  exists priv', installJoinerPriv suite priv ps m s (2 ^ d) = Ok priv' /\
    (forall x, (forall i, K <= i <= d -> x <> node i (m / 2 ^ i)) -> privateKey priv' x = privateKey priv x) /\
    (forall i, K <= i <= d -> exists sec sk pk, path_ratchet suite ps (Z.to_nat (i - K)) = Ok sec /\
       nodeKeyPair suite sec = Ok (sk, pk) /\ privateKey priv' (node i (m / 2 ^ i)) = Some sk).
Proof.
  intros Hd Hs Hm HK Hder. unfold installJoinerPriv.
  rewrite (proj1 (leaf_bound d m Hd Hm)), (proj1 (leaf_bound d s Hd Hs)), (commonAncestor_ok d Hd s m K Hs Hm HK).
  cbn [obind]. destruct HK as (? & <- & _). apply install_up_ok; try done; [lia|]. unfold tree_fuel. lia.
Qed.
End install.

(** * One commit, seen from both sides *)

Section commit.
Context {C : StdCrypto} `{!StdCryptoLaws C}.
Implicit Types g h : Group.

(** The proposals of a commit, and what they do to a copy of the tree. *)
Definition staged_proposals g (opt : CommitOptions) : outcome (list cachedProposal) :=
  let! (cache, refs) := proposal_cache g (ByReference opt) ∅ [] in
  resolve_proposals cache (g_ownLeaf g) (commit_proposals refs (ByValue opt)).

Definition staged g (opt : CommitOptions) : outcome Applied :=
  let! wt := Clone (g_tree g) in
  let! (cache, refs) := proposal_cache g (ByReference opt) ∅ [] in
  applyProposals wt (mkCommit (commit_proposals refs (ByValue opt)) None) cache (gc_Extensions (g_groupContext g))
    (g_externalPSKs g) (resumption_psks g) (gc_GroupID (g_groupContext g)) (g_ownLeaf g).

Definition path_context g (a : Applied) (treeHash : bytes) : outcome bytes :=
  GroupContext_MarshalMLS
    (next_context (g_groupContext g) treeHash (gc_ConfirmedTranscriptHash (g_groupContext g)) (ap_ext a)).

Definition commit_content g (body : bytes) : FramedContent :=
  mkFramedContent (gc_GroupID (g_groupContext g)) (gc_Epoch (g_groupContext g)) (mkSender SenderTypeMember (g_ownLeaf g) 0) []
    ContentTypeCommit body.

(** What a successful [Commit] went through. *)
Lemma Group_Commit_inv r opt g signer commit w g' : g_signer g = Some signer ->
  Group_Commit r opt g = (Ok (commit, w), g') ->
  exists cache refs a wt up cs byNode body ci sig th gcb psk es mm g1 interim priv st,
    Clone (g_tree g) = Ok wt /\ proposal_cache g (ByReference opt) ∅ [] = Ok (cache, refs) /\
    applyProposals wt (mkCommit (commit_proposals refs (ByValue opt)) None) cache (gc_Extensions (g_groupContext g))
      (g_externalPSKs g) (resumption_psks g) (gc_GroupID (g_groupContext g)) (g_ownLeaf g) = Ok a /\
    GenerateUpdatePath (ap_tree a) (g_ownLeaf g) (cr_leafSecret r) signer (gc_GroupID (g_groupContext g))
      (ap_newlyAdded a) (path_context g a) (cr_path r) = Ok (g_tree g', (up, cs, byNode)) /\
    Commit_MarshalMLS (mkCommit (commit_proposals refs (ByValue opt)) (Some up)) = Ok body /\
    SignCommit (g_suite g) signer (Some (g_groupContext g)) (commit_content g body) (commit_format g) = Ok (ci, sig) /\
    let confirmed := ConfirmedTranscriptHash (g_suite g) (g_interim g) ci in
    let newGC := next_context (g_groupContext g) th confirmed (ap_ext a) in
    let tag := ConfirmationTag (g_suite g) (es_ConfirmationKey es) confirmed in
    RootTreeHash (g_tree g') = Ok th /\ GroupContext_MarshalMLS newGC = Ok gcb /\ PSKSecret (g_suite g) (ap_psks a) = Ok psk /\
    DeriveEpochSecrets (g_suite g) (g_initSecret g) (Some cs) (Some psk) gcb = Ok es /\
    frame_commit g (cr_guard r) (commit_content g body) sig tag g = (Ok mm, g1) /\
    MLSMessage_MarshalMLS mm = Ok commit /\
    (if 0 <? len (ap_newlyAdded a) then
       let! w := buildWelcome (g_suite g) (cr_welcome r) es newGC (g_tree g') (g_ownLeaf g) signer (ap_newlyAdded a)
                   (ap_addedKPs a) byNode tag (map PSK_ID (ap_psks a)) in
       Ok (Some w)
     else Ok None) = Ok w /\
    InterimTranscriptHash (g_suite g) confirmed tag = Ok interim /\
    committer_priv (g_suite g) (g_ownLeaf g) (cr_leafSecret r) byNode = Ok priv /\
    NewSecretTree (g_suite g) (LeafCount (g_tree g')) (es_EncryptionSecret es) = Ok st /\
    g' = next_state g (g_tree g') newGC es interim priv st 0.
Proof.
  intros Hsg Hx. unfold Group_Commit in Hx. run_ok_in Hx.
  apply gbind_ok in Hx as (mm & gx & Hf & Hx). run_ok_in Hx. apply gbind_ok in Hx as ([] & gy & Eput & Hx).
  apply glift_ok in Hx as [[= -> ->] ->]. injection Eput as <-. cbn [g_tree next_state].
  match goal with E : need_signer g = _ |- _ => unfold need_signer in E; rewrite Hsg in E; apply Ok_inj in E as <- end.
  repeat (eexists || split); eassumption.
Qed.

(** ** The staged tree *)

Lemma Clone_wf d t l : tree_wf d t -> 0 <= l -> populated (rt_nodes t) l ->
  (forall wt, Clone t = Ok wt -> wt = t) /\ (is_ok (RatchetTree_MarshalMLS t) = true -> Clone t = Ok t).
Proof.
  intros [Hinv Hsn Hsl] Hl Hp. pose proof (snug_tight d _ l Hinv Hsn Hl Hp) as Ht. unfold Clone. split.
  - intros wt Hc. apply obind_ok in Hc as (data & Hm & Hc). rewrite (Clone_ok t d Hinv Ht Hsl data Hm) in Hc. by apply Ok_inj in Hc.
  - intros [data Hm]%is_ok_inv. rewrite Hm. cbn [obind]. by apply (Clone_ok t d Hinv Ht Hsl).
Qed.

Lemma proposal_cache_length g ps cache refs cache' refs' : proposal_cache g ps cache refs = Ok (cache', refs') ->
  length refs' = (length refs + length ps)%nat.
Proof.
  revert cache refs. induction ps as [|p ps IH]; intros cache refs; cbn [proposal_cache].
  - intros [= _ <-]. cbn. lia.
  - intros Hx. apply obind_ok in Hx as ([[ref prop] l] & _ & Hx). rewrite (IH _ _ Hx), length_app. cbn. lia.
Qed.

Lemma commit_proposals_ok refs byValue : Forall Proposal_ok byValue -> Forall ProposalOrRef_ok (commit_proposals refs byValue).
Proof.
  intros HF. unfold commit_proposals. apply Forall_app. rewrite !Forall_forall. split; intros por Hx.
  - apply list_elem_of_In, in_map_iff in Hx as (ref & <- & _). by right.
  - apply list_elem_of_In, in_map_iff in Hx as (p & <- & Hp%list_elem_of_In). left. rewrite Forall_forall in HF.
    split_and!; [done..|]. eauto.
Qed.

(** What the committer needs. *)
Record commit_ready (d : Z) g (opt : CommitOptions) (signer : Signer) : Prop := {
  cr_tree : tree_wf d (g_tree g);
  cr_suite : rt_suite (g_tree g) = g_suite g;
  cr_own : 0 <= g_ownLeaf g < 2 ^ d /\ populated (rt_nodes (g_tree g)) (g_ownLeaf g);
  cr_signer : signs_for g signer;
  cr_epoch : is_u64 (Epoch g);
  cr_gen : is_u32 (g_handshakeGeneration g);
  cr_proposals : Forall Proposal_ok (ByValue opt);
  cr_size : members (g_tree g) + len (ByReference opt) + len (ByValue opt) <= 2 ^ 30
}.

Lemma staged_ok d g opt signer cache refs wt a : commit_ready d g opt signer ->
  Clone (g_tree g) = Ok wt -> proposal_cache g (ByReference opt) ∅ [] = Ok (cache, refs) ->
  applyProposals wt (mkCommit (commit_proposals refs (ByValue opt)) None) cache (gc_Extensions (g_groupContext g))
    (g_externalPSKs g) (resumption_psks g) (gc_GroupID (g_groupContext g)) (g_ownLeaf g) = Ok a ->
  wt = g_tree g /\ exists rs, resolve_proposals cache (g_ownLeaf g) (commit_proposals refs (ByValue opt)) = Ok rs /\
    Forall cached_ok rs /\ applied_ok (g_tree g) rs a /\
    apply_gces (gc_Extensions (g_groupContext g)) (of_type ProposalTypeGroupContextExtensions rs) = Ok (ap_ext a) /\
    collect_psks (g_externalPSKs g) (resumption_psks g) (gc_GroupID (g_groupContext g)) rs = Ok (ap_psks a).
Proof.
  intros [Hwf _ [Hown Hpop] _ _ _ Hbv Hsz] Hcl Hc Ha.
  assert (wt = g_tree g) as -> by (eapply (Clone_wf d (g_tree g)); [done| |done|done]; lia). split; [done|].
  destruct (resolve_proposals cache (g_ownLeaf g) (commit_proposals refs (ByValue opt))) as [rs| | |] eqn:Er;
    [|unfold applyProposals in Ha; cbn [cm_Proposals] in Ha; by rewrite Er in Ha..].
  exists rs. split; [done|].
  destruct (resolve_ok cache (g_ownLeaf g) (commit_proposals refs (ByValue opt)) rs) as [Hok Hlen]; [|  |done|].
  - by eapply proposal_cache_ok; [apply map_Forall_empty|].
  - eapply Forall_impl; [by apply commit_proposals_ok|]. intros por [(_ & _ & p & -> & Hpok)|[_ ->]]; done.
  - split; [done|]. eapply (applyProposals_ok (g_tree g) d (mkCommit (commit_proposals refs (ByValue opt)) None));
      [done|exact Er|done| |exact Ha].
    apply proposal_cache_length in Hc. unfold commit_proposals in Hlen. rewrite length_app, !length_map, Hc in Hlen.
    cbn [length] in Hlen. unfold len in Hsz. lia.
Qed.

(** ** The receiver *)

(** The keys that a commit of member [s] asks of member [m]. *)
Definition follower_keys (t : RatchetTree) (s m : Z) (priv : TreeKEMPrivate) : Prop :=
  forall d K, meet d s m K -> usable_keys t m K priv.

Lemma member_keys_follower d t s m priv : tree_inv d (rt_nodes t) -> 0 <= m -> member_keys d t m priv ->
  follower_keys t s m priv.
Proof. intros Hinv Hm Hk d' K _. by apply (member_keys_all d). Qed.

(** What the receiver of a commit needs: it is in the committer's epoch, holds
    the keys the commit asks of it, and the commit neither removes nor updates
    it.  Keys that the tree before the commit asks for are enough. *)
Record receiver_ready (d : Z) g (opt : CommitOptions) h : Prop := {
  rr_epoch : same_epoch g h;
  rr_psks : same_psks g h;
  rr_leaf : 0 <= g_ownLeaf h < 2 ^ d /\ populated (rt_nodes (g_tree g)) (g_ownLeaf h);
  rr_other : g_ownLeaf h <> g_ownLeaf g;
  rr_keys : forall a, staged g opt = Ok a -> follower_keys (ap_tree a) (g_ownLeaf g) (g_ownLeaf h) (g_priv h);
  rr_spared : forall rs, staged_proposals g opt = Ok rs -> Forall (op_avoids (g_ownLeaf h)) (wrapped <$> commit_ops rs)
}.

(** Without an own Update the private state stays. *)
Lemma resolveOwnUpdatePriv_none h pors cache l rs : resolve_proposals cache l pors = Ok rs ->
  Forall (fun r => p_Type (cp_proposal r) = ProposalTypeUpdate -> cp_sender r <> g_ownLeaf h) rs ->
  resolveOwnUpdatePriv h pors cache l = Ok None.
Proof.
  revert rs. induction pors as [|por pors IH]; intros rs; [done|]. cbn [resolve_proposals resolveOwnUpdatePriv].
  intros Hx. apply obind_ok in Hx as (rr & Hr & Hx). apply obind_ok in Hx as (rest & Hrest & [= <-]).
  intros [Hh HF]%Forall_cons. specialize (IH rest Hrest HF).
  assert ((if por_Type por =? ProposalOrRefTypeProposal
           then option_map (fun p => mkCached p l) (por_Proposal por)
           else if por_Type por =? ProposalOrRefTypeReference then cache !! por_Reference por else None) = Some rr) as ->.
  { repeat case_match; try done; by injection Hr as <-. }
  destruct rr as [prop sn]. cbn [cp_proposal cp_sender] in Hh. destruct (p_Update prop); [|done].
  destruct (Z.eqb_spec (p_Type prop) ProposalTypeUpdate), (Z.eqb_spec sn (g_ownLeaf h)); cbn [negb orb]; try done.
  exfalso. by apply Hh.
Qed.

Lemma avoids_updates m rs : 0 <= m < 2 ^ 31 -> Forall cached_ok rs -> Forall (op_avoids m) (wrapped <$> commit_ops rs) ->
  Forall (fun r => p_Type (cp_proposal r) = ProposalTypeUpdate -> cp_sender r <> m) rs.
Proof.
  intros Hm Hok HF. rewrite Forall_forall in Hok |- *. intros r Hr Ht Heq. subst m.
  assert (exists ln, OpUpdate (cp_sender r) ln ∈ commit_ops rs) as [ln Hin].
  { pose proof (Hok r Hr) as Hrok. unfold cached_ok in Hrok.
    assert (exists u, p_Update (cp_proposal r) = Some u) as [u Hu] by (destruct Hrok; try done; by eexists).
    exists (update_LeafNode u). unfold commit_ops. apply elem_of_app. left. apply list_elem_of_omap. exists r. split.
    - apply list_elem_of_In, filter_In. split; [by apply list_elem_of_In|]. by apply Z.eqb_eq.
    - unfold update_op. by rewrite Hu. }
  assert (wrapped (OpUpdate (cp_sender r) ln) = OpUpdate (cp_sender r) ln) as Ew by (cbn [wrapped]; by rewrite leaf_index_small).
  apply (Forall_forall _ _) with (x := OpUpdate (cp_sender r) ln) in HF; [by apply HF|].
  apply list_elem_of_fmap. eauto.
Qed.

(** The staged tree, as the receiver sees it: it is a member, not a new one,
    and holds the keys the tree asks of it. *)
Lemma staged_member d g h opt rs a :
  tree_wf d (g_tree g) -> receiver_ready d g opt h -> staged_proposals g opt = Ok rs -> staged g opt = Ok a ->
  applied_ok (g_tree g) rs a ->
  exists d', tree_wf d' (ap_tree a) /\ rt_suite (ap_tree a) = rt_suite (g_tree g) /\
    0 <= g_ownLeaf h < 2 ^ d' /\ populated (rt_nodes (ap_tree a)) (g_ownLeaf h) /\
    follower_keys (ap_tree a) (g_ownLeaf g) (g_ownLeaf h) (g_priv h) /\
    Forall (fun l => 0 <= l < 2 ^ d') (ap_newlyAdded a) /\ g_ownLeaf h ∉ ap_newlyAdded a.
Proof.
  intros Hwf [_ _ [Hl Hpop] _ Hk Hav] Hrs Hst [Hrun (d' & base & Hwf' & Hao & Hbase) _]. specialize (Hav rs Hrs).
  pose proof (rk_kept _ _ _ Hrun (g_ownLeaf h) ltac:(lia) Hpop Hav) as Hkept.
  pose proof (kept_populated _ _ _ Hkept Hpop) as Hpop'.
  pose proof (ti_len _ _ (wf_inv _ _ Hwf')). pose proof (ti_depth _ _ (wf_inv _ _ Hwf')).
  pose proof (populated_range d' _ _ ltac:(done) ltac:(lia) Hpop').
  exists d'. split_and!; [done|by destruct Hrun|lia|lia|done|by apply Hk|by destruct Hao|].
  intros Hin. pose proof (ao_fresh _ _ _ _ _ Hao) as Hfr. rewrite Forall_forall in Hfr. specialize (Hfr _ Hin).
    unfold commit_ops in Hav. rewrite app_assoc, fmap_app in Hav. apply Forall_app in Hav as [Hav _].
    pose proof (rk_kept _ _ _ Hbase (g_ownLeaf h) ltac:(lia) Hpop Hav) as [Eb _].
    destruct (rk_wf _ _ _ Hbase) as [db Hwb]. rewrite lookup_roster in Hfr by lia.
    rewrite Eb in Hfr. destruct Hpop as [n Hn]. rewrite Hn in Hfr.
    destruct (ti_leaf _ _ (wf_inv _ _ Hwf) _ _ (proj1 Hl) Hn) as [ln ->]. done.
Qed.

(** Keys that the tree before the commit asks for are those that the staged
    tree asks for. *)
Lemma staged_keys d g opt signer m priv a :
  commit_ready d g opt signer -> 0 <= m -> populated (rt_nodes (g_tree g)) m -> follower_keys (g_tree g) (g_ownLeaf g) m priv ->
  (forall rs, staged_proposals g opt = Ok rs -> Forall (op_avoids m) (wrapped <$> commit_ops rs)) ->
  staged g opt = Ok a -> follower_keys (ap_tree a) (g_ownLeaf g) m priv.
Proof.
  intros Hcr Hm Hpop Hk Hav Hst d' K HK. unfold staged in Hst. apply obind_ok in Hst as (wt & Hcl & Hst).
  apply obind_ok in Hst as ([cache refs] & Hca & Hap).
  destruct (staged_ok d g opt signer cache refs wt a Hcr Hcl Hca Hap) as (-> & rs & Hrs & _ & [Hrun (d1 & _ & Hwf' & _) _] & _).
  apply (usable_keys_kept d1 (g_tree g)); try done; [by destruct Hwf'|by destruct Hrun| |by apply (Hk d')].
  apply (rk_kept _ _ _ Hrun); [done..|]. apply Hav. unfold staged_proposals. by rewrite Hca.
Qed.

(** The committer's leaf in the staged tree. *)
Lemma GenerateUpdatePath_sender t t' l leafSecret signer gid added mkGC rng out d :
  tree_inv d (rt_nodes t) -> 0 <= l < 2 ^ 31 ->
  GenerateUpdatePath t l leafSecret signer gid added mkGC rng = Ok (t', out) ->
  0 <= l < 2 ^ d /\ exists orig, slot (rt_nodes t) (2 * l) = leaf_node orig /\
    exists leafPub ph sig, up_LeafNode out.1.1 = with_signature (commit_leaf orig leafPub ph) sig.
Proof.
  intros Hinv Hl Hx. unfold GenerateUpdatePath in Hx. pose proof (ti_len _ _ Hinv) as Hlen. pose proof (ti_depth _ _ Hinv).
  apply obind_ok in Hx as (orig & Ho & Hx). rewrite u32_small in Ho by lia.
  assert (slot (rt_nodes t) (2 * l) = orig) as Hs.
  { apply index_ok in Ho as [_ Ho]. unfold slot. by rewrite Ho. }
  destruct orig as [[[orig|] q]|]; [|done..].
  destruct (ti_leaf _ _ Hinv l _ (proj1 Hl) Hs) as [ln [= <- ->]].
  pose proof (populated_range d _ l Hlen ltac:(lia) ltac:(by eexists)). split; [lia|]. exists orig. split; [done|].
  repeat (apply obind_ok in Hx as (? & _ & Hx); repeat match goal with x : _ * _ |- _ => destruct x end).
  injection Hx as _ <-. cbn. eauto.
Qed.

Lemma commit_leaf_ok orig leafPub ph sig : LeafNode_ok orig -> LeafNode_ok (with_signature (commit_leaf orig leafPub ph) sig).
Proof. intros (? & ? & _ & _ & ?). split_and!; try done. Qed.

(** The receiver's transcript is the committer's. *)
Lemma commit_transcript_agrees g h signer fc wf ci sig tag confirmed interim : same_epoch g h ->
  SignCommit (g_suite g) signer (Some (g_groupContext g)) fc wf = Ok (ci, sig) -> fc_ContentType fc = ContentTypeCommit ->
  len tag = HashLen (g_suite g) -> InterimTranscriptHash (g_suite g) confirmed tag = Ok interim ->
  commit_transcript h (mkAuthenticatedContent wf fc (mkAuthData sig tag)) =
  Ok (ConfirmedTranscriptHash (g_suite g) (g_interim g) ci, tag).
Proof.
  intros Hs Hsc Hct Hlen Hi. unfold commit_transcript. rewrite (se_suite _ _ Hs), (se_interim _ _ Hs).
  assert (exists raw, AuthenticatedContent_MarshalMLS (mkAuthenticatedContent wf fc (mkAuthData sig tag)) = Ok raw) as [raw Hraw].
  { unfold InterimTranscriptHash in Hi. apply obind_ok in Hi as (inp & Hinp & _). unfold WriteOpaqueV_bytes in Hinp.
    apply obind_ok in Hinp as (hdr & Hhdr & _). pose proof Hsc as Hsc'. unfold SignCommit in Hsc'.
    apply obind_ok in Hsc' as (ac & _ & Hsc'). apply obind_ok in Hsc' as (b1 & H1 & Hsc').
    apply obind_ok in Hsc' as (b2 & H2 & Hsc'). apply obind_ok in Hsc' as (b3 & H3 & [= _ Hsig]).
    unfold AuthenticatedContent_MarshalMLS, AuthData_marshal.
    cbn [ac_WireFormat ac_Content ac_Auth ad_Signature ad_ConfirmationTag]. rewrite H1. cbn [obind]. rewrite H2. cbn [obind].
    rewrite Hsig in H3. rewrite H3. cbn [obind]. rewrite Hct, Z.eqb_refl.
    unfold WriteOpaqueV, Builder_WriteVarint. rewrite Hhdr. cbn [obind]. eauto. }
  rewrite Hraw. cbn [obind]. by rewrite (SignCommit_Split _ _ _ _ _ _ _ _ _ Hsc Hct Hlen Hraw).
Qed.

(** The receiver's path processing, on the staged tree. *)
Lemma receive_path_agrees d g h a t' signer leafSecret rng up cs byNode :
  same_epoch g h -> tree_wf d (ap_tree a) -> rt_suite (ap_tree a) = g_suite g ->
  0 <= g_ownLeaf g < 2 ^ d -> 0 <= g_ownLeaf h < 2 ^ d -> g_ownLeaf g <> g_ownLeaf h ->
  populated (rt_nodes (ap_tree a)) (g_ownLeaf h) -> follower_keys (ap_tree a) (g_ownLeaf g) (g_ownLeaf h) (g_priv h) ->
  Forall (fun l => 0 <= l < 2 ^ d) (ap_newlyAdded a) -> g_ownLeaf h ∉ ap_newlyAdded a ->
  is_ok (RatchetTree_MarshalMLS (ap_tree a)) = true ->
  GenerateUpdatePath (ap_tree a) (g_ownLeaf g) leafSecret signer (gc_GroupID (g_groupContext g)) (ap_newlyAdded a)
    (path_context g a) rng = Ok (t', (up, cs, byNode)) ->
  exists th K ps, RootTreeHash t' = Ok th /\ meet d (g_ownLeaf g) (g_ownLeaf h) K /\
    byNode !! node K (g_ownLeaf g / 2 ^ K) = Some ps /\
    receive_path h (ap_tree a) (g_ownLeaf g) up (g_priv h) (ap_ext a) (ap_newlyAdded a) = Ok (t', th, cs, Some ps).
Proof.
  intros Hs Hwf Hsu Hg Hh Hne Hpop Hk Hr Hni Henc Hgen.
  destruct (UpdatePath_delivers d (ap_tree a) t' (g_ownLeaf g) (g_ownLeaf h) (g_priv h) leafSecret signer _ _ _ rng up cs byNode
    (wf_inv _ _ Hwf) Hg Hh Hne Hpop (Hk d) Hr Hni Hgen) as (th & gcb & K & ps & Hth & Hgc & HK & Hps & Hpu & Hmg).
  exists th, K, ps. split_and!; [done..|]. unfold receive_path.
  rewrite (proj2 (Clone_wf d (ap_tree a) (g_ownLeaf h) Hwf (proj1 Hh) Hpop) Henc). cbn [obind].
  rewrite Hmg. cbn [obind]. rewrite Hth. cbn [obind]. rewrite (se_context _ _ Hs). unfold path_context in Hgc.
  rewrite Hgc. cbn [obind]. rewrite Hpu. cbn [obind]. done.
Qed.

(** ** Merging keeps the tree encodable *)

Definition slot_ok (n : option Node) : Prop := match n with Some x => Node_ok x | None => True end.

Lemma set_index_slots nodes i v nodes' : slots_ok nodes -> slot_ok v -> set_index nodes i v = Ok nodes' -> slots_ok nodes'.
Proof. intros Hn Hv [_ ->]%set_index_ok. by apply Forall_insert. Qed.

Lemma for_path_slots fuel leaves root x nodes nodes' : slots_ok nodes ->
  for_path (fun p nodes => set_index nodes p None) fuel leaves root x nodes = Ok nodes' -> slots_ok nodes'.
Proof.
  revert x nodes. induction fuel as [|fuel IH]; intros x nodes Hn; cbn [for_path];
    (destruct (x =? root); [by intros [= <-]|]); [done|].
  intros Hx. apply obind_ok in Hx as ([p|] & _ & Hx); [|by apply Ok_inj in Hx; subst].
  apply obind_ok in Hx as (nodes1 & H1 & Hx). eapply IH; [|exact Hx].
  by apply (set_index_slots nodes p None).
Qed.

Lemma blank_path_slots nodes leaves x nodes' : slots_ok nodes -> blank_path nodes leaves x = Ok nodes' -> slots_ok nodes'.
Proof. unfold blank_path. generalize tree_fuel. intros fuel. apply for_path_slots. Qed.

Lemma install_keys_slots nodes fdp pubs nodes' : slots_ok nodes -> install_keys nodes fdp pubs = Ok nodes' -> slots_ok nodes'.
Proof.
  revert nodes pubs. induction fdp as [|p fdp IH]; intros nodes pubs Hn; cbn [install_keys]; [by intros [= <-]|].
  destruct pubs as [|pub pubs]; [done|]. intros Hx. apply obind_ok in Hx as (nodes1 & H1 & Hx). eapply IH; [|exact Hx].
  eapply (set_index_slots nodes p); [done| |exact H1]. constructor.
Qed.

Lemma set_parent_hash_slots t p ph t' : slots_ok (rt_nodes t) -> set_parent_hash t p ph = Ok t' -> slots_ok (rt_nodes t').
Proof.
  intros Hn Hx. unfold set_parent_hash in Hx. apply obind_ok in Hx as (n & Hi & Hx).
  destruct n as [[lf [pn|]]|]; [|done..]. apply obind_ok in Hx as (ns & H1 & [= <-]). cbn [rt_nodes].
  eapply set_index_slots; [done| |exact H1]. apply index_ok in Hi as [_ Hi]. unfold slots_ok in Hn.
  rewrite Forall_lookup in Hn. specialize (Hn _ _ Hi). by destruct lf.
Qed.

Lemma assign_parent_hashes_slots leaves fdp t t' : slots_ok (rt_nodes t) ->
  assign_parent_hashes t leaves fdp = Ok t' -> slots_ok (rt_nodes t').
Proof.
  revert t t'. induction fdp as [|p above IH]; intros t t' Hn; cbn [assign_parent_hashes]; [by intros [= <-]|].
  intros Hx. apply obind_ok in Hx as (t1 & H1 & Hx). specialize (IH t t1 Hn H1). destruct above.
  - exact (set_parent_hash_slots _ _ _ _ IH Hx).
  - apply obind_ok in Hx as (pc & _ & Hx). apply obind_ok in Hx as (sb & _ & Hx). apply obind_ok in Hx as (ph & _ & Hx).
    exact (set_parent_hash_slots _ _ _ _ IH Hx).
Qed.

Lemma installPath_slots t l pubs t' fdp : slots_ok (rt_nodes t) -> installPath t l pubs = Ok (t', fdp) -> slots_ok (rt_nodes t').
Proof.
  intros Hn. unfold installPath. generalize (filteredDirectPath t l). intros [fdp1| | |]; [|done..]. cbn [obind].
  destruct (negb _); [done|]. intros Hi.
  apply obind_ok in Hi as (n1 & H1 & Hi). apply obind_ok in Hi as (n2 & H2 & Hi). apply obind_ok in Hi as (t2 & H3 & [= <- _]).
  eapply assign_parent_hashes_slots; [|exact H3]. cbn [rt_nodes]. eapply install_keys_slots; [|exact H2].
  exact (blank_path_slots _ _ _ _ Hn H1).
Qed.

Lemma Merge_slots t l up t' : slots_ok (rt_nodes t) -> UpdatePath_ok up -> Merge t l up = Ok t' -> slots_ok (rt_nodes t').
Proof.
  intros Hn Hup. unfold Merge. destruct (installPath t l _) as [[t1 fdp]| | |] eqn:Hi; [|done..]. cbn [obind].
  intros Hx. apply obind_ok in Hx as (n3 & H4 & [= <-]). cbn [rt_nodes].
  eapply (set_index_slots (rt_nodes t1) _ (leaf_node (up_LeafNode up))); [|exact Hup|exact H4].
  exact (installPath_slots _ _ _ _ _ Hn Hi).
Qed.

(** A merged tree is well formed in every respect. *)
Lemma Merge_wf d t l up t' : tree_wf d t -> 0 <= l < 2 ^ d -> populated (rt_nodes t) l -> UpdatePath_ok up ->
  Merge t l up = Ok t' -> tree_wf d t' /\ rt_suite t' = rt_suite t /\
    roster_of (rt_nodes t') = <[l := up_LeafNode up]> (roster_of (rt_nodes t)).
Proof.
  intros Hwf Hl Hp Hup Hm. destruct Hwf as [Hinv Hsn Hsl].
  destruct (proj2 (Merge_ok d t Hinv l up Hl Hp) t' Hm) as (Hsu & Hinv' & Hro). split_and!; [|done..].
  split; [done| |by eapply Merge_slots]. left. pose proof (ti_depth _ _ Hinv).
  eapply (tight_mono d (rt_nodes t)); [|lia|apply (snug_tight d _ l); done || lia]. intros m Hm0. rewrite !(populated_roster d) by done. rewrite Hro.
  destruct (decide (l = m)) as [->|]; [by rewrite lookup_insert_eq|by rewrite lookup_insert_ne].
Qed.

Lemma tree_wf_depth d d' t : tree_wf d t -> tree_wf d' t -> d = d'.
Proof.
  intros [H1 _ _] [H2 _ _]. pose proof (ti_len _ _ H1) as L1. pose proof (ti_len _ _ H2) as L2.
  pose proof (ti_depth _ _ H1). pose proof (ti_depth _ _ H2).
  assert (d + 1 = d' + 1); [|lia]. apply (Z.pow_inj_r 2); lia.
Qed.

(** The committer's side of the tree: its leaf is a member of the staged tree,
    the path is encodable and the new tree is well formed. *)
Lemma committed_tree d g opt signer a leafSecret gid mkGC rng t' up cs byNode d' :
  commit_ready d g opt signer -> tree_wf d' (ap_tree a) ->
  GenerateUpdatePath (ap_tree a) (g_ownLeaf g) leafSecret signer gid (ap_newlyAdded a) mkGC rng = Ok (t', (up, cs, byNode)) ->
  0 <= g_ownLeaf g < 2 ^ d' /\ UpdatePath_ok up /\ tree_wf d' t' /\ rt_suite t' = rt_suite (ap_tree a) /\
  roster_of (rt_nodes t') = <[g_ownLeaf g := up_LeafNode up]> (roster_of (rt_nodes (ap_tree a))) /\
  exists orig leafPub ph sig, slot (rt_nodes (ap_tree a)) (2 * g_ownLeaf g) = leaf_node orig /\
    up_LeafNode up = with_signature (commit_leaf orig leafPub ph) sig.
Proof.
  intros Hcr Hwf' Hgen. assert (0 <= g_ownLeaf g < 2 ^ 31) as Hown.
  { pose proof (ti_depth _ _ (wf_inv _ _ (cr_tree _ _ _ _ Hcr))). destruct (cr_own _ _ _ _ Hcr) as [? _].
    assert (2 ^ d <= 2 ^ 30) by (apply Z.pow_le_mono_r; lia). lia. }
  destruct (GenerateUpdatePath_sender _ _ _ _ _ _ _ _ _ _ d' (wf_inv _ _ Hwf') Hown Hgen)
    as (Hg & orig & Horig & leafPub & ph & lsig & Hleaf). cbn [fst] in Hleaf.
  assert (UpdatePath_ok up) as Hup.
  { unfold UpdatePath_ok. rewrite Hleaf. apply commit_leaf_ok. pose proof (wf_slots _ _ Hwf') as Hsl.
    rewrite slots_ok_slot in Hsl. specialize (Hsl (2 * g_ownLeaf g) ltac:(lia)). by rewrite Horig in Hsl. }
  assert (populated (rt_nodes (ap_tree a)) (g_ownLeaf g)) as Hpop by (unfold populated; rewrite Horig; by eexists).
  destruct (Merge_wf d' (ap_tree a) (g_ownLeaf g) up t' Hwf' Hg Hpop Hup (Merge_agrees _ _ _ _ _ _ _ _ _ _ _ _ Hgen))
    as (Hwf2 & Hsu2 & Hro2).
  split_and!; try done; try lia. by exists orig, leafPub, ph, lsig.
Qed.

(** The run of a [ProcessCommit] whose steps succeed. *)
Lemma ProcessCommit_run h proposals commit cache refs mm ac cm wt a upd confirmed tag wt' th cs ps gcb psk es interim priv st :
  let l := snd_LeafIndex (fc_Sender (ac_Content ac)) in
  let wp := match upd with Some k => NewTreeKEMPrivate (g_ownLeaf h) k | None => g_priv h end in
  let newGC := next_context (g_groupContext h) th confirmed (ap_ext a) in
  proposal_cache h proposals ∅ [] = Ok (cache, refs) -> MLSMessage_UnmarshalMLS commit = Ok mm ->
  public_sender (fun t => t =? SenderTypeNewMemberCommit) mm = false -> authenticateCommit h mm = Ok ac ->
  fc_Epoch (ac_Content ac) = gc_Epoch (g_groupContext h) -> Commit_UnmarshalMLS (fc_Content (ac_Content ac)) = Ok cm ->
  Clone (g_tree h) = Ok wt ->
  applyProposals wt cm cache (gc_Extensions (g_groupContext h)) (g_externalPSKs h) (resumption_psks h)
    (gc_GroupID (g_groupContext h)) l = Ok a ->
  resolveOwnUpdatePriv h (cm_Proposals cm) cache l = Ok upd -> commit_transcript h ac = Ok (confirmed, tag) ->
  receive_optional_path h (ap_tree a) l (cm_Path cm) wp (ap_ext a) (ap_newlyAdded a) = Ok (wt', th, cs, ps) ->
  GroupContext_MarshalMLS newGC = Ok gcb -> PSKSecret (g_suite h) (ap_psks a) = Ok psk ->
  DeriveEpochSecrets (g_suite h) (g_initSecret h) cs (Some psk) gcb = Ok es ->
  ConfirmationTag (g_suite h) (es_ConfirmationKey es) confirmed = tag ->
  InterimTranscriptHash (g_suite h) confirmed tag = Ok interim ->
  rebuild_priv h wt' wp ps l = Ok priv -> NewSecretTree (g_suite h) (LeafCount wt') (es_EncryptionSecret es) = Ok st ->
  ProcessCommit proposals commit h = (Ok tt, next_state h wt' newGC es interim priv st 0).
Proof.
  intros l wp newGC H1 H2 H3 H4 H5 H6 H7 H8 H9 H10 H11 H12 H13 H14 H15 H16 H17 H18. unfold ProcessCommit.
  rewrite gbind_get, (gbind_lift _ _ _ _ H1), (gbind_lift _ _ _ _ H2), H3, (gbind_lift _ _ _ _ H4), H5, Z.eqb_refl.
  cbn [negb]. rewrite (gbind_lift _ _ _ _ eq_refl), (gbind_lift _ _ _ _ H6), (gbind_lift _ _ _ _ H7), (gbind_lift _ _ _ _ H8),
    (gbind_lift _ _ _ _ H9), (gbind_lift _ _ _ _ H10), (gbind_lift _ _ _ _ H11), (gbind_lift _ _ _ _ H12),
    (gbind_lift _ _ _ _ H13), (gbind_lift _ _ _ _ H14).
  assert (bytes_Equal (ConfirmationTag (g_suite h) (es_ConfirmationKey es) confirmed) tag = true) as -> by by apply bytes_Equal_spec.
  cbn [negb]. rewrite (gbind_lift _ _ _ _ eq_refl), (gbind_lift _ _ _ _ H16), (gbind_lift _ _ _ _ H17), (gbind_lift _ _ _ _ H18).
  done.
Qed.

(** ** The receiver follows *)

(** The path of the commit, and the private keys the receiver is left with: its
    leaf key, and above the node where the paths meet the keys derived from the
    path secret of that node. *)
Record followed (d : Z) g opt signer (r : CommitRand) g' h h' (a : Applied) (up : UpdatePath) (byNode : gmap Z bytes) : Prop := {
  fo_staged : staged g opt = Ok a;
  fo_applied : exists rs, staged_proposals g opt = Ok rs /\ applied_ok (g_tree g) rs a;
  fo_wf : tree_wf d (ap_tree a) /\ rt_suite (ap_tree a) = g_suite g;
  fo_member : 0 <= g_ownLeaf h < 2 ^ d /\ populated (rt_nodes (ap_tree a)) (g_ownLeaf h) /\
    follower_keys (ap_tree a) (g_ownLeaf g) (g_ownLeaf h) (g_priv h);
  fo_path : exists cs, GenerateUpdatePath (ap_tree a) (g_ownLeaf g) (cr_leafSecret r) signer (gc_GroupID (g_groupContext g))
      (ap_newlyAdded a) (path_context g a) (cr_path r) = Ok (g_tree g', (up, cs, byNode));
  fo_own : g_ownLeaf h' = g_ownLeaf h /\ g_handshakeGeneration h' = 0;
  fo_keys : exists K ps, let m := g_ownLeaf h in meet d (g_ownLeaf g) m K /\
    byNode !! node K (g_ownLeaf g / 2 ^ K) = Some ps /\
    (forall x, (forall i, K <= i <= d -> x <> node i (m / 2 ^ i)) ->
       privateKey (g_priv h') x =
       privateKey (NewTreeKEMPrivate m (default [] (PrivateKeyAt (g_priv h) (2 * m)))) x) /\
    (forall i, K <= i <= d -> exists sec sk pk, path_ratchet (g_suite g) ps (Z.to_nat (i - K)) = Ok sec /\
       nodeKeyPair (g_suite g) sec = Ok (sk, pk) /\ privateKey (g_priv h') (node i (m / 2 ^ i)) = Some sk)
}.

Lemma ProcessCommit_follows_keys d g h opt signer r commit w g' :
  commit_ready d g opt signer -> receiver_ready d g opt h -> derivable (g_suite g) -> len (cr_guard r) = 4 ->
  is_ok (let! a := staged g opt in RatchetTree_MarshalMLS (ap_tree a)) = true ->
  Group_Commit r opt g = (Ok (commit, w), g') ->
  exists h' d' a up byNode, ProcessCommit (ByReference opt) commit h = (Ok tt, h') /\ same_epoch g' h' /\ same_psks g' h' /\
    tree_wf d' (g_tree g') /\ rt_suite (g_tree g') = g_suite g' /\ followed d' g opt signer r g' h h' a up byNode.
Proof.
  intros Hcr Hrr Hder Hgu Henc Hcm. pose proof (cr_signer _ _ _ _ Hcr) as Hsf. pose proof (rr_epoch _ _ _ _ Hrr) as Hs.
  destruct (Group_Commit_inv r opt g signer commit w g' (proj1 Hsf) Hcm)
    as (cache & refs & a & wt & up & cs & byNode & body & ci & sig & th & gcb & psk & es & mm & g1 & interim & priv & st &
        Hcl & Hca & Hap & Hgen & Hbody & Hsc & Hth & Hgcb & Hpsk & Hes & Hfr & Hms & _ & Hint & _ & Hst & Hg').
  destruct (staged_ok d g opt signer cache refs wt a Hcr Hcl Hca Hap) as (-> & rs & Hrs & Hrok & Hok & _).
  assert (staged g opt = Ok a) as Hstaged by (unfold staged; rewrite Hcl; cbn [obind]; rewrite Hca; exact Hap).
  assert (staged_proposals g opt = Ok rs) as Hsp by (unfold staged_proposals; rewrite Hca; exact Hrs).
  rewrite Hstaged in Henc. cbn [obind] in Henc.
  destruct (staged_member d g h opt rs a (cr_tree _ _ _ _ Hcr) Hrr Hsp Hstaged Hok) as (d' & Hwf' & Hsu & Hl & Hpop & Hk & Hnew & Hni).
  assert (2 ^ d' <= 2 ^ 30) by (pose proof (ti_depth _ _ (wf_inv _ _ Hwf')); apply Z.pow_le_mono_r; lia).
  destruct (committed_tree d g opt signer a _ _ _ _ _ up cs byNode d' Hcr Hwf' Hgen) as (Hg & Hup & Hwf2 & Hsu2 & _).
  rewrite (cr_suite _ _ _ _ Hcr) in Hsu.
  destruct (receive_path_agrees d' g h a (g_tree g') signer _ _ up cs byNode Hs Hwf' Hsu Hg Hl
    ltac:(pose proof (rr_other _ _ _ _ Hrr); congruence) Hpop Hk Hnew Hni Henc Hgen) as (th' & K & ps & Hth' & HK & Hps & Hrp).
  rewrite Hth in Hth'. apply Ok_inj in Hth' as <-.
  assert (Commit_ok (mkCommit (commit_proposals refs (ByValue opt)) (Some up))) as Hcok.
  { split; [apply commit_proposals_ok, (cr_proposals _ _ _ _ Hcr)|exact Hup]. }
  assert (FramedContent_ok (commit_content g body)) as Hfc.
  { repeat split; cbn; try done; try apply (cr_epoch _ _ _ _ Hcr); try lia. by apply (commit_content_ok _ _ Hcok Hbody). }
  set (tag := ConfirmationTag (g_suite g) (es_ConfirmationKey es) _) in *.
  assert (len tag = HashLen (g_suite g)) as Htag by apply hmac_Sum_len.
  destruct (frame_commit_delivers g h (cr_guard r) (commit_content g body) ci sig tag signer mm g1 commit Hs Hsf eq_refl eq_refl Hfc eq_refl
    (cr_gen _ _ _ _ Hcr) Hgu Hsc Hfr Hms) as (Hum & Hnm & Hau).
  destruct (installJoinerPriv_ok (g_suite g) d' (g_ownLeaf g) (g_ownLeaf h) K
    (NewTreeKEMPrivate (g_ownLeaf h) (default [] (PrivateKeyAt (g_priv h) (2 * g_ownLeaf h)))) ps
    (ti_depth _ _ (wf_inv _ _ Hwf')) Hg Hl HK Hder) as (priv' & Hinst & Hoff & Hon).
  assert (rebuild_priv h (g_tree g') (g_priv h) (Some ps) (g_ownLeaf g) = Ok priv') as Hreb.
  { unfold rebuild_priv. destruct (uk_leaf _ _ _ _ (Hk d' K HK)) as [sk Hsk]. unfold PrivateKeyAt, privateKey in *.
    rewrite (proj1 (leaf_bound d' (g_ownLeaf h) (ti_depth _ _ (wf_inv _ _ Hwf')) Hl)), Hsk in *.
    rewrite (se_suite _ _ Hs). unfold LeafCount. by rewrite (proj1 (leaves_d d' (g_tree g') (wf_inv _ _ Hwf2))). }
  pose proof (commit_transcript_agrees g h signer _ _ ci sig tag _ interim Hs Hsc eq_refl Htag Hint) as Hct.
  eexists _, d', a, up, byNode. split_and!; [eapply (ProcessCommit_run h _ _ cache refs mm _ _ _ a None)| | |exact Hwf2| |].
  - by rewrite <- (proposal_cache_same g h _ _ _ Hs).
  - exact Hum.
  - exact Hnm.
  - exact Hau.
  - by rewrite (se_context _ _ Hs).
  - exact (unmarshal_marshal (r := decodeCommit) _ _ _ Hcok Hbody).
  - by rewrite (se_tree _ _ Hs).
  - destruct (rr_psks _ _ _ _ Hrr) as [-> ->]. by rewrite (se_context _ _ Hs).
  - eapply resolveOwnUpdatePriv_none; [exact Hrs|]. apply avoids_updates; [lia|done|]. by apply (rr_spared _ _ _ _ Hrr).
  - exact Hct.
  - cbn [cm_Path receive_optional_path ac_Content fc_Sender commit_content snd_LeafIndex]. rewrite Hrp. reflexivity.
  - rewrite (se_context _ _ Hs). exact Hgcb.
  - rewrite (se_suite _ _ Hs). exact Hpsk.
  - rewrite (se_suite _ _ Hs), (se_init _ _ Hs). exact Hes.
  - by rewrite (se_suite _ _ Hs).
  - rewrite (se_suite _ _ Hs). exact Hint.
  - exact Hreb.
  - rewrite (se_suite _ _ Hs). exact Hst.
  - rewrite Hg'. split; cbn [next_state g_suite g_groupContext g_tree g_epoch g_secretTree g_interim g_initSecret];
      [apply Hs|by rewrite (se_context _ _ Hs)|done..].
  - rewrite Hg'. destruct (rr_psks _ _ _ _ Hrr) as [Eps Ers]. split; [exact Eps|]. unfold resumption_psks in *.
    cbn [next_state g_resumptionPSKHistory g_groupContext g_epoch]. by rewrite Ers, (se_context _ _ Hs).
  - rewrite Hsu2, Hsu, Hg'. done.
  - split; [done|by exists rs|done|done| | |]; [by exists cs|done|by exists K, ps].
Qed.

Lemma ProcessCommit_follows d g h opt signer r commit w g' :
  commit_ready d g opt signer -> receiver_ready d g opt h -> derivable (g_suite g) -> len (cr_guard r) = 4 ->
  is_ok (let! a := staged g opt in RatchetTree_MarshalMLS (ap_tree a)) = true ->
  Group_Commit r opt g = (Ok (commit, w), g') ->
  exists h' d', ProcessCommit (ByReference opt) commit h = (Ok tt, h') /\ same_epoch g' h' /\ same_psks g' h' /\
    tree_wf d' (g_tree g') /\ rt_suite (g_tree g') = g_suite g'.
Proof.
  intros Hcr Hrr Hder Hgu Henc Hcm.
  destruct (ProcessCommit_follows_keys d g h opt signer r commit w g' Hcr Hrr Hder Hgu Henc Hcm)
    as (h' & d' & a & up & byNode & ? & ? & ? & ? & ? & _). by exists h', d'.
Qed.
End commit.

(** * Application messages *)

Section application.
Context {C : StdCrypto} `{!StdCryptoLaws C}.
Implicit Types g h : Group.

Lemma UnprotectApplication_Protect g h signer guard plaintext aad msg g' :
  same_epoch g h -> signs_for g signer -> is_u64 (Epoch g) -> is_u32 (g_ownLeaf g) -> is_u32 (g_appGeneration g) ->
  len guard = 4 -> ProtectApplication guard plaintext aad g = (Ok msg, g') ->
  UnprotectApplication h msg = Ok (plaintext, aad) /\ g' = with_appGeneration (u32 (g_appGeneration g + 1)) g.
Proof.
  intros Hs (Hsg & ln & Hln & Hpub) Hep Hown Hgen Hgu Hx. unfold ProtectApplication in Hx. run_ok_in Hx.
  match goal with E : need_signer g = _ |- _ => unfold need_signer in E; rewrite Hsg in E; apply Ok_inj in E as <- end.
  apply gbind_ok in Hx as ([] & gy & Eput & Hx). injection Eput as <-. apply glift_ok in Hx as [Hms ->]. split; [|done].
  set (fc := mkFramedContent _ _ _ _ _ _) in *.
  assert (FramedContent_ok fc) as Hfc by (repeat split; cbn; try done; try apply Hep; try apply Hown; lia).
  destruct (UnprotectPrivate_Protect (g_suite g) signer (ln_SignatureKey ln) (Some (g_groupContext g)) (g_secretTree g)
    (es_SenderDataSecret (g_epoch g)) fc (g_appGeneration g) guard 0 [] a0 (sigPubByLeaf g) Hpub) as (auth & Hun & _);
    [cbn; unfold sigPubByLeaf; by rewrite Hln|done|done|done|done|].
  pose proof E0 as Eseal. unfold ProtectPrivate in Eseal. destruct (negb _); [done|]. apply obind_ok in Eseal as (ac & _ & Eseal).
  pose proof (sealPrivate_ok _ _ _ _ _ _ _ _ _ Hfc Eseal) as Hok.
  assert (MLSMessage_UnmarshalMLS msg = Ok (mkMLSMessage ProtocolVersionMLS10 WireFormatPrivateMessage None (Some a0))) as Hum.
  { eapply unmarshal_marshal; [|exact Hms]. unfold MLSMessage_ok. cbn. split_and!; try done; unfold is_u16; lia. }
  unfold UnprotectApplication. rewrite Hum. cbn [obind mm_WireFormat mm_Private]. rewrite Z.eqb_refl.
  assert (pv_ContentType a0 = ContentTypeApplication) as ->.
  { unfold sealPrivate in Eseal.
    repeat (apply obind_ok in Eseal as (? & _ & Eseal); repeat match goal with x : _ * _ |- _ => destruct x end).
    by injection Eseal as <-. }
  rewrite Z.eqb_refl. cbn [negb]. rewrite <- (sigPubByLeaf_proper g h Hs).
  destruct Hs as [-> -> _ -> -> _ _]. rewrite Hun. done.
Qed.
End application.

(** * Properties *)


(** C4: commits are atomic.  A [ProcessCommit] that fails, at whatever step,
    leaves the group as it was, and a [Commit] that fails has at most used up
    one generation of its handshake ratchet; one that succeeds moves the same
    member of the same group to the next epoch, with the ratchets of the new
    epoch's secret tree, fresh counters, no pending updates, and the epoch's
    resumption secret recorded. *)
Theorem commits_are_atomic {C : StdCrypto} g :
  (forall proposals commit, match ProcessCommit proposals commit g with
     | (Ok _, g') => next_epoch g g'
     | (_, g') => g' = g
     end) /\
  (forall r opt, match Group_Commit r opt g with
     | (Ok _, g') => next_epoch g g' /\ g_handshakeGeneration g' = 0
     | (_, g') => spent_handshake g g'
     end).
Proof.
  split.
  - intros ps cm. pose proof (ProcessCommit_fails ps cm g) as Hf. unfold fails_in in Hf.
    destruct (ProcessCommit ps cm g) as [[[]| | |] g'] eqn:E; [by eapply ProcessCommit_epoch|done..].
  - intros r opt. pose proof (Group_Commit_fails r opt g) as Hf. unfold fails_in in Hf.
    destruct (Group_Commit r opt g) as [[out| | |] g'] eqn:E; [by eapply Group_Commit_epoch|done..].
Qed.

(** C21: application messages are delivered within an epoch: what a member
    protects with [ProtectApplication], every member of the same epoch reads
    with [UnprotectApplication], plaintext and authenticated data alike, and
    the sender's ratchet has moved on by one generation. *)
Theorem application_delivery {C : StdCrypto} `{!StdCryptoLaws C} g h signer guard plaintext aad msg g' :
  same_epoch g h -> signs_for g signer -> is_u64 (Epoch g) -> is_u32 (g_ownLeaf g) -> is_u32 (g_appGeneration g) ->
  len guard = 4 -> ProtectApplication guard plaintext aad g = (Ok msg, g') ->
  UnprotectApplication h msg = Ok (plaintext, aad) /\ g' = with_appGeneration (u32 (g_appGeneration g + 1)) g.
Proof. apply UnprotectApplication_Protect. Qed.

(** ** A concrete epoch

    The example group with four members, none of whom has committed; member
    [i] has the key of its leaf only. *)
Module Epoch7.
#[local] Existing Instances toy toy_laws.

Definition context : GroupContext :=
  mkGroupContext 1 1 Example.group_id 7 (value [] (RootTreeHash (Example.tree 4))) [] [].

Definition secrets : EpochSecrets :=
  value (mkEpochSecrets [] [] [] [] [] [] [] [] [] [] [] [])
    (EpochSecretsFromJoiner toy_suite (toy_priv 70) None (bytes_of_string "context")).

Definition ratchets : SecretTree := value (mkSecretTree 0 ∅ ∅) (NewSecretTree toy_suite 4 (es_EncryptionSecret secrets)).

Definition interim : bytes := value [] (InterimTranscriptHash toy_suite [] (ConfirmationTag toy_suite (es_ConfirmationKey secrets) [])).

Definition member (i : Z) (encrypt : bool) : Group :=
  mkGroup toy_suite context (Example.tree 4) (NewTreeKEMPrivate i (toy_priv i)) secrets ratchets interim (es_InitSecret secrets) i
    (Some (Example.signer i)) ∅ ∅ 0 0 encrypt ∅.

Definition rand : CommitRand :=
  mkCommitRand (toy_priv 80) (zero_bytes 4) (fun i j => i + j : Rand (StdCrypto := toy)) (fun i => i : Rand (StdCrypto := toy)).

(** Member 0 removes member 1 and adds a member, in a private message. *)
Definition options : CommitOptions := mkCommitOptions [ProposeAdd (Transaction.key_package 4); ProposeRemove 1] [].

Lemma same i j b b' : same_epoch (member i b) (member j b').
Proof. by split. Qed.

Lemma signs b : signs_for (member 0 b) (Example.signer 0).
Proof. split; [done|]. exists (Example.leaf 0). split; vm_compute; reflexivity. Qed.

Lemma committer : commit_ready 2 (member 0 true) options (Example.signer 0).
Proof.
  split; try (exact Transaction.tree4_wf || reflexivity || apply signs).
  - split; [done|]. apply populated_b_ok. vm_compute. reflexivity.
  - done.
  - done.
  - exact Transaction.proposals_ok.
  - vm_compute. congruence.
Qed.

Lemma receiver : receiver_ready 2 (member 0 true) options (member 2 false).
Proof.
  assert (forall rs, staged_proposals (member 0 true) options = Ok rs -> Forall (op_avoids 2) (wrapped <$> commit_ops rs)) as Hav.
  { intros rs Hrs. vm_compute in Hrs. apply Ok_inj in Hrs as <-. vm_compute. repeat constructor; congruence. }
  assert (populated (rt_nodes (Example.tree 4)) 2) as Hpop by (apply populated_b_ok; vm_compute; reflexivity).
  split; [apply same|done|by split|done| |exact Hav].
  intros a. apply (staged_keys 2 _ _ (Example.signer 0)); [apply committer|done|exact Hpop| |exact Hav].
  apply (member_keys_follower 2); [apply Transaction.tree4_wf|done|exact member2_keys].
Qed.

Lemma derives : derivable toy_suite.
Proof. intros s. split; reflexivity. Qed.
End Epoch7.

#[local] Existing Instances toy toy_laws.


Lemma application_delivery_witness :
  match ProtectApplication (zero_bytes 4) (bytes_of_string "hello") [] (Epoch7.member 0 false) with
  | (Ok msg, _) => UnprotectApplication (Epoch7.member 3 true) msg = Ok (bytes_of_string "hello", [])
  | _ => False
  end.
Proof.
  destruct (ProtectApplication (zero_bytes 4) (bytes_of_string "hello") [] (Epoch7.member 0 false)) as [o g'] eqn:E.
  assert (is_ok o = true) as [msg ->]%is_ok_inv.
  { change o with (o, g').1. rewrite <- E. vm_compute. reflexivity. }
  refine (proj1 (application_delivery (Epoch7.member 0 false) (Epoch7.member 3 true) (Example.signer 0) (zero_bytes 4)
    (bytes_of_string "hello") [] msg g' (Epoch7.same 0 3 false true) (Epoch7.signs false) _ _ _ eq_refl E));
    split; vm_compute; congruence.
Defined.
