(* ===== verification/GroupKeys.v ===== *)
(** The private keys of members across a commit.

    A member can follow a commit when it holds the keys [member_keys] asks for.
    The committer has them again after its own commit; a receiver has them
    again when no ancestor below the node where the paths meet needs a key and
    no ancestor above it was left out of the path.  Groups of two always meet
    these conditions, and never get stuck. *)

From Stdlib Require Import ZArith Lia Strings.Byte.
From stdpp Require Import base list numbers strings sorting sets gmap.
From S2P Require Import Prelude Syntax TreeNodes TreeMath Cipher ToyCrypto RatchetTree TreeSync TreeKEM.
From S2P Require Import KeySchedule Framing GroupMessages Group GroupProposals GroupSync.

Lemma sublist_same_length {A} (l k : list A) : l `sublist_of` k -> (length k <= length l)%nat -> l = k.
Proof.
  induction 1 as [|x l k _ IH|x l k Hs _]; cbn; intros Hle; [done|f_equal; apply IH; lia|].
  apply sublist_length in Hs. lia.
Qed.

(** * The keys of a generated path *)

Section path.
Context {C : StdCrypto} `{!StdCryptoLaws C}.
Implicit Types t : RatchetTree.

Lemma node_pubs_lookup suite pss pubs i ps : node_pubs suite pss = Ok pubs -> pss !! i = Some ps ->
  exists sk pk, nodeKeyPair suite ps = Ok (sk, pk) /\ pubs !! i = Some pk.
Proof.
  revert pubs i. induction pss as [|ps0 pss IH]; intros pubs i Hx Hi; [done|]. cbn [node_pubs] in Hx.
  apply obind_ok in Hx as ([sk pk] & Hk & Hx). apply obind_ok in Hx as (rest & Hr & [= <-]).
  destruct i as [|i]; [injection Hi as ->; eauto|]. exact (IH rest i Hr Hi).
Qed.

(** The leaf key of a generated path comes from the leaf secret. *)
Lemma GenerateUpdatePath_leaf t l leafSecret signer gid added mkGC rng t' up cs byNode :
  GenerateUpdatePath t l leafSecret signer gid added mkGC rng = Ok (t', (up, cs, byNode)) ->
  exists sk, nodeKeyPair (rt_suite t) leafSecret = Ok (sk, ln_EncryptionKey (up_LeafNode up)).
Proof.
  intros HG. unfold GenerateUpdatePath in HG. apply obind_ok in HG as (orig & _ & HG).
  destruct orig as [[[orig|] ?]|]; [|done..]. apply obind_ok in HG as (fdp & _ & HG).
  apply obind_ok in HG as (pss & _ & HG). apply obind_ok in HG as (cs' & _ & HG).
  apply obind_ok in HG as (lns & Hns & HG). apply obind_ok in HG as ([sk leafPub] & Hkp & HG).
  repeat (apply obind_ok in HG as (? & _ & HG); repeat match goal with x : _ * _ |- _ => destruct x end).
  injection HG as _ <- _ _. exists sk. unfold nodeKeyPair. rewrite Hns. exact Hkp.
Qed.

(** The new tree: the path nodes have the keys of their secrets, the sender's
    leaf the key of the leaf secret, the rest of the direct path is blank, and
    nothing else has changed but parent hashes. *)
Record path_keys (d : Z) t (l : Z) (leafSecret : bytes) (up : UpdatePath) (byNode : gmap Z bytes)
  (fdp : list Z) (pss : list bytes) t' : Prop := {
  pk_fdp : filteredDirectPath t l = Ok fdp;
  pk_secrets : path_secrets (rt_suite t) leafSecret (length fdp) = Ok pss;
  pk_byNode : byNode = list_to_map (rev (zip fdp pss));
  pk_node : forall i p ps, fdp !! i = Some p -> pss !! i = Some ps ->
    exists sk pk ph, nodeKeyPair (rt_suite t) ps = Ok (sk, pk) /\ slot (rt_nodes t') p = parent_node (mkParentNode pk ph []);
  pk_leaf : slot (rt_nodes t') (2 * l) = leaf_node (up_LeafNode up);
  pk_off : forall x, 0 <= x -> x ∉ fdp -> x <> 2 * l ->
    let old := if decide (x ∈ direct_path d l) then None else slot (rt_nodes t) x in
    slot (rt_nodes t') x = old \/
    exists q ph, old = parent_node q /\
      slot (rt_nodes t') x = parent_node (mkParentNode (pn_EncryptionKey q) ph (pn_UnmergedLeaves q))
}.

Lemma GenerateUpdatePath_keys d t l leafSecret signer gid added mkGC rng t' up cs byNode :
  tree_inv d (rt_nodes t) -> 0 <= l < 2 ^ d -> populated (rt_nodes t) l ->
  GenerateUpdatePath t l leafSecret signer gid added mkGC rng = Ok (t', (up, cs, byNode)) ->
  exists fdp pss, path_keys d t l leafSecret up byNode fdp pss t' /\ length pss = length fdp.
Proof.
  intros Hinv Hl Hpop HG. pose proof (ti_depth _ _ Hinv) as Hd.
  destruct (GenerateUpdatePath_inv _ _ _ _ _ _ _ _ _ _ _ _ HG)
    as (fdp & pss & pubs & rps & t1 & fdp1 & ns & h & gc & Hf & Hlp & Hlq & Hps & _ & Hpubs & _ & Hi & Hset & -> & _ & _ & _ & Hby).
  destruct (proj2 (installPath_full d t Hinv l pubs Hl Hpop) t1 fdp1 Hi) as (_ & Hinv1 & Hf1 & _ & [Hat Hoff]).
  rewrite Hf in Hf1. apply Ok_inj in Hf1 as <-. rewrite (proj1 (leaf_bound d l Hd Hl)) in Hset.
  apply set_index_ok in Hset as [Hr ->]. exists fdp, pss. split; [|done].
  destruct (filteredDirectPath_ok d t Hinv l Hl) as (fdp' & Hf' & _ & Hin). rewrite Hf in Hf'. apply Ok_inj in Hf' as <-.
  assert (forall p, p ∈ fdp -> 0 <= p /\ p <> 2 * l) as Hne.
  { intros p (i & Hi0 & -> & _)%Hin. pose proof (div_pow_range d Hd l i Hl ltac:(lia)). split; [apply node_nonneg; lia|].
    rewrite <- node_leaf. intros [? _]%node_inj; lia. }
  split; try done; cbn [rt_nodes].
  - intros i p ps Hp Hpi. destruct (node_pubs_lookup _ _ _ _ _ Hpubs Hpi) as (sk & pk & Hk & Hpk).
    destruct (Hat i p pk Hp Hpk) as [ph E]. destruct (Hne p ltac:(by eapply list_elem_of_lookup_2)) as [Hp0 Hpl].
    exists sk, pk, ph. split; [done|]. rewrite slot_insert by (lia || done). by rewrite decide_False.
  - rewrite slot_insert by lia. by rewrite decide_True.
  - intros x Hx Hnx Hxl. rewrite slot_insert by lia. rewrite decide_False by done. by apply Hoff.
Qed.

(** Lookups in [pathSecretByNode]. *)
Lemma path_keys_byNode d t l leafSecret up byNode fdp pss t' x ps : path_keys d t l leafSecret up byNode fdp pss t' ->
  NoDup fdp -> length pss = length fdp ->
  byNode !! x = Some ps <-> exists i, fdp !! i = Some x /\ pss !! i = Some ps.
Proof.
  intros [_ _ -> _ _ _] Hnd Hlen.
  assert (NoDup (rev (zip fdp pss)).*1) as Hnd'.
  { rewrite <- (Permutation_rev (zip fdp pss)), fst_zip by lia. done. }
  rewrite <- elem_of_list_to_map by done. rewrite <- (Permutation_rev (zip fdp pss)), list_elem_of_lookup. split.
  - intros [i Hi]. exists i. by apply lookup_zip_with_Some in Hi as (a & b & [= -> ->] & ? & ?).
  - intros [i [H1 H2]]. exists i. apply lookup_zip_with_Some. eauto 6.
Qed.
End path.

(** * The committer *)

Section committer.
Context {C : StdCrypto} `{!StdCryptoLaws C}.
Implicit Types t : RatchetTree.

(** Derived keys come in pairs that the suite's serialization preserves. *)
Definition derives_pairs (suite : Suite) : Prop :=
  forall s sk pk, nodeKeyPair suite s = Ok (sk, pk) -> key_pair suite sk pk.

Lemma add_path_secrets_ok suite l priv priv' : NoDup l.*1 -> add_path_secrets suite priv l = Ok priv' ->
  (forall x ps, (x, ps) ∈ l -> exists sk pk, nodeKeyPair suite ps = Ok (sk, pk) /\ privateKey priv' x = Some sk) /\
  (forall x, x ∉ l.*1 -> privateKey priv' x = privateKey priv x).
Proof.
  revert priv. induction l as [|[y psy] l IH]; intros priv Hnd Hx; cbn [add_path_secrets] in Hx.
  { apply Ok_inj in Hx as <-. split; [by intros ? ? ?%not_elem_of_nil|done]. }
  apply NoDup_cons in Hnd as [Hny Hnd]. apply obind_ok in Hx as (priv1 & H1 & Hx). destruct (IH priv1 Hnd Hx) as [Hin Hout].
  unfold AddPathSecret in H1. apply obind_ok in H1 as ([sk pk] & Hk & [= <-]). cbn [fst] in Hny. split.
  - intros x ps [[= -> ->]|Hm]%elem_of_cons; [|by apply Hin]. exists sk, pk. split; [done|]. rewrite Hout by done.
    unfold privateKey. cbn [privs]. by rewrite lookup_insert_eq.
  - intros x Hx0. cbn [fmap list_fmap fst] in Hx0. apply not_elem_of_cons in Hx0 as [Hxy Hxl]. rewrite Hout by done.
    unfold privateKey. cbn [privs]. by rewrite lookup_insert_ne.
Qed.

Lemma NewTreeKEMPrivate_key d m k x : 0 <= d <= 30 -> 0 <= m < 2 ^ d ->
  privateKey (NewTreeKEMPrivate m k) x = if decide (x = 2 * m) then Some k else None.
Proof.
  intros Hd Hm. unfold privateKey, NewTreeKEMPrivate. cbn [privs]. rewrite (proj1 (leaf_bound d m Hd Hm)).
  destruct (decide (x = 2 * m)) as [->|]; [by rewrite lookup_singleton_eq|by rewrite lookup_singleton_ne].
Qed.

(** After its own commit the committer holds exactly the keys it needs. *)
Lemma committer_keys d t l leafSecret up byNode fdp pss t' priv :
  tree_inv d (rt_nodes t) -> tree_inv d (rt_nodes t') -> rt_suite t' = rt_suite t -> 0 <= l < 2 ^ d ->
  derives_pairs (rt_suite t) -> path_keys d t l leafSecret up byNode fdp pss t' -> length pss = length fdp ->
  (exists sk, nodeKeyPair (rt_suite t) leafSecret = Ok (sk, ln_EncryptionKey (up_LeafNode up))) ->
  committer_priv (rt_suite t) l leafSecret byNode = Ok priv -> member_keys d t' l priv.
Proof.
  intros Hinv Hinv' Hsu Hl Hdp Hpk Hlen [sk0 Hlk] Hcp. pose proof (ti_depth _ _ Hinv) as Hd.
  destruct (filteredDirectPath_ok d t Hinv l Hl) as (fdp' & Hf' & Hnd & Hin).
  rewrite (pk_fdp _ _ _ _ _ _ _ _ _ Hpk) in Hf'. apply Ok_inj in Hf' as <-.
  unfold committer_priv in Hcp. apply obind_ok in Hcp as (lns & Hns & Hcp). apply obind_ok in Hcp as ([lk lp] & Hkp & Hcp).
  destruct (add_path_secrets_ok _ _ _ _ ltac:(apply NoDup_fst_map_to_list) Hcp) as [HA HB].
  assert (forall x ps, byNode !! x = Some ps -> exists sk pk, nodeKeyPair (rt_suite t) ps = Ok (sk, pk) /\ privateKey priv x = Some sk) as HA'.
  { intros x ps Hx. apply HA. by apply elem_of_map_to_list. }
  assert (forall x, byNode !! x = None -> privateKey priv x = if decide (x = 2 * l) then Some lk else None) as HB'.
  { intros x Hx. rewrite HB; [by apply (NewTreeKEMPrivate_key d)|]. intros ([y ps] & -> & Hy%elem_of_map_to_list)%list_elem_of_fmap.
    cbn in Hx. congruence. }
  pose proof (fun x ps => path_keys_byNode _ _ _ _ _ _ _ _ _ x ps Hpk Hnd Hlen) as Hby.
  assert (forall p, p ∈ fdp -> exists i, 0 < i <= d /\ p = node i (l / 2 ^ i)) as Hform by (intros p (i & Hi & -> & _)%Hin; eauto).
  assert (byNode !! (2 * l) = None) as Hleaf.
  { destruct (byNode !! (2 * l)) eqn:E; [|done]. apply Hby in E as (i & Hi & _). apply list_elem_of_lookup_2 in Hi.
    destruct (Hform _ Hi) as (k & Hk & E). rewrite <- node_leaf in E. apply node_inj in E as [? _]; lia. }
  assert (forall x, x ∈ fdp <-> is_Some (byNode !! x)) as Hdom.
  { intros x. rewrite list_elem_of_lookup. split.
    - intros [i Hi]. destruct (lookup_lt_is_Some_2 pss i) as [ps Hps]; [apply lookup_lt_Some in Hi; lia|].
      exists ps. apply Hby. eauto.
    - intros [ps Hps]. apply Hby in Hps as (i & Hi & _). eauto. }
  split.
  - rewrite HB', decide_True by done. by eexists.
  - intros k p Hk Hs _. pose proof (div_pow_range d Hd l k Hl ltac:(lia)). assert (0 <= node k (l / 2 ^ k)) by (apply node_nonneg; lia).
    destruct (decide (node k (l / 2 ^ k) ∈ fdp)) as [Hi|Hni].
    + apply Hdom in Hi as [ps Hps]. destruct (HA' _ _ Hps) as (sk & pk & _ & ->). by eexists.
    + assert (node k (l / 2 ^ k) ∈ direct_path d l) as Hdir by (apply elem_direct_path; [done|lia|by exists k]).
      assert (node k (l / 2 ^ k) <> 2 * l) as Hnl by (rewrite <- node_leaf; intros [? _]%node_inj; lia).
      exfalso. destruct (pk_off _ _ _ _ _ _ _ _ _ Hpk (node k (l / 2 ^ k)) ltac:(done) Hni Hnl) as [E|(q & ph & E & _)].
      * rewrite decide_True in E by done. by rewrite E in Hs.
      * rewrite decide_True in E by done. done.
  - intros x [sk Hx]. destruct (byNode !! x) as [ps|] eqn:E.
    + destruct (Hform x ltac:(apply Hdom; eauto)) as (i & Hi & ->). exists i. split; [lia|done].
    + rewrite HB' in Hx by done. case_decide; [|done]. subst x. exists 0. rewrite Z.pow_0_r, Z.div_1_r, node_leaf. done.
  - intros x sk pk Hx Hpkx. rewrite Hsu. destruct (byNode !! x) as [ps|] eqn:E.
    + destruct (HA' x ps E) as (sk' & pk' & Hk & Hx'). rewrite Hx in Hx'. injection Hx' as <-.
      apply Hby in E as (i & Hi & Hpi). destruct (pk_node _ _ _ _ _ _ _ _ _ Hpk i x ps Hi Hpi) as (sk2 & pk2 & ph & Hk2 & Es).
      rewrite Hk in Hk2. injection Hk2 as <- <-. destruct (Hform x ltac:(by eapply list_elem_of_lookup_2)) as (k & Hk0 & ->).
      pose proof (div_pow_range d Hd l k Hl ltac:(lia)). assert (0 <= node k (l / 2 ^ k)) as Hx0 by (apply node_nonneg; lia).
      rewrite (nodePublicKey_of_slot _ _ _ Hx0 Es) in Hpkx. injection Hpkx as <-. by apply (Hdp ps).
    + rewrite HB' in Hx by done. case_decide; [|done]. subst x. injection Hx as <-.
      assert (0 <= 2 * l) as Hx0 by lia. rewrite (nodePublicKey_of_slot _ _ _ Hx0 (pk_leaf _ _ _ _ _ _ _ _ _ Hpk)) in Hpkx. injection Hpkx as <-.
      apply (Hdp leafSecret). unfold nodeKeyPair in *. rewrite Hns in *. cbn [obind] in *. by rewrite Hkp in *; injection Hlk as -> ->.
Qed.
End committer.

(** * The receiver *)

Section receiver.
Context {C : StdCrypto} `{!StdCryptoLaws C}.
Implicit Types t : RatchetTree.

(** The path keeps the order of the direct path. *)
Lemma fdp_loop_sublist d t l fuel k acc path : tree_inv d (rt_nodes t) -> 0 <= l < 2 ^ d -> 0 <= k <= d ->
  fdp_loop t fuel (2 ^ d) (node d 0) (node k (l / 2 ^ k)) acc = Ok path ->
  exists rest, path = acc ++ rest /\ rest `sublist_of` up_path (Z.to_nat (d - k)) k (l / 2 ^ k).
Proof.
  intros Hinv Hl. pose proof (ti_depth _ _ Hinv) as Hd. revert k acc.
  induction fuel as [|fuel IH]; intros k acc Hk Hx; cbn [fdp_loop] in Hx;
    (destruct (Z.eqb_spec (node k (l / 2 ^ k)) (node d 0)) as [E|Hne];
      [apply Ok_inj in Hx as <-; exists []; rewrite app_nil_r; split; [done|apply sublist_nil_l]|]); [done|].
  assert (k <> d) as Hkd by (intros ->; rewrite Z.div_small in Hne by lia; done).
  pose proof (div_pow_range d Hd l k Hl ltac:(lia)) as Hj. rewrite complete_Parent in Hx by lia. cbn [obind default] in Hx.
  apply obind_ok in Hx as (sb & _ & Hx). apply obind_ok in Hx as (res & _ & Hx). unfold id in Hx.
  assert (l / 2 ^ k / 2 = l / 2 ^ (k + 1)) as E2.
  { rewrite (div_pow_step l (k + 1)) by lia. by replace (k + 1 - 1) with k by lia. }
  rewrite E2 in Hx. destruct (IH (k + 1) _ ltac:(lia) Hx) as (rest & -> & Hs).
  replace (Z.to_nat (d - k)) with (S (Z.to_nat (d - (k + 1)))) by lia. cbn [up_path]. rewrite E2.
  destruct (0 <? len res).
  - exists (node (k + 1) (l / 2 ^ (k + 1)) :: rest). rewrite <- app_assoc. split; [done|]. by apply sublist_skip.
  - exists rest. split; [done|]. by apply sublist_cons.
Qed.

Lemma filteredDirectPath_sublist d t l fdp : tree_inv d (rt_nodes t) -> 0 <= l < 2 ^ d ->
  filteredDirectPath t l = Ok fdp -> fdp `sublist_of` direct_path d l.
Proof.
  intros Hinv Hl. pose proof (ti_depth _ _ Hinv) as Hd. unfold filteredDirectPath.
  rewrite (proj1 (leaves_d d t Hinv)), (proj1 (leaf_bound d l Hd Hl)), complete_Root by lia.
  rewrite <- node_leaf. generalize tree_fuel. intros fuel Hf.
  pose proof (fdp_loop_sublist d t l fuel 0 [] fdp Hinv Hl ltac:(lia)) as Hx.
  rewrite Z.pow_0_r, Z.div_1_r, Z.sub_0_r in Hx. destruct (Hx Hf) as (rest & -> & Hs). done.
Qed.

Lemma up_path_split a b k j : up_path (a + b) k j = up_path a k j ++ up_path b (k + Z.of_nat a) (j / 2 ^ Z.of_nat a).
Proof.
  revert k j. induction a as [|a IH]; intros k j; cbn [up_path Nat.add app].
  - by rewrite Z.add_0_r, Z.pow_0_r, Z.div_1_r.
  - rewrite IH. do 3 f_equal; [lia|]. rewrite Z.div_div by (try apply pow2_pos; lia). f_equal.
    replace (Z.of_nat (S a)) with (1 + Z.of_nat a) by lia. by rewrite Z.pow_add_r by lia.
Qed.

Lemma up_path_lookup n k j i : 0 <= k -> 0 <= j -> (i < n)%nat ->
  up_path n k j !! i = Some (node (k + Z.of_nat i + 1) (j / 2 ^ (Z.of_nat i + 1))).
Proof.
  revert k j i. induction n as [|n IH]; intros k j i Hk Hj Hi; [lia|]. cbn [up_path]. destruct i as [|i]; cbn [lookup list_lookup].
  - by rewrite Z.add_0_r, Z.pow_1_r.
  - change (list_lookup i (up_path n (k + 1) (j / 2))) with (up_path n (k + 1) (j / 2) !! i).
    rewrite IH by (try apply Z.div_pos; lia). rewrite Z.div_div by (try apply pow2_pos; lia).
    do 2 f_equal; [lia|]. f_equal. replace (Z.of_nat (S i) + 1) with (1 + (Z.of_nat i + 1)) by lia.
    rewrite (Z.pow_add_r 2 1) by lia. done.
Qed.

(** When every ancestor from level [K] on is on the path, they end it. *)
Lemma path_suffix d l K fdp : 0 <= d <= 30 -> 0 <= l < 2 ^ d -> 0 < K <= d -> fdp `sublist_of` direct_path d l ->
  (forall i, K <= i <= d -> node i (l / 2 ^ i) ∈ fdp) ->
  exists low, fdp = low ++ up_path (Z.to_nat (d - K + 1)) (K - 1) (l / 2 ^ (K - 1)).
Proof.
  intros Hd Hl HK Hs Hall. unfold direct_path in Hs.
  replace (Z.to_nat d) with (Z.to_nat (K - 1) + Z.to_nat (d - K + 1))%nat in Hs by lia.
  rewrite up_path_split, Z2Nat.id, Z.add_0_l in Hs by lia. apply sublist_app_r in Hs as (low & high & -> & Hlow & Hhigh).
  exists low. f_equal. set (top := up_path (Z.to_nat (d - K + 1)) _ _) in *.
  assert (0 <= l / 2 ^ (K - 1)) as Hj by (apply Z.div_pos; [lia|apply pow2_pos; lia]).
  assert (NoDup top) as Hnd by (apply NoDup_up_path; lia).
  assert (top ⊆ high) as Hsub.
  { intros x Hx. apply elem_up_path in Hx as (i & Hi & ->); [|lia..]. rewrite Z2Nat.id in Hi by lia.
    rewrite Z.div_div, <- Z.pow_add_r by (try apply pow2_pos; lia). replace (K - 1 + (i - (K - 1))) with i by lia.
    destruct (proj1 (elem_of_app _ _ _) (Hall i ltac:(lia))) as [Hlo|]; [exfalso|done].
    apply (elem_of_sublist _ _ _ Hlo) in Hlow. apply elem_up_path in Hlow as (i' & Hi' & [E _]%node_inj); lia. }
  pose proof (submseteq_length _ _ (NoDup_submseteq _ _ Hnd Hsub)) as Hle.
  by apply sublist_same_length.
Qed.

(** Secrets further up the path are derived from those below. *)
Lemma path_secrets_ratchet suite src n pss j ps : path_secrets suite src n = Ok pss -> pss !! j = Some ps ->
  path_ratchet suite src (S j) = Ok ps.
Proof.
  revert src n pss. induction j as [|j IH]; intros src n pss Hx Hj; destruct n as [|n]; cbn [path_secrets] in Hx;
    try (injection Hx as <-; done); apply obind_ok in Hx as (ps1 & H1 & Hx); apply obind_ok in Hx as (rest & Hr & [= <-]).
  - injection Hj as ->. cbn [path_ratchet]. by rewrite H1.
  - cbn [path_ratchet]. rewrite H1. cbn [obind]. by apply (IH ps1 n rest).
Qed.

Lemma path_secrets_chain suite src n pss i j ps ps' : path_secrets suite src n = Ok pss ->
  pss !! i = Some ps -> pss !! (i + j)%nat = Some ps' -> path_ratchet suite ps j = Ok ps'.
Proof.
  intros Hx Hi Hj. destruct j as [|j]; [rewrite Nat.add_0_r in Hj; cbn; congruence|].
  destruct (path_secrets_split _ _ _ _ _ _ Hx Hi) as [Hs _]. eapply path_secrets_ratchet; [exact Hs|].
  rewrite lookup_drop, <- Hj. f_equal. lia.
Qed.

Lemma meet_above d s m K i : 0 <= s -> 0 <= m -> meet d s m K -> K <= i -> m / 2 ^ i = s / 2 ^ i.
Proof.
  intros Hs Hm (HK & E & _) Hi. replace i with (K + (i - K)) by lia. rewrite Z.pow_add_r by lia.
  rewrite <- !Z.div_div by (try apply Z.pow_nonzero; try apply pow2_pos; lia). by rewrite E.
Qed.

(** The secret of every level from the meeting point on, when no level above it
    is left out. *)
Lemma path_secret_at d t l leafSecret up byNode fdp pss t' K ps i :
  tree_inv d (rt_nodes t) -> 0 <= l < 2 ^ d -> 0 < K <= d ->
  path_keys d t l leafSecret up byNode fdp pss t' -> length pss = length fdp ->
  (forall j, K <= j <= d -> node j (l / 2 ^ j) ∈ fdp) ->
  byNode !! node K (l / 2 ^ K) = Some ps -> K <= i <= d ->
  exists ix psi, fdp !! ix = Some (node i (l / 2 ^ i)) /\ pss !! ix = Some psi /\
    path_ratchet (rt_suite t) ps (Z.to_nat (i - K)) = Ok psi.
Proof.
  intros Hinv Hl HK Hpk Hlen Hall Hps Hi. pose proof (ti_depth _ _ Hinv) as Hd.
  destruct (filteredDirectPath_ok d t Hinv l Hl) as (fdp' & Hf' & Hnd & _).
  rewrite (pk_fdp _ _ _ _ _ _ _ _ _ Hpk) in Hf'. apply Ok_inj in Hf' as <-.
  pose proof (filteredDirectPath_sublist d t l fdp Hinv Hl (pk_fdp _ _ _ _ _ _ _ _ _ Hpk)) as Hsub.
  destruct (path_suffix d l K fdp Hd Hl HK Hsub Hall) as [low Elow].
  assert (0 <= l / 2 ^ (K - 1)) as Hj by (apply Z.div_pos; [lia|apply pow2_pos; lia]).
  assert (forall j, K <= j <= d -> fdp !! (length low + Z.to_nat (j - K))%nat = Some (node j (l / 2 ^ j))) as Hat.
  { intros j Hj'. rewrite Elow, lookup_app_r by lia. replace (length low + Z.to_nat (j - K) - length low)%nat with (Z.to_nat (j - K)) by lia.
    rewrite up_path_lookup by lia. rewrite Z2Nat.id, Z.div_div, <- Z.pow_add_r by (try apply pow2_pos; lia). f_equal. f_equal; [lia|].
    do 2 f_equal. lia. }
  apply (path_keys_byNode _ _ _ _ _ _ _ _ _ _ _ Hpk Hnd Hlen) in Hps as (i0 & Hi0 & Hpi0).
  assert (i0 = length low + Z.to_nat (K - K))%nat as -> by (eapply NoDup_lookup; [exact Hnd|exact Hi0|apply Hat; lia]).
  specialize (Hat i Hi). destruct (lookup_lt_is_Some_2 pss (length low + Z.to_nat (i - K))%nat) as [psi Hpsi].
  { apply lookup_lt_Some in Hat. lia. }
  exists (length low + Z.to_nat (i - K))%nat, psi. split_and!; [done..|].
  eapply path_secrets_chain; [apply Hpk|exact Hpi0|]. rewrite <- Hpsi. f_equal. lia.
Qed.

(** What a member keeps whatever it processes: the key of its leaf, which is
    that of the tree, and no key off its direct path. *)
Record leaf_keys t (m : Z) (priv : TreeKEMPrivate) : Prop := {
  lk_leaf : is_Some (privateKey priv (2 * m));
  lk_own : forall x, is_Some (privateKey priv x) -> exists k, 0 <= k /\ x = node k (m / 2 ^ k);
  lk_pair : consistent_at t priv (fun x => x = 2 * m)
}.

(** Below the meeting point the committer's path touches nothing. *)
Lemma path_off d t l m K fdp k : tree_inv d (rt_nodes t) -> 0 <= l < 2 ^ d -> 0 <= m < 2 ^ d -> meet d l m K ->
  filteredDirectPath t l = Ok fdp -> 0 <= k < K ->
  node k (m / 2 ^ k) ∉ fdp /\ node k (m / 2 ^ k) ∉ direct_path d l /\ node k (m / 2 ^ k) <> 2 * l.
Proof.
  intros Hinv Hl Hm HK Hf Hk. pose proof (ti_depth _ _ Hinv) as Hd. pose proof HK as (HKr & _).
  destruct (filteredDirectPath_ok d t Hinv l Hl) as (fdp' & Hf' & _ & Hin). rewrite Hf in Hf'. apply Ok_inj in Hf' as <-.
  pose proof (meet_below d l m K k HK Hk) as Hne. split_and!.
  - intros Hx. apply Hin in Hx as (i & (Hi & E & _)). apply node_inj in E as [-> E]; [congruence|lia..].
  - intros Hx. apply elem_direct_path in Hx as (i & Hi & E); [|lia..]. apply node_inj in E as [-> E]; [congruence|lia..].
  - rewrite <- node_leaf. intros E. apply node_inj in E as [-> E]; [|lia..]. rewrite Z.pow_0_r, !Z.div_1_r in *. congruence.
Qed.

Lemma receiver_leaf d t l m K leafSecret up byNode fdp pss t' own old priv :
  tree_inv d (rt_nodes t) -> tree_inv d (rt_nodes t') -> rt_suite t' = rt_suite t -> 0 <= l < 2 ^ d -> 0 <= m < 2 ^ d ->
  meet d l m K -> path_keys d t l leafSecret up byNode fdp pss t' ->
  consistent_at t old (fun x => x = 2 * m) -> privateKey old (2 * m) = Some own ->
  (forall x, (forall i, K <= i <= d -> x <> node i (m / 2 ^ i)) -> privateKey priv x = privateKey (NewTreeKEMPrivate m own) x) ->
  leaf_keys t' m priv /\ privateKey priv (2 * m) = Some own.
Proof.
  intros Hinv Hinv' Hsu Hl Hm HK Hpk Hold Hown Hrest.
  pose proof (ti_depth _ _ Hinv) as Hd. pose proof HK as (HKr & EK & _).
  assert (forall i, K <= i <= d -> 2 * m <> node i (m / 2 ^ i)) as Hlow.
  { intros i Hi. rewrite <- node_leaf. intros [? _]%node_inj; lia. }
  assert (privateKey priv (2 * m) = Some own) as Hpown by (by rewrite (Hrest _ Hlow), (NewTreeKEMPrivate_key d), decide_True).
  assert (node 0 (m / 2 ^ 0) = 2 * m) as E0 by (by rewrite Z.pow_0_r, Z.div_1_r, node_leaf).
  split; [|done]. split; [by eexists| |].
  - intros x Hx. destruct (decide (x = 2 * m)) as [->|Hne]; [exists 0; by rewrite E0|].
    destruct (decide (Exists (fun i => x = node i (m / 2 ^ i)) (seqZ K (d - K + 1)))) as [He|Hn].
    + apply Exists_exists in He as (i & Hi%elem_of_seqZ & ->). exists i. split; [lia|done].
    + exfalso. rewrite Hrest in Hx; [by rewrite (NewTreeKEMPrivate_key d), decide_False in Hx by done; destruct Hx|].
      intros i Hi ->. apply Hn, Exists_exists. exists i. split; [apply elem_of_seqZ; lia|done].
  - intros x sk pk -> Hsk Hpkx. rewrite Hsu, Hpown in *. injection Hsk as <-. apply (Hold (2 * m)); [done|done|].
    destruct (path_off d t l m K fdp 0 Hinv Hl Hm HK (pk_fdp _ _ _ _ _ _ _ _ _ Hpk) ltac:(lia)) as (H1 & H2 & H3).
    rewrite E0 in *. assert (0 <= 2 * m) as Hx by lia.
    destruct (pk_off _ _ _ _ _ _ _ _ _ Hpk _ Hx H1 H3) as [E|(q & ph & E & _)]; rewrite decide_False in E by done.
    + unfold nodePublicKey in *. pose proof (proj2 (leaf_bound d m Hd Hm)).
      rewrite index_slot in * by (rewrite (ti_len _ _ Hinv) || rewrite (ti_len _ _ Hinv'); lia). by rewrite E in Hpkx.
    + destruct (ti_leaf _ _ Hinv m _ (proj1 Hm) E) as [ln ?]. done.
Qed.

(** What a receiver [m] needs besides its leaf key: no key below the meeting
    point, and no gap above it. *)
Record clear_path (d : Z) t (l m K : Z) (fdp : list Z) : Prop := {
  cp_above : forall i, K <= i <= d -> node i (l / 2 ^ i) ∈ fdp;
  cp_below : forall k p, 0 < k < K -> slot (rt_nodes t) (node k (m / 2 ^ k)) = parent_node p -> m ∈ pn_UnmergedLeaves p
}.

Lemma receiver_keys d t l m K leafSecret up byNode fdp pss t' ps own old priv :
  tree_inv d (rt_nodes t) -> tree_inv d (rt_nodes t') -> rt_suite t' = rt_suite t -> 0 <= l < 2 ^ d -> 0 <= m < 2 ^ d ->
  meet d l m K -> derives_pairs (rt_suite t) -> path_keys d t l leafSecret up byNode fdp pss t' -> length pss = length fdp ->
  clear_path d t l m K fdp -> byNode !! node K (l / 2 ^ K) = Some ps ->
  consistent_at t old (fun x => x = 2 * m) -> privateKey old (2 * m) = Some own ->
  (forall x, (forall i, K <= i <= d -> x <> node i (m / 2 ^ i)) -> privateKey priv x = privateKey (NewTreeKEMPrivate m own) x) ->
  (forall i, K <= i <= d -> exists sec sk pk, path_ratchet (rt_suite t) ps (Z.to_nat (i - K)) = Ok sec /\
     nodeKeyPair (rt_suite t) sec = Ok (sk, pk) /\ privateKey priv (node i (m / 2 ^ i)) = Some sk) ->
  member_keys d t' m priv.
Proof.
  intros Hinv Hinv' Hsu Hl Hm HK Hdp Hpk Hlen [Habove Hbelow] Hps Hold Hown Hrest Hkeys.
  pose proof (ti_depth _ _ Hinv) as Hd. pose proof HK as (HKr & EK & _).
  destruct (receiver_leaf d t l m K leafSecret up byNode fdp pss t' own old priv) as [[Hlf Hon Hpair] Hpown]; [done..|].
  split; [done| |done|].
  - intros k p Hk Hs Hu. destruct (Z.lt_ge_cases k K) as [Hlt|Hge].
    + exfalso. apply Hu.
      destruct (path_off d t l m K fdp k Hinv Hl Hm HK (pk_fdp _ _ _ _ _ _ _ _ _ Hpk) ltac:(lia)) as (H1 & H2 & H3).
      pose proof (div_pow_range d Hd m k Hm ltac:(lia)). assert (0 <= node k (m / 2 ^ k)) as Hx by (apply node_nonneg; lia).
      destruct (pk_off _ _ _ _ _ _ _ _ _ Hpk _ Hx H1 H3) as [E|(q & ph & E & E')]; rewrite decide_False in E by done.
      * rewrite Hs in E. apply (Hbelow k p); [lia|done].
      * rewrite Hs in E'. injection E' as ->. apply (Hbelow k q); [lia|done].
    + destruct (Hkeys k ltac:(lia)) as (sec & sk & pk & _ & _ & ->). by eexists.
  - intros x sk pk Hsk Hpkx. rewrite Hsu. destruct (decide (x = 2 * m)) as [->|Hne]; [rewrite <- Hsu; by apply (Hpair (2 * m))|].
    destruct (decide (Exists (fun i => x = node i (m / 2 ^ i)) (seqZ K (d - K + 1)))) as [He|Hn].
    + apply Exists_exists in He as (i & Hi%elem_of_seqZ & ->).
      destruct (Hkeys i ltac:(lia)) as (sec & sk' & pk' & Hr & Hk & Hp). rewrite Hsk in Hp. injection Hp as <-.
      destruct (path_secret_at d t l leafSecret up byNode fdp pss t' K ps i Hinv Hl HKr Hpk Hlen Habove Hps ltac:(lia))
        as (ix & psi & Hix & Hpsi & Hr'). rewrite Hr in Hr'. apply Ok_inj in Hr' as <-.
      destruct (pk_node _ _ _ _ _ _ _ _ _ Hpk ix _ sec Hix Hpsi) as (sk2 & pk2 & ph & Hk2 & Es).
      rewrite Hk in Hk2. injection Hk2 as <- <-. rewrite (meet_above d l m K i) in * by (done || lia).
      pose proof (div_pow_range d Hd l i Hl ltac:(lia)). assert (0 <= node i (l / 2 ^ i)) as Hx by (apply node_nonneg; lia).
      rewrite (nodePublicKey_of_slot _ _ _ Hx Es) in Hpkx. injection Hpkx as <-. by apply (Hdp sec).
    + exfalso. rewrite Hrest in Hsk; [by rewrite (NewTreeKEMPrivate_key d), decide_False in Hsk|].
      intros i Hi ->. apply Hn, Exists_exists. exists i. split; [apply elem_of_seqZ; lia|done].
Qed.
End receiver.

(** * Both sides of a commit *)

Section keys.
Context {C : StdCrypto} `{!StdCryptoLaws C}.
Implicit Types g h : Group.

Lemma PrivateKeyAt_leaf t m K priv : usable_keys t m K priv -> 0 < K ->
  privateKey priv (2 * m) = Some (default [] (PrivateKeyAt priv (2 * m))) /\ consistent_at t priv (fun x => x = 2 * m).
Proof.
  intros [[sk Hsk] _ _ Hc] HK. split; [unfold PrivateKeyAt, privateKey in *; by rewrite Hsk|].
  intros x sk' pk -> Hx. apply Hc; [|done]. exists 0. by rewrite Z.pow_0_r, Z.div_1_r, node_leaf.
Qed.

(** What the committer's side of a commit leaves: the staged tree, the path over
    it, the new tree and the committer's keys. *)
Record committed (d : Z) g opt signer (r : CommitRand) g' (a : Applied) (rs : list cachedProposal) (up : UpdatePath)
  (byNode : gmap Z bytes) (fdp : list Z) (pss : list bytes) : Prop := {
  co_staged : staged g opt = Ok a;
  co_proposals : staged_proposals g opt = Ok rs;
  co_applied : applied_ok (g_tree g) rs a;
  co_wf : tree_wf d (ap_tree a) /\ rt_suite (ap_tree a) = g_suite g;
  co_own : 0 <= g_ownLeaf g < 2 ^ d;
  co_gen : exists cs, GenerateUpdatePath (ap_tree a) (g_ownLeaf g) (cr_leafSecret r) signer (gc_GroupID (g_groupContext g))
      (ap_newlyAdded a) (path_context g a) (cr_path r) = Ok (g_tree g', (up, cs, byNode));
  co_path : path_keys d (ap_tree a) (g_ownLeaf g) (cr_leafSecret r) up byNode fdp pss (g_tree g') /\ length pss = length fdp;
  co_tree : tree_wf d (g_tree g') /\ rt_suite (g_tree g') = g_suite g;
  co_roster : roster_of (rt_nodes (g_tree g')) = <[g_ownLeaf g := up_LeafNode up]> (roster_of (rt_nodes (ap_tree a)));
  co_leaf : exists orig, roster_of (rt_nodes (ap_tree a)) !! g_ownLeaf g = Some orig /\
    ln_SignatureKey (up_LeafNode up) = ln_SignatureKey orig /\ ln_Credential (up_LeafNode up) = ln_Credential orig;
  co_keys : derives_pairs (g_suite g) -> member_keys d (g_tree g') (g_ownLeaf g) (g_priv g')
}.

Lemma Group_Commit_committed d g opt signer r commit w g' :
  commit_ready d g opt signer -> Group_Commit r opt g = (Ok (commit, w), g') ->
  exists d' a rs up byNode fdp pss, committed d' g opt signer r g' a rs up byNode fdp pss.
Proof.
  intros Hcr Hcm.
  destruct (Group_Commit_inv r opt g signer commit w g' (proj1 (cr_signer _ _ _ _ Hcr)) Hcm)
    as (cache & refs & a & wt & up & cs & bn & body & ci & sig & th & gcb & psk & es & mm & g1 & interim & priv & st &
        Hcl & Hca & Hap & Hgen & _ & _ & _ & _ & _ & _ & _ & _ & _ & _ & Hcp & _ & Hg').
  destruct (staged_ok d g opt signer cache refs wt a Hcr Hcl Hca Hap) as (-> & rs & Hrs & _ & Hok & _).
  pose proof Hok as [Hrun (d' & _ & Hwf & _) _].
  destruct (committed_tree d g opt signer a _ _ _ _ _ up cs bn d' Hcr Hwf Hgen)
    as (Hg & _ & Hwf2 & Hsu2 & Hro & orig & lp & ph & sg & Horig & Eup).
  assert (populated (rt_nodes (ap_tree a)) (g_ownLeaf g)) as Hpg by (eexists; exact Horig).
  assert (rt_suite (ap_tree a) = g_suite g) as Hsu by (rewrite (rk_suite _ _ _ Hrun); apply Hcr).
  destruct (GenerateUpdatePath_keys d' _ _ _ _ _ _ _ _ _ _ _ _ (wf_inv _ _ Hwf) Hg Hpg Hgen) as (fdp & pss & Hpk & Hlen).
  exists d', a, rs, up, bn, fdp, pss. split; try done.
  - unfold staged. rewrite Hcl. cbn [obind]. rewrite Hca. exact Hap.
  - unfold staged_proposals. by rewrite Hca.
  - by exists cs.
  - split; [done|]. by rewrite Hsu2.
  - exists orig. rewrite Eup. split; [by rewrite lookup_roster, Horig by lia|done].
  - intros Hder. rewrite Hg' at 2. cbn [g_priv next_state]. rewrite <- Hsu in *.
    eapply committer_keys; [apply Hwf|apply Hwf2|done|done|done|exact Hpk|done| |exact Hcp].
    eapply GenerateUpdatePath_leaf, Hgen.
Qed.

(** The committer's and the receiver's views are of one commit. *)
Lemma committed_followed d d' g opt signer r g' h h' a a' rs up up' byNode byNode' fdp pss :
  committed d g opt signer r g' a rs up byNode fdp pss -> followed d' g opt signer r g' h h' a' up' byNode' ->
  d' = d /\ a' = a /\ up' = up /\ byNode' = byNode.
Proof.
  intros Hco Hfo. pose proof (co_staged _ _ _ _ _ _ _ _ _ _ _ _ Hco) as Hst.
  rewrite (fo_staged _ _ _ _ _ _ _ _ _ _ _ Hfo) in Hst. apply Ok_inj in Hst as ->.
  destruct (co_gen _ _ _ _ _ _ _ _ _ _ _ _ Hco) as [cs Hg]. destruct (fo_path _ _ _ _ _ _ _ _ _ _ _ Hfo) as [cs' Hg'].
  rewrite Hg in Hg'. apply Ok_inj in Hg' as [= <- <- <-]. split; [|done].
  eapply tree_wf_depth; [apply Hfo|apply Hco].
Qed.

(** The receiver's leaf key survives the commit. *)
Lemma followed_leaf d g opt signer r g' h h' a rs up byNode fdp pss :
  committed d g opt signer r g' a rs up byNode fdp pss -> followed d g opt signer r g' h h' a up byNode ->
  leaf_keys (g_tree g') (g_ownLeaf h) (g_priv h').
Proof.
  intros Hco [_ _ _ (Hl & Hpop & Hk) _ _ (K & ps & HK & Hps & Hoff & Hon)].
  destruct Hco as [_ _ _ [Hwf Hsu] Hg _ [Hpk _] [Hwf2 Hsu2] _ _ _].
  pose proof (PrivateKeyAt_leaf _ _ K _ (Hk d K HK) ltac:(apply HK)) as [Hown Hold].
  rewrite <- Hsu in Hsu2.
  by destruct (receiver_leaf d (ap_tree a) (g_ownLeaf g) (g_ownLeaf h) K (cr_leafSecret r) up byNode fdp pss (g_tree g') _ _ _
    (wf_inv _ _ Hwf) (wf_inv _ _ Hwf2) Hsu2 Hg Hl HK Hpk Hold Hown Hoff).
Qed.

(** The keys after a commit that the receiver has followed. *)
Lemma followed_keys d g opt signer r g' h h' a rs up byNode fdp pss :
  committed d g opt signer r g' a rs up byNode fdp pss -> derives_pairs (g_suite g) ->
  followed d g opt signer r g' h h' a up byNode ->
  exists K, meet d (g_ownLeaf g) (g_ownLeaf h) K /\ node K (g_ownLeaf g / 2 ^ K) ∈ fdp /\
    (clear_path d (ap_tree a) (g_ownLeaf g) (g_ownLeaf h) K fdp -> member_keys d (g_tree g') (g_ownLeaf h) (g_priv h')).
Proof.
  intros [_ _ _ [Hwf Hsu] Hg _ [Hpk Hlen] [Hwf2 Hsu2] _ _ _] Hder
    [_ _ _ (Hl & Hpop & Hk) _ _ (K & ps & HK & Hps & Hoff & Hon)].
  exists K. split_and!; [done| |].
  - apply (path_keys_byNode _ _ _ _ _ _ _ _ _ _ _ Hpk) in Hps as (i & Hi & _); [|idtac|done].
    + by eapply list_elem_of_lookup_2.
    + destruct (filteredDirectPath_ok d (ap_tree a) (wf_inv _ _ Hwf) _ Hg) as (fdp' & Hf' & Hnd & _).
      rewrite (pk_fdp _ _ _ _ _ _ _ _ _ Hpk) in Hf'. by apply Ok_inj in Hf' as ->.
  - intros Hclear. rewrite <- Hsu in Hsu2, Hder, Hon.
    pose proof (PrivateKeyAt_leaf _ _ K _ (Hk d K HK) ltac:(apply HK)) as [Hown Hold].
    eapply (receiver_keys d (ap_tree a)); [apply Hwf|apply Hwf2|exact Hsu2|exact Hg|exact Hl|exact HK|exact Hder|exact Hpk|
      exact Hlen|exact Hclear|exact Hps|exact Hold|exact Hown|exact Hoff|exact Hon].
Qed.
End keys.

(** * Groups of two *)

Section pair.
Context {C : StdCrypto} `{!StdCryptoLaws C}.
Implicit Types g h : Group.

(** Proposals that leave the tree alone. *)
Definition quiet (p : Proposal) : Prop :=
  p_Type p = ProposalTypePreSharedKey \/ p_Type p = ProposalTypeGroupContextExtensions.

Record quiet_commit (opt : CommitOptions) : Prop := {
  qc_inline : ByReference opt = [];
  qc_quiet : Forall quiet (ByValue opt);
  qc_ok : Forall Proposal_ok (ByValue opt);
  qc_size : len (ByValue opt) <= 2 ^ 29
}.

Lemma resolve_inline cache l ps :
  resolve_proposals cache l (commit_proposals [] ps) = Ok (map (fun p => mkCached p l) ps).
Proof. induction ps as [|p ps IH]; [done|]. cbn in IH |- *. by rewrite IH. Qed.

Lemma of_type_quiet t l ps : t <> ProposalTypePreSharedKey -> t <> ProposalTypeGroupContextExtensions -> Forall quiet ps ->
  of_type t (map (fun p => mkCached p l) ps) = [].
Proof.
  intros H1 H2. induction 1 as [|p ps Hq _ IH]; [done|]. unfold of_type in *. cbn. rewrite IH.
  by rewrite (proj2 (Z.eqb_neq _ _)) by (destruct Hq; cbn; congruence).
Qed.

(** A quiet commit stages the tree as it is. *)
Lemma staged_quiet d g opt : tree_wf d (g_tree g) -> 0 <= g_ownLeaf g -> populated (rt_nodes (g_tree g)) (g_ownLeaf g) ->
  quiet_commit opt -> (forall a, staged g opt = Ok a -> ap_tree a = g_tree g) /\
  (forall rs, staged_proposals g opt = Ok rs -> commit_ops rs = []).
Proof.
  intros Hwf Hl Hp [Hin Hq _ _]. unfold staged, staged_proposals. rewrite Hin. cbn [proposal_cache].
  assert (forall t, t <> ProposalTypePreSharedKey -> t <> ProposalTypeGroupContextExtensions ->
    of_type t (map (fun p => mkCached p (g_ownLeaf g)) (ByValue opt)) = []) as Hno by (intros; by apply of_type_quiet).
  cbn [obind]. split.
  - intros a Hx. apply obind_ok in Hx as (wt & Hc & Hx). apply (Clone_wf d _ _ Hwf Hl Hp) in Hc as ->.
    unfold applyProposals in Hx. cbn [cm_Proposals] in Hx. rewrite resolve_inline in Hx. cbn [obind] in Hx.
    rewrite !Hno in Hx by done. cbn [apply_updates apply_removes apply_adds obind] in Hx.
    apply obind_ok in Hx as (ext & _ & Hx). apply obind_ok in Hx as (psks & _ & Hx). by apply Ok_inj in Hx as <-.
  - intros rs Hx. rewrite resolve_inline in Hx. apply Ok_inj in Hx as <-. unfold commit_ops. by rewrite !Hno.
Qed.

(** Two members of one epoch, each with its signer and the keys it needs. *)
Record partner (t : RatchetTree) g (signer : Signer) : Prop := {
  pt_leaf : 0 <= g_ownLeaf g < 2 ^ 1 /\ populated (rt_nodes t) (g_ownLeaf g);
  pt_keys : member_keys 1 t (g_ownLeaf g) (g_priv g);
  pt_signs : signs_for g signer;
  pt_gen : is_u32 (g_handshakeGeneration g)
}.

Record pair_ready g h (sg sh : Signer) : Prop := {
  pr_wf : tree_wf 1 (g_tree g);
  pr_suite : rt_suite (g_tree g) = g_suite g;
  pr_size : members (g_tree g) = 2;
  pr_same : same_epoch g h /\ same_psks g h;
  pr_epoch : is_u64 (Epoch g);
  pr_two : g_ownLeaf g <> g_ownLeaf h;
  pr_g : partner (g_tree g) g sg;
  pr_h : partner (g_tree g) h sh
}.

Lemma pair_ready_sym g h sg sh : pair_ready g h sg sh -> pair_ready h g sh sg.
Proof.
  intros [Hwf Hsu Hsz [Hs [Hp Hr]] He Hne Hg Hh]. pose proof Hs as [E1 E2 E3 _ _ _ _].
  constructor; rewrite ?E3; try done.
  - by rewrite E1.
  - unfold Epoch in *. by rewrite E2.
Qed.

Lemma pair_commit_ready g h sg sh opt : pair_ready g h sg sh -> quiet_commit opt -> commit_ready 1 g opt sg.
Proof.
  intros [Hwf Hsu Hsz _ He _ [Hl _ Hs Hgen] _] [Hin _ Hok Hlen]. split; try done. rewrite Hin, Hsz. unfold len at 1. cbn [length]. lia.
Qed.

Lemma pair_receiver_ready g h sg sh opt : pair_ready g h sg sh -> quiet_commit opt -> receiver_ready 1 g opt h.
Proof.
  intros [Hwf Hsu Hsz [Hs Hp] He Hne [[Hl Hpop] _ _ _] [Hlh Hk _ _]] Hq.
  destruct (staged_quiet 1 g opt Hwf ltac:(lia) Hpop Hq) as [Hst Hrs]. split; try done.
  - intros a ->%Hst. apply (member_keys_follower 1); [apply Hwf|lia|done].
  - intros rs ->%Hrs. constructor.
Qed.

(** A member whose leaf keeps its signature key stays able to sign. *)
Lemma signs_for_next d d' g g' sg ln : next_epoch g g' -> tree_inv d (rt_nodes (g_tree g)) -> tree_inv d' (rt_nodes (g_tree g')) ->
  0 <= g_ownLeaf g < 2 ^ 31 -> signs_for g sg -> roster_of (rt_nodes (g_tree g')) !! g_ownLeaf g = Some ln ->
  (forall old, roster_of (rt_nodes (g_tree g)) !! g_ownLeaf g = Some old -> ln_SignatureKey ln = ln_SignatureKey old) ->
  signs_for g' sg.
Proof.
  intros Hn Hi Hi' Hl (Hsg & old & Ho & Hk) Hln Hsame. rewrite (LeafNodeAt_roster _ d _ Hi Hl) in Ho.
  destruct (roster_of (rt_nodes (g_tree g)) !! g_ownLeaf g) as [ln0|]; [|done]. apply Ok_inj in Ho as ->.
  split; [by rewrite (ne_signer _ _ Hn)|]. exists ln.
  by rewrite (ne_leaf _ _ Hn), (ne_suite _ _ Hn), (LeafNodeAt_roster _ d' _ Hi' Hl), Hln, (Hsame old eq_refl).
Qed.

Lemma partner_next g g' t sg ln : next_epoch g g' -> t = g_tree g' -> tree_inv 1 (rt_nodes (g_tree g)) -> tree_inv 1 (rt_nodes t) ->
  0 <= g_ownLeaf g < 2 ^ 1 -> signs_for g sg -> roster_of (rt_nodes t) !! g_ownLeaf g = Some ln ->
  (forall old, roster_of (rt_nodes (g_tree g)) !! g_ownLeaf g = Some old -> ln_SignatureKey ln = ln_SignatureKey old) ->
  member_keys 1 t (g_ownLeaf g) (g_priv g') -> g_handshakeGeneration g' = 0 -> partner t g' sg.
Proof.
  intros Hn -> Hi Hi' Hl Hsg Hln Hsame Hk Hh. split; rewrite ?(ne_leaf _ _ Hn), ?Hh; [|done| |done].
  - split; [done|]. rewrite (populated_roster 1) by (done || lia). by eexists.
  - eapply (signs_for_next 1 1 g); [done..| |done|done|done]. lia.
Qed.

(** The tree of a quiet commit can be encoded, as it has been copied. *)
Lemma quiet_encodable d g sg opt r commit w g' : commit_ready d g opt sg -> quiet_commit opt ->
  Group_Commit r opt g = (Ok (commit, w), g') ->
  is_ok (let! a := staged g opt in RatchetTree_MarshalMLS (ap_tree a)) = true.
Proof.
  intros Hcr Hq Hcm. pose proof (cr_own _ _ _ _ Hcr) as [Hl Hpop].
  destruct (Group_Commit_inv r opt g sg commit w g' (proj1 (cr_signer _ _ _ _ Hcr)) Hcm)
    as (cache & refs & a & wt & ? & ? & ? & ? & ? & ? & ? & ? & ? & ? & ? & ? & ? & ? & ? & Hcl & Hca & Hap & _).
  assert (staged g opt = Ok a) as Hst by (unfold staged; rewrite Hcl; cbn [obind]; rewrite Hca; exact Hap).
  rewrite Hst. cbn [obind]. rewrite (proj1 (staged_quiet d g opt (cr_tree _ _ _ _ Hcr) (proj1 Hl) Hpop Hq) a Hst).
  unfold Clone in Hcl. by apply obind_ok in Hcl as (data & -> & _).
Qed.

(** One quiet commit by one partner: the other follows, and both are ready for
    the next, in either direction. *)
Lemma pair_step g h sg sh opt r commit w g' :
  pair_ready g h sg sh -> quiet_commit opt -> derivable (g_suite g) -> derives_pairs (g_suite g) -> len (cr_guard r) = 4 ->
  Group_Commit r opt g = (Ok (commit, w), g') ->
  exists h', ProcessCommit [] commit h = (Ok tt, h') /\ pair_ready g' h' sg sh.
Proof.
  intros Hpr Hq Hder Hdp Hgu Hcm. pose proof (pair_commit_ready g h sg sh opt Hpr Hq) as Hcr.
  pose proof (pair_receiver_ready g h sg sh opt Hpr Hq) as Hrr.
  pose proof Hpr as [Hwf Hsu Hsz [Hs _] _ Hne [[Hl Hpop] _ Hsg _] [[Hlh Hpoph] _ Hsh _]].
  destruct (Group_Commit_epoch _ _ _ _ _ Hcm) as [Hne' Hhs].
  destruct (ProcessCommit_follows_keys 1 g h opt sg r commit w g' Hcr Hrr Hder Hgu
    (quiet_encodable 1 g sg opt r commit w g' Hcr Hq Hcm) Hcm)
    as (h' & d' & a & up & bn & Hpc & Hse & Hps & Hwf' & Hsu' & Hfo).
  rewrite (qc_inline _ Hq) in Hpc. exists h'. split; [exact Hpc|].
  destruct (Group_Commit_committed 1 g opt sg r commit w g' Hcr Hcm) as (d1 & a1 & rs & up1 & bn1 & fdp & pss & Hco).
  destruct (committed_followed _ _ _ _ _ _ _ _ _ _ _ _ _ _ _ _ _ _ Hco Hfo) as (-> & -> & -> & ->).
  destruct (followed_keys _ _ _ _ _ _ _ _ _ _ _ _ _ _ Hco Hdp Hfo) as (K & HK & HKin & Hkh).
  pose proof Hfo as [Hst _ [Hwfa _] _ _ [Hown Hgen0] _].
  destruct (co_leaf _ _ _ _ _ _ _ _ _ _ _ _ Hco) as (orig & Hog & Eup & _).
  pose proof (co_roster _ _ _ _ _ _ _ _ _ _ _ _ Hco) as Hro. pose proof (co_keys _ _ _ _ _ _ _ _ _ _ _ _ Hco Hdp) as Hkg.
  rewrite (proj1 (staged_quiet 1 g opt Hwf (proj1 Hl) Hpop Hq) _ Hst) in *.
  assert (d1 = 1) as -> by (by eapply tree_wf_depth). assert (K = 1) as -> by (destruct HK as (? & _); lia).
  destruct (proj1 (populated_roster 1 _ _ (wf_inv _ _ Hwf) (proj1 Hlh)) Hpoph) as [lnh Hoh].
  pose proof (ProcessCommit_epoch _ _ _ _ Hpc) as Hnh.
  split; [done|done| |done| | | |].
  - unfold members in *. rewrite Hro, map_size_insert, Hog. done.
  - rewrite (ne_epoch _ _ Hne'). unfold is_u64, u64. by apply Z.mod_pos_bound.
  - by rewrite (ne_leaf _ _ Hne'), Hown.
  - eapply (partner_next g g' (g_tree g') sg (up_LeafNode up1)); [done|done|apply Hwf|apply Hwf'|done|done| | |done|done].
    + rewrite Hro. apply lookup_insert_eq.
    + rewrite Hog, Eup. by intros old [= <-].
  - eapply (partner_next h h' (g_tree g') sh lnh);
      [done|symmetry; apply Hse|rewrite (se_tree _ _ Hs); apply Hwf|apply Hwf'|done|done| | |apply Hkh|done].
    + rewrite Hro. by rewrite lookup_insert_ne.
    + rewrite (se_tree _ _ Hs), Hoh. by intros old [= <-].
    + split; [|lia]. intros i Hi. by replace i with 1 by lia.
Qed.

(** ** A conversation of commits *)

Record turn : Type := mkTurn { by_first : bool; turn_rand : CommitRand; turn_opt : CommitOptions }.

Definition turn_ok (x : turn) : Prop := quiet_commit (turn_opt x) /\ len (cr_guard (turn_rand x)) = 4.

Inductive progress : Type :=
| InStep (g h : Group)  (* all commits were made and processed *)
| NoCommit              (* a committer could not produce its commit *)
| Stranded.             (* a commit was produced that the other cannot process *)

Definition deliver (r : CommitRand) (opt : CommitOptions) g h : option (option (Group * Group)) :=
  match Group_Commit r opt g with
  | (Ok (commit, _), g') =>
      match ProcessCommit [] commit h with (Ok _, h') => Some (Some (g', h')) | _ => Some None end
  | _ => None
  end.

Fixpoint exchange (turns : list turn) g h : progress :=
  match turns with
  | [] => InStep g h
  | x :: turns =>
      match (if by_first x then deliver (turn_rand x) (turn_opt x) g h else deliver (turn_rand x) (turn_opt x) h g) with
      | None => NoCommit
      | Some None => Stranded
      | Some (Some (c, q)) => if by_first x then exchange turns c q else exchange turns q c
      end
  end.

Lemma deliver_ok g h sg sh r opt : pair_ready g h sg sh -> quiet_commit opt -> len (cr_guard r) = 4 ->
  derivable (g_suite g) -> derives_pairs (g_suite g) ->
  match deliver r opt g h with
  | Some (Some (g', h')) => pair_ready g' h' sg sh /\ Epoch g' = u64 (Epoch g + 1) /\ g_suite g' = g_suite g
  | Some None => False
  | None => True
  end.
Proof.
  intros Hpr Hq Hgu Hder Hdp. unfold deliver. destruct (Group_Commit r opt g) as [[[commit w]| | |] g'] eqn:Hcm; try done.
  destruct (pair_step g h sg sh opt r commit w g' Hpr Hq Hder Hdp Hgu Hcm) as (h' & -> & Hpr').
  destruct (Group_Commit_epoch _ _ _ _ _ Hcm) as [Hn _]. split_and!; [done|apply Hn|apply Hn].
Qed.

Lemma pair_Epoch g h sg sh : pair_ready g h sg sh -> Epoch h = Epoch g /\ g_suite h = g_suite g.
Proof. intros [_ _ _ [[E1 E2 _ _ _ _ _] _] _ _ _ _]. unfold Epoch. by rewrite E1, E2. Qed.

Lemma exchange_ok turns g h sg sh : pair_ready g h sg sh -> Forall turn_ok turns ->
  derivable (g_suite g) -> derives_pairs (g_suite g) ->
  match exchange turns g h with
  | InStep g' h' => pair_ready g' h' sg sh /\ Epoch g' = u64 (Epoch g + len turns)
  | NoCommit => True
  | Stranded => False
  end.
Proof.
  revert g h. induction turns as [|[b r opt] turns IH]; intros g h Hpr HF Hder Hdp; cbn [exchange by_first turn_rand turn_opt].
  - split; [done|]. unfold len. cbn. rewrite Z.add_0_r. symmetry. apply Z.mod_small, Hpr.
  - apply Forall_cons in HF as [[Hq Hgu] HF]. cbn [turn_rand turn_opt] in *.
    assert (forall e n, u64 (u64 (e + 1) + n) = u64 (e + (n + 1))) as Hu
      by (intros; unfold u64; rewrite Z.add_mod_idemp_l by done; f_equal; lia).
    assert (len ((mkTurn b r opt) :: turns) = len turns + 1) as -> by (unfold len; cbn [length]; lia).
    destruct (pair_Epoch g h sg sh Hpr) as [Ee Es]. destruct b.
    + pose proof (deliver_ok g h sg sh r opt Hpr Hq Hgu Hder Hdp) as Hd.
      destruct (deliver r opt g h) as [[[g' h']|]|]; [|done..]. destruct Hd as (Hpr' & He & Hs). rewrite <- Hu, <- He.
      apply IH; [done..|by rewrite Hs|by rewrite Hs].
    + rewrite <- Es in Hder, Hdp. apply pair_ready_sym in Hpr.
      pose proof (deliver_ok h g sh sg r opt Hpr Hq Hgu Hder Hdp) as Hd.
      destruct (deliver r opt h g) as [[[h' g']|]|]; [|done..]. destruct Hd as (Hpr' & He & Hs). apply pair_ready_sym in Hpr'.
      destruct (pair_Epoch g' h' sg sh Hpr') as [Ee' Es']. rewrite <- Hu, <- Ee, <- He, Ee'.
      apply IH; [done..|by rewrite <- Es', Hs|by rewrite <- Es', Hs].
Qed.
End pair.

(** * Properties *)

(** What a commit leaves of the private keys.  After its own commit the
    committer holds exactly the keys that its place in the new tree asks for,
    so it can follow whatever comes next; a receiver that has followed the
    commit holds them too when its direct path needs no key below the node
    where it meets the committer's and the committer's path has no gap above
    it. *)
Theorem keys_after_commit {C : StdCrypto} `{!StdCryptoLaws C} d g h opt signer r commit w g' :
  commit_ready d g opt signer -> receiver_ready d g opt h -> derivable (g_suite g) -> derives_pairs (g_suite g) ->
  len (cr_guard r) = 4 -> is_ok (let! a := staged g opt in RatchetTree_MarshalMLS (ap_tree a)) = true ->
  Group_Commit r opt g = (Ok (commit, w), g') ->
  exists h' d' a fdp K, ProcessCommit (ByReference opt) commit h = (Ok tt, h') /\ staged g opt = Ok a /\
    filteredDirectPath (ap_tree a) (g_ownLeaf g) = Ok fdp /\ meet d' (g_ownLeaf g) (g_ownLeaf h) K /\
    tree_wf d' (g_tree g') /\ member_keys d' (g_tree g') (g_ownLeaf g) (g_priv g') /\
    (clear_path d' (ap_tree a) (g_ownLeaf g) (g_ownLeaf h) K fdp -> member_keys d' (g_tree g') (g_ownLeaf h) (g_priv h')).
Proof.
  intros Hcr Hrr Hder Hdp Hgu Henc Hcm.
  destruct (ProcessCommit_follows_keys d g h opt signer r commit w g' Hcr Hrr Hder Hgu Henc Hcm)
    as (h' & d' & a & up & bn & Hpc & Hse & Hps & Hwf' & Hsu' & Hfo).
  destruct (Group_Commit_committed d g opt signer r commit w g' Hcr Hcm) as (d1 & a1 & rs & up1 & bn1 & fdp & pss & Hco).
  destruct (committed_followed _ _ _ _ _ _ _ _ _ _ _ _ _ _ _ _ _ _ Hco Hfo) as (-> & -> & -> & ->).
  destruct (followed_keys _ _ _ _ _ _ _ _ _ _ _ _ _ _ Hco Hdp Hfo) as (K & HK & _ & Hkh).
  exists h', d1, a1, fdp, K. split_and!; try done; [apply Hfo|apply Hco|by apply Hco].
Qed.


(** ** A concrete pair *)
Module Pair.
#[local] Existing Instances toy toy_laws.

Definition context : GroupContext :=
  mkGroupContext 1 1 Example.group_id 3 (value [] (RootTreeHash (Example.tree 2))) [] [].

Definition ratchets : SecretTree := value (mkSecretTree 0 ∅ ∅) (NewSecretTree toy_suite 2 (es_EncryptionSecret Epoch7.secrets)).

(** Member [i], with the key of its leaf only. *)
Definition member (i : Z) : Group :=
  mkGroup toy_suite context (Example.tree 2) (NewTreeKEMPrivate i (toy_priv i)) Epoch7.secrets ratchets Epoch7.interim
    (es_InitSecret Epoch7.secrets) i (Some (Example.signer i)) ∅ ∅ 0 0 (i =? 0) ∅.

Definition rand (i : Z) : CommitRand :=
  mkCommitRand (toy_priv (80 + i)) (be_bytes 4 i) (fun a b => a + b : Rand (StdCrypto := toy)) (fun a => a : Rand (StdCrypto := toy)).

Definition turns : list turn :=
  (fun '(b, i) => mkTurn b (rand i) (mkCommitOptions [] [])) <$> [(true, 1); (false, 2); (false, 3)].

Lemma turns_ok : Forall turn_ok turns.
Proof. repeat constructor; vm_compute; congruence. Qed.

Lemma pairs : derives_pairs toy_suite.
Proof. intros s sk pk [= <- <-]. by eexists. Qed.

Lemma tree2_wf : tree_wf 1 (Example.tree 2).
Proof.
  split; [apply tree_inv_b_ok; vm_compute; reflexivity| |].
  - left. exists 1. split; [done|]. apply populated_b_ok. vm_compute. reflexivity.
  - assert (rt_nodes (Example.tree 2) = [leaf_node (Example.leaf 0); None; leaf_node (Example.leaf 1)]) as -> by (vm_compute; reflexivity).
    repeat apply Forall_cons_2; try exact I; [apply Example.leaf_ok..|apply Forall_nil_2].
Qed.

Lemma ready i : i = 0 \/ i = 1 -> partner (Example.tree 2) (member i) (Example.signer i).
Proof.
  intros Hi. assert (0 <= i < 2 ^ 1) as Hr by lia.
  assert (LeafNodeAt (Example.tree 2) i = Ok (Example.leaf i) /\ nodePublicKey (Example.tree 2) (u32 (2 * i)) = Ok (toy_pub i) /\
    SignaturePublicKey toy_suite (Example.signer i) = Ok (ln_SignatureKey (Example.leaf i)) /\
    populated_b (rt_nodes (Example.tree 2)) i = true) as (Hln & Hpk & Hsk & Hpb)
    by (destruct Hi as [-> | ->]; vm_compute; done).
  split; [split; [done|by apply populated_b_ok]| |split; [done|by exists (Example.leaf i)]|done].
  split.
  - exists (toy_priv i). change (g_priv (member i)) with (NewTreeKEMPrivate i (toy_priv i)). rewrite (NewTreeKEMPrivate_key 1) by (done || lia).
    by rewrite decide_True.
  - intros k p Hk Hs. exfalso. assert (k = 1) as -> by lia. destruct Hi as [-> | ->]; vm_compute in Hs; discriminate.
  - intros x [sk Hx]. change (g_priv (member i)) with (NewTreeKEMPrivate i (toy_priv i)) in Hx.
    rewrite (NewTreeKEMPrivate_key 1) in Hx by (done || lia). exists 0. split; [done|]. case_decide; [|done].
    cbn [member g_ownLeaf]. rewrite Z.pow_0_r, Z.div_1_r, node_leaf. done.
  - intros x sk pk Hx Hp. change (g_priv (member i)) with (NewTreeKEMPrivate i (toy_priv i)) in Hx.
    rewrite (NewTreeKEMPrivate_key 1) in Hx by (done || lia). case_decide as Ex; [|done]. injection Hx as <-. subst x.
    rewrite u32_small in Hpk by lia. rewrite Hpk in Hp. apply Ok_inj in Hp as <-. apply toy_key_pair.
Qed.

Lemma pair : pair_ready (member 0) (member 1) (Example.signer 0) (Example.signer 1).
Proof.
  constructor; [exact tree2_wf|reflexivity|vm_compute; reflexivity|by repeat split|done|done|apply (ready 0); by left|
    apply (ready 1); by right].
Qed.
End Pair.

#[local] Existing Instances toy toy_laws.

Lemma keys_after_commit_witness :
  match Group_Commit Epoch7.rand Epoch7.options (Epoch7.member 0 true) with
  | (Ok (commit, _), g') => exists d, tree_wf d (g_tree g') /\ member_keys d (g_tree g') 0 (g_priv g')
  | _ => False
  end.
Proof.
  destruct (Group_Commit Epoch7.rand Epoch7.options (Epoch7.member 0 true)) as [o g'] eqn:E.
  assert (is_ok o = true) as [[commit w] ->]%is_ok_inv.
  { change o with (o, g').1. rewrite <- E. vm_compute. reflexivity. }
  destruct (keys_after_commit 2 (Epoch7.member 0 true) (Epoch7.member 2 false) Epoch7.options (Example.signer 0) Epoch7.rand
    commit w g' Epoch7.committer Epoch7.receiver Epoch7.derives Pair.pairs ltac:(reflexivity) ltac:(vm_compute; reflexivity) E)
    as (h' & d' & a & fdp & K & _ & _ & _ & _ & Hwf & Hk & _).
  exists d'. split; [exact Hwf|exact Hk].
Defined.

