(* ===== verification/GroupLed.v ===== *)
(** Groups with a leader: no member is ever stranded.

    [rebuildPriv] keeps of a receiver's keys only its leaf key and what the
    commit just gave it, so a group in which anyone may commit can strand
    members (GroupRuns.v).  This file shows the discipline under which it
    cannot: as long as the commits come from one member, and another member
    takes over only with a commit that removes the old leader, every commit
    that is made is followed by every member it does not remove.  The reason is
    the shape of the tree: all its parent nodes lie on the leader's direct path
    ([star]), so below the point where a member meets the leader's path there
    is nothing but its own leaf. *)

From Stdlib Require Import ZArith Lia Strings.Byte.
From stdpp Require Import base list numbers strings sorting sets gmap.
From S2P Require Import Prelude Syntax TreeNodes TreeMath Cipher ToyCrypto RatchetTree TreeSync TreeKEM.
From S2P Require Import KeySchedule Framing GroupMessages Group GroupProposals GroupSync GroupKeys.

(** * Trees whose parents lie on one path *)

Definition star (nodes : list (option Node)) (l : Z) : Prop :=
  forall k j n, 0 < k -> 0 <= j -> slot nodes (node k j) = Some n -> j = l / 2 ^ k.

Section star.
Context {C : StdCrypto} `{!StdCryptoLaws C}.

(** Blanking keeps the shape, and removing the leader leaves no parent at all. *)
Lemma star_run t ops t' l : run_ok t ops t' -> star (rt_nodes t) l -> star (rt_nodes t') l.
Proof.
  intros Hr Hst k j n Hk Hj E. destruct (slot (rt_nodes t) (node k j)) as [n'|] eqn:E'; [by eapply Hst|].
  by rewrite (rk_blank _ _ _ Hr k j Hk Hj E') in E.
Qed.

Lemma star_removed t ops t' l l' : run_ok t ops t' -> star (rt_nodes t) l -> 0 <= l -> OpRemove l ∈ wrapped <$> ops ->
  star (rt_nodes t') l'.
Proof.
  intros Hr Hst Hl Hin k j n Hk Hj E. pose proof (star_run _ _ _ _ Hr Hst k j n Hk Hj E) as ->.
  by rewrite (rk_removed _ _ _ Hr l k Hin Hl Hk) in E.
Qed.

(** A path of [l] over such a tree gives such a tree. *)
Lemma star_path d t l leafSecret up byNode fdp pss t' : tree_inv d (rt_nodes t) -> 0 <= l < 2 ^ d ->
  path_keys d t l leafSecret up byNode fdp pss t' -> star (rt_nodes t) l -> star (rt_nodes t') l.
Proof.
  intros Hinv Hl Hpk Hst k j n Hk Hj E. pose proof (ti_depth _ _ Hinv) as Hd.
  destruct (filteredDirectPath_ok d t Hinv l Hl) as (fdp' & Hf' & _ & Hin).
  rewrite (pk_fdp _ _ _ _ _ _ _ _ _ Hpk) in Hf'. apply Ok_inj in Hf' as <-.
  assert (0 <= node k j) as Hx by (apply node_nonneg; lia).
  destruct (decide (node k j ∈ fdp)) as [Hi|Hni].
  { apply Hin in Hi as (i & (Hi & Ei & _)). apply node_inj in Ei as [-> ->]; [done|lia..]. }
  assert (node k j <> 2 * l) as Hne by (rewrite <- node_leaf; intros [-> _]%node_inj; lia).
  destruct (decide (node k j ∈ direct_path d l)) as [Hdp|Hndp].
  { apply elem_direct_path in Hdp as (i & Hi & Ei); [|lia..]. apply node_inj in Ei as [-> ->]; [done|lia..]. }
  destruct (pk_off _ _ _ _ _ _ _ _ _ Hpk _ Hx Hni Hne) as [E'|(q & ph & E' & _)]; rewrite decide_False in E' by done.
  - rewrite E' in E. by eapply Hst.
  - by eapply Hst.
Qed.

(** In such a tree the leaf key is all that a commit of the leader asks for. *)
Lemma star_follower d t l m priv : tree_inv d (rt_nodes t) -> 0 <= l -> 0 <= m -> star (rt_nodes t) l -> leaf_keys t m priv ->
  follower_keys t l m priv.
Proof.
  intros Hinv Hl Hm Hst [Hlf Hown Hpair] d' K HK.
  assert (forall k n, 0 < k < K -> slot (rt_nodes t) (node k (m / 2 ^ k)) = Some n -> False) as Hno.
  { intros k n Hk E. apply (meet_below d' l m K k HK ltac:(lia)). eapply Hst; [lia| |exact E].
    apply Z.div_pos; [lia|apply pow2_pos; lia]. }
  split; [done| |done|].
  - intros k p Hk E. by destruct (Hno k _ Hk E).
  - intros x sk pk (k & Hk & ->) Hsk Hpk. assert (0 <= m / 2 ^ k) by (apply Z.div_pos; [lia|apply pow2_pos; lia]).
    assert (0 <= node k (m / 2 ^ k)) as Hx by (apply node_nonneg; lia). destruct (Z.eq_dec k 0) as [->|].
    + apply (Hpair (2 * m)); [done|..]; rewrite Z.pow_0_r, Z.div_1_r, node_leaf in *; done.
    + exfalso. destruct (nodePublicKey_slot _ _ _ Hx Hpk) as [(ln & q & Es & _)|(p' & Es & _)]; eapply (Hno k); try exact Es; lia.
Qed.

(** What a run of proposals leaves of a member's leaf key. *)
Lemma leaf_keys_kept t t' m priv : rt_suite t' = rt_suite t -> 0 <= m -> populated (rt_nodes t) m ->
  kept m (rt_nodes t) (rt_nodes t') -> leaf_keys t m priv -> leaf_keys t' m priv.
Proof.
  intros Hsu Hm [n Hpop] [KL _] [Hlf Hown Hpair]. split; [done..|].
  intros x sk pk -> Hsk Hpk. rewrite Hsu. apply (Hpair (2 * m)); [done..|]. assert (0 <= 2 * m) as Hx by lia.
  rewrite Hpop in KL. rewrite (nodePublicKey_of_slot _ _ _ Hx Hpop). by rewrite (nodePublicKey_of_slot _ _ _ Hx KL) in Hpk.
Qed.

(** A private state that holds the leaf key only. *)
Lemma new_leaf_keys d t m sk pk : 0 <= d <= 30 -> 0 <= m < 2 ^ d -> nodePublicKey t (2 * m) = Ok pk ->
  key_pair (rt_suite t) sk pk -> leaf_keys t m (NewTreeKEMPrivate m sk).
Proof.
  intros Hd Hm Hpk Hkp.
  assert (forall x, privateKey (NewTreeKEMPrivate m sk) x = if decide (x = 2 * m) then Some sk else None) as Hkey
    by (intros; by apply (NewTreeKEMPrivate_key d)).
  split.
  - rewrite Hkey, decide_True by done. by eexists.
  - intros x Hx. rewrite Hkey in Hx. case_decide as E; [|by destruct Hx]. exists 0. by rewrite Z.pow_0_r, Z.div_1_r, node_leaf.
  - intros x s' p' -> Hx Hp. rewrite Hkey, decide_True in Hx by done. injection Hx as <-. rewrite Hpk in Hp. by apply Ok_inj in Hp as <-.
Qed.
End star.

(** * One commit of a leader *)

Section led.
Context {C : StdCrypto} `{!StdCryptoLaws C}.
Implicit Types g h : Group.

(** A member that holds its leaf key and its signer. *)
Record standing g : Prop := {
  sd_tree : exists d, tree_wf d (g_tree g) /\ 0 <= g_ownLeaf g < 2 ^ d;
  sd_suite : rt_suite (g_tree g) = g_suite g;
  sd_leaf : populated (rt_nodes (g_tree g)) (g_ownLeaf g);
  sd_keys : leaf_keys (g_tree g) (g_ownLeaf g) (g_priv g);
  sd_signs : exists signer, signs_for g signer;
  sd_epoch : is_u64 (Epoch g);
  sd_gen : is_u32 (g_handshakeGeneration g)
}.

(** The members that the proposals of a commit remove. *)
Definition removes (opt : CommitOptions) (l : Z) : bool :=
  existsb (fun p => (p_Type p =? ProposalTypeRemove) &&
    match p_Remove p with Some x => leaf_index (Removed x) =? l | None => false end) (ByValue opt).

(** A commit with its proposals inline, which updates nobody by proposal. *)
Record led_commit (opt : CommitOptions) : Prop := {
  lc_inline : ByReference opt = [];
  lc_ok : Forall Proposal_ok (ByValue opt);
  lc_noupdate : Forall (fun p => p_Type p <> ProposalTypeUpdate) (ByValue opt)
}.

Lemma led_proposals g opt : led_commit opt ->
  staged_proposals g opt = Ok (map (fun p => mkCached p (g_ownLeaf g)) (ByValue opt)).
Proof. intros [Hin _ _]. unfold staged_proposals. rewrite Hin. cbn [proposal_cache obind]. apply resolve_inline. Qed.

Lemma led_no_update l opt : led_commit opt -> of_type ProposalTypeUpdate (map (fun p => mkCached p l) (ByValue opt)) = [].
Proof.
  intros [_ _ HF]. unfold of_type. induction HF as [|p ps Hp _ IH]; [done|]. cbn. rewrite IH. by rewrite (proj2 (Z.eqb_neq _ _)).
Qed.

Lemma elem_remove_ops l ps m : OpRemove m ∈ omap remove_op (of_type ProposalTypeRemove (map (fun p => mkCached p l) ps)) <->
  exists p x, p ∈ ps /\ p_Type p = ProposalTypeRemove /\ p_Remove p = Some x /\ Removed x = m.
Proof.
  rewrite list_elem_of_omap. unfold of_type. split.
  - intros (r & Hr & E). apply list_elem_of_In, filter_In in Hr as [Hr Ht]. apply in_map_iff in Hr as (p & <- & Hp). cbn in *.
    unfold remove_op in E. cbn in E. destruct (p_Remove p) as [x|] eqn:Ex; [|done]. injection E as <-.
    exists p, x. split_and!; [by apply list_elem_of_In|by apply Z.eqb_eq|done|done].
  - intros (p & x & Hp & Ht & Ex & <-). exists (mkCached p l). split.
    + apply list_elem_of_In, filter_In. split; [apply in_map_iff; exists p; split; [done|by apply list_elem_of_In]|by apply Z.eqb_eq].
    + unfold remove_op. cbn. by rewrite Ex.
Qed.

Lemma removes_spec l opt m : led_commit opt ->
  removes opt m = true <-> OpRemove m ∈ wrapped <$> commit_ops (map (fun p => mkCached p l) (ByValue opt)).
Proof.
  intros Hlc. unfold commit_ops. rewrite (led_no_update l opt Hlc). cbn [omap list_omap app]. unfold removes.
  rewrite existsb_exists, list_elem_of_fmap. split.
  - intros (p & Hp & [Ht Hx]%andb_true_iff). destruct (p_Remove p) as [x|] eqn:Ex; [|done]. apply Z.eqb_eq in Ht, Hx.
    exists (OpRemove (Removed x)). split; [cbn; by rewrite Hx|]. apply elem_of_app. left. apply elem_remove_ops.
    exists p, x. split_and!; [by apply list_elem_of_In|done..].
  - intros (op & E & [Hin|Hin]%elem_of_app).
    + destruct op; cbn in E; [done..|]. injection E as ->. apply elem_remove_ops in Hin as (p & x & Hp & Ht & Ex & <-).
      exists p. split; [by apply list_elem_of_In|]. by rewrite Ht, Ex, !Z.eqb_refl.
    + apply list_elem_of_omap in Hin as (r & _ & Hr). unfold add_op in Hr. destruct (p_Add (cp_proposal r)); [|done].
      by injection Hr as <-.
Qed.

Lemma led_avoids l opt m : led_commit opt -> removes opt m = false ->
  Forall (op_avoids m) (wrapped <$> commit_ops (map (fun p => mkCached p l) (ByValue opt))).
Proof.
  intros Hlc Hr. apply Forall_forall. intros op Hop. destruct op as [ln|x ln|x]; [done| |].
  - exfalso. apply list_elem_of_fmap in Hop as (op & E & Hop). unfold commit_ops in Hop. rewrite (led_no_update l opt Hlc) in Hop.
    cbn [omap list_omap app] in Hop. apply elem_of_app in Hop as [Hop|Hop]; apply list_elem_of_omap in Hop as (r & _ & Ho).
    + unfold remove_op in Ho. destruct (p_Remove (cp_proposal r)); [|done]. by injection Ho as <-.
    + unfold add_op in Ho. destruct (p_Add (cp_proposal r)); [|done]. by injection Ho as <-.
  - cbn. intros ->. apply (removes_spec l opt m Hlc) in Hop. congruence.
Qed.

(** Who may commit: the leader, or a member whose commit removes the leader. *)
Definition takes_lead (lead l : Z) (opt : CommitOptions) : Prop :=
  removes opt l = false /\ (l = lead \/ (0 <= lead /\ removes opt lead = true)).

Lemma standing_commit_ready g opt : standing g -> led_commit opt -> members (g_tree g) + len (ByValue opt) <= 2 ^ 30 ->
  exists d signer, commit_ready d g opt signer.
Proof.
  intros [(d & Hwf & Hl) Hsu Hpop _ [signer Hs] He Hg] [Hin Hok _] Hsz. exists d, signer. split; try done.
  rewrite Hin. unfold len at 1. cbn [length]. lia.
Qed.

(** The staged tree of such a commit is in the committer's shape. *)
Lemma led_staged d g opt signer lead a : commit_ready d g opt signer -> led_commit opt -> star (rt_nodes (g_tree g)) lead ->
  takes_lead lead (g_ownLeaf g) opt ->
  applied_ok (g_tree g) (map (fun p => mkCached p (g_ownLeaf g)) (ByValue opt)) a -> star (rt_nodes (ap_tree a)) (g_ownLeaf g).
Proof.
  intros Hcr Hlc Hst [_ [<-|[H0 Hrm]]] [Hrun _ _]; [by eapply star_run|].
  eapply star_removed; [exact Hrun|exact Hst|done|]. by apply removes_spec.
Qed.

Lemma led_receiver_ready d g h opt signer lead : commit_ready d g opt signer -> led_commit opt ->
  star (rt_nodes (g_tree g)) lead -> takes_lead lead (g_ownLeaf g) opt -> same_epoch g h -> same_psks g h ->
  standing h -> g_ownLeaf h <> g_ownLeaf g -> removes opt (g_ownLeaf h) = false -> receiver_ready d g opt h.
Proof.
  intros Hcr Hlc Hst Htl Hse Hps [(d' & Hwf & Hl) _ Hpop Hk _ _ _] Hne Hrm. rewrite (se_tree _ _ Hse) in *.
  pose proof (cr_tree _ _ _ _ Hcr) as Hwfg. assert (d' = d) as -> by (by eapply tree_wf_depth).
  split; [done..| |]; [intros a Hsta|intros rs Hrs]; [|rewrite (led_proposals g opt Hlc) in Hrs; apply Ok_inj in Hrs as <-; by apply led_avoids].
  assert (applied_ok (g_tree g) (map (fun p => mkCached p (g_ownLeaf g)) (ByValue opt)) a) as Hok.
  { pose proof (led_proposals g opt Hlc) as Hrs. unfold staged in Hsta. apply obind_ok in Hsta as (wt & Hc & Hsta).
    apply obind_ok in Hsta as ([cache refs] & Hca & Hap).
    destruct (staged_ok d g opt signer cache refs wt a Hcr Hc Hca Hap) as (-> & rs & Hrs' & _ & Hok & _).
    unfold staged_proposals in Hrs. rewrite Hca in Hrs. cbn [obind] in Hrs. rewrite Hrs' in Hrs. apply Ok_inj in Hrs as <-. done. }
  pose proof Hok as [Hrun (d' & _ & Hwfa & _) _].
  eapply star_follower; [apply Hwfa|apply (cr_own _ _ _ _ Hcr)|apply Hl|by eapply led_staged|].
  eapply leaf_keys_kept; [apply Hrun|apply Hl|exact Hpop| |exact Hk].
  apply (rk_kept _ _ _ Hrun); [apply Hl|done|by apply led_avoids].
Qed.

(** A standing member stands in the next epoch when its leaf and its signature
    key are still there and it holds its leaf key. *)
Lemma standing_next d' g g' ln : standing g -> next_epoch g g' -> g_handshakeGeneration g' = 0 ->
  tree_wf d' (g_tree g') -> rt_suite (g_tree g') = g_suite g -> 0 <= g_ownLeaf g < 2 ^ d' ->
  roster_of (rt_nodes (g_tree g')) !! g_ownLeaf g = Some ln ->
  (forall old, roster_of (rt_nodes (g_tree g)) !! g_ownLeaf g = Some old -> ln_SignatureKey ln = ln_SignatureKey old) ->
  leaf_keys (g_tree g') (g_ownLeaf g) (g_priv g') -> standing g'.
Proof.
  intros [(d & Hwf & Hl) Hsu Hpop Hk [signer Hs] He Hg] Hne Hhs Hwf' Hsu' Hl' Hln Hsame Hk'.
  pose proof (ti_depth _ _ (wf_inv _ _ Hwf')) as Hd. pose proof (Z.pow_le_mono_r 2 d' 30 ltac:(lia) ltac:(lia)).
  split; rewrite ?(ne_leaf _ _ Hne), ?(ne_suite _ _ Hne), ?Hhs; [by exists d'|done| |done| | |done].
  - apply (populated_roster d'); [apply Hwf'|lia|by eexists].
  - exists signer. eapply (signs_for_next d d' g); [done|apply Hwf|apply Hwf'|lia|done..].
  - rewrite (ne_epoch _ _ Hne). unfold is_u64, u64. by apply Z.mod_pos_bound.
Qed.

(** The leaf of a member that the proposals leave alone. *)
Lemma roster_kept d d' t t' m : tree_inv d (rt_nodes t) -> tree_inv d' (rt_nodes t') -> 0 <= m ->
  kept m (rt_nodes t) (rt_nodes t') -> roster_of (rt_nodes t') !! m = roster_of (rt_nodes t) !! m.
Proof. intros _ _ Hm [E _]. by rewrite !lookup_roster, E by done. Qed.

Lemma committed_standing d0 d g opt signer r commit w g' a rs up byNode fdp pss :
  standing g -> commit_ready d0 g opt signer -> led_commit opt -> removes opt (g_ownLeaf g) = false -> derives_pairs (g_suite g) ->
  Group_Commit r opt g = (Ok (commit, w), g') -> committed d g opt signer r g' a rs up byNode fdp pss -> standing g'.
Proof.
  intros Hsd Hcr Hlc Hrm Hdp Hcm [_ Hrs [Hrun _ _] [Hwfa _] Hl _ _ [Hwf' Hsu'] Hro (orig & Horig & Esk & _) Hk].
  destruct (Group_Commit_epoch _ _ _ _ _ Hcm) as [Hne Hhs]. specialize (Hk Hdp).
  rewrite (led_proposals g opt Hlc) in Hrs. apply Ok_inj in Hrs as <-.
  assert (kept (g_ownLeaf g) (rt_nodes (g_tree g)) (rt_nodes (ap_tree a))) as Hkept
    by (apply (rk_kept _ _ _ Hrun); [apply Hl|apply Hsd|by apply led_avoids]).
  rewrite (roster_kept d0 d (g_tree g) (ap_tree a)) in Horig; [|apply Hcr|apply Hwfa|apply Hl|done].
  eapply (standing_next d g g' (up_LeafNode up)); try done.
  - rewrite Hro. apply lookup_insert_eq.
  - rewrite Horig. by intros old [= <-].
  - destruct Hk as [H1 _ H3 H4]. split; [done..|]. intros x sk pk _. apply H4.
Qed.

Lemma followed_standing d0 d g h opt signer r g' h' a rs up byNode fdp pss :
  standing h -> commit_ready d0 g opt signer -> led_commit opt -> removes opt (g_ownLeaf h) = false -> same_epoch g h ->
  same_epoch g' h' -> next_epoch h h' -> g_ownLeaf h <> g_ownLeaf g ->
  committed d g opt signer r g' a rs up byNode fdp pss -> followed d g opt signer r g' h h' a up byNode -> standing h'.
Proof.
  intros Hsd Hcr Hlc Hrm Hse Hse' Hnh Hno Hco Hfo. pose proof (followed_leaf _ _ _ _ _ _ _ _ _ _ _ _ _ _ Hco Hfo) as Hk.
  destruct Hco as [_ Hrs [Hrun _ _] [Hwfa _] _ _ _ [Hwf' Hsu'] Hro _ _]. destruct Hfo as [_ _ _ (Hl & _ & _) _ [_ Hhs] _].
  rewrite (led_proposals g opt Hlc) in Hrs. apply Ok_inj in Hrs as <-.
  pose proof Hsd as [_ _ Hpop _ _ _ _]. rewrite (se_tree _ _ Hse) in Hpop.
  assert (kept (g_ownLeaf h) (rt_nodes (g_tree g)) (rt_nodes (ap_tree a))) as Hkept
    by (apply (rk_kept _ _ _ Hrun); [apply Hl|done|by apply led_avoids]).
  destruct (proj1 (populated_roster d0 _ _ (wf_inv _ _ (cr_tree _ _ _ _ Hcr)) (proj1 Hl)) Hpop) as [ln Hln].
  eapply (standing_next d h h' ln); try done; rewrite ?(se_tree _ _ Hse'), ?(se_suite _ _ Hse), ?(se_tree _ _ Hse); try done.
  - rewrite Hro, lookup_insert_ne by done.
    by rewrite (roster_kept d0 d (g_tree g) (ap_tree a)) by (apply Hcr || apply Hwfa || apply Hl || done).
  - rewrite Hln. by intros old [= <-].
Qed.

(** The group grows by no more than its proposals. *)
Lemma committed_members d g opt signer r g' a rs up byNode fdp pss : led_commit opt ->
  committed d g opt signer r g' a rs up byNode fdp pss -> members (g_tree g') <= members (g_tree g) + len (ByValue opt).
Proof.
  intros Hlc [_ Hrs [Hrun _ _] _ _ _ _ _ Hro (orig & Horig & _) _]. unfold members. rewrite Hro, map_size_insert, Horig.
  pose proof (roster_run_size _ _ _ (rk_roster _ _ _ Hrun)) as Hsz. rewrite length_fmap in Hsz.
  rewrite (led_proposals g opt Hlc) in Hrs. apply Ok_inj in Hrs as <-. unfold commit_ops in Hsz.
  rewrite (led_no_update _ opt Hlc), !length_app in Hsz. unfold len. cbn [omap list_omap length app] in Hsz.
  assert (forall f l, (length (omap f l : list roster_op) <= length (l : list cachedProposal))%nat) as Hom.
  { intros f l. induction l as [|x l IH]; [done|]. cbn. destruct (f x); cbn; lia. }
  set (l := map _ _) in *. pose proof (of_type_lengths ProposalTypeUpdate ProposalTypeRemove ProposalTypeAdd l ltac:(done) ltac:(done) ltac:(done)).
  pose proof (Hom remove_op (of_type ProposalTypeRemove l)). pose proof (Hom add_op (of_type ProposalTypeAdd l)).
  assert (length l = length (ByValue opt)) by apply length_map. unfold id. lia.
Qed.

(** ** The step *)

(** A commit of the leader, or of the one who removes it: the committer's tree is
    in its shape again, it stands, and every standing member of its epoch that
    the commit spares follows it and stands. *)
Lemma led_step lead g opt r commit w g' :
  standing g -> star (rt_nodes (g_tree g)) lead -> led_commit opt -> takes_lead lead (g_ownLeaf g) opt ->
  members (g_tree g) + len (ByValue opt) <= 2 ^ 30 -> derivable (g_suite g) -> derives_pairs (g_suite g) -> len (cr_guard r) = 4 ->
  is_ok (let! a := staged g opt in RatchetTree_MarshalMLS (ap_tree a)) = true ->
  Group_Commit r opt g = (Ok (commit, w), g') ->
  (standing g' /\ star (rt_nodes (g_tree g')) (g_ownLeaf g) /\ members (g_tree g') <= members (g_tree g) + len (ByValue opt)) /\
  forall h, standing h -> same_epoch g h -> same_psks g h -> g_ownLeaf h <> g_ownLeaf g -> removes opt (g_ownLeaf h) = false ->
    exists h', ProcessCommit [] commit h = (Ok tt, h') /\ standing h' /\ same_epoch g' h' /\ same_psks g' h'.
Proof.
  intros Hsd Hst Hlc Htl Hsz Hder Hdp Hgu Henc Hcm.
  destruct (standing_commit_ready g opt Hsd Hlc Hsz) as (d & signer & Hcr).
  destruct (Group_Commit_committed d g opt signer r commit w g' Hcr Hcm) as (d' & a & rs & up & bn & fdp & pss & Hco).
  split; [split_and!|].
  - eapply committed_standing; [done|done|done|apply Htl|done|done|exact Hco].
  - pose proof Hco as [_ Hrs Hok [Hwf _] Hl _ [Hpk _] _ _ _ _]. rewrite (led_proposals g opt Hlc) in Hrs. apply Ok_inj in Hrs as <-.
    eapply star_path; [apply Hwf|exact Hl|exact Hpk|]. by eapply led_staged.
  - by eapply committed_members.
  - intros h Hsh Hse Hps Hno Hrm.
    pose proof (led_receiver_ready d g h opt signer lead Hcr Hlc Hst Htl Hse Hps Hsh Hno Hrm) as Hrr.
    destruct (ProcessCommit_follows_keys d g h opt signer r commit w g' Hcr Hrr Hder Hgu Henc Hcm)
      as (h' & d1 & a1 & up1 & bn1 & Hpc & Hse' & Hps' & _ & _ & Hfo).
    destruct (committed_followed _ _ _ _ _ _ _ _ _ _ _ _ _ _ _ _ _ _ Hco Hfo) as (-> & -> & -> & ->).
    rewrite (lc_inline _ Hlc) in Hpc. exists h'. split_and!; [done| |done|done].
    eapply followed_standing; [exact Hsh|exact Hcr|done|done|exact Hse|done| |done|exact Hco|exact Hfo].
    by eapply ProcessCommit_epoch.
Qed.
(** * Rounds *)

(** A commit by the member at a leaf. *)
Record round : Type := mkRound { rd_by : Z; rd_rand : CommitRand; rd_opt : CommitOptions }.

Inductive crewed : Type :=
| Together (gs : gmap Z Group)  (* the members after the round, by their leaf *)
| Refused                       (* no commit was made *)
| Oversize                      (* a commit was made over a tree too large to be encoded *)
| Lost.                         (* a commit was made that a member it spares cannot process *)

Definition take_round (x : round) (gs : gmap Z Group) : crewed :=
  match gs !! rd_by x with
  | None => Refused
  | Some g =>
      match Group_Commit (rd_rand x) (rd_opt x) g with
      | (Ok (commit, _), g') =>
          if is_ok (let! a := staged g (rd_opt x) in RatchetTree_MarshalMLS (ap_tree a)) then
            let spared := filter (fun lh => lh.1 <> rd_by x /\ removes (rd_opt x) lh.1 = false) gs in
            let after := ProcessCommit [] commit <$> spared in
            if decide (map_Forall (fun _ p => is_ok p.1 = true) after)
            then Together (<[rd_by x := g']> (snd <$> after)) else Lost
          else Oversize
      | _ => Refused
      end
  end.

Fixpoint take_rounds (xs : list round) (gs : gmap Z Group) : crewed :=
  match xs with
  | [] => Together gs
  | x :: xs => match take_round x gs with Together gs' => take_rounds xs gs' | o => o end
  end.

(** The discipline: each round is the leader's, or removes the leader. *)
Fixpoint rounds_ok (lead : Z) (xs : list round) : Prop :=
  match xs with
  | [] => True
  | x :: xs => led_commit (rd_opt x) /\ takes_lead lead (rd_by x) (rd_opt x) /\ len (cr_guard (rd_rand x)) = 4 /\ rounds_ok (rd_by x) xs
  end.

Definition proposals_of (xs : list round) : Z := foldr (fun x n => len (ByValue (rd_opt x)) + n) 0 xs.

(** Standing members of one epoch, in a tree of the leader's shape, with room
    for [room] more. *)
Record crew (lead room : Z) (suite : Suite) (gs : gmap Z Group) : Prop := {
  cw_leaf : map_Forall (fun l g => g_ownLeaf g = l /\ g_suite g = suite) gs;
  cw_standing : map_Forall (fun _ g => standing g) gs;
  cw_star : map_Forall (fun _ g => star (rt_nodes (g_tree g)) lead) gs;
  cw_room : map_Forall (fun _ g => members (g_tree g) + room <= 2 ^ 30) gs;
  cw_same : forall l g m h, gs !! l = Some g -> gs !! m = Some h -> same_epoch g h /\ same_psks g h
}.

Lemma same_psks_via g h k : same_psks g h -> same_psks g k -> same_psks h k.
Proof. intros [] []. split; congruence. Qed.

(** What one round leaves. *)
Record advanced (opt : CommitOptions) (gs gs' : gmap Z Group) : Prop := {
  av_members : forall l, is_Some (gs !! l) -> removes opt l = false -> is_Some (gs' !! l);
  av_epoch : forall l g m h, gs !! l = Some g -> gs' !! m = Some h -> Epoch h = u64 (Epoch g + 1)
}.

Lemma take_round_ok lead room suite x gs :
  crew lead (len (ByValue (rd_opt x)) + room) suite gs -> 0 <= room -> derivable suite -> derives_pairs suite ->
  led_commit (rd_opt x) -> takes_lead lead (rd_by x) (rd_opt x) -> len (cr_guard (rd_rand x)) = 4 ->
  match take_round x gs with
  | Together gs' => crew (rd_by x) room suite gs' /\ advanced (rd_opt x) gs gs'
  | Lost => False
  | _ => True
  end.
Proof.
  intros [Hlf Hsd Hst Hrm Hsame] Hroom Hder Hdp Hlc Htl Hgu. unfold take_round.
  destruct (gs !! rd_by x) as [g|] eqn:Eg; [|done]. destruct (Group_Commit _ _ g) as [[[commit w]| | |] g'] eqn:Hcm; try done.
  destruct (is_ok _) eqn:Henc; [|done].
  destruct (Hlf _ _ Eg) as [El Es]. pose proof (Hsd _ _ Eg) as Hsg. pose proof (Hrm _ _ Eg) as Hrg. cbn beta in *.
  rewrite <- Es in Hder, Hdp. rewrite <- El in Htl.
  destruct (led_step lead g (rd_opt x) (rd_rand x) commit w g' Hsg (Hst _ _ Eg) Hlc Htl ltac:(lia) Hder Hdp Hgu Henc Hcm)
    as [(Hsg' & Hst' & Hsz) Hfol]. destruct (Group_Commit_epoch _ _ _ _ _ Hcm) as [Hne _].
  set (after := ProcessCommit [] commit <$> _).
  assert (forall l p, after !! l = Some p -> exists h h', p = (Ok tt, h') /\ gs !! l = Some h /\ next_epoch h h' /\ standing h' /\
    same_epoch g' h' /\ same_psks g' h' /\ l <> rd_by x) as Haf.
  { intros l p Hp. unfold after in Hp. rewrite lookup_fmap in Hp. apply fmap_Some in Hp as (h & Hh & ->).
    apply map_lookup_filter_Some in Hh as [Hh [Hlx Hre]]. cbn [fst] in *. destruct (Hlf _ _ Hh) as [Elh _].
    destruct (Hsame _ _ _ _ Eg Hh) as [Hse Hps].
    destruct (Hfol h (Hsd _ _ Hh) Hse Hps ltac:(congruence) ltac:(by rewrite Elh)) as (h' & Hpc & Hsh & Hse' & Hps').
    exists h, h'. split_and!; try done. by eapply ProcessCommit_epoch. }
  destruct (decide _) as [Hall|Hn]; [|apply Hn; intros l p Hp; by destruct (Haf l p Hp) as (h & h' & -> & _)].
  assert (forall l h', <[rd_by x := g']> (snd <$> after) !! l = Some h' ->
    exists h, gs !! l = Some h /\ next_epoch h h' /\ standing h' /\ same_epoch g' h' /\ same_psks g' h') as Hnew.
  { intros l h' [[<- <-]|[Hlx Hp]]%lookup_insert_Some; [exists g; by split_and!|].
    rewrite lookup_fmap in Hp. apply fmap_Some in Hp as ([o k] & Hp & ->). destruct (Haf l _ Hp) as (h & h' & [= -> ->] & ?).
    exists h. naive_solver. }
  split; [split|split].
  - intros l h' Hh. destruct (Hnew l h' Hh) as (h & Hg & Hn & _). destruct (Hlf _ _ Hg) as [Elh Esh].
    by rewrite (ne_leaf _ _ Hn), (ne_suite _ _ Hn).
  - intros l h' Hh. by destruct (Hnew l h' Hh) as (h & _ & _ & ? & _).
  - intros l h' Hh. destruct (Hnew l h' Hh) as (h & _ & _ & _ & Hse & _). by rewrite (se_tree _ _ Hse), <- El.
  - intros l h' Hh. destruct (Hnew l h' Hh) as (h & _ & _ & _ & Hse & _). rewrite (se_tree _ _ Hse). lia.
  - intros l h1 m h2 H1 H2. destruct (Hnew l h1 H1) as (_ & _ & _ & _ & Hs1 & Hp1). destruct (Hnew m h2 H2) as (_ & _ & _ & _ & Hs2 & Hp2).
    split; [by rewrite <- Hs1|by eapply same_psks_via].
  - intros l [h Hh] Hre. destruct (decide (l = rd_by x)) as [->|Hlx]; [rewrite lookup_insert_eq; by eexists|].
    rewrite lookup_insert_ne, lookup_fmap, fmap_is_Some by done. unfold after. rewrite lookup_fmap, fmap_is_Some.
    exists h. by apply map_lookup_filter_Some.
  - intros l k m h Hk Hh. destruct (Hnew m h Hh) as (h0 & Hh0 & Hn & _). rewrite (ne_epoch _ _ Hn).
    destruct (Hsame _ _ _ _ Hk Hh0) as [Hs _]. unfold Epoch. by rewrite (se_context _ _ Hs).
Qed.

Lemma take_rounds_ok xs lead suite gs :
  crew lead (proposals_of xs) suite gs -> derivable suite -> derives_pairs suite -> rounds_ok lead xs ->
  match take_rounds xs gs with
  | Together gs' =>
      (forall l g m h, gs' !! l = Some g -> gs' !! m = Some h -> same_epoch g h) /\
      (forall l, is_Some (gs !! l) -> Forall (fun x => removes (rd_opt x) l = false) xs -> is_Some (gs' !! l)) /\
      (forall l g m h, gs !! l = Some g -> gs' !! m = Some h -> Epoch h = u64 (Epoch g + len xs))
  | Lost => False
  | _ => True
  end.
Proof.
  intros Hcw Hder Hdp. revert lead gs Hcw. induction xs as [|x xs IH]; intros lead gs Hcw; cbn [take_rounds rounds_ok].
  - intros _. split_and!; [intros; by eapply Hcw|done|]. intros l g m h Hg Hh. destruct (cw_same _ _ _ _ Hcw _ _ _ _ Hg Hh) as [Hs _].
    unfold len. cbn [length]. rewrite Z.add_0_r. unfold Epoch. rewrite (se_context _ _ Hs). symmetry. apply Z.mod_small.
    apply (sd_epoch _ (cw_standing _ _ _ _ Hcw _ _ Hg)).
  - intros (Hlc & Htl & Hgu & Hxs).
    assert (0 <= proposals_of xs) as H0 by (clear; unfold proposals_of; induction xs as [|y ys IH]; cbn [foldr]; [done|unfold len at 1; lia]).
    pose proof (take_round_ok lead _ suite x gs Hcw H0 Hder Hdp Hlc Htl Hgu) as Hx.
    destruct (take_round x gs) as [gs1| | |] eqn:E1; try done. destruct Hx as [Hcw1 [Hm He]].
    specialize (IH (rd_by x) gs1 Hcw1 Hxs). destruct (take_rounds xs gs1) as [gs'| | |]; try done. destruct IH as (IS & IM & IE).
    split_and!; [done| |].
    + intros l Hl [Hr HF]%Forall_cons. apply IM; [|done]. by apply Hm.
    + intros l g m h Hg Hh. assert (is_Some (gs1 !! rd_by x)) as [g1 Hg1].
      { unfold take_round in E1. destruct (gs !! rd_by x) eqn:Eg; [|done]. by apply Hm; [eexists|apply Htl]. }
      rewrite (IE _ _ _ _ Hg1 Hh), (He _ _ _ _ Hg Hg1). unfold u64. rewrite Z.add_mod_idemp_l by done. f_equal.
      unfold len. cbn [length]. lia.
Qed.
End led.

(** * Properties *)


(** ** A concrete crew *)
Module Crew.
#[local] Existing Instances toy toy_laws.

Definition member (i : Z) : Group :=
  mkGroup toy_suite Epoch7.context (Example.tree 4) (NewTreeKEMPrivate i (toy_priv i)) Epoch7.secrets Epoch7.ratchets Epoch7.interim
    (es_InitSecret Epoch7.secrets) i (Some (Example.signer i)) ∅ ∅ 0 0 false ∅.

(** Members 0, 1 and 2 of a tree of four. *)
Definition gs : gmap Z Group := list_to_map ((fun i => (i, member i)) <$> [0; 1; 2]).

(** Member 0 commits; member 1 removes it and commits again. *)
Definition rounds : list round :=
  [mkRound 0 (Pair.rand 1) (mkCommitOptions [] []);
   mkRound 1 (Pair.rand 2) (mkCommitOptions [ProposeRemove 0] []);
   mkRound 1 (Pair.rand 3) (mkCommitOptions [] [])].

Lemma disciplined : rounds_ok 0 rounds.
Proof.
  assert (forall ps, Forall Proposal_ok ps -> Forall (fun p => p_Type p <> ProposalTypeUpdate) ps -> led_commit (mkCommitOptions ps []))
    as Hlc by (intros; by split).
  cbn [rounds rounds_ok rd_opt rd_by rd_rand].
  split_and!; try exact I; try (vm_compute; reflexivity); try (apply Hlc; repeat constructor; vm_compute; congruence).
  - split; [reflexivity|by left].
  - split; [vm_compute; reflexivity|right; split; [done|vm_compute; reflexivity]].
  - split; [reflexivity|by left].
Qed.

Lemma nodes4 : rt_nodes (Example.tree 4) =
  [leaf_node (Example.leaf 0); None; leaf_node (Example.leaf 1); None; leaf_node (Example.leaf 2); None; leaf_node (Example.leaf 3)].
Proof. vm_compute. reflexivity. Qed.

Lemma blank l : star (rt_nodes (Example.tree 4)) l.
Proof.
  intros k j n Hk Hj E. exfalso. destruct (ti_parent _ _ Example.tree4_inv k j n Hk Hj E) as [p [-> _ _ _ _]].
  assert (Forall (fun n => n <> parent_node p) (rt_nodes (Example.tree 4))) as HF.
  { rewrite nodes4. by repeat constructor. }
  unfold slot in E. destruct (rt_nodes (Example.tree 4) !! Z.to_nat (node k j)) as [o|] eqn:Eo; [|done]. cbn in E. subst o.
  by apply (proj1 (Forall_lookup _ _) HF _ _ Eo).
Qed.

Lemma member_standing i : i ∈ [0; 1; 2] -> standing (member i).
Proof.
  intros Hi. assert (0 <= i < 2 ^ 2) as Hr by (rewrite !elem_of_cons, elem_of_nil in Hi; lia).
  assert (LeafNodeAt (Example.tree 4) i = Ok (Example.leaf i) /\ nodePublicKey (Example.tree 4) (2 * i) = Ok (toy_pub i) /\
    SignaturePublicKey toy_suite (Example.signer i) = Ok (ln_SignatureKey (Example.leaf i)) /\
    populated_b (rt_nodes (Example.tree 4)) i = true) as (Hln & Hpk & Hsk & Hpb)
    by (rewrite !elem_of_cons, elem_of_nil in Hi; destruct Hi as [->|[->|[->|[]]]]; vm_compute; done).
  assert (rt_suite (Example.tree 4) = toy_suite) as Hsu by reflexivity.
  constructor.
  - exists 2. exact (conj Transaction.tree4_wf Hr).
  - exact Hsu.
  - apply populated_b_ok. exact Hpb.
  - apply (new_leaf_keys 2 (Example.tree 4) i (toy_priv i) (toy_pub i) ltac:(lia) Hr Hpk). rewrite Hsu. apply toy_key_pair.
  - exists (Example.signer i). split; [reflexivity|]. exists (Example.leaf i). exact (conj Hln Hsk).
  - change (is_u64 7). clear. done.
  - change (is_u32 0). clear. done.
Qed.

Lemma lookup_gs l g : gs !! l = Some g -> l ∈ [0; 1; 2] /\ g = member l.
Proof.
  intros Hx. apply elem_of_list_to_map_2, list_elem_of_fmap in Hx as (i & [= -> ->] & Hi). done.
Qed.

Lemma aboard : crew 0 (proposals_of rounds) toy_suite gs.
Proof.
  split.
  - intros l g [_ ->]%lookup_gs. done.
  - intros l g [Hi ->]%lookup_gs. by apply member_standing.
  - intros l g [_ ->]%lookup_gs. apply blank.
  - intros l g [_ ->]%lookup_gs. vm_compute. congruence.
  - intros l g m h [_ ->]%lookup_gs [_ ->]%lookup_gs. done.
Qed.
End Crew.

#[local] Existing Instances toy toy_laws.

