(* ===== verification/GroupJoin.v ===== *)
(** Joining a group: by Welcome and by external commit.

    [JoinFromWelcome] installs only what it has validated, and what the
    committer of the joiner's Add packs into the Welcome brings the joiner into
    the committer's epoch.  An external commit is accepted only from a joiner
    that proves possession of its signature key and removes no leaf but its
    own. *)

From Stdlib Require Import ZArith Lia Strings.Byte.
From stdpp Require Import base list numbers strings sorting sets gmap.
From S2P Require Import Prelude Syntax TreeNodes TreeMath Cipher ToyCrypto RatchetTree TreeSync TreeKEM.
From S2P Require Import KeySchedule Framing GroupMessages Group GroupProposals GroupSync GroupKeys.

(** * The leaf of an encryption key *)

Section find.
Context {C : StdCrypto}.
Implicit Types t : RatchetTree.

Definition has_encryption_key (key : bytes) (n : option Node) : bool :=
  match n with Some (mkNode (Some l) _) => bytes_Equal (ln_EncryptionKey l) key | _ => false end.

Lemma has_encryption_key_roster d t key l : tree_inv d (rt_nodes t) -> 0 <= l ->
  has_encryption_key key (slot (rt_nodes t) (2 * l)) = true <->
  exists ln, roster_of (rt_nodes t) !! l = Some ln /\ ln_EncryptionKey ln = key.
Proof.
  intros Hinv Hl. rewrite lookup_roster by done. destruct (slot _ _) as [n|] eqn:E; [|by split; [|intros (? & ? & _)]].
  destruct (ti_leaf _ _ Hinv l n Hl E) as [ln ->]. cbn. rewrite bytes_Equal_spec. split; [eauto|by intros (? & [= <-] & ?)].
Qed.

(** The first leaf with the key. *)
Lemma FindLeafByEncryptionKey_ok d t key : tree_inv d (rt_nodes t) ->
  match FindLeafByEncryptionKey t key with
  | Ok (Some l) => 0 <= l < 2 ^ d /\ exists ln, roster_of (rt_nodes t) !! l = Some ln /\ ln_EncryptionKey ln = key
  | Ok None => forall l ln, roster_of (rt_nodes t) !! l = Some ln -> ln_EncryptionKey ln <> key
  | _ => False
  end.
Proof.
  intros Hinv. pose proof (ti_depth _ _ Hinv) as Hd. pose proof (ti_len _ _ Hinv) as Hlen.
  pose proof (proj2 (leafCount_complete t d Hd Hlen)) as HW.
  assert (2 ^ (d + 1) <= 2 ^ 31) by (apply Z.pow_le_mono_r; lia). pose proof (pow2_pos (d + 1)).
  assert (2 ^ (d + 1) = 2 * 2 ^ d) by (rewrite Z.pow_add_r by lia; lia).
  unfold FindLeafByEncryptionKey. rewrite HW.
  destruct (first_even_ok (fun i => let! n := index (rt_nodes t) i in
      Ok match n with Some (mkNode (Some l) _) => bytes_Equal (ln_EncryptionKey l) key | _ => false end)
    (2 ^ (d + 1) - 1) (S (length (rt_nodes t))) 0 (fun l => has_encryption_key key (slot (rt_nodes t) (2 * l))))
    as [(l & ? & ? & E & Hb & _)|[E Hm]]; [lia|lia| | |rewrite Z.mul_0_r in E; rewrite E; cbn [obind option_map]..].
  - intros x Hx Hlt. by rewrite index_slot by lia.
  - unfold len in Hlen. lia.
  - rewrite (Z.mul_comm 2), Z.div_mul by lia. split; [lia|]. by apply (has_encryption_key_roster d) in Hb.
  - intros l ln El Ek. destruct (Z.lt_ge_cases l 0); [by rewrite lookup_roster_neg in El|].
    assert (l < 2 ^ d).
    { apply (populated_range d (rt_nodes t)); [done|lia|]. rewrite (populated_roster d) by done. by eexists. }
    assert (has_encryption_key key (slot (rt_nodes t) (2 * l)) = true) as Hh by (apply (has_encryption_key_roster d); eauto).
    rewrite Hm in Hh by lia. done.
Qed.

(** In a tree whose leaves were verified the key has one leaf. *)
Lemma FindLeafByEncryptionKey_unique d t gid l ln : tree_inv d (rt_nodes t) -> VerifyLeafSignatures t gid = Ok tt ->
  roster_of (rt_nodes t) !! l = Some ln -> FindLeafByEncryptionKey t (ln_EncryptionKey ln) = Ok (Some l).
Proof.
  intros Hinv Hvl Hl. destruct (proj1 (VerifyLeafSignatures_iff d t gid Hinv) Hvl) as [_ Huniq].
  pose proof (FindLeafByEncryptionKey_ok d t (ln_EncryptionKey ln) Hinv) as Hf.
  destruct (FindLeafByEncryptionKey _ _) as [[l0|]| | |]; try done.
  - destruct Hf as (_ & ln0 & Hl0 & Ek). destruct (Z.eq_dec l0 l) as [->|Hd0]; [done|].
    by destruct (Huniq l0 l ln0 ln Hd0 Hl0 Hl).
  - by specialize (Hf l ln Hl).
Qed.
End find.

(** * What a joiner has validated *)

Section validate.
Context {C : StdCrypto}.

Record tree_validated (suite : Suite) (gi : GroupInfo) (t : RatchetTree) : Prop := {
  tv_suite : rt_suite t = suite;
  tv_parents : VerifyParentHashes t = Ok true;
  tv_leaves : VerifyLeafSignatures t (gc_GroupID (gi_GroupContext gi)) = Ok tt;
  tv_hash : RootTreeHash t = Ok (gc_TreeHash (gi_GroupContext gi));
  tv_signer : exists ln, LeafNodeAt t (gi_Signer gi) = Ok ln /\
    GroupInfo_VerifySignature suite gi (ln_SignatureKey ln) = Ok true
}.

Lemma ParseRatchetTree_suite suite data t : ParseRatchetTree suite data = Ok t -> rt_suite t = suite.
Proof.
  unfold ParseRatchetTree. intros Hx. apply obind_ok in Hx as ([nodes c] & _ & Hx). destruct (negb _); [done|].
  destruct (_ =? 0); [done|]. apply obind_ok in Hx as ([n|] & _ & Hx); [|done]. apply obind_ok in Hx as (w & _ & Hx).
  by apply Ok_inj in Hx as <-.
Qed.

Lemma install_tree_ok suite opt gi t : install_tree suite opt gi = Ok t -> tree_validated suite gi t.
Proof.
  unfold install_tree. intros Hx. apply obind_ok in Hx as (data & _ & Hx). apply obind_ok in Hx as (rt & Hp & Hx).
  apply ParseRatchetTree_suite in Hp.
  apply obind_ok in Hx as (ok1 & Hv & Hx). destruct ok1; cbn [negb] in Hx; [|done].
  apply obind_ok in Hx as ([] & Hl & Hx). apply obind_ok in Hx as (th & Hh & Hx).
  destruct (bytes_Equal th _) eqn:Eth; cbn [negb] in Hx; [|done]. apply bytes_Equal_spec in Eth.
  apply obind_ok in Hx as (ln & Hln & Hx). apply obind_ok in Hx as (ok2 & Hg & Hx). destruct ok2; cbn [negb] in Hx; [|done].
  apply Ok_inj in Hx as <-. split; [done..|by rewrite Hh, Eth|eauto].
Qed.

Lemma JoinFromWelcome_inv suite welcome opt g : JoinFromWelcome suite welcome opt = Ok g ->
  exists kp gs psk gi gcb, open_welcome suite welcome opt = Ok (kp, gs, psk, gi) /\
    install_tree suite opt gi = Ok (g_tree g) /\ g_suite g = suite /\ g_groupContext g = gi_GroupContext gi /\
    FindLeafByEncryptionKey (g_tree g) (ln_EncryptionKey (kp_LeafNode kp)) = Ok (Some (g_ownLeaf g)) /\
    GroupContext_MarshalMLS (gi_GroupContext gi) = Ok gcb /\
    EpochSecretsFromJoiner suite (gs_JoinerSecret gs) (Some psk) gcb = Ok (g_epoch g) /\
    ConfirmationTag suite (es_ConfirmationKey (g_epoch g)) (gc_ConfirmedTranscriptHash (gi_GroupContext gi)) = gi_ConfirmationTag gi.
Proof.
  unfold JoinFromWelcome. intros Hx. apply obind_ok in Hx as ([[[kp gs] psk] gi] & Ho & Hx).
  apply obind_ok in Hx as (rt & Ht & Hx). apply obind_ok in Hx as ([l|] & Hl & Hx); [|done].
  apply obind_ok in Hx as (priv & _ & Hx). apply obind_ok in Hx as (gcb & Hgc & Hx). apply obind_ok in Hx as (es & Hes & Hx).
  destruct (bytes_Equal _ _) eqn:Et; cbn [negb] in Hx; [|done]. apply bytes_Equal_spec in Et.
  apply obind_ok in Hx as (int & _ & Hx). apply obind_ok in Hx as (st & _ & Hx). apply Ok_inj in Hx as <-.
  cbn [g_tree g_suite g_groupContext g_ownLeaf g_epoch]. by exists kp, gs, psk, gi, gcb.
Qed.
End validate.

(** * A Welcome brings the joiner into the epoch *)

Section welcome.
Context {C : StdCrypto} `{!StdCryptoLaws C}.

(** The entry of one added member. *)
Lemma welcome_secrets_nth suite rng js encGI ids l nLeaves byNode i lis kps egs n li kp :
  welcome_secrets suite rng js encGI ids l nLeaves byNode i lis kps = Ok egs ->
  lis !! n = Some li -> kps !! n = Some kp ->
  exists nd ps gsb kem ct ref, commonAncestor (u32 (2 * li)) (u32 (2 * l)) nLeaves = Ok nd /\ byNode !! nd = Some ps /\
    GroupSecrets_MarshalMLS (mkGroupSecrets js (Some (mkPathSecret ps)) ids) = Ok gsb /\
    EncryptWithLabel suite (rng (i + Z.of_nat n)) (kp_InitKey kp) "Welcome" encGI gsb = Ok (kem, ct) /\
    KeyPackage_Ref suite kp = Ok ref /\ egs !! n = Some (mkEncryptedGroupSecrets ref (mkHPKECiphertext kem ct)).
Proof.
  revert i lis kps egs. induction n as [|n IH]; intros i [|li' lis] [|kp' kps] egs Hx Hli Hkp; try done; cbn [welcome_secrets] in Hx;
    apply obind_ok in Hx as (nd & Hnd & Hx); destruct (byNode !! nd) as [ps|] eqn:Eps; try done;
    apply obind_ok in Hx as (gsb & Hgs & Hx); apply obind_ok in Hx as ([kem ct] & Henc & Hx);
    apply obind_ok in Hx as (ref & Href & Hx); apply obind_ok in Hx as (rest & Hrest & [= <-]).
  - injection Hli as ->. injection Hkp as ->. rewrite Z.add_0_r. exists nd, ps, gsb, kem, ct, ref. done.
  - destruct (IH (i + 1) lis kps rest Hrest Hli Hkp) as (nd' & ps' & gsb' & kem' & ct' & ref' & H1 & H2 & H3 & H4 & H5 & H6).
    replace (i + Z.of_nat (S n)) with (i + 1 + Z.of_nat n) by lia. exists nd', ps', gsb', kem', ct', ref'. done.
Qed.

Lemma welcome_secrets_refs suite rng js encGI ids l nLeaves byNode i lis kps egs :
  length lis = length kps -> welcome_secrets suite rng js encGI ids l nLeaves byNode i lis kps = Ok egs ->
  Forall2 (fun kp e => KeyPackage_Ref suite kp = Ok (egs_NewMember e)) kps egs.
Proof.
  revert i kps egs. induction lis as [|li lis IH]; intros i [|kp kps] egs Hlen Hx; try done; cbn [welcome_secrets] in Hx.
  { injection Hx as <-. constructor. }
  apply obind_ok in Hx as (nd & _ & Hx); destruct (byNode !! nd) as [ps|]; [|done];
    apply obind_ok in Hx as (gsb & _ & Hx); apply obind_ok in Hx as ([kem ct] & _ & Hx);
    apply obind_ok in Hx as (ref & Href & Hx); apply obind_ok in Hx as (rest & Hrest & [= <-]).
  constructor; [done|]. cbn in Hlen. eapply IH; [lia|done].
Qed.

(** The entry is found by the reference when no other key package shares it. *)
Lemma find_secrets_nth suite kps egs n kp ref e :
  Forall2 (fun kp e => KeyPackage_Ref suite kp = Ok (egs_NewMember e)) kps egs ->
  kps !! n = Some kp -> egs !! n = Some e -> KeyPackage_Ref suite kp = Ok ref ->
  (forall n' kp', kps !! n' = Some kp' -> KeyPackage_Ref suite kp' = Ok ref -> n' = n) ->
  find_secrets ref egs = Some e.
Proof.
  intros HF. revert n. induction HF as [|kp0 e0 kps egs H0 HF IH]; intros [|n] Hkp He Href Hu; try done; cbn [find_secrets].
  - injection Hkp as ->. injection He as ->. rewrite H0 in Href. apply Ok_inj in Href as <-.
    by rewrite (proj2 (bytes_Equal_spec _ _)).
  - destruct (bytes_Equal (egs_NewMember e0) ref) eqn:E.
    + apply bytes_Equal_spec in E. rewrite E in H0. specialize (Hu 0%nat kp0 eq_refl H0). done.
    + apply (IH n); try done. intros n' kp' Hn' Hr. specialize (Hu (S n') kp' Hn' Hr). lia.
Qed.

(** ** Pre-shared keys *)

Lemma collect_psks_ok ext res gid rs psks : Forall cached_ok rs -> collect_psks ext res gid rs = Ok psks ->
  Forall (fun p => PreSharedKeyID_ok (PSK_ID p) /\
    (psk_Type (PSK_ID p) = PSKTypeExternal -> ext !! psk_ID (PSK_ID p) = Some (PSK_PSK p))) psks.
Proof.
  intros HF. revert psks. induction HF as [|r rs Hr HF IH]; intros psks; cbn [collect_psks]; [by intros [= <-]|].
  destruct (negb _); [apply IH|]. destruct (p_PreSharedKey (cp_proposal r)) as [p|] eqn:Ep; [|done]. intros Hx.
  apply obind_ok in Hx as (k & Hk & Hx). apply obind_ok in Hx as (rest & Hrest & [= <-]). constructor; [|by apply IH].
  assert (PreSharedKeyID_ok (presharedkey_PSK p)) as Hid.
  { unfold cached_ok in Hr. destruct Hr; try done. cbn in Ep. by injection Ep as <-. }
  unfold lookup_psk in Hk. repeat case_match; try done; injection Hk as <-; cbn [PSK_ID PSK_PSK]; split; try done; lia.
Qed.

Lemma join_psks_ok ext psks : Forall (fun p => psk_Type (PSK_ID p) = PSKTypeExternal /\ ext !! psk_ID (PSK_ID p) = Some (PSK_PSK p)) psks ->
  join_psks ext (map PSK_ID psks) = Ok psks.
Proof.
  induction 1 as [|[id b] psks [Ht Hl] HF IH]; [done|]. cbn [map join_psks PSK_ID PSK_PSK] in *. rewrite Ht, Z.eqb_refl. cbn [negb].
  rewrite Hl, IH. done.
Qed.

(** ** The Welcome is opened *)

Lemma open_welcome_build suite rng es newGC wt l signer lis kps byNode tag psks w n li kp opt joiner psk gcb kpb :
  buildWelcome suite rng es newGC wt l signer lis kps byNode tag (map PSK_ID psks) = Ok w ->
  length lis = length kps -> lis !! n = Some li -> kps !! n = Some kp -> KeyPackage_ok kp ->
  (forall n' kp' ref, kps !! n' = Some kp' -> KeyPackage_Ref suite kp' = Ok ref -> KeyPackage_Ref suite kp = Ok ref -> n' = n) ->
  is_u16 (suite_ID suite) -> GroupContext_ok newGC -> is_u32 l -> Forall PreSharedKeyID_ok (map PSK_ID psks) ->
  EpochSecretsFromJoiner suite joiner (Some psk) gcb = Ok es -> PSKSecret suite psks = Ok psk ->
  join_psks (jo_ExternalPSKs opt) (map PSK_ID psks) = Ok psks -> key_pair suite (jo_InitPriv opt) (kp_InitKey kp) ->
  EncodeKeyPackageMessage kp = Ok kpb -> jo_KeyPackage opt = kpb ->
  exists rtd gi nd ps, RatchetTree_MarshalMLS wt = Ok rtd /\
    GroupInfo_Sign suite (mkGroupInfo newGC [mkExtension ExtensionTypeRatchetTree rtd] tag l []) signer = Ok gi /\
    commonAncestor (u32 (2 * li)) (u32 (2 * l)) (LeafCount wt) = Ok nd /\ byNode !! nd = Some ps /\
    open_welcome suite w opt = Ok (kp, mkGroupSecrets joiner (Some (mkPathSecret ps)) (map PSK_ID psks), psk, gi).
Proof.
  intros Hb Hlen Hli Hkp Hkpok Huniq Hsid Hgc Hl Hids Hes Hpsk Hjp Hkey Henc Hopt. unfold buildWelcome in Hb.
  destruct (negb _); [done|]. apply obind_ok in Hb as (rtd & Hrtd & Hb). apply obind_ok in Hb as (gi & Hgi & Hb).
  apply obind_ok in Hb as (gib & Hgib & Hb). apply obind_ok in Hb as ([wk wn] & Hwk & Hb).
  apply obind_ok in Hb as (encGI & Hseal & Hb). apply obind_ok in Hb as (egs & Hegs & Hb).
  destruct (welcome_secrets_nth _ _ _ _ _ _ _ _ _ _ _ _ n li kp Hegs Hli Hkp)
    as (nd & ps & gsb & kem & ct & ref & Hnd & Hps & Hgsb & Hhpke & Href & Hn).
  exists rtd, gi, nd, ps. split_and!; [done..|]. unfold open_welcome.
  assert (DecodeWelcomeMessage w = Ok (mkWelcome (suite_ID suite) egs encGI)) as ->.
  { exact (decode_encode_envelope (w := Welcome_marshal) wireFormatWelcome ltac:(by split) _ (mkWelcome (suite_ID suite) egs encGI) w Hsid Hb). }
  cbn [obind]. rewrite Hopt.
  assert (DecodeKeyPackageMessage kpb = Ok kp) as -> 
    by exact (decode_encode_envelope (w := KeyPackage_marshal) wireFormatKeyPackage ltac:(by split) _ kp kpb Hkpok Henc).
  cbn [obind]. rewrite Href. cbn [obind w_Secrets w_EncryptedGroupInfo].
  erewrite find_secrets_nth; [|by eapply welcome_secrets_refs|exact Hkp|exact Hn|exact Href|intros n' kp' ? ?; by eapply Huniq].
  cbn [egs_EncryptedGroupSecrets KemOutput Ciphertext].
  rewrite (DecryptWithLabel_Encrypt _ _ _ _ _ _ _ _ _ Hkey Hhpke). cbn [obind].
  assert (es_JoinerSecret es = joiner /\ exists m, Extract suite joiner psk = Ok m /\ DeriveSecret suite m "welcome" = Ok (es_WelcomeSecret es))
    as (Ejs & m & Hm & Hws).
  { unfold EpochSecretsFromJoiner in Hes. apply obind_ok in Hes as (m & Hm & Hes). apply obind_ok in Hes as (ws & Hws & Hes).
    do 10 (apply obind_ok in Hes as (? & _ & Hes)). injection Hes as <-. split; [done|]. exists m. done. }
  rewrite Ejs in Hgsb.
  assert (GroupSecrets_UnmarshalMLS gsb = Ok (mkGroupSecrets joiner (Some (mkPathSecret ps)) (map PSK_ID psks))) as ->
    by exact (unmarshal_marshal (w := GroupSecrets_marshal) _ (mkGroupSecrets joiner _ _) _ Hids Hgsb).
  cbn [obind gs_PSKs gs_JoinerSecret]. rewrite Hjp. cbn [obind]. rewrite Hpsk. cbn [obind]. rewrite Hm. cbn [obind].
  rewrite Hws. cbn [obind]. rewrite Hwk. cbn [obind]. rewrite (Open_Seal _ _ _ _ _ _ Hseal). cbn [obind].
  assert (GroupInfo_ok gi) as Hgiok.
  { unfold GroupInfo_Sign in Hgi. apply obind_ok in Hgi as (tbs & _ & Hgi). apply obind_ok in Hgi as (sig & _ & [= <-]).
    split_and!; [done| |done]. cbn. repeat constructor; done. }
  assert (GroupInfo_UnmarshalMLS gib = Ok gi) as -> by exact (unmarshal_marshal (w := GroupInfo_marshal) _ _ _ Hgiok Hgib).
  done.
Qed.

(** What the joiner at position [n] of the commit's Adds brings: its key
    package, whose reference no other added package has, the init key, and the
    group's external pre-shared keys. *)
Record joiner_ready (g : Group) (a : Applied) (n : nat) (l : Z) (kp : KeyPackage) (opt : JoinOptions) : Prop := {
  jr_leaf : ap_newlyAdded a !! n = Some l;
  jr_package : ap_addedKPs a !! n = Some kp;
  jr_message : EncodeKeyPackageMessage kp = Ok (jo_KeyPackage opt);
  jr_init : key_pair (g_suite g) (jo_InitPriv opt) (kp_InitKey kp);
  jr_unique : forall n' kp' ref, ap_addedKPs a !! n' = Some kp' -> KeyPackage_Ref (g_suite g) kp' = Ok ref ->
    KeyPackage_Ref (g_suite g) kp = Ok ref -> n' = n;
  jr_psks : jo_ExternalPSKs opt = g_externalPSKs g;
  jr_external : Forall (fun p => psk_Type (PSK_ID p) = PSKTypeExternal) (ap_psks a);
  jr_tree : jo_RatchetTree opt = []
}.

Lemma next_context_ok gc th confirmed ext : GroupContext_ok gc -> Forall Extension_ok ext ->
  GroupContext_ok (next_context gc th confirmed ext).
Proof. intros (? & ? & _ & _) He. split_and!; try done. apply Z.mod_pos_bound. lia. Qed.

(** A member of the staged tree that is not new is not where a new one is. *)
Lemma added_elsewhere d (g : Group) rs a m : tree_wf d (g_tree g) -> applied_ok (g_tree g) rs a -> 0 <= m ->
  populated (rt_nodes (g_tree g)) m -> Forall (op_avoids m) (wrapped <$> commit_ops rs) ->
  slot (rt_nodes (ap_tree a)) (2 * m) = slot (rt_nodes (g_tree g)) (2 * m) /\ m ∉ ap_newlyAdded a.
Proof.
  intros Hwf [Hrun (d' & base & Hwf' & Hao & Hbase) _] Hm Hpop Hav.
  split; [by destruct (rk_kept _ _ _ Hrun m Hm Hpop Hav)|]. intros Hin.
  pose proof (ao_fresh _ _ _ _ _ Hao) as Hfr. rewrite Forall_forall in Hfr. specialize (Hfr _ Hin).
  unfold commit_ops in Hav. rewrite app_assoc, fmap_app in Hav. apply Forall_app in Hav as [Hav _].
  destruct (rk_kept _ _ _ Hbase m Hm Hpop Hav) as [Eb _]. rewrite lookup_roster, Eb in Hfr by lia.
  destruct Hpop as [nd Hn]. rewrite Hn in Hfr. destruct (ti_leaf _ _ (wf_inv _ _ Hwf) _ _ Hm Hn) as [ln ->]. done.
Qed.

(** The joiner's validation of the tree of the Welcome. *)
Lemma install_tree_accepts suite opt d t newGC tag l signer gi rtd pub ln :
  jo_RatchetTree opt = [] -> tree_wf d t -> rt_suite t = suite -> 0 <= l < 2 ^ 31 -> populated (rt_nodes t) l ->
  RatchetTree_MarshalMLS t = Ok rtd -> SignaturePublicKey suite signer = Ok pub ->
  GroupInfo_Sign suite (mkGroupInfo newGC [mkExtension ExtensionTypeRatchetTree rtd] tag l []) signer = Ok gi ->
  roster_of (rt_nodes t) !! l = Some ln -> ln_SignatureKey ln = pub -> RootTreeHash t = Ok (gc_TreeHash newGC) ->
  VerifyParentHashes t = Ok true -> VerifyLeafSignatures t (gc_GroupID newGC) = Ok tt ->
  install_tree suite opt gi = Ok t /\ gi_GroupContext gi = newGC /\ gi_ConfirmationTag gi = tag /\ gi_Signer gi = l.
Proof.
  intros Hopt Hwf <- Hl Hpop Hrtd Hpub Hgi Hro Hln Hth Hvp Hvl.
  destruct (GroupInfo_Sign_verifies (rt_suite t) signer pub _ gi Hpub Hgi) as [Egi Hver].
  cbn [gi_GroupContext gi_Extensions gi_ConfirmationTag gi_Signer] in Egi.
  assert (gi_GroupContext gi = newGC /\ gi_ConfirmationTag gi = tag /\ gi_Signer gi = l /\ RatchetTreeExtension gi = Some rtd)
    as (E1 & E2 & E3 & E4) by (rewrite Egi; done).
  split; [|done]. unfold install_tree.
  assert (0 <? len (jo_RatchetTree opt) = false) as -> by (by rewrite Hopt). rewrite E4. cbn [obind].
  pose proof (snug_tight d _ l (wf_inv _ _ Hwf) (wf_snug _ _ Hwf) ltac:(lia) Hpop) as Ht.
  rewrite (Clone_ok t d (wf_inv _ _ Hwf) Ht (wf_slots _ _ Hwf) rtd Hrtd). cbn [obind].
  rewrite Hvp. cbn [obind negb]. rewrite E1, Hvl. cbn [obind]. rewrite Hth. cbn [obind].
  rewrite (proj2 (bytes_Equal_spec _ _) eq_refl). cbn [negb].
  rewrite E3, (LeafNodeAt_roster t d l (wf_inv _ _ Hwf) Hl), Hro. cbn [obind]. rewrite Hln, Hver. done.
Qed.

Lemma JoinFromWelcome_follows d g opt signer r commit w g' a n l kp jo :
  commit_ready d g opt signer ->
  (forall rs, staged_proposals g opt = Ok rs -> Forall (op_avoids (g_ownLeaf g)) (wrapped <$> commit_ops rs)) ->
  derivable (g_suite g) -> GroupContext_ok (g_groupContext g) -> is_u16 (suite_ID (g_suite g)) ->
  staged g opt = Ok a -> joiner_ready g a n l kp jo ->
  Group_Commit r opt g = (Ok (commit, Some w), g') ->
  VerifyParentHashes (g_tree g') = Ok true ->
  VerifyLeafSignatures (g_tree g') (gc_GroupID (g_groupContext g)) = Ok tt ->
  exists j, JoinFromWelcome (g_suite g) w jo = Ok j /\ same_epoch g' j /\ g_ownLeaf j = l.
Proof.
  intros Hcr Hspared Hder Hgc Hsid Hst0 Hjr Hcm Hvp Hvl. pose proof (cr_signer _ _ _ _ Hcr) as (Hsg & ln & Hln & Hpub).
  destruct (Group_Commit_inv r opt g signer commit (Some w) g' Hsg Hcm)
    as (cache & refs & a' & wt & up & cs & byNode & body & ci & sig & th & gcb & psk & es & mm & g1 & interim & priv & st &
        Hcl & Hca & Hap & Hgen & _ & _ & Hth & Hgcb & Hpsk & Hes & _ & _ & Hw & Hint & _ & Hst & Hg').
  destruct (staged_ok d g opt signer cache refs wt a' Hcr Hcl Hca Hap) as (-> & rs & Hrs & Hrok & Hok & Hext & Hcol).
  assert (staged g opt = Ok a') as Hstaged by (unfold staged; rewrite Hcl; cbn [obind]; rewrite Hca; exact Hap).
  rewrite Hst0 in Hstaged. apply Ok_inj in Hstaged as <-.
  specialize (Hspared rs ltac:(unfold staged_proposals; rewrite Hca; exact Hrs)).
  destruct (cr_own _ _ _ _ Hcr) as [Hown Hpop].
  destruct (added_elsewhere d g rs a (g_ownLeaf g) (cr_tree _ _ _ _ Hcr) Hok ltac:(lia) Hpop Hspared) as [Eown Hnew].
  destruct (ak_adds _ _ _ Hok) as (d' & base & Hwf' & Hao & _).
  destruct (committed_tree d g opt signer a _ _ _ _ _ up cs byNode d' Hcr Hwf' Hgen)
    as (Hg & Hup & Hwf2 & Hsu2 & Hro2 & orig & leafPub & ph & lsig & Horig & Hleaf).
  pose proof (ti_depth _ _ (wf_inv _ _ Hwf')) as Hd'.
  assert (2 ^ d' <= 2 ^ 30) by (apply Z.pow_le_mono_r; lia).
  destruct Hjr as [Jl Jk Jm Ji Ju Jp Je Jt].
  assert (0 <= l < 2 ^ d') as Hl by (by apply (Forall_lookup_1 _ _ _ _ (ao_range _ _ _ _ _ Hao) Jl)).
  assert (l <> g_ownLeaf g) as Hne by (intros ->; by apply Hnew, (list_elem_of_lookup_2 _ n)).
  pose proof (Forall2_lookup_lr _ _ _ _ _ _ (ao_leaf _ _ _ _ _ Hao) Jl Jk) as Hrl. cbn in Hrl.
  assert (roster_of (rt_nodes (g_tree g')) !! l = Some (kp_LeafNode kp)) as Hrl2 by (by rewrite Hro2, lookup_insert_ne by done).
  assert (roster_of (rt_nodes (g_tree g')) !! g_ownLeaf g = Some (up_LeafNode up)) as Hro3 by (by rewrite Hro2, lookup_insert_eq).
  assert (ln_SignatureKey (up_LeafNode up) = ln_SignatureKey ln) as Hsk.
  { rewrite Hleaf. cbn. rewrite (LeafNodeAt_roster _ d _ (wf_inv _ _ (cr_tree _ _ _ _ Hcr))) in Hln by lia.
    rewrite lookup_roster, <- Eown, Horig in Hln by lia. by injection Hln as ->. }
  assert (length (ap_newlyAdded a) = length (ap_addedKPs a)) as Hlen by apply Hao.
  destruct (0 <? len (ap_newlyAdded a)); [|done]. apply obind_ok in Hw as (w' & Hb & [= ->]).
  destruct (DeriveEpochSecrets_joiner _ _ _ _ _ _ Hes) as [_ Hej].
  pose proof (collect_psks_ok _ _ _ _ _ Hrok Hcol) as Hpk.
  assert (Forall PreSharedKeyID_ok (map PSK_ID (ap_psks a))) as Hids.
  { apply Forall_fmap. eapply Forall_impl; [exact Hpk|]. by intros p []. }
  assert (join_psks (jo_ExternalPSKs jo) (map PSK_ID (ap_psks a)) = Ok (ap_psks a)) as Hjp.
  { apply join_psks_ok. rewrite Jp. rewrite Forall_forall in *. intros p Hp. split; [by apply Je|]. by apply Hpk, Je. }
  assert (GroupContext_ok (g_groupContext g')) as Hgc'.
  { rewrite Hg'. apply next_context_ok; [done|]. eapply apply_gces_ok; [|by apply Forall_of_type|exact Hext]. apply Hgc. }
  assert (KeyPackage_ok kp) as Hkp by (eapply Forall_lookup_1; [apply Hok|exact Jk]).
  set (newGC := next_context (g_groupContext g) th _ (ap_ext a)) in *. set (tag := ConfirmationTag _ _ _) in *.
  assert (g_groupContext g' = newGC) as Egc by (by rewrite Hg').
  assert (is_u32 (g_ownLeaf g)) as Hu by (split; lia). rewrite Egc in Hgc'.
  destruct (open_welcome_build (g_suite g) (cr_welcome r) es newGC (g_tree g') (g_ownLeaf g) signer _ _ byNode tag (ap_psks a) w
    n l kp jo (es_JoinerSecret es) psk gcb (jo_KeyPackage jo) Hb Hlen Jl Jk Hkp Ju Hsid Hgc' Hu Hids Hej Hpsk Hjp Ji Jm eq_refl)
    as (rtd & gi & nd & ps & Hrtd & Hgi & Hnd & Hps & Hopen).
  assert (rt_suite (g_tree g') = g_suite g) as Hsu by (rewrite Hsu2, (rk_suite _ _ _ (ak_run _ _ _ Hok)); apply (cr_suite _ _ _ _ Hcr)).
  assert (populated (rt_nodes (g_tree g')) (g_ownLeaf g)) as Hpop2
    by (apply (populated_roster d'); [by destruct Hwf2|lia|rewrite Hro3; by eexists]).
  destruct (install_tree_accepts (g_suite g) jo d' (g_tree g') newGC tag (g_ownLeaf g) signer gi rtd (ln_SignatureKey ln)
    (up_LeafNode up) Jt Hwf2 Hsu ltac:(lia) Hpop2 Hrtd Hpub Hgi Hro3 Hsk Hth Hvp Hvl) as (Hinst & Egi & Etag & Esig).
  pose proof (FindLeafByEncryptionKey_unique d' (g_tree g') _ l (kp_LeafNode kp) (wf_inv _ _ Hwf2) Hvl Hrl2) as Hfind.
  destruct (meet_exists d' (g_ownLeaf g) l ltac:(lia) Hg Hl ltac:(done)) as [K HK].
  destruct (installJoinerPriv_ok (g_suite g) d' (g_ownLeaf g) l K (NewTreeKEMPrivate l (jo_EncryptionPriv jo)) ps Hd' Hg Hl HK Hder)
    as (priv' & Hpriv & _).
  eexists. split_and!.
  - unfold JoinFromWelcome. rewrite Hopen. cbn [obind]. rewrite Hinst. cbn [obind]. rewrite Hfind. cbn [obind gs_PathSecret ps_PathSecret].
    rewrite Esig. unfold LeafCount at 1. rewrite (proj1 (leaves_d d' (g_tree g') (wf_inv _ _ Hwf2))), Hpriv. cbn [obind].
    rewrite Egi, Hgcb. cbn [obind gs_JoinerSecret]. rewrite Hej. cbn [obind]. rewrite Etag.
    rewrite (proj2 (bytes_Equal_spec _ _)) by done. cbn [negb].
    change (gc_ConfirmedTranscriptHash newGC) with (ConfirmedTranscriptHash (g_suite g) (g_interim g) ci).
    rewrite Hint. cbn [obind]. rewrite Hst. cbn [obind]. reflexivity.
  - rewrite Hg'. by split.
  - done.
Qed.
End welcome.

(** * External commits *)

Section external.
Context {C : StdCrypto}.
Implicit Types g : Group.

(** What an external commit may carry: inline proposals only, of four types. *)
Definition external_allowed (por : ProposalOrRef) : Prop :=
  por_Type por <> ProposalOrRefTypeReference /\ exists p, por_Proposal por = Some p /\
    p_Type p ∈ [ProposalTypeExternalInit; ProposalTypeRemove; ProposalTypePreSharedKey; ProposalTypeGroupContextExtensions].

Definition external_init (por : ProposalOrRef) : option ExternalInit :=
  match por_Proposal por with
  | Some p => if p_Type p =? ProposalTypeExternalInit then p_ExternalInit p else None
  | None => None
  end.

Lemma validate_external_loop_ok pors e n e' n' : validate_external_loop pors e n = Ok (e', n') ->
  Forall external_allowed pors /\ n' = n + len (omap external_init pors) /\
  e' = match last (omap external_init pors) with Some x => Some x | None => e end.
Proof.
  revert e n. induction pors as [|por pors IH]; intros e n; cbn [validate_external_loop].
  { intros [= <- <-]. split; [by apply List.Forall_nil|]. split; [unfold len; cbn [omap list_omap length]; lia|done]. }
  destruct (Z.eqb_spec (por_Type por) ProposalOrRefTypeReference); [done|]. cbn [omap list_omap]. unfold external_init at 1 4.
  destruct (por_Proposal por) as [p|] eqn:Ep; [|done].
  assert (forall t, p_Type p = t -> t ∈ [ProposalTypeExternalInit; ProposalTypeRemove; ProposalTypePreSharedKey;
    ProposalTypeGroupContextExtensions] -> external_allowed por) as Hal by (intros t <- Ht; split; eauto).
  destruct (Z.eqb_spec (p_Type p) ProposalTypeExternalInit) as [Et|_].
  - destruct (p_ExternalInit p) as [ei|]; [|done]. intros (HF & -> & ->)%IH. split_and!.
    + constructor; [by eapply Hal; [exact Et|set_solver]|done].
    + rewrite len_cons. lia.
    + rewrite last_cons. by destruct (last (omap external_init pors)).
  - destruct ((p_Type p =? ProposalTypeRemove) || (p_Type p =? ProposalTypePreSharedKey) ||
      (p_Type p =? ProposalTypeGroupContextExtensions)) eqn:Eb;
      [|intros Hx; by destruct ((p_Type p =? ProposalTypeAdd) || _ || _)].
    intros (HF & -> & ->)%IH. split_and!; [|done|done]. constructor; [|done].
    apply orb_true_iff in Eb as [Eb|Eb]; [apply orb_true_iff in Eb as [Eb|Eb]|]; apply Z.eqb_eq in Eb;
      (eapply Hal; [exact Eb|set_solver]).
Qed.

Lemma validateExternalCommit_ok cm o : validateExternalCommit cm = Ok o ->
  is_Some (cm_Path cm) /\ Forall external_allowed (cm_Proposals cm) /\
  exists ei, o = Some ei /\ omap external_init (cm_Proposals cm) = [ei].
Proof.
  unfold validateExternalCommit. destruct (cm_Path cm); [|done]. intros Hx. apply obind_ok in Hx as ([e n] & Hl & Hx).
  apply validate_external_loop_ok in Hl as (HF & -> & ->).
  destruct (Z.eqb_spec (0 + len (omap external_init (cm_Proposals cm))) 1) as [E|]; [|done]. apply Ok_inj in Hx as <-.
  split_and!; [by eexists|done|]. unfold len in E. destruct (omap external_init _) as [|x [|? ?]]; cbn in *; try lia. eauto.
Qed.

(** Every Remove targets a leaf with the joiner's key. *)
Lemma authorize_removes_ok t key pors : authorize_removes t key pors = Ok tt ->
  forall por l, por ∈ pors -> inline_remove por = Some l ->
    exists ln, LeafNodeAt t l = Ok ln /\ ln_SignatureKey ln = key.
Proof.
  induction pors as [|por0 pors IH]; intros Hx por l Hin Hr; [by apply not_elem_of_nil in Hin|]. cbn [authorize_removes] in Hx.
  apply elem_of_cons in Hin as [->|Hin].
  - rewrite Hr in Hx. apply obind_ok in Hx as (ln & Hln & Hx). destruct (bytes_Equal _ _) eqn:E; [|done].
    apply bytes_Equal_spec in E. eauto.
  - apply (IH ltac:(destruct (inline_remove por0); [|done]; apply obind_ok in Hx as (ln & _ & Hx); by destruct (bytes_Equal _ _)) por l Hin Hr).
Qed.

(** What the accepted message was. *)
Record external_commit_of g (m : MLSMessage) (pub : PublicMessage) (cm : Commit) (path : UpdatePath) : Prop := {
  ec_message : mm_WireFormat m = WireFormatPublicMessage /\ mm_Public m = Some pub;
  ec_sender : snd_Type (fc_Sender (pm_Content pub)) = SenderTypeNewMemberCommit;
  ec_commit : Commit_UnmarshalMLS (fc_Content (pm_Content pub)) = Ok cm /\ cm_Path cm = Some path;
  ec_epoch : fc_Epoch (pm_Content pub) = Epoch g;
  ec_signed : AuthenticatedContent_verify (g_suite g)
    (mkAuthenticatedContent WireFormatPublicMessage (pm_Content pub) (pm_Auth pub))
    (ln_SignatureKey (up_LeafNode path)) (Some (g_groupContext g)) = Ok true;
  ec_proposals : Forall external_allowed (cm_Proposals cm) /\
    exists ei, omap external_init (cm_Proposals cm) = [ei];
  ec_removes : forall por l, por ∈ cm_Proposals cm -> inline_remove por = Some l ->
    exists ln, LeafNodeAt (g_tree g) l = Ok ln /\ ln_SignatureKey ln = ln_SignatureKey (up_LeafNode path)
}.

Lemma authenticate_external_ok g m cm ei path ac : authenticate_external g m = Ok (cm, ei, path, ac) ->
  exists pub, external_commit_of g m pub cm path.
Proof.
  unfold authenticate_external. destruct (Z.eqb_spec (mm_WireFormat m) WireFormatPublicMessage) as [Ewf|]; [|done].
  destruct (mm_Public m) as [pub|] eqn:Epub; [|done].
  destruct (Z.eqb_spec (snd_Type (fc_Sender (pm_Content pub))) SenderTypeNewMemberCommit) as [Est|]; [|done]. cbn [negb].
  destruct (negb _); [done|]. intros Hx. apply obind_ok in Hx as (cm0 & Hcm & Hx). apply obind_ok in Hx as (o & Hv & Hx).
  apply validateExternalCommit_ok in Hv as (_ & Hal & ei0 & -> & Hone). destruct (cm_Path cm0) as [path0|] eqn:Epath; [|done].
  apply obind_ok in Hx as (ac0 & Hun & Hx).
  unfold UnprotectPublic in Hun. rewrite Est in Hun. cbn [Z.eqb SenderTypeNewMemberCommit SenderTypeMember Pos.eqb obind] in Hun.
  apply obind_ok in Hun as (ok & Hver & Hun). destruct ok; [|done]. apply Ok_inj in Hun as <-. cbn [ac_Content] in Hx.
  destruct (Z.eqb_spec (fc_Epoch (pm_Content pub)) (gc_Epoch (g_groupContext g))) as [Eep|]; [|done]. cbn [negb] in Hx.
  destruct (negb _); [done|]. apply obind_ok in Hx as ([] & Hau & Hx). injection Hx as <- <- <- <-. exists pub.
  split; try done; [by split; [|eexists]|by apply authorize_removes_ok].
Qed.
End external.

(** * What an accepted commit proves *)

Section accepted.
Context {C : StdCrypto}.
Implicit Types g : Group.

(** A member's commit: signed, over this group's context, with the key of the
    leaf it names. *)
Lemma authenticateCommit_ok g m ac : authenticateCommit g m = Ok ac ->
  exists ln, LeafNodeAt (g_tree g) (snd_LeafIndex (fc_Sender (ac_Content ac))) = Ok ln /\
    AuthenticatedContent_verify (g_suite g) ac (ln_SignatureKey ln) (Some (g_groupContext g)) = Ok true.
Proof.
  unfold authenticateCommit. destruct (mm_WireFormat m =? WireFormatPublicMessage), (mm_Public m) as [pub|];
    destruct (mm_WireFormat m =? WireFormatPrivateMessage), (mm_Private m) as [pv|]; try done; intros Hx;
    apply obind_ok in Hx as (x & Hl & Hx).
  1-4: apply UnprotectPublic_authentic in Hx as (-> & Hv & _); eauto.
  all: destruct (negb _); [done|]; apply Ok_inj in Hx as <-;
    apply UnprotectPrivate_authentic in Hl as (_ & _ & _ & _ & pub' & Hp & Hv);
    unfold sigPubByLeaf in Hp; apply obind_ok in Hp as (ln & Hln & [= <-]); eauto.
Qed.

(** The confirmation tag that ends the serialized commit is that of the new
    epoch. *)
Definition confirmed_by g (ac : AuthenticatedContent) g' : Prop :=
  exists tag, commit_transcript g ac = Ok (gc_ConfirmedTranscriptHash (g_groupContext g'), tag) /\
    tag = ConfirmationTag (g_suite g) (es_ConfirmationKey (g_epoch g')) (gc_ConfirmedTranscriptHash (g_groupContext g')).

Lemma tag_checked suite es confirmed (tag : bytes) e u :
  (if negb (bytes_Equal (ConfirmationTag suite (es_ConfirmationKey es) confirmed) tag) then Err e else Ok tt) = Ok u ->
  tag = ConfirmationTag suite (es_ConfirmationKey es) confirmed.
Proof. destruct (bytes_Equal _ _) eqn:E; [|done]. by apply bytes_Equal_spec in E. Qed.

Lemma processExternalCommit_ok m g g' : processExternalCommit m g = (Ok tt, g') ->
  exists pub cm path ac l, external_commit_of g m pub cm path /\ confirmed_by g ac g' /\
    LeafNode_VerifySignature (up_LeafNode path) (g_suite g) (gc_GroupID (g_groupContext g)) l = Ok true /\
    VerifyParentHashes (g_tree g') = Ok true.
Proof.
  intros Hx. unfold processExternalCommit in Hx. run_ok_in Hx. injection Hx as <-.
  match goal with E : authenticate_external _ _ = Ok (?cm, _, ?path, ?ac) |- _ =>
    destruct (authenticate_external_ok _ _ _ _ _ _ E) as [pub Hec]; exists pub, cm, path, ac end.
  match goal with E : admit_joiner g _ _ = Ok (?t, ?l) |- _ => exists l; rename E into Eadm end. split_and!; [done|..].
  - match goal with E : (if negb (bytes_Equal _ _) then _ else _) = Ok _ |- _ => apply tag_checked in E; rename E into Etag end.
    eexists. cbn [next_state g_groupContext g_epoch next_context gc_ConfirmedTranscriptHash]. split; [|exact Etag].
    unfold commit_transcript. repeat match goal with E : AuthenticatedContent_MarshalMLS _ = _ |- _ => rewrite E; clear E end.
    cbn [obind]. match goal with E : SplitAuthenticatedContent _ _ = _ |- _ => by rewrite E end.
  - unfold admit_joiner in Eadm. apply obind_ok in Eadm as (t1 & _ & Eadm). apply obind_ok in Eadm as (t2 & _ & Eadm).
    apply obind_ok in Eadm as ([t3 l'] & _ & Eadm). apply obind_ok in Eadm as (ok & Hv & Eadm). destruct ok; [|done].
    by injection Eadm as _ <-.
  - cbn [next_state g_tree].
    match goal with E : VerifyParentHashes _ = Ok ?b |- _ => rewrite E; by destruct b end.
Qed.
End accepted.

(** * Properties *)

(** C8: a Welcome brings its joiner into the epoch.  When a member commits and
    adds members, the holder of the init key of an added key package joins
    from the Welcome: [JoinFromWelcome] succeeds (the new tree passing its
    validation), and the joiner has the committer's group context, tree, epoch
    secrets, secret tree and transcript, at the leaf the commit gave it. *)
Theorem welcome_joiner_in_epoch {C : StdCrypto} `{!StdCryptoLaws C} d g opt signer r commit w g' a n l kp jo :
  commit_ready d g opt signer ->
  (forall rs, staged_proposals g opt = Ok rs -> Forall (op_avoids (g_ownLeaf g)) (wrapped <$> commit_ops rs)) ->
  derivable (g_suite g) -> GroupContext_ok (g_groupContext g) -> is_u16 (suite_ID (g_suite g)) ->
  staged g opt = Ok a -> joiner_ready g a n l kp jo ->
  Group_Commit r opt g = (Ok (commit, Some w), g') ->
  VerifyParentHashes (g_tree g') = Ok true ->
  VerifyLeafSignatures (g_tree g') (gc_GroupID (g_groupContext g)) = Ok tt ->
  exists j, JoinFromWelcome (g_suite g) w jo = Ok j /\ same_epoch g' j /\ g_ownLeaf j = l.
Proof. apply JoinFromWelcome_follows. Qed.



(** ** Joins of the example group *)

Module Joining.
#[local] Existing Instances toy toy_laws.

(** Member 0 of the pair adds a third member. *)
Definition options : CommitOptions := mkCommitOptions [ProposeAdd (Transaction.key_package 2)] [].

Definition applied : Applied := value (mkApplied (Example.tree 2) [] [] false [] []) (staged (Pair.member 0) options).

Definition join_options : JoinOptions :=
  mkJoinOptions (value [] (EncodeKeyPackageMessage (Transaction.key_package 2))) (toy_priv 62) (toy_priv 2)
    (Some (Example.signer 2)) [] ∅.

Lemma adder_ready : commit_ready 1 (Pair.member 0) options (Example.signer 0).
Proof.
  destruct Pair.pair as [H1 H2 _ _ H5 _ [H3 _ H4 H6] _]. split; [exact H1|exact H2|exact H3|exact H4|exact H5|exact H6| |].
  - apply Forall_cons; split; [apply ok_Add, Transaction.key_package_ok|constructor].
  - vm_compute. congruence.
Qed.

Lemma staged_applied : staged (Pair.member 0) options = Ok applied.
Proof.
  assert (is_ok (staged (Pair.member 0) options) = true) as [a E]%is_ok_inv by (vm_compute; reflexivity).
  unfold applied. rewrite E. reflexivity.
Qed.

Lemma joiner : joiner_ready (Pair.member 0) applied 0 2 (Transaction.key_package 2) join_options.
Proof.
  split.
  - vm_compute. reflexivity.
  - vm_compute. reflexivity.
  - vm_compute. reflexivity.
  - apply (toy_key_pair 62).
  - intros n' kp' ref Hn _ _. assert (ap_addedKPs applied = [Transaction.key_package 2]) as E by (vm_compute; reflexivity).
    rewrite E in Hn. destruct n' as [|n']; [reflexivity|]. discriminate Hn.
  - reflexivity.
  - assert (ap_psks applied = []) as -> by (vm_compute; reflexivity). constructor.
  - reflexivity.
Qed.

Definition committed := Group_Commit (Pair.rand 1) options (Pair.member 0).

Definition welcome : bytes := match committed with (Ok (_, Some w), _) => w | _ => [] end.
Definition committer' : Group := committed.2.
Definition commit_message : bytes := match committed with (Ok (c, _), _) => c | _ => [] end.

Lemma committed_ok : committed = (Ok (commit_message, Some welcome), committer').
Proof.
  unfold commit_message, welcome, committer'. destruct committed as [o g'] eqn:E.
  assert (match o with Ok (_, Some _) => true | _ => false end = true) as Ho.
  { change o with (o, g').1. rewrite <- E. vm_compute. reflexivity. }
  destruct o as [[c [w|]]| | |]; done.
Qed.

(** A newcomer joins by an external commit, from the group info of member 1. *)
Definition newcomer : ExternalRand :=
  mkExternalRand (901 : Rand (StdCrypto := toy)) (902 : Rand (StdCrypto := toy)) (903 : Rand (StdCrypto := toy))
    (904 : Rand (StdCrypto := toy)) (toy_priv 81) (fun i j => i + j : Rand (StdCrypto := toy)).

Definition external_commit : outcome (Group * bytes) :=
  let! gi := PublishGroupInfo (Pair.member 1) in
  ExternalCommit newcomer toy_suite gi (mkCredential CredentialTypeBasic [byte_of_Z 70] []) (Example.signer 7) (mkLifetime 1 2).
Definition external_message : bytes := value [] (let! (_, c) := external_commit in Ok c).
End Joining.

#[local] Existing Instances toy toy_laws.

Lemma welcome_joiner_in_epoch_witness :
  exists j, JoinFromWelcome toy_suite Joining.welcome Joining.join_options = Ok j /\ same_epoch Joining.committer' j /\ g_ownLeaf j = 2.
Proof.
  apply (welcome_joiner_in_epoch 1 (Pair.member 0) Joining.options (Example.signer 0) (Pair.rand 1) Joining.commit_message
    Joining.welcome Joining.committer' Joining.applied 0 2 (Transaction.key_package 2) Joining.join_options Joining.adder_ready).
  - intros rs Hrs. vm_compute in Hrs. apply Ok_inj in Hrs as <-. vm_compute. repeat constructor; congruence.
  - exact Epoch7.derives.
  - repeat split; try (vm_compute; congruence). constructor.
  - split; vm_compute; congruence.
  - exact Joining.staged_applied.
  - exact Joining.joiner.
  - exact Joining.committed_ok.
  - vm_compute. reflexivity.
  - vm_compute. reflexivity.
Defined.


