(* ===== verification/GroupExternal.v ===== *)
(** External commits: a newcomer lets itself in ([external_commit.go],
    [external_join.go]).

    A member publishes a group info; [ExternalCommit] builds from it the
    newcomer's group of the next epoch and the commit; the members follow with
    [ProcessCommit].  The file shows that newcomer and members then share the
    epoch, and what the epoch must satisfy for it: the members' interim
    transcript hash is the one that the newcomer computes from the group info,
    which holds in every epoch that a commit or a join led to and fails in the
    epoch of a new group. *)

From Stdlib Require Import ZArith Lia Strings.Byte.
From stdpp Require Import base list numbers strings sorting sets gmap.
From S2P Require Import Prelude Syntax TreeNodes TreeMath Cipher ToyCrypto RatchetTree TreeSync TreeKEM LeafSwap.
From S2P Require Import KeySchedule Framing GroupMessages Group GroupProposals GroupSync GroupKeys GroupJoin.

(** * The newcomer *)

Section newcomer.
Context {C : StdCrypto}.
Implicit Types (g p h j : Group) (gi : GroupInfo).

Definition external_content (gc : GroupContext) (body : bytes) : FramedContent :=
  mkFramedContent (gc_GroupID gc) (gc_Epoch gc) (mkSender SenderTypeNewMemberCommit 0 0) [] ContentTypeCommit body.

Definition external_proposals (kem : bytes) (byValue : list Proposal) : list ProposalOrRef :=
  commit_proposals [] (proposal_ExternalInit (mkExternalInit kem) :: byValue).

Definition external_context (gc : GroupContext) (treeHash : bytes) : outcome bytes :=
  GroupContext_MarshalMLS (next_context gc treeHash (gc_ConfirmedTranscriptHash gc) (gc_Extensions gc)).

Definition external_message (gc : GroupContext) (body sig tag : bytes) : MLSMessage :=
  mkMLSMessage ProtocolVersionMLS10 WireFormatPublicMessage
    (Some (mkPublicMessage (external_content gc body) (mkAuthData sig tag) [])) None.

(** What a successful [ExternalCommit] went through. *)
Lemma ExternalCommit_inv r suite gi cred signer lifetime j commit :
  ExternalCommit r suite gi cred signer lifetime = Ok (j, commit) ->
  let gc := gi_GroupContext gi in
  exists extPub kem init wt byValue liC up cs byNode body ci sig interimN th gcb es interim priv st,
    ExternalPubExtension gi = Some extPub /\
    ExternalInitEncap suite (er_init1 r) (er_init2 r) extPub = Ok (kem, init) /\
    external_tree r suite gi cred signer lifetime = Ok (wt, byValue, liC) /\
    GenerateUpdatePath wt liC (er_leafSecret r) signer (gc_GroupID gc) [] (external_context gc) (er_path r)
      = Ok (g_tree j, (up, cs, byNode)) /\
    Commit_MarshalMLS (mkCommit (external_proposals kem byValue) (Some up)) = Ok body /\
    SignCommit suite signer (Some gc) (external_content gc body) WireFormatPublicMessage = Ok (ci, sig) /\
    InterimTranscriptHash suite (gc_ConfirmedTranscriptHash gc) (gi_ConfirmationTag gi) = Ok interimN /\
    let confirmed := ConfirmedTranscriptHash suite interimN ci in
    let newGC := next_context gc th confirmed (gc_Extensions gc) in
    let tag := ConfirmationTag suite (es_ConfirmationKey es) confirmed in
    RootTreeHash (g_tree j) = Ok th /\ GroupContext_MarshalMLS newGC = Ok gcb /\
    DeriveEpochSecrets suite init (Some cs) None gcb = Ok es /\
    MLSMessage_MarshalMLS (external_message gc body sig tag) = Ok commit /\
    InterimTranscriptHash suite confirmed tag = Ok interim /\
    committer_priv suite liC (er_leafSecret r) byNode = Ok priv /\
    NewSecretTree suite (LeafCount (g_tree j)) (es_EncryptionSecret es) = Ok st /\
    j = mkGroup suite newGC (g_tree j) priv es st interim (es_InitSecret es) liC (Some signer) ∅
          {[gc_Epoch newGC := es_ResumptionPSK es]} 0 0 false ∅.
Proof.
  intros Hx gc. unfold ExternalCommit in Hx. destruct (ExternalPubExtension gi) as [extPub|] eqn:Eep; [|done].
  apply obind_ok in Hx as ([kem init] & H1 & Hx). apply obind_ok in Hx as ([[wt byValue] liC] & H2 & Hx).
  apply obind_ok in Hx as ([wt' [[up cs] byNode]] & H3 & Hx). apply obind_ok in Hx as (body & H4 & Hx).
  apply obind_ok in Hx as ([ci sig] & H5 & Hx). apply obind_ok in Hx as (interimN & H6 & Hx).
  apply obind_ok in Hx as (th & H7 & Hx). apply obind_ok in Hx as (gcb & H8 & Hx). apply obind_ok in Hx as (es & H9 & Hx).
  apply obind_ok in Hx as (msg & H10 & Hx). apply obind_ok in Hx as (interim & H11 & Hx).
  apply obind_ok in Hx as (priv & H12 & Hx). apply obind_ok in Hx as (st & H13 & [= <- <-]). cbn [g_tree].
  repeat (eexists || split); eassumption.
Qed.

(** The tree the newcomer starts from: the published one, less an old leaf of
    its own, plus its leaf. *)
Lemma external_tree_inv r suite gi cred signer lifetime wt byValue liC :
  external_tree r suite gi cred signer lifetime = Ok (wt, byValue, liC) ->
  exists data t0 sigPub old base kp ip lp, RatchetTreeExtension gi = Some data /\ ParseRatchetTree suite data = Ok t0 /\
    SignaturePublicKey suite signer = Ok sigPub /\ findLeafBySignatureKey t0 sigPub = Ok old /\
    match old with
    | Some l => RemoveLeaf t0 l = Ok base /\ byValue = [ProposeRemove l]
    | None => base = t0 /\ byValue = []
    end /\
    NewKeyPackage suite (er_kp1 r) (er_kp2 r) cred signer lifetime = Ok (kp, ip, lp) /\
    AddLeaf base (kp_LeafNode kp) = Ok (wt, liC).
Proof.
  unfold external_tree. destruct (RatchetTreeExtension gi) as [data|]; [|done]. intros Hx.
  apply obind_ok in Hx as (t0 & Hp & Hx). apply obind_ok in Hx as (ok & _ & Hx). destruct (negb ok); [done|].
  apply obind_ok in Hx as (u & _ & Hx). apply obind_ok in Hx as (th & _ & Hx). destruct (negb _); [done|].
  apply obind_ok in Hx as (sigPub & Hs & Hx). apply obind_ok in Hx as (old & Ho & Hx).
  apply obind_ok in Hx as ([base bv] & Hb & Hx). apply obind_ok in Hx as ([[kp ip] lp] & Hk & Hx).
  apply obind_ok in Hx as ([wt' li] & Ha & Hx). apply Ok_inj in Hx. injection Hx as <- <- <-.
  exists data, t0, sigPub, old, base, kp, ip, lp. split_and!; try done. destruct old as [l|].
  - apply obind_ok in Hb as (t1 & Hr & Hb). apply Ok_inj in Hb. by injection Hb as <- <-.
  - apply Ok_inj in Hb. by injection Hb as <- <-.
Qed.

(** The leaf found has the key. *)
Lemma find_signature_key_ok t key n i l : find_signature_key t key n i = Ok (Some l) ->
  i <= l < i + Z.of_nat n /\ exists ln, LeafNodeAt t l = Ok ln /\ ln_SignatureKey ln = key.
Proof.
  revert i. induction n as [|n IH]; intros i; cbn [find_signature_key]; [done|].
  destruct (LeafNodeAt t i) as [ln|e| |] eqn:E; try done.
  - destruct (bytes_Equal (ln_SignatureKey ln) key) eqn:Ek.
    + intros Hx. apply Ok_inj in Hx. injection Hx as <-. split; [lia|]. exists ln. split; [done|]. by apply bytes_Equal_spec.
    + intros (? & ?)%IH. split; [lia|done].
  - intros (? & ?)%IH. split; [lia|done].
Qed.
End newcomer.

(** * The members *)

Section member.
Context {C : StdCrypto} `{!StdCryptoLaws C}.
Implicit Types (g p h j : Group) (gi : GroupInfo).

(** The run of a [ProcessCommit] of an external commit whose steps succeed. *)
Lemma processExternal_run h commit m cm ei path ac raw ci tag extPriv extPub init wt liC wt' th cs ps gcb es interim own priv st :
  let suite := g_suite h in let gc := g_groupContext h in
  let confirmed := ConfirmedTranscriptHash suite (g_interim h) ci in
  let newGC := next_context gc th confirmed (gc_Extensions gc) in
  MLSMessage_UnmarshalMLS commit = Ok m -> public_sender (fun t => t =? SenderTypeNewMemberCommit) m = true ->
  authenticate_external h m = Ok (cm, ei, path, ac) -> AuthenticatedContent_MarshalMLS ac = Ok raw ->
  SplitAuthenticatedContent suite raw = Ok (ci, tag) -> ExternalPub suite (es_ExternalSecret (g_epoch h)) = Ok (extPriv, extPub) ->
  ExternalInitDecap suite extPriv (ei_KemOutput ei) = Ok init -> admit_joiner h cm path = Ok (wt, liC) ->
  receive_path h wt liC path (g_priv h) (gc_Extensions gc) [] = Ok (wt', th, cs, Some ps) ->
  VerifyParentHashes wt' = Ok true -> GroupContext_MarshalMLS newGC = Ok gcb ->
  DeriveEpochSecrets suite init (Some cs) None gcb = Ok es ->
  ConfirmationTag suite (es_ConfirmationKey es) confirmed = tag -> InterimTranscriptHash suite confirmed tag = Ok interim ->
  PrivateKeyAt (g_priv h) (u32 (2 * g_ownLeaf h)) = Some own ->
  installJoinerPriv suite (NewTreeKEMPrivate (g_ownLeaf h) own) ps (g_ownLeaf h) liC (LeafCount wt') = Ok priv ->
  NewSecretTree suite (LeafCount wt') (es_EncryptionSecret es) = Ok st ->
  ProcessCommit [] commit h = (Ok tt, next_state h wt' newGC es interim priv st (g_handshakeGeneration h)).
Proof.
  intros suite gc confirmed newGC H1 H2 H3 H4 H5 H6 H7 H8 H9 H10 H11 H12 H13 H14 H15 H16 H17. unfold ProcessCommit.
  rewrite gbind_get. cbn [proposal_cache]. rewrite (gbind_lift _ _ _ _ eq_refl), (gbind_lift _ _ _ _ H1), H2.
  unfold processExternalCommit. rewrite gbind_get, (gbind_lift _ _ _ _ H3), (gbind_lift _ _ _ _ H4), (gbind_lift _ _ _ _ H5),
    (gbind_lift _ _ _ _ H6), (gbind_lift _ _ _ _ H7), (gbind_lift _ _ _ _ H8), (gbind_lift _ _ _ _ H9), (gbind_lift _ _ _ _ H10).
  cbn [negb]. rewrite (gbind_lift _ _ _ _ eq_refl), (gbind_lift _ _ _ _ H11), (gbind_lift _ _ _ _ H12).
  fold suite gc confirmed. rewrite (proj2 (bytes_Equal_spec _ _) H13). cbn [negb].
  rewrite (gbind_lift _ _ _ _ eq_refl), (gbind_lift _ _ _ _ H14), H15, (gbind_lift _ _ _ _ H16), (gbind_lift _ _ _ _ H17).
  done.
Qed.

(** The transcript input and the tag that the members split off. *)
Lemma external_transcript h signer fc ci sig tag confirmed interim :
  SignCommit (g_suite h) signer (Some (g_groupContext h)) fc WireFormatPublicMessage = Ok (ci, sig) ->
  fc_ContentType fc = ContentTypeCommit -> len tag = HashLen (g_suite h) ->
  InterimTranscriptHash (g_suite h) confirmed tag = Ok interim ->
  exists raw, AuthenticatedContent_MarshalMLS (mkAuthenticatedContent WireFormatPublicMessage fc (mkAuthData sig tag)) = Ok raw /\
    SplitAuthenticatedContent (g_suite h) raw = Ok (ci, tag).
Proof.
  intros Hsc Hct Hlen Hi.
  pose proof (commit_transcript_agrees h h signer fc _ ci sig tag confirmed interim (reflexivity h) Hsc Hct Hlen Hi) as Hx.
  unfold commit_transcript in Hx. apply obind_ok in Hx as (raw & Hraw & _). exists raw. split; [done|].
  by apply (SignCommit_Split _ _ _ _ _ _ _ _ _ Hsc Hct Hlen Hraw).
Qed.

(** ** The commit as the members read it *)

Lemma external_proposals_ok kem byValue : Forall Proposal_ok byValue ->
  Forall ProposalOrRef_ok (external_proposals kem byValue).
Proof. intros HF. apply commit_proposals_ok. constructor; [constructor|done]. Qed.

(** An optional Remove of an old leaf. *)
Definition removal (old : option Z) : list Proposal := match old with Some l => [ProposeRemove l] | None => [] end.

Lemma external_message_ok gc body sig tag : is_u64 (gc_Epoch gc) -> content_ok ContentTypeCommit body ->
  MLSMessage_ok (external_message gc body sig tag).
Proof.
  intros He Hb. unfold MLSMessage_ok, external_message. cbn [mm_Version mm_WireFormat mm_Public mm_Private].
  split_and!; try done; try (unfold is_u16; cbn; lia). intros _. cbn [from_option]. unfold PublicMessage_ok.
  cbn [pm_Content pm_Auth pm_MembershipTag]. split_and!; try done. repeat split; cbn; try done; try apply He; try apply Hb; try lia.
  intros Hne. by destruct Hne.
Qed.

Lemma validate_external_proposals kem old up :
  validateExternalCommit (mkCommit (external_proposals kem (removal old)) (Some up)) = Ok (Some (mkExternalInit kem)).
Proof. by destruct old. Qed.

Lemma authorize_removal t key kem old : (forall l, old = Some l -> exists ln, LeafNodeAt t l = Ok ln /\ ln_SignatureKey ln = key) ->
  authorize_removes t key (external_proposals kem (removal old)) = Ok tt.
Proof.
  intros Ho. destruct old as [l|]; [|done]. destruct (Ho l eq_refl) as (ln & Hln & Hk).
  unfold external_proposals, removal, commit_proposals. cbn [map app authorize_removes]. cbn.
  rewrite Hln. cbn. by rewrite (proj2 (bytes_Equal_spec _ _) Hk).
Qed.

Lemma apply_removal t kem old base : match old with Some l => RemoveLeaf t l = Ok base | None => base = t end ->
  apply_inline_removes t (external_proposals kem (removal old)) = Ok base.
Proof. destruct old as [l|]; [intros Hr|by intros ->]. cbn. by rewrite Hr. Qed.

Lemma authenticate_newcomer h signer kem old up body ci sig tag :
  Commit_ok (mkCommit (external_proposals kem (removal old)) (Some up)) ->
  Commit_MarshalMLS (mkCommit (external_proposals kem (removal old)) (Some up)) = Ok body ->
  SignCommit (g_suite h) signer (Some (g_groupContext h)) (external_content (g_groupContext h) body) WireFormatPublicMessage
    = Ok (ci, sig) ->
  SignaturePublicKey (g_suite h) signer = Ok (ln_SignatureKey (up_LeafNode up)) ->
  ln_LeafNodeSource (up_LeafNode up) = LeafNodeSourceCommit ->
  (forall l, old = Some l -> exists ln, LeafNodeAt (g_tree h) l = Ok ln /\ ln_SignatureKey ln = ln_SignatureKey (up_LeafNode up)) ->
  authenticate_external h (external_message (g_groupContext h) body sig tag) =
  Ok (mkCommit (external_proposals kem (removal old)) (Some up), mkExternalInit kem, up,
      mkAuthenticatedContent WireFormatPublicMessage (external_content (g_groupContext h) body) (mkAuthData sig tag)).
Proof.
  intros Hok Hbody Hsc Hpub Hsrc Hold. unfold authenticate_external, external_message.
  set (fc := external_content (g_groupContext h) body) in *. cbn [mm_WireFormat mm_Public pm_Content].
  change (snd_Type (fc_Sender fc)) with SenderTypeNewMemberCommit. change (fc_ContentType fc) with ContentTypeCommit.
  change (fc_Content fc) with body. rewrite !Z.eqb_refl. cbn [negb].
  assert (Commit_UnmarshalMLS body = Ok _) as -> by exact (unmarshal_marshal (r := decodeCommit) _ _ _ Hok Hbody).
  cbn [obind]. rewrite validate_external_proposals. cbn [obind cm_Path cm_Proposals].
  assert (UnprotectPublic (g_suite h) (ln_SignatureKey (up_LeafNode up)) (Some (g_groupContext h)) []
    (mkPublicMessage fc (mkAuthData sig tag) []) = Ok (mkAuthenticatedContent WireFormatPublicMessage fc (mkAuthData sig tag))) as ->.
  { unfold UnprotectPublic. cbn [pm_Content pm_Auth]. change (snd_Type (fc_Sender fc) =? SenderTypeMember) with false. cbn [obind].
    by rewrite (SignCommit_verify (g_suite h) _ _ _ _ _ _ _ tag Hpub Hsc). }
  cbn [obind ac_Content]. change (fc_Epoch fc) with (gc_Epoch (g_groupContext h)). rewrite Z.eqb_refl, Hsrc. cbn [negb].
  by rewrite authorize_removal.
Qed.
End member.

(** * From the group info to the common epoch *)

Section follow.
Context {C : StdCrypto} `{!StdCryptoLaws C}.
Implicit Types (g p h j : Group) (gi : GroupInfo).

(** The interim hash is the one of the epoch's confirmed hash and confirmation
    tag, which is what a newcomer computes from the group info. *)
Definition interim_current g : Prop :=
  let confirmed := gc_ConfirmedTranscriptHash (g_groupContext g) in
  InterimTranscriptHash (g_suite g) confirmed (ConfirmationTag (g_suite g) (es_ConfirmationKey (g_epoch g)) confirmed)
  = Ok (g_interim g).

(** The suite's KEM is over a Diffie-Hellman curve: the keys it derives are keys
    of the curve in the curve's encoding, and generated public keys parse. *)
Definition curve_keys (suite : Suite) (r : Rand) : Prop :=
  exists cv, curve suite = Some cv /\
    (forall ikm priv pub, DeriveKeyPair suite ikm = Ok (priv, pub) ->
       exists sk, curve_NewPrivateKey cv priv = Ok sk /\ pub = ecdhpub_Bytes (ecdh_PublicKey sk)) /\
    (forall sk, curve_GenerateKey cv r = Ok sk -> exists pk, curve_NewPublicKey cv (ecdhpub_Bytes (ecdh_PublicKey sk)) = Ok pk).

(** The suite's KEM is X-Wing: a private key is the seed of an ML-KEM and an
    X25519 key, the public key is the two public keys one after the other, and
    ML-KEM decapsulates what it encapsulated. *)
Definition xwing_keys (suite : Suite) (r : Rand) : Prop :=
  curve suite = None /\ kem_ID (kem suite) = xwingKEMID /\
  (forall ikm priv pub, DeriveKeyPair suite ikm = Ok (priv, pub) -> exists dkM skX pubM pkM,
     xwingExpandSeed priv = Ok (dkM, skX) /\ pub = pubM ++ ecdhpub_Bytes (ecdh_PublicKey skX) /\
     len pubM = EncapsulationKeySize768 /\ mlkem_NewEncapsulationKey768 pubM = Ok pkM /\
     forall rM ssM ctM, mlkem_Encapsulate rM pkM = (ssM, ctM) -> len ctM = CiphertextSize768 /\ mlkem_Decapsulate dkM ctM = Ok ssM) /\
  (forall sk, curve_GenerateKey ecdh_X25519 r = Ok sk -> len (ecdhpub_Bytes (ecdh_PublicKey sk)) = 32 /\
     exists pk, curve_NewPublicKey ecdh_X25519 (ecdhpub_Bytes (ecdh_PublicKey sk)) = Ok pk).

(** What the newcomer needs of the member [p] that publishes the group info. *)
Record external_ready (d : Z) p gi (r : ExternalRand) (cred : Credential) (lifetime : Lifetime) : Prop := {
  xr_info : PublishGroupInfo p = Ok gi;
  xr_tree : tree_wf d (g_tree p);
  xr_suite : rt_suite (g_tree p) = g_suite p;
  xr_own : 0 <= g_ownLeaf p < 2 ^ d /\ populated (rt_nodes (g_tree p)) (g_ownLeaf p);
  xr_epoch : is_u64 (Epoch p);
  xr_interim : interim_current p;
  xr_size : members (g_tree p) < 2 ^ 30;
  xr_leaf : Credential_ok cred /\ Lifetime_ok lifetime /\ is_u16 (suite_ID (g_suite p));
  xr_kem : curve_keys (g_suite p) (er_init2 r) \/ xwing_keys (g_suite p) (er_init2 r)
}.

(** What a member needs to let the newcomer in: it is in the epoch, its leaf is
    not an old one of the newcomer, and it holds the keys that the newcomer's
    path asks of it. *)
Record admits (d : Z) p gi (r : ExternalRand) (cred : Credential) (signer : Signer) (lifetime : Lifetime) h : Prop := {
  ad_epoch : same_epoch p h;
  ad_leaf : 0 <= g_ownLeaf h < 2 ^ d /\ populated (rt_nodes (g_tree p)) (g_ownLeaf h);
  ad_other : forall ln, LeafNodeAt (g_tree p) (g_ownLeaf h) = Ok ln -> SignaturePublicKey (g_suite p) signer <> Ok (ln_SignatureKey ln);
  ad_keys : forall wt byValue l, external_tree r (g_suite p) gi cred signer lifetime = Ok (wt, byValue, l) ->
    follower_keys wt l (g_ownLeaf h) (g_priv h)
}.

(** What the group info says. *)
Lemma PublishGroupInfo_inv p gi : PublishGroupInfo p = Ok gi ->
  exists data priv pub, RatchetTree_MarshalMLS (g_tree p) = Ok data /\ RatchetTreeExtension gi = Some data /\
    ExternalPub (g_suite p) (es_ExternalSecret (g_epoch p)) = Ok (priv, pub) /\ ExternalPubExtension gi = Some pub /\
    gi_GroupContext gi = g_groupContext p /\
    gi_ConfirmationTag gi = ConfirmationTag (g_suite p) (es_ConfirmationKey (g_epoch p)) (gc_ConfirmedTranscriptHash (g_groupContext p)).
Proof.
  unfold PublishGroupInfo. destruct (g_signer p) as [signer|]; [|done]. intros Hx.
  apply obind_ok in Hx as (data & Hd & Hx). apply obind_ok in Hx as ([priv pub] & Hp & Hx).
  unfold GroupInfo_Sign in Hx. apply obind_ok in Hx as (tbs & _ & Hx). apply obind_ok in Hx as (sig & _ & Hx). apply Ok_inj in Hx as <-.
  exists data, priv, pub. done.
Qed.

(** The tree with the newcomer's leaf, as a run of the published one. *)
Record newcomer_tree p (old : option Z) (kpl : LeafNode) (base : RatchetTree) (db : Z) (wt : RatchetTree) (dC liC : Z) : Prop := {
  nt_removed : match old with Some l => RemoveLeaf (g_tree p) l = Ok base | None => base = g_tree p end;
  nt_base : tree_wf db base /\ members base < 2 ^ 30;
  nt_added : AddLeaf base kpl = Ok (wt, liC) /\ fresh_at dC base liC kpl wt;
  nt_wf : tree_wf dC wt /\ rt_suite wt = rt_suite (g_tree p);
  nt_leaf : slot (rt_nodes wt) (2 * liC) = leaf_node kpl;
  nt_kept : forall m, 0 <= m < 2 ^ 31 -> populated (rt_nodes (g_tree p)) m -> old <> Some m ->
    kept m (rt_nodes (g_tree p)) (rt_nodes wt) /\ m <> liC
}.

Lemma new_leaf_ok suite r1 r2 cred signer lifetime kp ip lp : Credential_ok cred -> Lifetime_ok lifetime -> is_u16 (suite_ID suite) ->
  NewKeyPackage suite r1 r2 cred signer lifetime = Ok (kp, ip, lp) ->
  LeafNode_ok (kp_LeafNode kp) /\ SignaturePublicKey suite signer = Ok (ln_SignatureKey (kp_LeafNode kp)).
Proof.
  intros Hc Hlt Hid H. unfold NewKeyPackage in H. apply obind_ok in H as ([? ?] & _ & H).
  apply obind_ok in H as ([? lpub] & _ & H). apply obind_ok in H as (pub & Hp & H). apply obind_ok in H as (ln & Hln & H).
  apply obind_ok in H as (tbs & _ & H). apply obind_ok in H as (sig & _ & H). apply Ok_inj in H. injection H as <- _ _.
  cbn [kp_LeafNode]. unfold SignLeafNode in Hln. apply obind_ok in Hln as (t & _ & Hln). apply obind_ok in Hln as (s & _ & Hln).
  apply Ok_inj in Hln as <-. split; [|done]. unfold LeafNode_ok, Source_ok, Capabilities_ok, is_u8. cbn.
  rewrite ?Forall_cons, ?Forall_nil. split_and!; try done; unfold is_u16; lia.
Qed.

Lemma external_tree_ok d p gi r cred signer lifetime wt byValue liC :
  external_ready d p gi r cred lifetime -> external_tree r (g_suite p) gi cred signer lifetime = Ok (wt, byValue, liC) ->
  exists old kpl base db dC, byValue = removal old /\ newcomer_tree p old kpl base db wt dC liC /\
    LeafNode_ok kpl /\ SignaturePublicKey (g_suite p) signer = Ok (ln_SignatureKey kpl) /\
    (forall l, old = Some l -> 0 <= l < 2 ^ d /\ exists ln, LeafNodeAt (g_tree p) l = Ok ln /\ ln_SignatureKey ln = ln_SignatureKey kpl).
Proof.
  intros [Hpub Hwf Hsu [Hown Hpop] _ _ Hsz [Hc [Hlt Hid]] _] Hx.
  destruct (external_tree_inv _ _ _ _ _ _ _ _ _ Hx) as (data & t0 & sigPub & old & base & kp & ip & lp & Hdata & Hparse & Hsig & Hold & Hbase & Hkp & Hadd).
  destruct (PublishGroupInfo_inv p gi Hpub) as (data' & priv & pub & Hms & Hdata' & _). rewrite Hdata in Hdata'. injection Hdata' as <-.
  assert (t0 = g_tree p) as ->.
  { eapply (proj1 (Clone_wf d (g_tree p) (g_ownLeaf p) Hwf (proj1 Hown) Hpop)). unfold Clone. rewrite Hms. cbn [obind]. by rewrite Hsu. }
  destruct (new_leaf_ok _ _ _ _ _ _ _ _ _ Hc Hlt Hid Hkp) as [Hlok Hsk]. rewrite Hsig in Hsk. apply Ok_inj in Hsk.
  pose proof (ti_depth _ _ (wf_inv _ _ Hwf)) as Hd. assert (2 ^ d <= 2 ^ 30) by (apply Z.pow_le_mono_r; lia).
  assert (forall l, old = Some l -> 0 <= l < 2 ^ d /\ exists ln, LeafNodeAt (g_tree p) l = Ok ln /\ ln_SignatureKey ln = ln_SignatureKey (kp_LeafNode kp)) as Hol.
  { intros l ->. apply find_signature_key_ok in Hold as [Hr (ln & Hln & Hk)]. unfold LeafCount in Hr.
    rewrite (proj1 (leaves_d d _ (wf_inv _ _ Hwf))) in Hr. split; [lia|]. exists ln. split; [done|congruence]. }
  assert (exists ops db, run_ok (g_tree p) ops base /\ tree_wf db base /\ members base < 2 ^ 30 /\
    match old with Some l => RemoveLeaf (g_tree p) l = Ok base | None => base = g_tree p end /\ byValue = removal old /\
    forall m, 0 <= m < 2 ^ 31 -> old <> Some m -> Forall (op_avoids m) (wrapped <$> ops)) as (ops & db & Hrun & Hwb & Hmb & Hrm & -> & Hav).
  { destruct old as [l|]; destruct Hbase as [Hb ->].
    - destruct (Hol l eq_refl) as [Hl _]. destruct (remove_wf (g_tree p) d l Hwf Hl) as (t' & d' & Hr & Hst).
      rewrite Hb in Hr. apply Ok_inj in Hr as <-. exists [OpRemove l], d'. pose proof Hst as (Hwf' & _ & Hro & _).
      split_and!; [by eapply run_ok_step|done| |done|done|].
      + apply roster_step_size in Hro. unfold members in *. cbn [wrapped] in Hro. lia.
      + intros m Hm Hne. cbn. rewrite leaf_index_small by lia. repeat constructor. congruence.
    - subst base. exists [], d. split_and!; [by eapply run_ok_nil|done..|]. constructor. }
  destruct (add_wf base db (kp_LeafNode kp) Hwb Hlok Hmb) as (t' & dC & l' & Ha & Hst & Hfr & Hdb). rewrite Hadd in Ha.
  apply Ok_inj in Ha. injection Ha as <- <-. pose proof Hst as (HwfC & HsuC & _ & HkC & _).
  exists old, (kp_LeafNode kp), base, db, dC. split_and!; [done| |done|by rewrite Hsig, Hsk|done].
  pose proof (ti_depth _ _ (wf_inv _ _ HwfC)). split; try done.
  - split; [done|]. rewrite HsuC. apply (rk_suite _ _ _ Hrun).
  - destruct Hfr as (Hr & _ & Hro). pose proof (lookup_insert_eq (roster_of (rt_nodes base)) liC (kp_LeafNode kp)) as Hl. rewrite <- Hro in Hl.
    rewrite lookup_roster in Hl by lia. destruct (slot (rt_nodes wt) (2 * liC)) as [n|] eqn:E; [|done].
    destruct (ti_leaf _ _ (wf_inv _ _ HwfC) liC n (proj1 Hr) E) as [ln ->]. cbn in Hl. by injection Hl as ->.
  - intros m Hm Hpm Hne. pose proof (rk_kept _ _ _ Hrun m ltac:(lia) Hpm (Hav m Hm Hne)) as Hk1.
    pose proof (kept_populated _ _ _ Hk1 Hpm) as Hpb. split.
    + eapply kept_trans; [exact Hk1|]. apply HkC; [lia|done|constructor].
    + intros ->. destruct Hfr as (_ & Hn & _). rewrite lookup_roster in Hn by lia. destruct Hpb as [n Hn'].
      rewrite Hn' in Hn. destruct (ti_leaf _ _ (wf_inv _ _ Hwb) liC n ltac:(lia) Hn') as [ln ->]. done.
Qed.

(** A path's leaf is signed for its place with the sender's key. *)
Lemma path_leaf_signed t t' l orig leafSecret signer gid added mkGC rng up cs byNode :
  0 <= l < 2 ^ 31 -> slot (rt_nodes t) (2 * l) = leaf_node orig -> SignaturePublicKey (rt_suite t) signer = Ok (ln_SignatureKey orig) ->
  GenerateUpdatePath t l leafSecret signer gid added mkGC rng = Ok (t', (up, cs, byNode)) ->
  LeafNode_VerifySignature (up_LeafNode up) (rt_suite t) gid l = Ok true /\
  exists leafPub ph sig, up_LeafNode up = with_signature (commit_leaf orig leafPub ph) sig.
Proof.
  intros Hl Hs Hpub Hx. unfold GenerateUpdatePath in Hx. apply obind_ok in Hx as (o & Ho & Hx).
  rewrite u32_small in Ho by lia. apply index_ok in Ho as [_ Ho].
  assert (o = leaf_node orig) as Eo by (rewrite <- Hs; unfold slot; by rewrite Ho).
  destruct o as [[[o|] q]|]; [|done..]. injection Eo as -> _. do 4 (apply obind_ok in Hx as (? & _ & Hx)). apply obind_ok in Hx as ([? leafPub] & _ & Hx).
  do 2 (apply obind_ok in Hx as (? & _ & Hx)). apply obind_ok in Hx as ([? ?] & _ & Hx).
  apply obind_ok in Hx as (ph & _ & Hx). apply obind_ok in Hx as (tbs & Ht & Hx). apply obind_ok in Hx as (sig & Hsig & Hx).
  do 4 (apply obind_ok in Hx as (? & _ & Hx)). apply Ok_inj in Hx. injection Hx as _ <- _ _. cbn [up_LeafNode]. split; [|eauto].
  assert (SignLeafNode (rt_suite t) signer (commit_leaf orig leafPub ph) gid l = Ok (with_signature (commit_leaf orig leafPub ph) sig)) as HS.
  { unfold SignLeafNode. rewrite Ht. cbn [obind]. rewrite Hsig. done. }
  by eapply (SignLeafNode_verifies _ signer) in HS as [_ Hv].
Qed.

Lemma swap_kept d t l ln m : tree_inv d (rt_nodes t) -> 0 <= l < 2 ^ d -> 0 <= m -> m <> l ->
  kept m (rt_nodes t) (rt_nodes (swap_leaf l ln t)).
Proof.
  intros Hinv Hl Hm Hne. destruct (leaf_bound d l (ti_depth _ _ Hinv) Hl) as [_ Hb]. pose proof (ti_len _ _ Hinv).
  assert (forall x, 0 <= x -> x <> 2 * l -> slot (rt_nodes (swap_leaf l ln t)) x = slot (rt_nodes t) x) as Hs.
  { intros x Hx Hxl. unfold swap_leaf, swap. cbn [rt_nodes]. rewrite slot_insert by lia. by rewrite decide_False. }
  split; [apply Hs; lia|]. intros k Hk. pose proof (Z.div_pos m (2 ^ k) Hm ltac:(lia)) as Hj.
  apply (kept_refl_at m _ _ d); [done..|]. apply Hs; [apply node_nonneg; lia|].
  rewrite <- node_leaf. intros [? _]%node_inj; lia.
Qed.

(** A member with all its keys can follow any newcomer that does not replace
    it. *)
Lemma newcomer_keys d p gi r cred signer lifetime wt byValue l m priv ln :
  external_ready d p gi r cred lifetime -> 0 <= m < 2 ^ d -> LeafNodeAt (g_tree p) m = Ok ln ->
  SignaturePublicKey (g_suite p) signer <> Ok (ln_SignatureKey ln) -> member_keys d (g_tree p) m priv ->
  external_tree r (g_suite p) gi cred signer lifetime = Ok (wt, byValue, l) -> follower_keys wt l m priv.
Proof.
  intros Hxr Hm Hln Hne Hk Hx. pose proof (xr_tree _ _ _ _ _ _ Hxr) as Hwf.
  pose proof (ti_depth _ _ (wf_inv _ _ Hwf)). assert (2 ^ d <= 2 ^ 30) by (apply Z.pow_le_mono_r; lia).
  destruct (external_tree_ok _ _ _ _ _ _ _ _ _ _ Hxr Hx) as (old & kpl & base & db & dC & _ & Hnt & _ & Hpub & Hold).
  destruct (nt_wf _ _ _ _ _ _ _ _ Hnt) as [HwC HsC].
  assert (populated (rt_nodes (g_tree p)) m) as Hpm.
  { rewrite (LeafNodeAt_roster _ d) in Hln by (apply Hwf || lia). apply (populated_roster d); [apply Hwf|lia|].
    by destruct (roster_of (rt_nodes (g_tree p)) !! m). }
  destruct (nt_kept _ _ _ _ _ _ _ _ Hnt m ltac:(lia) Hpm) as [Hkm _].
  { intros ->. destruct (Hold m eq_refl) as (_ & ln' & Hln' & E). rewrite Hln in Hln'. apply Ok_inj in Hln' as <-. by rewrite E in Hne. }
  apply (member_keys_follower dC); [apply HwC|lia|]. apply (member_keys_kept d dC (g_tree p)); try done; try apply Hwf; try apply HwC; lia.
Qed.

(** The member [p] at another leaf, a stand-in for the newcomer before its
    commit. *)
Definition at_leaf (l : Z) g : Group :=
  mkGroup (g_suite g) (g_groupContext g) (g_tree g) (g_priv g) (g_epoch g) (g_secretTree g) (g_interim g) (g_initSecret g) l
    (g_signer g) (g_externalPSKs g) (g_resumptionPSKHistory g) (g_appGeneration g) (g_handshakeGeneration g)
    (g_encryptHandshakes g) (g_pendingUpdates g).

(** The tree on which the members process the path can be encoded. *)
Definition joined_encodable p gi (r : ExternalRand) (cred : Credential) (signer : Signer) (lifetime : Lifetime) j : Prop :=
  forall wt byValue l up, external_tree r (g_suite p) gi cred signer lifetime = Ok (wt, byValue, l) ->
    LeafNodeAt (g_tree j) l = Ok up -> is_ok (RatchetTree_MarshalMLS (swap_leaf l up wt)) = true.

(** The member's copy [wt] of the tree, with the leaf of the path in the
    newcomer's place: the member keeps its place and its keys. *)
Record joined (d : Z) p h signer (old : option Z) (base : RatchetTree) (up : UpdatePath) (wt : RatchetTree) (d1 liC : Z) : Prop := {
  jo_removed : match old with Some l => RemoveLeaf (g_tree p) l = Ok base | None => base = g_tree p end;
  jo_added : AddLeaf base (up_LeafNode up) = Ok (wt, liC);
  jo_wf : tree_wf d1 wt /\ rt_suite wt = g_suite p;
  jo_place : 0 <= liC < 2 ^ d1 /\ populated (rt_nodes wt) liC;
  jo_member : 0 <= g_ownLeaf h < 2 ^ d1 /\ populated (rt_nodes wt) (g_ownLeaf h) /\ g_ownLeaf h <> liC /\
    follower_keys wt liC (g_ownLeaf h) (g_priv h);
  jo_leaf : UpdatePath_ok up /\ ln_LeafNodeSource (up_LeafNode up) = LeafNodeSourceCommit /\
    LeafNode_VerifySignature (up_LeafNode up) (g_suite p) (gc_GroupID (g_groupContext p)) liC = Ok true;
  jo_key : SignaturePublicKey (g_suite p) signer = Ok (ln_SignatureKey (up_LeafNode up));
  jo_old : forall l, old = Some l -> 0 <= l < 2 ^ d /\
    exists ln, LeafNodeAt (g_tree p) l = Ok ln /\ ln_SignatureKey ln = ln_SignatureKey (up_LeafNode up)
}.

Lemma joined_ok d p h gi r cred signer lifetime t' wt byValue liC up cs byNode :
  external_ready d p gi r cred lifetime -> admits d p gi r cred signer lifetime h ->
  external_tree r (g_suite p) gi cred signer lifetime = Ok (wt, byValue, liC) ->
  GenerateUpdatePath wt liC (er_leafSecret r) signer (gc_GroupID (g_groupContext p)) [] (external_context (g_groupContext p)) (er_path r)
    = Ok (t', (up, cs, byNode)) ->
  let wt1 := swap_leaf liC (up_LeafNode up) wt in
  exists old base d1, byValue = removal old /\ joined d p h signer old base up wt1 d1 liC /\
    GenerateUpdatePath wt1 liC (er_leafSecret r) signer (gc_GroupID (g_groupContext p)) [] (external_context (g_groupContext p)) (er_path r)
      = Ok (t', (up, cs, byNode)).
Proof.
  intros Hxr [Hs [Hl Hpop] Hoth Hk] Hx Hgen wt1. specialize (Hk _ _ _ Hx).
  destruct (external_tree_ok _ _ _ _ _ _ _ _ _ _ Hxr Hx) as (old & kpl & base & db & dC & -> & Hnt & Hlok & Hpub & Hold).
  pose proof (xr_tree _ _ _ _ _ _ Hxr) as Hwf. pose proof (xr_suite _ _ _ _ _ _ Hxr) as Hsu.
  pose proof (ti_depth _ _ (wf_inv _ _ Hwf)) as Hd. assert (2 ^ d <= 2 ^ 30) by (apply Z.pow_le_mono_r; lia).
  destruct (nt_wf _ _ _ _ _ _ _ _ Hnt) as [HwC HsC]. destruct (nt_base _ _ _ _ _ _ _ _ Hnt) as [Hwb Hmb].
  destruct (nt_added _ _ _ _ _ _ _ _ Hnt) as [Hadd (HliC & _ & _)]. pose proof (ti_depth _ _ (wf_inv _ _ HwC)) as HdC.
  assert (2 ^ dC <= 2 ^ 30) by (apply Z.pow_le_mono_r; lia). pose proof (nt_leaf _ _ _ _ _ _ _ _ Hnt) as Hleaf.
  destruct (path_leaf_signed wt _ liC kpl _ signer _ _ _ _ up cs byNode ltac:(lia) Hleaf ltac:(by rewrite HsC, Hsu) Hgen)
    as (Hver & leafPub & ph & sig & Eup). rewrite HsC, Hsu in Hver.
  assert (LeafNode_ok (up_LeafNode up)) as Hup by (rewrite Eup; by apply commit_leaf_ok).
  pose proof (AddLeaf_swap base wt db liC kpl (up_LeafNode up) (wf_inv _ _ Hwb) (room_of_size db base (wf_inv _ _ Hwb) Hmb) Hadd) as Hadd1.
  fold wt1 in Hadd1. destruct (add_wf base db (up_LeafNode up) Hwb Hup Hmb) as (t1 & d1 & l1 & Ha & Hst & (Hl1 & _ & Hro1) & _).
  rewrite Hadd1 in Ha. apply Ok_inj in Ha. injection Ha as <- <-. destruct Hst as (Hw1 & _).
  assert (old <> Some (g_ownLeaf h)) as Hspared.
  { intros ->. destruct (Hold _ eq_refl) as (_ & ln & Hln & E). apply (Hoth ln Hln). by rewrite E. }
  destruct (nt_kept _ _ _ _ _ _ _ _ Hnt (g_ownLeaf h) ltac:(lia) Hpop Hspared) as [Hkept Hne].
  pose proof (kept_populated _ _ _ Hkept Hpop) as HpopC.
  pose proof (swap_kept dC wt liC (up_LeafNode up) (g_ownLeaf h) (wf_inv _ _ HwC) HliC (proj1 Hl) Hne) as Hkept1. fold wt1 in Hkept1.
  pose proof (kept_populated _ _ _ Hkept1 HpopC) as Hpop1. pose proof (ti_depth _ _ (wf_inv _ _ Hw1)).
  pose proof (populated_range d1 _ _ (ti_len _ _ (wf_inv _ _ Hw1)) ltac:(lia) Hpop1) as Hr1.
  exists old, base, d1. split; [done|]. split.
  - split; try done; [apply (nt_removed _ _ _ _ _ _ _ _ Hnt)|by rewrite <- Hsu, <- HsC| | | | |]; rewrite ?Eup; try done.
    + split; [done|]. apply (populated_roster d1); [apply Hw1|lia|]. by rewrite Hro1, lookup_insert_eq.
    + split_and!; [lia|lia|done|done|]. intros d' K HK.
      apply (usable_keys_kept d1 wt wt1); [apply Hw1|done|lia|done|done|by apply (Hk d')].
    + split_and!; [exact Hup|done|by rewrite <- Eup].
  - rewrite <- Hgen. apply (GenerateUpdatePath_swap dC liC (up_LeafNode up) HdC HliC wt kpl); [apply HwC|done|].
    intros pub' ph'. by rewrite Eup.
Qed.

Lemma joined_commit_ok d p h signer old base up wt d1 liC kem : 0 <= d <= 30 -> joined d p h signer old base up wt d1 liC ->
  Commit_ok (mkCommit (external_proposals kem (removal old)) (Some up)).
Proof.
  intros Hd Hj. split; [|apply (jo_leaf _ _ _ _ _ _ _ _ _ _ Hj)]. apply external_proposals_ok.
  destruct old as [l|]; [|constructor]. constructor; [|constructor]. constructor.
  destruct (jo_old _ _ _ _ _ _ _ _ _ _ Hj l eq_refl) as [? _].
  assert (2 ^ d <= 2 ^ 30) by (apply Z.pow_le_mono_r; lia). unfold is_u32. lia.
Qed.

Lemma joined_admits d p h gi r cred lifetime signer old base up wt d1 liC kem : external_ready d p gi r cred lifetime -> same_epoch p h ->
  joined d p h signer old base up wt d1 liC ->
  admit_joiner h (mkCommit (external_proposals kem (removal old)) (Some up)) up = Ok (wt, liC).
Proof.
  intros [Hinfo Hwf _ [Hown Hpown] _ _ _ _ _] Hs Hj. unfold admit_joiner.
  rewrite (se_tree _ _ Hs), (se_suite _ _ Hs), (se_context _ _ Hs). cbn [cm_Proposals].
  destruct (PublishGroupInfo_inv p gi Hinfo) as (data & ? & ? & Hms & _).
  rewrite (proj2 (Clone_wf d (g_tree p) (g_ownLeaf p) Hwf (proj1 Hown) Hpown)) by (by rewrite Hms). cbn [obind].
  rewrite (apply_removal _ _ _ base) by apply (jo_removed _ _ _ _ _ _ _ _ _ _ Hj). cbn [obind].
  rewrite (jo_added _ _ _ _ _ _ _ _ _ _ Hj). cbn [obind]. destruct (jo_leaf _ _ _ _ _ _ _ _ _ _ Hj) as (_ & _ & ->). done.
Qed.

(** The newcomer's path, read by a member on its own copy of the tree. *)
Lemma joined_receives d p h signer old base up wt d1 liC leafSecret rng t' cs byNode :
  same_epoch p h -> joined d p h signer old base up wt d1 liC ->
  GenerateUpdatePath wt liC leafSecret signer (gc_GroupID (g_groupContext p)) [] (external_context (g_groupContext p)) rng
    = Ok (t', (up, cs, byNode)) ->
  (LeafNodeAt t' liC = Ok (up_LeafNode up) -> is_ok (RatchetTree_MarshalMLS wt) = true) ->
  exists th K ps, RootTreeHash t' = Ok th /\ meet d1 liC (g_ownLeaf h) K /\ LeafCount t' = 2 ^ d1 /\
    receive_path h wt liC up (g_priv h) (gc_Extensions (g_groupContext p)) [] = Ok (t', th, cs, Some ps).
Proof.
  intros Hs [_ _ [Hw Hsu] [Hl Hpl] (Hm & Hpm & Hne & Hk) (Hup & _) _ _] Hgen Henc.
  pose proof (ti_depth _ _ (wf_inv _ _ Hw)). assert (2 ^ d1 <= 2 ^ 30) by (apply Z.pow_le_mono_r; lia).
  destruct (Merge_wf d1 wt liC up t' Hw Hl Hpl Hup (Merge_agrees _ _ _ _ _ _ _ _ _ _ _ _ Hgen)) as (Hwj & _ & Hroj).
  destruct (receive_path_agrees d1 (at_leaf liC p) h (mkApplied wt (gc_Extensions (g_groupContext p)) [] false [] []) t' signer
    leafSecret rng up cs byNode) as (th & K & ps & Hth & HK & _ & Hrp);
    cbn [ap_tree ap_newlyAdded ap_ext at_leaf g_ownLeaf g_suite]; try done; try congruence.
  - by destruct Hs.
  - by intros ?%not_elem_of_nil.
  - apply Henc. rewrite (LeafNodeAt_roster _ d1) by (apply Hwj || lia). by rewrite Hroj, lookup_insert_eq.
  - exists th, K, ps. split_and!; try done. unfold LeafCount. apply (leaves_d d1 t' (wf_inv _ _ Hwj)).
Qed.

(** Both sides of the external init derive one secret. *)
Lemma slice_app_l {A} (x y : list A) n : len x = n -> slice (x ++ y) 0 n = Ok x.
Proof.
  intros Hn. pose proof (len_nonneg x). pose proof (len_nonneg y). unfold slice.
  assert (len (x ++ y) = len x + len y) as -> by (unfold len; rewrite length_app; lia).
  rewrite (proj2 (Z.leb_le 0 n)), (proj2 (Z.leb_le n _)) by lia. cbn [andb Z.leb Z.compare]. rewrite Z.sub_0_r, drop_0.
  by rewrite take_app_length' by (unfold len in Hn; lia).
Qed.

Lemma xwing_shared suite r1 r2 ikm priv pub kem ss : xwing_keys suite r2 -> DeriveKeyPair suite ikm = Ok (priv, pub) ->
  xwingEncap r1 r2 pub = Ok (kem, ss) -> xwingDecap priv kem = Ok ss.
Proof.
  intros (_ & _ & Hder & Hgen) Hp Hx. destruct (Hder _ _ _ Hp) as (dkM & skX & pubM & pkM & Hseed & -> & Hlen & HpkM & Hkem).
  unfold xwingEncap in Hx. destruct (negb _); [done|]. rewrite slice_app_l in Hx by done. cbn [obind] in Hx. rewrite HpkM in Hx.
  cbn [obind] in Hx. rewrite slice_app_r in Hx by done. cbn [obind] in Hx. apply obind_ok in Hx as (pkX & HpkX & Hx).
  destruct (mlkem_Encapsulate r1 pkM) as [ssM ctM] eqn:Em. destruct (Hkem _ _ _ Em) as [Hct Hdec].
  apply obind_ok in Hx as (ek & Hek & Hx). destruct (Hgen _ Hek) as [Hl [pkE HpkE]].
  apply obind_ok in Hx as (ssX & HssX & Hx). apply Ok_inj in Hx. injection Hx as <- <-.
  unfold xwingDecap. assert (len (ctM ++ ecdhpub_Bytes (ecdh_PublicKey ek)) = CiphertextSize768 + 32) as E.
  { unfold len in *. rewrite length_app. lia. }
  rewrite E at 1. rewrite Z.eqb_refl. cbn [negb]. rewrite Hseed. cbn [obind]. rewrite slice_app_l by done. cbn [obind].
  rewrite slice_app_r by done. cbn [obind]. rewrite Hdec. cbn [obind]. rewrite HpkE. cbn [obind].
  by rewrite <- (ecdh_commutes ecdh_X25519 ek skX pkE pkX HpkE HpkX), HssX.
Qed.

Lemma external_init_shared p r priv pub kem init :
  curve_keys (g_suite p) (er_init2 r) \/ xwing_keys (g_suite p) (er_init2 r) ->
  ExternalPub (g_suite p) (es_ExternalSecret (g_epoch p)) = Ok (priv, pub) ->
  ExternalInitEncap (g_suite p) (er_init1 r) (er_init2 r) pub = Ok (kem, init) -> ExternalInitDecap (g_suite p) priv kem = Ok init.
Proof.
  intros [(cv & Hcv & Hder & Hgen)|Hxw] Hp Henc.
  - destruct (Hder _ _ _ Hp) as (sk & Hsk & ->). by apply (ExternalInit_agree _ (er_init1 r) (er_init2 r) cv sk).
  - pose proof Hxw as (Hc & Hk & _). unfold ExternalInitEncap, ExternalInitDecap in *. rewrite Hc, Hk, Z.eqb_refl in *.
    by eapply (xwing_shared (g_suite p) (er_init1 r) (er_init2 r)).
Qed.

Lemma ProcessCommit_admits d p h gi r cred signer lifetime j commit :
  external_ready d p gi r cred lifetime -> admits d p gi r cred signer lifetime h -> derivable (g_suite p) ->
  ExternalCommit r (g_suite p) gi cred signer lifetime = Ok (j, commit) ->
  joined_encodable p gi r cred signer lifetime j -> VerifyParentHashes (g_tree j) = Ok true ->
  exists h', ProcessCommit [] commit h = (Ok tt, h') /\ same_epoch j h' /\ next_epoch h h' /\ interim_current j.
Proof.
  intros Hxr Had Hder Hx Henc Hvp. pose proof (ad_epoch _ _ _ _ _ _ _ _ Had) as Hs.
  destruct (ExternalCommit_inv _ _ _ _ _ _ _ _ Hx) as (extPub & kem & init & wt & byValue & liC & up & cs & byNode & body & ci & sig &
    interimN & th & gcb & es & interim & priv & st & Hep & Hencap & Htree & Hgen & Hbody & Hsc & HiN & Hth & Hgcb & Hes & Hms & Hint & _ & Hst & Hj).
  destruct (PublishGroupInfo_inv p gi (xr_info _ _ _ _ _ _ Hxr)) as (data & epriv & epub & _ & _ & Hpub & Hep' & Hgc & Htag).
  rewrite Hep in Hep'. injection Hep' as <-. rewrite Hgc in *. rewrite Htag in HiN.
  assert (interimN = g_interim p) as -> by (apply Ok_inj; rewrite <- HiN; apply (xr_interim _ _ _ _ _ _ Hxr)).
  destruct (joined_ok d p h gi r cred signer lifetime (g_tree j) wt byValue liC up cs byNode Hxr Had Htree Hgen)
    as (old & base & d1 & -> & Hjo & Hgen1).
  destruct (joined_receives _ _ _ _ _ _ _ _ _ _ _ _ _ _ _ Hs Hjo Hgen1 (Henc _ _ _ _ Htree)) as (th' & K & ps & Hth' & HK & Hlc & Hrp).
  rewrite Hth in Hth'. apply Ok_inj in Hth' as <-.
  destruct (jo_leaf _ _ _ _ _ _ _ _ _ _ Hjo) as (Hup & Hsrc & _). destruct (jo_place _ _ _ _ _ _ _ _ _ _ Hjo) as [Hli _].
  destruct (jo_member _ _ _ _ _ _ _ _ _ _ Hjo) as (Hown & _ & Hne & Hk). destruct (jo_wf _ _ _ _ _ _ _ _ _ _ Hjo) as [Hw _].
  pose proof (ti_depth _ _ (wf_inv _ _ Hw)) as Hd1.
  pose proof (joined_commit_ok _ _ _ _ _ _ _ _ _ _ kem (ti_depth _ _ (wf_inv _ _ (xr_tree _ _ _ _ _ _ Hxr))) Hjo) as Hcok.
  set (tag := ConfirmationTag (g_suite p) (es_ConfirmationKey es) _) in *.
  assert (len tag = HashLen (g_suite p)) as Htl by apply hmac_Sum_len.
  assert (MLSMessage_UnmarshalMLS commit = Ok (external_message (g_groupContext p) body sig tag)) as Hum.
  { eapply unmarshal_marshal; [|exact Hms]. apply external_message_ok; [apply (xr_epoch _ _ _ _ _ _ Hxr)|].
    apply (commit_content_ok _ _ Hcok Hbody). }
  pose proof (xr_suite _ _ _ _ _ _ Hxr). destruct (uk_leaf _ _ _ _ (Hk d1 K HK)) as [own Hown'].
  assert (ConfirmationTag (g_suite p) (es_ConfirmationKey es) (ConfirmedTranscriptHash (g_suite p) (g_interim p) ci) = tag) as Etag by done.
  clearbody tag. pose proof (external_init_shared p r epriv extPub kem init (xr_kem _ _ _ _ _ _ Hxr) Hpub Hencap) as Hdec.
  pose proof (jo_key _ _ _ _ _ _ _ _ _ _ Hjo) as Hkey.
  rewrite <- (se_suite _ _ Hs), <- (se_context _ _ Hs), <- (se_interim _ _ Hs) in *.
  destruct (external_transcript h signer _ ci sig tag _ interim Hsc eq_refl Htl Hint) as (raw & Hraw & Hsplit).
  destruct (installJoinerPriv_ok (g_suite h) d1 liC (g_ownLeaf h) K (NewTreeKEMPrivate (g_ownLeaf h) own) ps Hd1 Hli Hown HK Hder)
    as (priv' & Hinst & _).
  assert (ProcessCommit [] commit h = (Ok tt, next_state h (g_tree j) (next_context (g_groupContext h) th
    (ConfirmedTranscriptHash (g_suite h) (g_interim h) ci) (gc_Extensions (g_groupContext h))) es interim priv' st (g_handshakeGeneration h))) as Hrun.
  { eapply (processExternal_run h commit _ _ (mkExternalInit kem) up);
      [exact Hum|reflexivity| |exact Hraw|exact Hsplit| |exact Hdec| |exact Hrp|exact Hvp|exact Hgcb|exact Hes|exact Etag|exact Hint| | |exact Hst].
    - apply (authenticate_newcomer h signer kem old up body ci sig tag Hcok Hbody Hsc Hkey Hsrc). intros l Hlo. rewrite (se_tree _ _ Hs). by apply (jo_old _ _ _ _ _ _ _ _ _ _ Hjo).
    - rewrite (se_epoch _ _ Hs). exact Hpub.
    - exact (joined_admits d p h gi r cred lifetime signer old base up _ d1 liC kem Hxr Hs Hjo).
    - rewrite (proj1 (leaf_bound d1 (g_ownLeaf h) Hd1 Hown)). exact Hown'.
    - rewrite Hlc. exact Hinst. }
  eexists. split; [exact Hrun|]. split_and!.
  - rewrite Hj. by split.
  - by apply (ProcessCommit_epoch [] commit).
  - unfold interim_current. rewrite Hj. cbn [g_groupContext g_suite g_epoch g_interim next_context gc_ConfirmedTranscriptHash].
    rewrite Etag. exact Hint.
Qed.
End follow.

(** * When the interim hash is current *)

Section current.
Context {C : StdCrypto} `{!StdCryptoLaws C}.
Implicit Types g : Group.

Lemma Group_Commit_current r opt g out g' : Group_Commit r opt g = (Ok out, g') -> interim_current g'.
Proof.
  intros Hx. unfold Group_Commit in Hx. run_ok_in Hx. apply gbind_ok in Hx as (mm & gx & _ & Hx). run_ok_in Hx.
  apply gbind_ok in Hx as ([] & gy & Eput & Hx). apply glift_ok in Hx as [_ ->]. injection Eput as <-. assumption.
Qed.

Lemma processExternalCommit_current m g g' : processExternalCommit m g = (Ok tt, g') -> interim_current g'.
Proof.
  intros Hx. unfold processExternalCommit in Hx. run_ok_in Hx. injection Hx as <-.
  match goal with H : (if negb _ then Err _ else Ok tt) = Ok _, H' : InterimTranscriptHash _ _ ?t = Ok _ |- _ =>
    match type of H with context [t] => apply tag_checked in H; rewrite H in H' end end.
  assumption.
Qed.

Lemma ProcessCommit_current proposals commit g g' : ProcessCommit proposals commit g = (Ok tt, g') -> interim_current g'.
Proof.
  intros Hx. unfold ProcessCommit in Hx. run_ok_in Hx. destruct (public_sender _ _); [by eapply processExternalCommit_current|].
  run_ok_in Hx. injection Hx as <-.
  match goal with H : (if negb _ then Err _ else Ok tt) = Ok _, H' : InterimTranscriptHash _ _ ?t = Ok _ |- _ =>
    match type of H with context [t] => apply tag_checked in H; rewrite H in H' end end.
  assumption.
Qed.

Lemma JoinFromWelcome_current suite welcome opt g : JoinFromWelcome suite welcome opt = Ok g -> interim_current g.
Proof.
  intros Hx. unfold JoinFromWelcome in Hx. apply obind_ok in Hx as ([[[kp gs] psk] gi] & _ & Hx).
  apply obind_ok in Hx as (rt & _ & Hx). apply obind_ok in Hx as ([l|] & _ & Hx); [|done].
  apply obind_ok in Hx as (priv & _ & Hx). apply obind_ok in Hx as (gcb & _ & Hx). apply obind_ok in Hx as (es & _ & Hx).
  destruct (bytes_Equal _ _) eqn:E; [|done]. cbn [negb] in Hx. apply bytes_Equal_spec in E.
  apply obind_ok in Hx as (interim & Hi & Hx). apply obind_ok in Hx as (st & _ & Hx). apply Ok_inj in Hx as <-.
  unfold interim_current. cbn [g_groupContext g_suite g_epoch g_interim]. by rewrite E.
Qed.

(** A new group has the empty interim hash, no hash of anything. *)
Lemma NewGroup_not_current r1 r2 suite gid cred signer lifetime g : NewGroup r1 r2 suite gid cred signer lifetime = Ok g ->
  ~ interim_current g.
Proof.
  intros Hx. unfold NewGroup in Hx. apply obind_ok in Hx as ([[kp ip] lp] & _ & Hx). apply obind_ok in Hx as (th & _ & Hx).
  apply obind_ok in Hx as (gcb & _ & Hx). apply obind_ok in Hx as (es & _ & Hx). apply obind_ok in Hx as (st & _ & Hx).
  apply Ok_inj in Hx as <-. unfold interim_current, InterimTranscriptHash. cbn [g_groupContext g_suite g_epoch g_interim].
  intros Hi. apply obind_ok in Hi as (b & _ & Hi). apply Ok_inj in Hi.
  pose proof (hash_Sum_len (NewHash suite)) as Hl. pose proof (hash_Size_range (NewHash suite)) as Hr.
  unfold Suite_Hash in Hi. match type of Hi with hash_Sum _ ?x = _ => specialize (Hl x) end.
  rewrite Hi in Hl. unfold len in Hl. cbn in Hl. lia.
Qed.
End current.

(** * Properties *)


(** ** A newcomer of the pair, and of a new group *)

Module Newcomer.
#[local] Existing Instances toy toy_laws.

Definition credential : Credential := mkCredential CredentialTypeBasic [byte_of_Z 70] [].
Definition signer : Signer (StdCrypto := toy) := Example.signer 7.
Definition lifetime : Lifetime := mkLifetime 0 (2 ^ 64 - 1).
Definition info (g : Group) : GroupInfo := value (mkGroupInfo Pair.context [] [] 0 []) (PublishGroupInfo g).
Definition joins (g : Group) : outcome (Group * bytes) :=
  ExternalCommit Joining.newcomer toy_suite (info g) credential signer lifetime.

Lemma newcomer_curves r : curve_keys toy_suite r.
Proof.
  exists tt. split; [done|]. split.
  - intros ikm priv pub Hx. change (DeriveKeyPair toy_suite ikm) with (Ok (toy_hash ikm, toy_public (toy_hash ikm))) in Hx.
    assert (len (toy_hash ikm) = 32) as Hl by apply len_be_bytes. revert Hl Hx. generalize (toy_hash ikm). intros k Hl Hx.
    injection Hx as <- <-. exists (be_uint k). split; [|exact eq_refl]. cbn [curve_NewPrivateKey toy]. unfold toy_point. by rewrite Hl.
  - intros sk _. exists (be_uint (be_bytes 32 (3 * sk))). cbn [curve_NewPublicKey ecdhpub_Bytes ecdh_PublicKey toy]. unfold toy_point.
    by rewrite len_be_bytes.
Qed.

Lemma newcomer_ready : external_ready 1 (Pair.member 1) (info (Pair.member 1)) Joining.newcomer credential lifetime.
Proof.
  split; [vm_compute; reflexivity|exact Pair.tree2_wf|reflexivity| | |vm_compute; reflexivity| | |left; apply newcomer_curves].
  - split; [done|]. apply populated_b_ok. vm_compute. reflexivity.
  - done.
  - vm_compute. congruence.
  - repeat split; cbn; try done; lia.
Qed.

Lemma newcomer_leaf0 : LeafNodeAt (Example.tree 2) 0 = Ok (Example.leaf 0).
Proof. vm_compute. reflexivity. Qed.

Lemma newcomer_other : SignaturePublicKey toy_suite signer <> Ok (ln_SignatureKey (Example.leaf 0)).
Proof. vm_compute. congruence. Qed.

Lemma newcomer_admitted : admits 1 (Pair.member 1) (info (Pair.member 1)) Joining.newcomer credential signer lifetime (Pair.member 0).
Proof.
  split; [by split|split; [done|apply populated_b_ok; vm_compute; reflexivity]| |].
  - change (g_tree (Pair.member 1)) with (Example.tree 2). change (g_ownLeaf (Pair.member 0)) with 0. rewrite newcomer_leaf0.
    intros ln Hln. apply Ok_inj in Hln as <-. exact newcomer_other.
  - intros wt bv l. apply (newcomer_keys 1 (Pair.member 1) (info (Pair.member 1)) Joining.newcomer credential signer lifetime wt bv l 0
      (g_priv (Pair.member 0)) (Example.leaf 0) newcomer_ready ltac:(lia) newcomer_leaf0 newcomer_other).
    exact (pt_keys _ _ _ (Pair.ready 0 (or_introl eq_refl))).
Qed.

(** The newcomer's commit, its tree encodable and with valid parent hashes. *)
Definition joined_b (g : Group) : bool :=
  match joins g, external_tree Joining.newcomer toy_suite (info g) credential signer lifetime with
  | Ok (j, _), Ok (wt, _, l) =>
      match LeafNodeAt (g_tree j) l with Ok up => is_ok (RatchetTree_MarshalMLS (swap_leaf l up wt)) | _ => false end &&
      match VerifyParentHashes (g_tree j) with Ok b => b | _ => false end
  | _, _ => false
  end.

Lemma joined_b_ok g : g_suite g = toy_suite -> joined_b g = true ->
  exists j commit, joins g = Ok (j, commit) /\ joined_encodable g (info g) Joining.newcomer credential signer lifetime j /\
    VerifyParentHashes (g_tree j) = Ok true.
Proof.
  unfold joined_b, joined_encodable. intros ->. destruct (joins g) as [[j commit]| | |]; [|discriminate..].
  destruct (external_tree _ _ _ _ _ _) as [[[wt bv] l]| | |]; [|discriminate..]. intros [Hm Hv]%andb_true_iff.
  exists j, commit. split; [reflexivity|]. split.
  - intros wt' bv' l' up [= <- <- <-] Hl. rewrite Hl in Hm. exact Hm.
  - destruct (VerifyParentHashes (g_tree j)) as [[]| | |]; try discriminate. reflexivity.
Qed.

Lemma newcomer_joined : joined_b (Pair.member 1) = true.
Proof. vm_compute. reflexivity. Qed.

(** A group that its creator has just made. *)
Definition creator : outcome Group :=
  NewGroup (11 : Rand (StdCrypto := toy)) (12 : Rand (StdCrypto := toy)) toy_suite Example.group_id
    (mkCredential CredentialTypeBasic [byte_of_Z 65] []) (Example.signer 1) lifetime.
Definition mismatch : string := "group: processExternalCommit: confirmation_tag mismatch".
Definition shut_out : bool :=
  match creator with
  | Ok g => match PublishGroupInfo g with
            | Ok gi => match ExternalCommit Joining.newcomer toy_suite gi credential signer lifetime with
                       | Ok (j, commit) => match (ProcessCommit [] commit g).1 with
                                           | Err e => bool_decide (e = mismatch) && (Epoch g =? 0) && (Epoch j =? 1)
                                           | _ => false
                                           end
                       | _ => false
                       end
            | _ => false
            end
  | _ => false
  end.
End Newcomer.

#[local] Existing Instances toy toy_laws.


