(* ===== verification/Interop.v ===== *)
(** [interop/server]: the gRPC server of the interoperability harness.

    [server.go].  A [*Server] is the record [Server]: the group states and the
    key packages waiting for a Welcome, each under a 32-bit handle, and the next
    handle.  A remote call is a computation of the monad [RM], which takes the
    server and returns a reply, or a status code, with the server left behind.
    A method of a [*state] is a computation of [SM]; what it assigned stays when
    it fails, as in Go.  Every call holds the server's lock while it looks at
    the maps (the four that make a group do so before, on values of their own),
    so that calls act one after the other.  The draws of a call from
    [crypto/rand] are arguments; key generation of [crypto/ed25519] and
    [crypto/ecdsa] is the class [KeyGen].  A status carries the text of the
    innermost error. *)

From Stdlib Require Import ZArith Lia Strings.Byte.
From stdpp Require Import base list numbers strings sets gmap.
From S2P Require Import Prelude Syntax TreeNodes TreeMath Cipher ToyCrypto RatchetTree TreeSync TreeKEM.
From S2P Require Import KeySchedule Framing GroupMessages Group GroupProposals GroupSync GroupKeys GroupJoin GroupExternal.

(** * Replies *)

(** The status codes of [google.golang.org/grpc/codes] that the server uses. *)
Inductive Code := InvalidArgument | NotFound | FailedPrecondition | Unimplemented | Internal.

#[global] Instance Code_eq_dec : EqDecision Code.
Proof. solve_decision. Defined.

(** A panic ends the process; a loop that does not end holds the lock. *)
Inductive reply (A : Type) : Type :=
| Reply (a : A)
| Status (c : Code) (msg : string)
| Crash
| Hang.
Arguments Reply {A} a.
Arguments Status {A} c msg.
Arguments Crash {A}.
Arguments Hang {A}.

(** [return nil, status.Errorf(code, "...: %v", err)] when [err != nil]. *)
Definition or_status {A} (c : Code) (m : outcome A) : reply A :=
  match m with Ok a => Reply a | Err e => Status c e | Panic => Crash | Diverge => Hang end.

Definition rbind {A B} (m : reply A) (k : A -> reply B) : reply B :=
  match m with Reply a => k a | Status c e => Status c e | Crash => Crash | Hang => Hang end.

(** Computations over a value of type [S] that keep their assignments. *)
Definition SR (S A : Type) : Type := S -> reply A * S.

Definition sbind {S A B} (m : SR S A) (k : A -> SR S B) : SR S B := fun s =>
  match m s with
  | (Reply a, s') => k a s'
  | (Status c e, s') => (Status c e, s')
  | (Crash, s') => (Crash, s')
  | (Hang, s') => (Hang, s')
  end.
Definition slift {S A} (m : reply A) : SR S A := fun s => (m, s).
Definition sget {S} : SR S S := fun s => (Reply s, s).
Definition sput {S} (s' : S) : SR S unit := fun _ => (Reply tt, s').

Notation "'rpc!' x := m 'in' k" := (sbind m (fun x => k))
  (at level 10, x pattern, m at level 100, k at level 200) : go_scope.

(** The key generation of the standard library: an Ed25519 key with its seed, a
    P-256 key with its scalar. *)
Class KeyGen {C : StdCrypto} : Type := {
  ed25519_GenerateKey : Rand -> outcome Signer;
  ed25519_Seed : Signer -> bytes;
  ecdsa_GenerateKey_P256 : Rand -> outcome Signer;
  ecdsa_Bytes : Signer -> outcome bytes
}.
Arguments KeyGen C : clear implicits.

Section server.
Context {C : StdCrypto} {K : KeyGen C}.

(** * Data *)

(* interop/server/server.go:23-27 state *)
Record state := mkState {
  st_suite : Suite;
  st_g : Group;
  st_pendingEpochAuth : option bytes
}.

(* interop/server/server.go:29-35 pendingKP *)
Record pendingKP := mkPendingKP {
  tx_suite : Suite;
  tx_kpMsg : bytes;
  tx_initPriv : bytes;
  tx_encPriv : bytes;
  tx_signer : Signer
}.

(* interop/server/server.go:39-45 Server *)
Record Server := mkServer {
  states : gmap Z state;
  txns : gmap Z pendingKP;
  nextID : Z
}.

(* interop/server/server.go:47-49 New *)
Definition Server_New : Server := mkServer ∅ ∅ 1.

Definition RM := SR Server.
Definition SM := SR state.

Definition with_states (m : gmap Z state) (s : Server) : Server := mkServer m (txns s) (nextID s).
Definition with_txns (m : gmap Z pendingKP) (s : Server) : Server := mkServer (states s) m (nextID s).

(** * Helpers *)

(* interop/server/server.go:51-51 Server.alloc *)
Definition alloc : RM Z := fun s => (Reply (nextID s), mkServer (states s) (txns s) (u32 (nextID s + 1))).

(** The conversion to [cipher.CipherSuite] keeps 16 bits. *)
(* interop/server/server.go:53-59 lookupSuite *)
Definition lookupSuite (cs : Z) : reply Suite :=
  match Lookup (u16 cs) with
  | Some suite => Reply suite
  | None => Status InvalidArgument "unsupported ciphersuite"
  end.

(* interop/server/server.go:63-86 newSigner *)
Definition newSigner (r : Rand) (cs : Z) : outcome (Signer * bytes) :=
  if (cs =? X25519_AES128GCM_SHA256_Ed25519) || (cs =? XWING_AES256GCM_SHA256_Ed25519) then
    let! priv := ed25519_GenerateKey r in
    Ok (priv, ed25519_Seed priv)
  else if cs =? P256_AES128GCM_SHA256_P256 then
    let! sk := ecdsa_GenerateKey_P256 r in
    let! raw := ecdsa_Bytes sk in
    Ok (sk, raw)
  else Err "no signer for suite".

(* interop/server/server.go:88-88 maxLifetime *)
Definition maxLifetime : Lifetime := mkLifetime 0 (2 ^ 64 - 1).

(** [getState], and what every caller does with the pointer: the method [k] runs
    on the state under the handle. *)
(* interop/server/server.go:90-96 Server.getState *)
Definition with_state {A} (id : Z) (k : SM A) : RM A := fun s =>
  match states s !! id with
  | None => (Status NotFound "unknown state_id", s)
  | Some st => let (r, st') := k st in (r, with_states (<[id := st']> (states s)) s)
  end.

(** The loop over the leaves: those without a credential are passed over. *)
(* interop/server/server.go:99-107 state.resolveIdentity *)
Fixpoint resolve_loop (g : Group) (identity : bytes) (leaves : list Z) : reply Z :=
  match leaves with
  | [] => Status NotFound "no member with identity"
  | leaf :: leaves =>
      match LeafCredential g leaf with
      | Ok (cred, _) => if bytes_Equal (Identity cred) identity then Reply leaf else resolve_loop g identity leaves
      | Err _ => resolve_loop g identity leaves
      | Panic => Crash
      | Diverge => Hang
      end
  end.

(* interop/server/server.go:98-109 state.resolveIdentity *)
Definition resolveIdentity (st : state) (identity : bytes) : reply Z :=
  rbind (or_status Internal (ActiveLeaves (st_g st))) (resolve_loop (st_g st) identity).

(** A method of the group: [st.g] is what it leaves, also when it fails. *)
Definition on_group {A} (c : Code) (m : GM A) : SM A := fun st =>
  let (o, g') := m (st_g st) in (or_status c o, mkState (st_suite st) g' (st_pendingEpochAuth st)).

(** * The calls *)

(* interop/server/server.go:111-113 Server.Name *)
Definition Server_Name : RM string := slift (Reply "mls-go").

(* interop/server/server.go:115-121 Server.SupportedCiphersuites *)
Definition Server_SupportedCiphersuites : RM (list Z) :=
  slift (Reply [X25519_AES128GCM_SHA256_Ed25519; P256_AES128GCM_SHA256_P256]).

Definition basic (identity : bytes) : Credential := mkCredential CredentialTypeBasic identity [].

(** [g.SetEncryptHandshakes(v)] on a group that the call has just made. *)
Definition encrypting (v : bool) (g : Group) : Group := (SetEncryptHandshakes v g).2.

(* interop/server/server.go:123-143 Server.CreateGroup *)
Definition Server_CreateGroup (rs r1 r2 : Rand) (groupId : bytes) (cipherSuite : Z) (identity : bytes) (encryptHandshake : bool) : RM Z :=
  rpc! suite := slift (lookupSuite cipherSuite) in
  rpc! (signer, _) := slift (or_status Internal (newSigner rs (u16 cipherSuite))) in
  rpc! g := slift (or_status Internal (NewGroup r1 r2 suite groupId (basic identity) signer maxLifetime)) in
  let g := encrypting encryptHandshake g in
  rpc! id := alloc in
  rpc! s := sget in
  rpc! _ := sput (with_states (<[id := mkState suite g None]> (states s)) s) in
  slift (Reply id).

(* interop/server/server.go:145-153 Server.StateAuth *)
Definition Server_StateAuth (stateId : Z) : RM bytes :=
  with_state stateId (rpc! st := sget in slift (Reply (EpochAuthenticator (st_g st)))).

(** [pb.CreateKeyPackageResponse] *)
Record CreateKeyPackageResponse := mkCreateKeyPackageResponse {
  TransactionId : Z;
  KeyPackageMsg : bytes;
  InitPriv : bytes;
  EncryptionPriv : bytes;
  SignaturePriv : bytes
}.

(* interop/server/server.go:155-184 Server.CreateKeyPackage *)
Definition Server_CreateKeyPackage (rs r1 r2 : Rand) (cipherSuite : Z) (identity : bytes) : RM CreateKeyPackageResponse :=
  rpc! suite := slift (lookupSuite cipherSuite) in
  rpc! (signer, sigSeed) := slift (or_status Internal (newSigner rs (u16 cipherSuite))) in
  rpc! (kp, initPriv, leafPriv) := slift (or_status Internal (NewKeyPackage suite r1 r2 (basic identity) signer maxLifetime)) in
  rpc! kpMsg := slift (or_status Internal (EncodeKeyPackageMessage kp)) in
  rpc! tid := alloc in
  rpc! s := sget in
  rpc! _ := sput (with_txns (<[tid := mkPendingKP suite kpMsg initPriv leafPriv signer]> (txns s)) s) in
  slift (Reply (mkCreateKeyPackageResponse tid kpMsg initPriv leafPriv sigSeed)).

(* interop/server/server.go:186-209 Server.JoinGroup *)
Definition Server_JoinGroup (transactionId : Z) (welcome ratchetTree : bytes) (encryptHandshake : bool) : RM (Z * bytes) :=
  rpc! s := sget in
  match txns s !! transactionId with
  | None => slift (Status NotFound "unknown transaction_id")
  | Some tx =>
      rpc! g := slift (or_status Internal (JoinFromWelcome (tx_suite tx) welcome
        (mkJoinOptions (tx_kpMsg tx) (tx_initPriv tx) (tx_encPriv tx) (Some (tx_signer tx)) ratchetTree ∅))) in
      let g := encrypting encryptHandshake g in
      rpc! id := alloc in
      rpc! s := sget in
      rpc! _ := sput (with_states (<[id := mkState (tx_suite tx) g None]> (states s)) s) in
      rpc! s := sget in
      rpc! _ := sput (with_txns (delete transactionId (txns s)) s) in
      slift (Reply (id, EpochAuthenticator g))
  end.

(* interop/server/server.go:211-227 Server.AddProposal *)
Definition Server_AddProposal (guard : bytes) (stateId : Z) (keyPackage : bytes) : RM bytes :=
  with_state stateId (
    rpc! kp := slift (or_status InvalidArgument (DecodeKeyPackageMessage keyPackage)) in
    on_group Internal (FrameProposal guard (ProposeAdd kp))).

(* interop/server/server.go:229-245 Server.UpdateProposal *)
Definition Server_UpdateProposal (r : Rand) (guard : bytes) (stateId : Z) : RM bytes :=
  with_state stateId (
    rpc! prop := on_group Internal (ProposeUpdate r) in
    on_group Internal (FrameProposal guard prop)).

(* interop/server/server.go:247-263 Server.RemoveProposal *)
Definition Server_RemoveProposal (guard : bytes) (stateId : Z) (removedId : bytes) : RM bytes :=
  with_state stateId (
    rpc! st := sget in
    rpc! leaf := slift (resolveIdentity st removedId) in
    on_group Internal (FrameProposal guard (ProposeRemove leaf))).

(** [pb.ProposalDescription] *)
Record ProposalDescription := mkProposalDescription {
  pd_ProposalType : string;
  pd_KeyPackage : bytes;
  pd_RemovedId : bytes
}.

(* interop/server/server.go:273-290 Server.Commit *)
Fixpoint by_value (st : state) (pds : list ProposalDescription) : reply (list Proposal) :=
  match pds with
  | [] => Reply []
  | pd :: pds =>
      rbind (if decide (pd_ProposalType pd = "add") then
               rbind (or_status InvalidArgument (DecodeKeyPackageMessage (pd_KeyPackage pd))) (fun kp => Reply (ProposeAdd kp))
             else if decide (pd_ProposalType pd = "remove") then
               rbind (resolveIdentity st (pd_RemovedId pd)) (fun leaf => Reply (ProposeRemove leaf))
             else Status Unimplemented "by_value proposal_type not supported")
        (fun p => rbind (by_value st pds) (fun ps => Reply (p :: ps)))
  end.

(* interop/server/server.go:265-300 Server.Commit *)
Definition Server_Commit (r : CommitRand) (stateId : Z) (byReference : list bytes) (byValue : list ProposalDescription)
  : RM (bytes * option bytes) :=
  with_state stateId (
    rpc! st := sget in
    rpc! props := slift (by_value st byValue) in
    rpc! (commit, welcome) := on_group Internal (Group_Commit r (mkCommitOptions props byReference)) in
    rpc! st := sget in
    rpc! _ := sput (mkState (st_suite st) (st_g st) (Some (EpochAuthenticator (st_g st)))) in
    slift (Reply (commit, welcome))).

(* interop/server/server.go:302-313 Server.HandleCommit *)
Definition Server_HandleCommit (stateId : Z) (proposal : list bytes) (commit : bytes) : RM (Z * bytes) :=
  with_state stateId (
    rpc! _ := on_group Internal (ProcessCommit proposal commit) in
    rpc! st := sget in
    slift (Reply (stateId, EpochAuthenticator (st_g st)))).

(* interop/server/server.go:315-328 Server.HandlePendingCommit *)
Definition Server_HandlePendingCommit (stateId : Z) : RM (Z * bytes) :=
  with_state stateId (
    rpc! st := sget in
    match st_pendingEpochAuth st with
    | None => slift (Status FailedPrecondition "no pending commit")
    | Some ea =>
        rpc! _ := sput (mkState (st_suite st) (st_g st) None) in
        slift (Reply (stateId, ea))
    end).

(* interop/server/server.go:330-342 Server.Export *)
Definition Server_Export (stateId : Z) (label : string) (context : bytes) (keyLength : Z) : RM bytes :=
  with_state stateId (
    rpc! st := sget in
    slift (or_status Internal (Exporter (st_g st) label context keyLength))).

(* interop/server/server.go:344-356 Server.Protect *)
Definition Server_Protect (guard : bytes) (stateId : Z) (plaintext authenticatedData : bytes) : RM bytes :=
  with_state stateId (on_group Internal (ProtectApplication guard plaintext authenticatedData)).

(* interop/server/server.go:358-370 Server.Unprotect *)
Definition Server_Unprotect (stateId : Z) (ciphertext : bytes) : RM (bytes * bytes) :=
  with_state stateId (
    rpc! st := sget in
    slift (or_status Internal (UnprotectApplication (st_g st) ciphertext))).

(* interop/server/server.go:372-390 Server.GroupInfo *)
Definition Server_GroupInfo (stateId : Z) : RM (bytes * option bytes) :=
  with_state stateId (
    rpc! st := sget in
    rpc! gi := slift (or_status Internal (PublishGroupInfo (st_g st))) in
    rpc! giBytes := slift (or_status Internal (GroupInfo_MarshalMLS gi)) in
    slift (Reply (giBytes, RatchetTreeExtension gi))).

(** [psks] is the number of pre-shared keys in the request. *)
(* interop/server/server.go:392-421 Server.ExternalJoin *)
Definition Server_ExternalJoin (rs : Rand) (r : ExternalRand) (psks : Z) (groupInfo identity : bytes) (encryptHandshake : bool)
  : RM (Z * bytes * bytes) :=
  if 0 <? psks then slift (Status Unimplemented "PSKs in external join not supported") else
  rpc! gi := slift (or_status InvalidArgument (GroupInfo_UnmarshalMLS groupInfo)) in
  let cs := gc_CipherSuite (gi_GroupContext gi) in
  rpc! suite := slift (lookupSuite cs) in
  rpc! (signer, _) := slift (or_status Internal (newSigner rs cs)) in
  rpc! (g, commit) := slift (or_status Internal (ExternalCommit r suite gi (basic identity) signer maxLifetime)) in
  let g := encrypting encryptHandshake g in
  rpc! id := alloc in
  rpc! s := sget in
  rpc! _ := sput (with_states (<[id := mkState suite g None]> (states s)) s) in
  slift (Reply (id, commit, EpochAuthenticator g)).

(* interop/server/server.go:423-428 Server.Free *)
Definition Server_Free (stateId : Z) : RM unit :=
  rpc! s := sget in
  sput (with_states (delete stateId (states s)) s).
End server.

(** * Sequences of calls *)

Section calls.
Context {C : StdCrypto} {K : KeyGen C}.

(** A request with the draws of its call. *)
Inductive Call :=
| CName
| CSupportedCiphersuites
| CCreateGroup (rs r1 r2 : Rand) (groupId : bytes) (cipherSuite : Z) (identity : bytes) (encryptHandshake : bool)
| CStateAuth (id : Z)
| CCreateKeyPackage (rs r1 r2 : Rand) (cipherSuite : Z) (identity : bytes)
| CJoinGroup (tid : Z) (welcome ratchetTree : bytes) (encryptHandshake : bool)
| CAddProposal (guard : bytes) (id : Z) (keyPackage : bytes)
| CUpdateProposal (r : Rand) (guard : bytes) (id : Z)
| CRemoveProposal (guard : bytes) (id : Z) (removedId : bytes)
| CCommit (r : CommitRand) (id : Z) (byReference : list bytes) (byValue : list ProposalDescription)
| CHandleCommit (id : Z) (proposal : list bytes) (commit : bytes)
| CHandlePendingCommit (id : Z)
| CExport (id : Z) (label : string) (context : bytes) (keyLength : Z)
| CProtect (guard : bytes) (id : Z) (plaintext authenticatedData : bytes)
| CUnprotect (id : Z) (ciphertext : bytes)
| CGroupInfo (id : Z)
| CExternalJoin (rs : Rand) (r : ExternalRand) (psks : Z) (groupInfo identity : bytes) (encryptHandshake : bool)
| CFree (id : Z).

Inductive Response :=
| RName (name : string)
| RCiphersuites (l : list Z)
| RState (id : Z)
| RAuth (secret : bytes)
| RKeyPackage (r : CreateKeyPackageResponse)
| RHandled (id : Z) (epochAuthenticator : bytes)
| RMessage (msg : bytes)
| RCommit (commit : bytes) (welcome : option bytes)
| RSecret (secret : bytes)
| RPlaintext (plaintext authenticatedData : bytes)
| RGroupInfo (groupInfo : bytes) (ratchetTree : option bytes)
| RExternal (id : Z) (commit epochAuthenticator : bytes)
| RFreed.

Definition smap {S A B} (f : A -> B) (m : SR S A) : SR S B := rpc! a := m in slift (Reply (f a)).

Definition serve (c : Call) : RM Response :=
  match c with
  | CName => smap RName Server_Name
  | CSupportedCiphersuites => smap RCiphersuites Server_SupportedCiphersuites
  | CCreateGroup rs r1 r2 gid cs ident enc => smap RState (Server_CreateGroup rs r1 r2 gid cs ident enc)
  | CStateAuth id => smap RAuth (Server_StateAuth id)
  | CCreateKeyPackage rs r1 r2 cs ident => smap RKeyPackage (Server_CreateKeyPackage rs r1 r2 cs ident)
  | CJoinGroup tid w rt enc => smap (fun '(id, ea) => RHandled id ea) (Server_JoinGroup tid w rt enc)
  | CAddProposal guard id kp => smap RMessage (Server_AddProposal guard id kp)
  | CUpdateProposal r guard id => smap RMessage (Server_UpdateProposal r guard id)
  | CRemoveProposal guard id rm => smap RMessage (Server_RemoveProposal guard id rm)
  | CCommit r id refs vals => smap (fun '(c, w) => RCommit c w) (Server_Commit r id refs vals)
  | CHandleCommit id ps c => smap (fun '(id, ea) => RHandled id ea) (Server_HandleCommit id ps c)
  | CHandlePendingCommit id => smap (fun '(id, ea) => RHandled id ea) (Server_HandlePendingCommit id)
  | CExport id label ctx n => smap RSecret (Server_Export id label ctx n)
  | CProtect guard id pt ad => smap RMessage (Server_Protect guard id pt ad)
  | CUnprotect id ct => smap (fun '(pt, ad) => RPlaintext pt ad) (Server_Unprotect id ct)
  | CGroupInfo id => smap (fun '(gi, rt) => RGroupInfo gi rt) (Server_GroupInfo id)
  | CExternalJoin rs r n gi ident enc => smap (fun '(id, c, ea) => RExternal id c ea) (Server_ExternalJoin rs r n gi ident enc)
  | CFree id => smap (fun _ => RFreed) (Server_Free id)
  end.

(** The process goes on after a reply or a status. *)
Definition answered {A} (r : reply A) : bool := match r with Reply _ | Status _ _ => true | _ => false end.

(** The answers to a sequence of calls, if the process survives them. *)
Fixpoint serve_all (cs : list Call) (s : Server) : option (list (reply Response) * Server) :=
  match cs with
  | [] => Some ([], s)
  | c :: cs =>
      let (r, s) := serve c s in
      if answered r then
        match serve_all cs s with Some (rs, s) => Some (r :: rs, s) | None => None end
      else None
  end.

(** The state that a call names. *)
Definition handle (c : Call) : option Z :=
  match c with
  | CStateAuth id | CAddProposal _ id _ | CUpdateProposal _ _ id | CRemoveProposal _ id _ | CCommit _ id _ _
  | CHandleCommit id _ _ | CHandlePendingCommit id | CExport id _ _ _ | CProtect _ id _ _ | CUnprotect id _
  | CGroupInfo id | CFree id => Some id
  | _ => None
  end.

(** ** What a call touches *)

(** Handles given out are smaller than the next one, and none is given out
    twice. *)
Record handles_ok (s : Server) : Prop := {
  ho_next : 0 < nextID s;
  ho_states : forall id, is_Some (states s !! id) -> 0 < id < nextID s;
  ho_txns : forall id, is_Some (txns s !! id) -> 0 < id < nextID s;
  ho_apart : forall id, is_Some (states s !! id) -> txns s !! id = None
}.

(** A call that reads and writes the state under one handle. *)
Definition local {A} (id : Z) (m : RM A) : Prop := forall s,
  txns (m s).2 = txns s /\ nextID (m s).2 = nextID s /\
  (forall id', id' <> id -> states (m s).2 !! id' = states s !! id') /\
  (is_Some (states (m s).2 !! id) -> is_Some (states s !! id)) /\
  (forall s', states s' !! id = states s !! id -> (m s').1 = (m s).1 /\ states (m s').2 !! id = states (m s).2 !! id).

Lemma smap_fst {S A B} (f : A -> B) (m : SR S A) s :
  (smap f m s).1 = match (m s).1 with Reply a => Reply (f a) | Status c e => Status c e | Crash => Crash | Hang => Hang end /\
  (smap f m s).2 = (m s).2.
Proof. unfold smap, sbind, slift. by destruct (m s) as [[]]. Qed.

Lemma local_smap {A B} (f : A -> B) id (m : RM A) : local id m -> local id (smap f m).
Proof.
  intros Hm s. destruct (smap_fst f m s) as [-> ->]. destruct (Hm s) as (H1 & H2 & H3 & H4 & H5). split_and!; try done.
  intros s' E. destruct (smap_fst f m s') as [-> ->]. destruct (H5 s' E) as [-> ->]. done.
Qed.

Lemma local_with_state {A} id (k : SM A) : local id (with_state id k).
Proof.
  intros s. unfold with_state. destruct (states s !! id) as [st|] eqn:E.
  - destruct (k st) as [r st'] eqn:Ek. cbn [fst snd with_states states txns nextID]. split_and!; try done.
    + intros id' Hne. by rewrite lookup_insert_ne.
    + intros s' E'. rewrite E', Ek. cbn [fst snd with_states states]. by rewrite !lookup_insert_eq.
  - cbn [fst snd]. split_and!; try done; [by rewrite E|]. intros s' E'. rewrite E'. cbn [fst snd]. by rewrite E, E'.
Qed.

Lemma local_free id : local id (Server_Free id).
Proof.
  intros s. cbn. split_and!; try done.
  - intros id' Hne. by rewrite lookup_delete_ne.
  - rewrite lookup_delete_eq. by intros [].
  - intros s' _. by rewrite !lookup_delete_eq.
Qed.

(** Every call that names a state is local to it. *)
Lemma serve_local c id : handle c = Some id -> local id (serve c).
Proof. destruct c; intros [= ->]; apply local_smap; apply local_with_state || apply local_free. Qed.

(** A call that names no state leaves the server alone or puts one new entry
    under the next handle; a join also takes its key package away. *)
Inductive fresh_step (s : Server) : Server -> Prop :=
| fresh_none : fresh_step s s
| fresh_state st : fresh_step s (mkServer (<[nextID s := st]> (states s)) (txns s) (u32 (nextID s + 1)))
| fresh_joined st t : fresh_step s (mkServer (<[nextID s := st]> (states s)) (delete t (txns s)) (u32 (nextID s + 1)))
| fresh_txn tx : fresh_step s (mkServer (states s) (<[nextID s := tx]> (txns s)) (u32 (nextID s + 1))).

Lemma sbind_slift {S A B} (m : reply A) (k : A -> SR S B) s (P : S -> Prop) : P s -> (forall a, m = Reply a -> P (k a s).2) ->
  P (sbind (slift m) k s).2.
Proof. intros Hs Hk. unfold sbind, slift. destruct m; auto. Qed.

Ltac fresh_bind s := apply (sbind_slift _ _ _ (fresh_step s)); [done|];
  let x := fresh "x" in intros x _; repeat match goal with y : (_ * _)%type |- _ => destruct y end.

Lemma serve_fresh c s : handle c = None -> fresh_step s (serve c s).2.
Proof.
  pose proof (fresh_none s) as Hn.
  assert (forall {A B} (f : A -> B) (m : RM A), fresh_step s (m s).2 -> fresh_step s (smap f m s).2) as Hmap.
  { intros A B f m Hm. by rewrite (proj2 (smap_fst f m s)). }
  destruct c; try discriminate; intros _; apply Hmap; try exact Hn.
  - unfold Server_CreateGroup. do 3 fresh_bind s. exact (fresh_state s _).
  - unfold Server_CreateKeyPackage. do 4 fresh_bind s. exact (fresh_txn s _).
  - unfold Server_JoinGroup, sbind at 1, sget at 1. destruct (txns s !! tid) as [tx|]; [|done]. fresh_bind s. exact (fresh_joined s _ _).
  - unfold Server_ExternalJoin. destruct (0 <? psks); [done|]. do 4 fresh_bind s. exact (fresh_state s _).
Qed.

(** The handles stay in order until the counter wraps around. *)
Lemma serve_handles c s : handles_ok s -> nextID s + 1 < 2 ^ 32 ->
  handles_ok (serve c s).2 /\ nextID s <= nextID (serve c s).2 <= nextID s + 1.
Proof.
  intros [H0 H1 H2 H3] Hw. destruct (handle c) as [id|] eqn:Eh.
  - destruct (serve_local c id Eh s) as (Et & En & Hoth & Hin & _). split; [|lia].
    assert (forall id', is_Some (states (serve c s).2 !! id') -> is_Some (states s !! id')) as Hsub.
    { intros id'. destruct (decide (id' = id)) as [->|]; [done|]. by rewrite Hoth. }
    split; [lia|..]; intros id' Hid; rewrite ?En, ?Et in *; auto.
  - assert (forall id, nextID s <= id -> states s !! id = None /\ txns s !! id = None) as Hnew.
    { intros id Hid. split; apply eq_None_not_Some; [intros ?%H1; lia|intros ?%H2; lia]. }
    destruct (serve_fresh c s Eh) as [|st|st t|tx]; cbn [nextID states txns]; rewrite ?u32_small by lia; (split; [|lia]); [done|..];
      split; cbn [nextID states txns]; rewrite ?u32_small by lia; try lia; intros id;
      rewrite ?lookup_insert_is_Some, ?lookup_delete_is_Some, ?lookup_delete_None, ?lookup_insert_None.
    all: try (intros [<-|[? Hid]]; [|apply H1 in Hid || apply H2 in Hid]; lia). all: try (intros Hid; apply H1 in Hid || apply H2 in Hid; lia).
    + intros [<-|[_ Hid]]; [by apply Hnew|auto].
    + intros [_ Hid]. apply H2 in Hid. lia.
    + intros [<-|[_ Hid]]; right; [by apply Hnew|auto].
    + intros Hid. split; [auto|]. apply H1 in Hid. lia.
Qed.

(** A call leaves the states it does not name as they are. *)
Lemma serve_frame c s id : 0 < id < nextID s -> handle c <> Some id -> states (serve c s).2 !! id = states s !! id.
Proof.
  intros Hid Hne. destruct (handle c) as [id'|] eqn:Eh.
  - destruct (serve_local c id' Eh s) as (_ & _ & Hoth & _). apply Hoth. congruence.
  - destruct (serve_fresh c s Eh); cbn [states]; rewrite ?lookup_insert_ne by lia; done.
Qed.

(** The answers to the calls that name [id]. *)
Definition names (id : Z) (c : Call) : bool := bool_decide (handle c = Some id).

Fixpoint answers_for (id : Z) (cs : list Call) (rs : list (reply Response)) : list (reply Response) :=
  match cs, rs with
  | c :: cs, r :: rs => if names id c then r :: answers_for id cs rs else answers_for id cs rs
  | _, _ => []
  end.

Lemma serve_all_independent id cs : forall s s1 rs s', handles_ok s -> 0 < id < nextID s -> nextID s + len cs < 2 ^ 32 ->
  states s1 !! id = states s !! id -> serve_all cs s = Some (rs, s') ->
  exists rs1 s1', serve_all (List.filter (names id) cs) s1 = Some (rs1, s1') /\ rs1 = answers_for id cs rs /\
    states s1' !! id = states s' !! id /\ handles_ok s'.
Proof.
  induction cs as [|c cs IH]; intros s s1 rs s' Hok Hid Hlen Heq Hs; cbn [serve_all List.filter answers_for] in *.
  { injection Hs as <- <-. by exists [], s1. }
  rewrite len_cons in Hlen. pose proof (len_nonneg cs). destruct (serve_handles c s Hok ltac:(lia)) as [Hok' Hn].
  destruct (serve c s) as [r s2] eqn:Ec. cbn [snd] in *. destruct (answered r) eqn:Ea; [|done].
  destruct (serve_all cs s2) as [[rs2 s3]|] eqn:E2; [|done]. injection Hs as <- <-. destruct (names id c) eqn:Hh;
    [apply bool_decide_eq_true in Hh|apply bool_decide_eq_false in Hh].
  - destruct (serve_local c id Hh s) as (_ & _ & _ & _ & Hloc). rewrite Ec in Hloc. destruct (Hloc s1 Heq) as [Er Es].
    cbn [serve_all]. destruct (serve c s1) as [r1 s4]. cbn [fst snd] in Er, Es. rewrite Er, Ea.
    destruct (IH s2 s4 rs2 s3) as (rs1 & s1' & -> & -> & ? & ?); [done|lia|lia|done|done|].
    eexists _, s1'. split_and!; done.
  - apply (IH s2 s1 rs2 s3); [done|lia|lia| |done]. rewrite Heq. symmetry. pose proof (serve_frame c s id Hid Hh) as Hf.
    by rewrite Ec in Hf.
Qed.
End calls.

(** * Servers that talk to each other *)

Section peers.
Context {C : StdCrypto} {K : KeyGen C}.

(** What the calls on a live state do. *)
Lemma with_state_run {A} id (k : SM A) s st : states s !! id = Some st ->
  with_state id k s = ((k st).1, with_states (<[id := (k st).2]> (states s)) s).
Proof. intros E. unfold with_state. rewrite E. by destruct (k st). Qed.

Lemma StateAuth_run id s st : states s !! id = Some st -> (Server_StateAuth id s).1 = Reply (EpochAuthenticator (st_g st)).
Proof. intros E. unfold Server_StateAuth. by rewrite (with_state_run _ _ _ st). Qed.

Lemma Commit_run r id refs vals s out s' : Server_Commit r id refs vals s = (Reply out, s') ->
  exists st props g', states s !! id = Some st /\ by_value st vals = Reply props /\
    Group_Commit r (mkCommitOptions props refs) (st_g st) = (Ok out, g') /\
    s' = with_states (<[id := mkState (st_suite st) g' (Some (EpochAuthenticator g'))]> (states s)) s.
Proof.
  unfold Server_Commit, with_state. destruct (states s !! id) as [st|] eqn:E; [|discriminate]. unfold sbind at 1, sget at 1.
  unfold sbind at 1, slift at 1. destruct (by_value st vals) as [props| | |] eqn:Eb; try discriminate.
  unfold sbind at 1, on_group. destruct (Group_Commit r (mkCommitOptions props refs) (st_g st)) as [[[c w]| | |] g'] eqn:Eg; try discriminate.
  cbv [or_status sbind sget sput slift]. cbn [st_g st_suite fst snd]. intros [= <- <-]. by exists st, props, g'.
Qed.

Lemma HandleCommit_run id proposals commit s st g' : states s !! id = Some st ->
  ProcessCommit proposals commit (st_g st) = (Ok tt, g') ->
  Server_HandleCommit id proposals commit s =
    (Reply (id, EpochAuthenticator g'), with_states (<[id := mkState (st_suite st) g' (st_pendingEpochAuth st)]> (states s)) s).
Proof.
  intros E Hp. unfold Server_HandleCommit. rewrite (with_state_run _ _ _ st E). unfold sbind at 1 3, on_group. rewrite Hp. done.
Qed.

Lemma HandlePendingCommit_run id s st ea : states s !! id = Some st -> st_pendingEpochAuth st = Some ea ->
  Server_HandlePendingCommit id s =
    (Reply (id, ea), with_states (<[id := mkState (st_suite st) (st_g st) None]> (states s)) s).
Proof.
  intros E Hp. unfold Server_HandlePendingCommit. rewrite (with_state_run _ _ _ st E). unfold sbind at 1 3, sget. by rewrite Hp.
Qed.

Lemma HandlePendingCommit_none id s st : states s !! id = Some st -> st_pendingEpochAuth st = None ->
  (Server_HandlePendingCommit id s).1 = Status FailedPrecondition "no pending commit".
Proof.
  intros E Hp. unfold Server_HandlePendingCommit. rewrite (with_state_run _ _ _ st E). unfold sbind at 1, sget. by rewrite Hp.
Qed.

Lemma GroupInfo_run id s gib rt s' : Server_GroupInfo id s = (Reply (gib, rt), s') ->
  exists st gi, states s !! id = Some st /\ PublishGroupInfo (st_g st) = Ok gi /\ GroupInfo_MarshalMLS gi = Ok gib /\
    rt = RatchetTreeExtension gi /\ s' = s.
Proof.
  unfold Server_GroupInfo, with_state. destruct (states s !! id) as [st|] eqn:E; [|discriminate]. unfold sbind at 1, sget.
  unfold sbind at 1, slift at 1. destruct (PublishGroupInfo (st_g st)) as [gi| | |] eqn:Eg; try discriminate. cbn [or_status].
  unfold sbind at 1, slift at 1. destruct (GroupInfo_MarshalMLS gi) as [b| | |] eqn:Em; try discriminate. cbn [or_status slift].
  intros [= <- <- <-]. exists st, gi. split_and!; try done. unfold with_states. rewrite (insert_id _ _ _ E). by destruct s.
Qed.

Lemma ExternalJoin_run rs r n gib ident enc s id commit ea s' : Server_ExternalJoin rs r n gib ident enc s = (Reply (id, commit, ea), s') ->
  exists gi suite signer seed g, GroupInfo_UnmarshalMLS gib = Ok gi /\ Lookup (u16 (gc_CipherSuite (gi_GroupContext gi))) = Some suite /\
    newSigner rs (gc_CipherSuite (gi_GroupContext gi)) = Ok (signer, seed) /\
    ExternalCommit r suite gi (basic ident) signer maxLifetime = Ok (g, commit) /\ id = nextID s /\
    ea = EpochAuthenticator g /\ states s' !! id = Some (mkState suite (encrypting enc g) None).
Proof.
  unfold Server_ExternalJoin. destruct (0 <? n); [discriminate|]. unfold sbind at 1, slift at 1.
  destruct (GroupInfo_UnmarshalMLS gib) as [gi| | |] eqn:Eg; try discriminate. cbn [or_status]. unfold lookupSuite.
  unfold sbind at 1, slift at 1. destruct (Lookup _) as [suite|] eqn:El; [|discriminate].
  unfold sbind at 1, slift at 1. destruct (newSigner _ _) as [[signer seed]| | |] eqn:Es; try discriminate. cbn [or_status].
  unfold sbind at 1, slift at 1. destruct (ExternalCommit _ _ _ _ _ _) as [[g c]| | |] eqn:Ee; try discriminate.
  cbv [or_status sbind sget sput slift alloc]. cbn [states txns nextID].
  intros [= <- <- <- <-]. exists gi, suite, signer, seed, g. split_and!; try done. cbn [with_states states]. by rewrite lookup_insert_eq.
Qed.
End peers.

(** A join that succeeds takes its key package; one that fails changes nothing. *)
Lemma JoinGroup_run {C : StdCrypto} tid welcome rt enc (s s' : Server) o : Server_JoinGroup tid welcome rt enc s = (o, s') ->
  match o with
  | Reply (id, ea) => id = nextID s /\ exists tx g, txns s !! tid = Some tx /\
      JoinFromWelcome (tx_suite tx) welcome
        (mkJoinOptions (tx_kpMsg tx) (tx_initPriv tx) (tx_encPriv tx) (Some (tx_signer tx)) rt ∅) = Ok g /\ ea = EpochAuthenticator g /\
      s' = mkServer (<[id := mkState (tx_suite tx) (encrypting enc g) None]> (states s)) (delete tid (txns s)) (u32 (nextID s + 1))
  | _ => s' = s
  end.
Proof.
  unfold Server_JoinGroup, sbind at 1, sget at 1. destruct (txns s !! tid) as [tx|] eqn:Et; [|by intros [= <- <-]].
  unfold sbind at 1, slift at 1. destruct (JoinFromWelcome _ _ _) as [g| | |] eqn:Ej; cbn [or_status]; [|by intros [= <- <-]..].
  cbv [sbind sget sput slift alloc with_states with_txns]. cbn [states txns nextID]. intros [= <- <-]. split; [done|]. by exists tx, g.
Qed.

Lemma JoinGroup_unknown {C : StdCrypto} tid welcome rt enc (s : Server) : txns s !! tid = None ->
  Server_JoinGroup tid welcome rt enc s = (Status NotFound "unknown transaction_id", s).
Proof. intros E. unfold Server_JoinGroup, sbind at 1, sget at 1. by rewrite E. Qed.

(** The suite number is cut to 16 bits before it is looked up. *)
Lemma ciphersuite_truncated {C : StdCrypto} {K : KeyGen C} rs r1 r2 gid cs k ident enc :
  Server_CreateGroup rs r1 r2 gid (cs + 65536 * k) ident enc = Server_CreateGroup rs r1 r2 gid cs ident enc /\
  Server_CreateKeyPackage rs r1 r2 (cs + 65536 * k) ident = Server_CreateKeyPackage rs r1 r2 cs ident.
Proof.
  assert (u16 (cs + 65536 * k) = u16 cs) as E by (unfold u16; change (2 ^ 16) with 65536; rewrite Z.mul_comm; apply Z_mod_plus_full).
  unfold Server_CreateGroup, Server_CreateKeyPackage, lookupSuite. by rewrite E.
Qed.

Lemma handles_ok_new {C : StdCrypto} : handles_ok Server_New.
Proof. split; cbn [Server_New states txns nextID]; [lia|..]; intros id; rewrite lookup_empty; by intros []. Qed.

(** * Properties *)

(** C20: the groups on a server do not see each other.  In a run of calls that
    the process survives, the answers to the calls that name a handle, and the
    state under it at the end, are those of a run of these calls alone,
    whatever was created, joined, committed or freed under other handles in
    between, as long as the 32-bit counter of handles does not wrap around. *)
Theorem sessions_independent {C : StdCrypto} {K : KeyGen C} id cs (s : Server) rs s' :
  handles_ok s -> 0 < id < nextID s -> nextID s + len cs < 2 ^ 32 -> serve_all cs s = Some (rs, s') ->
  exists s1, serve_all (List.filter (names id) cs) s = Some (answers_for id cs rs, s1) /\
    states s1 !! id = states s' !! id /\ handles_ok s'.
Proof.
  intros Hok Hid Hlen Hs.
  destruct (serve_all_independent id cs s s rs s' Hok Hid Hlen eq_refl Hs) as (rs1 & s1 & H1 & -> & H2 & H3). by exists s1.
Qed.


(** What a member publishes is a well-formed group info. *)
Lemma PublishGroupInfo_ok {C : StdCrypto} g gi : GroupContext_ok (g_groupContext g) -> is_u32 (g_ownLeaf g) -> PublishGroupInfo g = Ok gi -> GroupInfo_ok gi.
Proof.
  intros Hgc Hown. unfold PublishGroupInfo, GroupInfo_Sign. destruct (g_signer g); [|done]. intros Hx.
  apply obind_ok in Hx as (? & _ & Hx). apply obind_ok in Hx as ([? ?] & _ & Hx).
  apply obind_ok in Hx as (? & _ & Hx). apply obind_ok in Hx as (? & _ & Hx). apply Ok_inj in Hx as <-.
  unfold GroupInfo_ok. cbn [gi_GroupContext gi_Extensions gi_Signer]. split_and!; [done| |done].
  apply Forall_cons. split; [|apply Forall_singleton]; split; by vm_compute.
Qed.

(** C19: a newcomer served by one server joins the members on others.  When
    [GroupInfo] on a state answers with a group info and [ExternalJoin] on any
    server answers to it with a handle, a commit and an epoch authenticator,
    [HandleCommit] with the commit, on any server and state of the epoch that
    admits the newcomer, answers with this authenticator, which is the one of
    the new state and of the member's. *)
Theorem external_join_served {C : StdCrypto} `{!StdCryptoLaws C} {K : KeyGen C} d (a b n : Server) ia ib sa sb rs r ident enc
  gib rt a' id commit ea n' :
  states a !! ia = Some sa -> states b !! ib = Some sb ->
  GroupContext_ok (g_groupContext (st_g sa)) -> Lookup (gc_CipherSuite (g_groupContext (st_g sa))) = Some (g_suite (st_g sa)) ->
  derivable (g_suite (st_g sa)) ->
  Server_GroupInfo ia a = (Reply (gib, rt), a') ->
  Server_ExternalJoin rs r 0 gib ident enc n = (Reply (id, commit, ea), n') ->
  (forall gi, PublishGroupInfo (st_g sa) = Ok gi -> external_ready d (st_g sa) gi r (basic ident) maxLifetime /\
     forall signer seed j, newSigner rs (gc_CipherSuite (g_groupContext (st_g sa))) = Ok (signer, seed) ->
       ExternalCommit r (g_suite (st_g sa)) gi (basic ident) signer maxLifetime = Ok (j, commit) ->
       admits d (st_g sa) gi r (basic ident) signer maxLifetime (st_g sb) /\
       joined_encodable (st_g sa) gi r (basic ident) signer maxLifetime j /\ VerifyParentHashes (g_tree j) = Ok true) ->
  exists b', Server_HandleCommit ib [] commit b = (Reply (ib, ea), b') /\
    (Server_StateAuth ib b').1 = Reply ea /\ (Server_StateAuth id n').1 = Reply ea.
Proof.
  intros Ha Hb Hgc Hlk Hder Hgi Hej Hready.
  destruct (GroupInfo_run ia a gib rt a' Hgi) as (st & gi & Ha2 & Hpub & Hm & _). rewrite Ha in Ha2. injection Ha2 as <-.
  destruct (Hready gi Hpub) as [Hxr Hadm].
  destruct (ExternalJoin_run _ _ _ _ _ _ _ _ _ _ _ Hej) as (gi' & suite & signer & seed & g & Hu & Hlk' & Hsg & Hec & -> & -> & Hst).
  destruct (PublishGroupInfo_inv (st_g sa) gi Hpub) as (data & priv & pub & _ & _ & _ & _ & Egc & _).
  assert (GroupInfo_ok gi) as Hgok.
  { apply (PublishGroupInfo_ok (st_g sa)); [done| |done]. pose proof (xr_own _ _ _ _ _ _ Hxr) as [Hown _].
    pose proof (ti_depth _ _ (wf_inv _ _ (xr_tree _ _ _ _ _ _ Hxr))).
    assert (2 ^ d <= 2 ^ 30) by (apply Z.pow_le_mono_r; lia). unfold is_u32; lia. }
  assert (GroupInfo_UnmarshalMLS gib = Ok gi) as Hu' by exact (unmarshal_marshal (w := GroupInfo_marshal) _ _ _ Hgok Hm).
  rewrite Hu in Hu'. apply Ok_inj in Hu' as ->. rewrite Egc in *.
  assert (suite = g_suite (st_g sa)) as ->.
  { destruct Hgc as (_ & Hcs & _). assert (u16 (gc_CipherSuite (g_groupContext (st_g sa))) = gc_CipherSuite (g_groupContext (st_g sa))) as Ecs
      by (apply Z.mod_small, Hcs). congruence. }
  destruct (Hadm signer seed g Hsg Hec) as (Had & Henc & Hvp).
  destruct (ProcessCommit_admits d (st_g sa) (st_g sb) gi r (basic ident) signer maxLifetime g commit Hxr Had Hder Hec Henc Hvp)
    as (h' & Hp & Hs & _).
  assert (EpochAuthenticator h' = EpochAuthenticator g) as Eea by (unfold EpochAuthenticator; by rewrite (se_epoch _ _ Hs)).
  eexists. split; [rewrite (HandleCommit_run ib [] commit b sb h' Hb Hp); by rewrite Eea|]. split.
  - erewrite StateAuth_run; [|cbn [with_states states]; apply lookup_insert_eq]. cbn [st_g]. by rewrite Eea.
  - by rewrite (StateAuth_run _ _ _ Hst).
Qed.

(** * Witnesses *)

Module Peers.
#[local] Existing Instances toy toy_laws.

(** Keys are generated from the draw. *)
#[export] Instance toy_keygen : KeyGen toy := {|
  ed25519_GenerateKey r := Ok (Example.signer r);
  ed25519_Seed _ := zero_bytes 32;
  ecdsa_GenerateKey_P256 r := Ok (Example.signer r);
  ecdsa_Bytes _ := Ok (zero_bytes 32)
|}.

(** A server that holds one group. *)
Definition holding (g : Group) : Server := mkServer {[1 := mkState toy_suite g None]} ∅ 2.

(** Calls on the group of handle 1 and calls of others between them. *)
Definition calls : list Call :=
  [CName; CProtect (zero_bytes 4) 1 (bytes_of_string "hello") []; CCreateKeyPackage 5 6 7 1 (bytes_of_string "bob");
   CExport 9 "label" [] 32; CFree 2; CHandlePendingCommit 1; CStateAuth 1].

Lemma holding_ok g : handles_ok (holding g).
Proof.
  split; cbn [holding states txns nextID]; [lia|..]; intros id.
  - rewrite lookup_singleton_is_Some. lia.
  - rewrite lookup_empty. by intros [].
  - done.
Qed.

(** Member 0 of the example group of epoch 7 adds a member and removes the one
    called B. *)
Definition descriptions : list ProposalDescription :=
  [mkProposalDescription "add" (value [] (EncodeKeyPackageMessage (Transaction.key_package 4))) [];
   mkProposalDescription "remove" [] [byte_of_Z 66]].

Lemma described : by_value (mkState toy_suite (Epoch7.member 0 true) None) descriptions = Reply (Group.ByValue Epoch7.options).
Proof. vm_compute. reflexivity. Qed.

(** The newcomer's server, given what the server of member 1 published. *)
Definition published : reply (bytes * option bytes) * Server := Server_GroupInfo 1 (holding (Pair.member 1)).
Definition joins : reply (Z * bytes * bytes) * Server :=
  match published.1 with
  | Reply (gib, _) => Server_ExternalJoin 7 Joining.newcomer 0 gib [byte_of_Z 70] true Server_New
  | _ => (Hang, Server_New)
  end.

Definition joined : bool := match joins.1 with Reply _ => true | _ => false end.

Lemma context_ok : GroupContext_ok Pair.context.
Proof. by repeat split. Qed.

Lemma admitted commit gi : PublishGroupInfo (Pair.member 1) = Ok gi ->
  external_ready 1 (Pair.member 1) gi Joining.newcomer (basic [byte_of_Z 70]) maxLifetime /\
  forall signer seed j, newSigner 7 (gc_CipherSuite Pair.context) = Ok (signer, seed) ->
    ExternalCommit Joining.newcomer toy_suite gi (basic [byte_of_Z 70]) signer maxLifetime = Ok (j, commit) ->
    admits 1 (Pair.member 1) gi Joining.newcomer (basic [byte_of_Z 70]) signer maxLifetime (Pair.member 0) /\
    joined_encodable (Pair.member 1) gi Joining.newcomer (basic [byte_of_Z 70]) signer maxLifetime j /\
    VerifyParentHashes (g_tree j) = Ok true.
Proof.
  intros Hpub. assert (gi = Newcomer.info (Pair.member 1)) as -> by (unfold Newcomer.info; by rewrite Hpub).
  split; [exact Newcomer.newcomer_ready|]. intros signer seed j [= <- _] Hj. split; [exact Newcomer.newcomer_admitted|].
  destruct (Newcomer.joined_b_ok (Pair.member 1) eq_refl Newcomer.newcomer_joined) as (j' & c' & E & Henc & Hv).
  assert (Ok (j', c') = Ok (j, commit)) as Ej by (rewrite <- E; exact Hj). injection Ej as -> ->. split; [exact Henc|exact Hv].
Qed.
End Peers.

#[local] Existing Instances toy toy_laws Peers.toy_keygen.

Lemma sessions_independent_witness :
  match serve_all Peers.calls (Peers.holding (Pair.member 0)) with
  | Some (rs, s') => exists s1, serve_all (List.filter (names 1) Peers.calls) (Peers.holding (Pair.member 0)) =
      Some (answers_for 1 Peers.calls rs, s1) /\ states s1 !! 1 = states s' !! 1
  | None => False
  end.
Proof.
  destruct (serve_all Peers.calls (Peers.holding (Pair.member 0))) as [[rs s']|] eqn:E.
  - destruct (sessions_independent 1 Peers.calls (Peers.holding (Pair.member 0)) rs s' (Peers.holding_ok _)
      ltac:(cbn [Peers.holding nextID]; lia) ltac:(reflexivity) E) as (s1 & H1 & H2 & _).
    exists s1. split; [exact H1|exact H2].
  - assert (match serve_all Peers.calls (Peers.holding (Pair.member 0)) with Some _ => true | None => false end = true) as Hs by (vm_compute; reflexivity).
    rewrite E in Hs. discriminate Hs.
Defined.


Lemma external_join_served_witness :
  exists gib rt a' id commit ea n' b', Server_GroupInfo 1 (Peers.holding (Pair.member 1)) = (Reply (gib, rt), a') /\
    Server_ExternalJoin 7 Joining.newcomer 0 gib [byte_of_Z 70] true Server_New = (Reply (id, commit, ea), n') /\
    Server_HandleCommit 1 [] commit (Peers.holding (Pair.member 0)) = (Reply (1, ea), b').
Proof.
  assert (Peers.joined = true) as Hs by (vm_compute; reflexivity). unfold Peers.joined, Peers.joins, Peers.published in Hs.
  destruct (Server_GroupInfo 1 (Peers.holding (Pair.member 1))) as [[[gib rt]| | |] a'] eqn:E1; [|discriminate Hs..]. cbn [fst] in Hs.
  destruct (Server_ExternalJoin (C := toy) 7 Joining.newcomer 0 gib [byte_of_Z 70] true Server_New) as [[[[id commit] ea]| | |] n'] eqn:E2;
    [|discriminate Hs..].
  destruct (external_join_served (C := toy) 1 (Peers.holding (Pair.member 1)) (Peers.holding (Pair.member 0)) Server_New 1 1
    (mkState toy_suite (Pair.member 1) None) (mkState toy_suite (Pair.member 0) None) (7 : Rand (StdCrypto := toy)) Joining.newcomer [byte_of_Z 70] true
    gib rt a' id commit ea n' (lookup_insert_eq _ _ _) (lookup_insert_eq _ _ _) Peers.context_ok eq_refl Epoch7.derives E1 E2
    (Peers.admitted commit)) as (b' & Hb & _).
  exists gib, rt, a', id, commit, ea, n', b'. split; [reflexivity|]. split; [exact E2|exact Hb].
Defined.
