(* ===== verification/GroupRuns.v ===== *)
(** Runs of whole groups on the toy cryptography.

    A group is created, two members are added and join from one Welcome, and
    then one of them commits twice.  The run shows the model at work end to
    end, and a defect of the code: [ProcessCommit] rebuilds the private state
    from the own leaf key and the one path secret that was decrypted, and drops
    the keys between the leaf and the node where that secret applies. *)

From Stdlib Require Import ZArith Lia Strings.Byte.
From stdpp Require Import base list numbers strings gmap.
From S2P Require Import Prelude Syntax TreeNodes TreeMath Cipher ToyCrypto RatchetTree TreeSync TreeKEM.
From S2P Require Import KeySchedule Framing GroupMessages Group GroupProposals GroupSync.

Module Run.
#[local] Existing Instances toy toy_laws.

(** A method call whose error ends the run. *)
Definition call {A} (m : GM A) (g : Group) : outcome (A * Group) :=
  match m g with
  | (Ok a, g') => Ok (a, g')
  | (Err e, _) => Err e
  | (Panic, _) => Panic
  | (Diverge, _) => Diverge
  end.

Definition signer (i : Z) : Signer := inl (toy_priv (100 + i)) : Signer (StdCrypto := toy).
Definition credential (i : Z) : Credential := mkCredential CredentialTypeBasic (be_bytes 4 i) [].
Definition lifetime : Lifetime := mkLifetime 10 20.
Definition rand (i : Z) : CommitRand :=
  mkCommitRand (toy_priv (200 + i)) (be_bytes 4 i) (fun a b => 3000 + 100 * i + 10 * a + b : Rand (StdCrypto := toy))
    (fun a => 4000 + 100 * i + a : Rand (StdCrypto := toy)).

Definition key_package (i : Z) : outcome (KeyPackage * bytes * bytes) :=
  NewKeyPackage toy_suite (1000 + i : Rand (StdCrypto := toy)) (2000 + i : Rand (StdCrypto := toy)) (credential i) (signer i) lifetime.

Definition join (w : option bytes) (i : Z) : outcome Group :=
  let! (kp, initPriv, leafPriv) := key_package i in
  let! m := EncodeKeyPackageMessage kp in
  JoinFromWelcome toy_suite (default [] w) (mkJoinOptions m initPriv leafPriv (Some (signer i)) [] ∅).

(** Member 0 creates the group and adds members 1 and 2 with one commit. *)
Definition assembled : outcome (Group * Group * Group) :=
  let! a := NewGroup (5 : Rand (StdCrypto := toy)) (6 : Rand (StdCrypto := toy)) toy_suite (bytes_of_string "g") (credential 0) (signer 0) lifetime in
  let! (k1, _, _) := key_package 1 in
  let! (k2, _, _) := key_package 2 in
  let! (_, w, a) := call (Group_Commit (rand 1) (mkCommitOptions [ProposeAdd k1; ProposeAdd k2] [])) a in
  let! b := join w 1 in
  let! c := join w 2 in
  Ok (a, b, c).

(** Everyone has the epoch's authenticator. *)
Definition agree (g : Group) (hs : list Group) : bool :=
  forallb (fun h => (Epoch h =? Epoch g) && bytes_Equal (EpochAuthenticator h) (EpochAuthenticator g)) hs.

(** Member 2 makes two empty commits.  The result: whether all agree on the
    epoch after the Welcome, and after the first commit; and what members 0 and
    1 answer to the second. *)
Definition two_commits : outcome (bool * bool * outcome unit * outcome unit) :=
  let! (a, b, c) := assembled in
  let joined := agree a [b; c] in
  let! (m, _, c) := call (Group_Commit (rand 2) (mkCommitOptions [] [])) c in
  let! (_, a) := call (ProcessCommit [] m) a in
  let! (_, b) := call (ProcessCommit [] m) b in
  let! (m', _, _) := call (Group_Commit (rand 3) (mkCommitOptions [] [])) c in
  Ok (joined, agree c [a; b], (ProcessCommit [] m' a).1, (ProcessCommit [] m' b).1).
End Run.

