(* ===== verification/Controller.v ===== *)
(** [ironcore]: the membership controller of a VNI.

    [controller.go], [recovery.go] and [group.go].  A controller drives one MLS
    group: it commits when it is the designated committer, routes every commit
    through the ordering service, follows the commits of others, and rotates the
    security association with the epoch.

    A method is a computation of the state monad [CM] over the controller and
    the state of the ordering service, in which assignments stay when a later
    step fails.  The service is a parameter, the function [accept] of the
    [Ordering] port, together with what identifies this caller to it; contexts
    are left out, as the code only passes them on.  Go functions that return
    values next to an error return a tuple with an [option string]; those whose
    values are zero on error use [Err].  The clock of the configuration is never
    read. *)

From Stdlib Require Import ZArith Lia Strings.Byte.
From stdpp Require Import base list numbers strings sorting sets gmap.
From S2P Require Import Prelude Syntax TreeNodes TreeMath Cipher ToyCrypto RatchetTree TreeSync TreeKEM.
From S2P Require Import KeySchedule Sequencer Esp Framing GroupMessages Group.

(* ironcore/controller.go:19-19 ErrSelfRemoved *)
Definition ErrSelfRemoved : string := "ironcore: controller self-removed from group".
(* ironcore/controller.go:24-24 ErrLostRace *)
Definition ErrLostRace : string := "ironcore: commit lost the linearization race; AutoRecover".
(* ironcore/controller.go:29-29 ErrJoinSuperseded *)
Definition ErrJoinSuperseded : string := "ironcore: external-commit join superseded; refetch GroupInfo".
(* ironcore/controller.go:33-33 ErrNoGroup *)
Definition ErrNoGroup : string := "ironcore: controller has no group state".
(* ironcore/recovery.go:18-18 ErrRecoverySuperseded *)
Definition ErrRecoverySuperseded : string := "ironcore: recovery superseded by a concurrent winner".

(* ironcore/controller.go:47-52 HandshakePrivacy *)
Inductive HandshakePrivacy : Type := HandshakeEncrypted | HandshakePlaintext.

(** The helper [sortUint32]: insertion sort.  [sorted] is the sorted prefix,
    last element first, as the inner loop visits it. *)
(* ironcore/controller.go:508-516 sortUint32 *)
Fixpoint sort_insert (key : Z) (sorted : list Z) : list Z :=
  match sorted with
  | x :: rest => if key <? x then x :: sort_insert key rest else key :: sorted
  | [] => [key]
  end.

(* ironcore/controller.go:507-517 sortUint32 *)
Definition sortUint32 (s : list Z) : list Z := rev (foldl (fun sorted key => sort_insert key sorted) [] s).

Section controller.
Context {C : StdCrypto}.

(** [nil] interfaces and functions are [None].  The identity a validator
    returns and the identities of the control plane are byte strings. *)
(* ironcore/controller.go:55-69 ControllerConfig *)
Record ControllerConfig := mkControllerConfig {
  cfg_VNI : Z;
  cfg_Suite : Suite;
  cfg_Validator : option (Credential -> bytes -> outcome bytes);
  cfg_Cred : Credential;
  cfg_Signer : Signer;
  cfg_Lifetime : Lifetime;
  cfg_Resolve : option (bytes -> option bytes);
  cfg_HandshakePrivacy : HandshakePrivacy
}.

(* ironcore/controller.go:72-80 ReconcileResult *)
Record ReconcileResult := mkReconcileResult {
  res_Committed : bool;
  res_Won : bool;
  res_Added : list bytes;
  res_Removed : list Z;
  res_Pending : list bytes;
  res_CommitMsg : option bytes;
  res_WelcomeMsg : option bytes
}.
Definition zero_result : ReconcileResult := mkReconcileResult false false [] [] [] None None.

(** The zero [SA], before any was derived, is [None]. *)
(* ironcore/controller.go:86-95 Controller *)
Record Controller := mkController {
  c_cfg : ControllerConfig;
  c_g : option Group;
  c_groupID : bytes;
  c_suite : Suite;
  c_curSA : option SA;
  c_prevSA : option SA;
  c_hasPrev : bool
}.

Definition with_g (g : Group) (c : Controller) : Controller :=
  mkController (c_cfg c) (Some g) (c_groupID c) (c_suite c) (c_curSA c) (c_prevSA c) (c_hasPrev c).
Definition with_curSA (sa : SA) (c : Controller) : Controller :=
  mkController (c_cfg c) (c_g c) (c_groupID c) (c_suite c) (Some sa) (c_prevSA c) (c_hasPrev c).

(** ** group.go *)

(* ironcore/group.go:8-11 VNIGroup *)
Record VNIGroup := mkVNIGroup { vg_vni : Z; vg_g : Group }.
(* ironcore/group.go:14-14 NewVNIGroup *)
Definition NewVNIGroup (vni : Z) (g : Group) : VNIGroup := mkVNIGroup vni g.
(* ironcore/group.go:17-17 VNIGroup.VNI *)
Definition VNIGroup_VNI (v : VNIGroup) : Z := vg_vni v.
(* ironcore/group.go:20-20 VNIGroup.GroupID *)
Definition VNIGroup_GroupID (v : VNIGroup) : bytes := GroupID (vg_vni v).
(* ironcore/group.go:23-23 VNIGroup.Group *)
Definition VNIGroup_Group (v : VNIGroup) : Group := vg_g v.
(* ironcore/group.go:26-26 VNIGroup.Epoch *)
Definition VNIGroup_Epoch (v : VNIGroup) : Z := Epoch (vg_g v).

(** What [DeriveSAKeys] sees of a group. *)
Definition group_view (g : Group) : GroupView :=
  mkGroupView (gc_CipherSuite (Group_GroupContext g)) (Epoch g) (OwnLeaf g) (Exporter g).

(* ironcore/group.go:29-29 VNIGroup.DeriveSA *)
Definition VNIGroup_DeriveSA (v : VNIGroup) : outcome SA := DeriveSAKeys (group_view (vg_g v)) (vg_vni v).

(** ** Readers *)

(* ironcore/controller.go:118-118 Controller.Group *)
Definition Controller_Group (c : Controller) : option Group := c_g c.

(* ironcore/controller.go:121-126 Controller.Epoch *)
Definition Controller_Epoch (c : Controller) : Z := match c_g c with None => 0 | Some g => Epoch g end.

(* ironcore/controller.go:131-140 Controller.IsCommitter *)
Definition IsCommitter (c : Controller) : outcome bool :=
  match c_g c with
  | None => Ok false
  | Some g =>
      let! leaves := ActiveLeaves g in
      match leaves with
      | [] => Ok false
      | l :: _ => Ok (OwnLeaf g =? l)
      end
  end.

(* ironcore/controller.go:144-149 Controller.CurrentSA *)
Definition CurrentSA (c : Controller) : outcome (option SA) :=
  match c_g c with None => Err ErrNoGroup | Some _ => Ok (c_curSA c) end.

(** The zero [SA] has no key: [SenderSPI] refuses the first leaf. *)
(* ironcore/controller.go:154-163 Controller.InboundSAs *)
Definition Controller_InboundSAs (c : Controller) : outcome (list InboundSA) :=
  match c_g c with
  | None => Err "ironcore: no group"
  | Some g =>
      let! sa := CurrentSA c in
      let! leaves := ActiveLeaves g in
      match sa with
      | Some sa => InboundSAs sa leaves
      | None => match leaves with [] => Ok [] | _ => Err "ironcore: SA key not initialized (use DeriveSAKeys)" end
      end
  end.

(* ironcore/controller.go:168-170 Controller.PreviousSA *)
Definition PreviousSA (c : Controller) : option SA * bool := (c_prevSA c, c_hasPrev c).

(* ironcore/controller.go:222-227 Controller.PublishGroupInfo *)
Definition Controller_PublishGroupInfo (c : Controller) : outcome GroupInfo :=
  match c_g c with None => Err ErrNoGroup | Some g => PublishGroupInfo g end.

(* ironcore/controller.go:464-480 Controller.identityToLeaf *)
Fixpoint identity_loop (validate : Credential -> bytes -> outcome bytes) (g : Group) (leaves : list Z) (m : gmap bytes Z)
  : outcome (gmap bytes Z) :=
  match leaves with
  | [] => Ok m
  | leaf :: leaves =>
      let! (cred, sigPub) := LeafCredential g leaf in
      match validate cred sigPub with
      | Ok identity => identity_loop validate g leaves (<[identity := leaf]> m)
      | Err _ => identity_loop validate g leaves m
      | Panic => Panic
      | Diverge => Diverge
      end
  end.

(* ironcore/controller.go:461-482 Controller.identityToLeaf *)
Definition identityToLeaf (validate : Credential -> bytes -> outcome bytes) (g : Group) : outcome (gmap bytes Z) :=
  let! leaves := ActiveLeaves g in
  identity_loop validate g leaves ∅.

(* ironcore/controller.go:490-502 Controller.commitRemovesSelf *)
Definition removes_leaf (own : Z) (por : ProposalOrRef) : bool :=
  (por_Type por =? ProposalOrRefTypeProposal) &&
  match por_Proposal por with
  | Some p => (p_Type p =? ProposalTypeRemove) && match p_Remove p with Some r => Removed r =? own | None => false end
  | None => false
  end.

(* ironcore/controller.go:490-504 Controller.commitRemovesSelf *)
Definition commitRemovesSelf (g : Group) (commitMsg : bytes) : outcome bool :=
  match PeekCommit g commitMsg with
  | Ok cm => Ok (existsb (removes_leaf (OwnLeaf g)) (cm_Proposals cm))
  | Err _ => Ok false
  | Panic => Panic
  | Diverge => Diverge
  end.
End controller.

(** * The methods that change state *)

Section monad.
Context {C : StdCrypto} {S : Type}.

Definition CM (A : Type) : Type := Controller * S -> outcome A * (Controller * S).

Definition cbind {A B} (m : CM A) (k : A -> CM B) : CM B := fun s =>
  match m s with
  | (Ok a, s') => k a s'
  | (Err e, s') => (Err e, s')
  | (Panic, s') => (Panic, s')
  | (Diverge, s') => (Diverge, s')
  end.
Definition clift {A} (m : outcome A) : CM A := fun s => (m, s).
Definition cget : CM Controller := fun s => (Ok s.1, s).
Definition cput (c : Controller) : CM unit := fun s => (Ok tt, (c, s.2)).

(** An error as a value, for the callers that look at it. *)
Definition ctry {A} (m : CM A) : CM (A + string) := fun s =>
  match m s with
  | (Ok a, s') => (Ok (inl a), s')
  | (Err e, s') => (Ok (inr e), s')
  | (Panic, s') => (Panic, s')
  | (Diverge, s') => (Diverge, s')
  end.

(** A method of [c.g]; calling it on a [nil] group panics. *)
Definition on_group {A} (m : GM A) : CM A := fun '(c, s) =>
  match c_g c with
  | None => (Panic, (c, s))
  | Some g => let (r, g') := m g in (r, (with_g g' c, s))
  end.
End monad.

Notation "'go!' x := m 'in' k" := (cbind m (fun x => k))
  (at level 10, x pattern, m at level 100, k at level 200) : go_scope.

Section methods.
Context {C : StdCrypto} {X S : Type} (accept : S -> call X -> outcome bool * S) (who : X).
Local Abbreviation CM := (CM (S := S)).

(** [c.ordering.AcceptCommit] for the group of this controller. *)
Definition order (gid : bytes) (epoch : Z) (ref : bytes) : CM bool := fun '(c, s) =>
  let (r, s') := accept s (mkCall who gid epoch ref) in (r, (c, s')).

(* ironcore/controller.go:412-416 Controller.applyHandshakePrivacy *)
Definition applyHandshakePrivacy : CM unit := fun '(c, s) =>
  match c_g c with
  | None => (Ok tt, (c, s))
  | Some _ =>
      on_group (SetEncryptHandshakes (match cfg_HandshakePrivacy (c_cfg c) with HandshakePlaintext => false | _ => true end)) (c, s)
  end.

(* ironcore/controller.go:419-426 Controller.deriveCur *)
Definition deriveCur : CM unit :=
  go! c := cget in
  match c_g c with
  | None => clift Panic
  | Some g =>
      go! sa := clift (DeriveSAKeys (group_view g) (cfg_VNI (c_cfg c))) in
      cput (with_curSA sa c)
  end.

(* ironcore/controller.go:429-433 Controller.rotateSA *)
Definition rotateSA : CM unit :=
  go! c := cget in
  go! _ := cput (mkController (c_cfg c) (c_g c) (c_groupID c) (c_suite c) (c_curSA c) (c_curSA c) true) in
  deriveCur.

(** Adopting a group: [c.g = g], its framing, and the association of its
    epoch. *)
(* ironcore/controller.go:185-190 Controller.JoinViaWelcome *)
Definition adopt (g : Group) : CM unit :=
  go! c := cget in
  go! _ := cput (with_g g c) in
  go! _ := applyHandshakePrivacy in
  deriveCur.

(* ironcore/controller.go:174-191 Controller.JoinViaWelcome *)
Definition JoinViaWelcome (welcomeMsg kpMsg initPriv leafPriv : bytes) : CM unit :=
  go! c := cget in
  go! g := clift (JoinFromWelcome (c_suite c) welcomeMsg
                    (mkJoinOptions kpMsg initPriv leafPriv (Some (cfg_Signer (c_cfg c))) [] ∅)) in
  adopt g.

(* ironcore/controller.go:196-218 Controller.JoinViaExternalCommit *)
Definition JoinViaExternalCommit (r : ExternalRand) (gi : option GroupInfo) : CM bytes :=
  match gi with
  | None => clift (Err "ironcore: JoinViaExternalCommit: GroupInfo is nil")
  | Some gi =>
      go! c := cget in
      go! (newGroup, commitMsg) := clift (ExternalCommit r (c_suite c) gi (cfg_Cred (c_cfg c)) (cfg_Signer (c_cfg c))
                                           (cfg_Lifetime (c_cfg c))) in
      go! ok := order (c_groupID c) (gc_Epoch (gi_GroupContext gi)) (Suite_Hash (c_suite c) commitMsg) in
      if negb ok then clift (Err ErrJoinSuperseded) else
      go! _ := adopt newGroup in
      clift (Ok commitMsg)
  end.

(* ironcore/controller.go:231-242 Controller.HandleCommit *)
Definition HandleCommit (commitMsg : bytes) : CM unit :=
  go! c := cget in
  match c_g c with
  | None => clift (Err ErrNoGroup)
  | Some g =>
      go! removed := clift (commitRemovesSelf g commitMsg) in
      if removed then clift (Err ErrSelfRemoved) else
      go! _ := on_group (ProcessCommit [] commitMsg) in
      rotateSA
  end.

(** [(commitMsg, welcomeMsg, won, err)]. *)
Definition Ordered : Type := (option bytes * option bytes * bool * option string)%type.

(* ironcore/controller.go:439-457 Controller.commitAndOrder *)
Definition commitAndOrder (r : CommitRand) (byValue : list Proposal) : CM Ordered :=
  go! c := cget in
  match c_g c with
  | None => clift Panic
  | Some g =>
      let epoch := Epoch g in
      go! committed := ctry (on_group (Group_Commit r (mkCommitOptions byValue []))) in
      match committed with
      | inr e => clift (Ok (None, None, false, Some e))
      | inl (commitMsg, welcomeMsg) =>
          go! ok := ctry (order (c_groupID c) epoch (Suite_Hash (c_suite c) commitMsg)) in
          match ok with
          | inr e => clift (Ok (Some commitMsg, welcomeMsg, false, Some e))
          | inl false => clift (Ok (Some commitMsg, welcomeMsg, false, None))
          | inl true =>
              go! rotated := ctry rotateSA in
              match rotated with
              | inr e => clift (Ok (Some commitMsg, welcomeMsg, true, Some e))
              | inl _ => clift (Ok (Some commitMsg, welcomeMsg, true, None))
              end
          end
      end
  end.

(** [(commitMsg, won, err)]. *)
(* ironcore/controller.go:247-256 Controller.Rekey *)
Definition Rekey (r : CommitRand) : CM (option bytes * bool * option string) :=
  go! c := cget in
  match c_g c with
  | None => clift (Ok (None, false, Some ErrNoGroup))
  | Some _ =>
      go! b := clift (IsCommitter c) in
      if negb b then clift (Ok (None, false, None)) else
      go! (msg, _, w, err) := commitAndOrder r [] in
      clift (Ok (msg, w, err))
  end.

(** ** Reconcile *)

(** Step 2: the leaves of identities that are not desired, and the desired
    identities without a leaf.  A Go map is iterated in any order, into a
    set. *)
(* ironcore/controller.go:276-286 Controller.Reconcile *)
Definition remove_set (idToLeaf : gmap bytes Z) (desired : list bytes) : gset Z :=
  list_to_set (snd <$> filter (fun x => x.1 ∉ desired) (map_to_list idToLeaf)).

(* ironcore/controller.go:288-293 Controller.Reconcile *)
Definition add_idents (idToLeaf : gmap bytes Z) (desired : list bytes) : list bytes :=
  filter (fun id => idToLeaf !! id = None) desired.

(** Step 3: the lowest leaf, or the lowest that stays when it is removed;
    [^uint32(0)] when none stays. *)
(* ironcore/controller.go:297-311 Controller.Reconcile *)
Definition committer_elect (leaves : list Z) (removeSet : gset Z) : Z :=
  let committer := match leaves with l :: _ => l | [] => 0 end in
  if decide (committer ∈ removeSet) then
    match filter (fun l => l ∉ removeSet) leaves with l :: _ => l | [] => 2 ^ 32 - 1 end
  else committer.

(** Step 5: the Adds, with the identities added and those without a key
    package. *)
(* ironcore/controller.go:333-351 Controller.Reconcile *)
Fixpoint build_adds (resolve : option (bytes -> option bytes)) (ids : list bytes)
  : outcome (list Proposal * list bytes * list bytes) :=
  match ids with
  | [] => Ok ([], [], [])
  | id :: ids =>
      match (match resolve with None => None | Some f => f id end) with
      | None => let! (props, added, pending) := build_adds resolve ids in Ok (props, added, id :: pending)
      | Some kpMsg =>
          let! kp := DecodeKeyPackageMessage kpMsg in
          let! (props, added, pending) := build_adds resolve ids in
          Ok (ProposeAdd kp :: props, id :: added, pending)
      end
  end.

(** [(result, err)]: a lost race returns both. *)
(* ironcore/controller.go:261-383 Controller.Reconcile *)
Definition Reconcile (r : CommitRand) (desired : list bytes) : CM (ReconcileResult * option string) :=
  go! c := cget in
  match c_g c, cfg_Validator (c_cfg c) with
  | None, _ => clift (Err ErrNoGroup)
  | Some _, None => clift (Err "ironcore: Reconcile: no CredentialValidator in config")
  | Some g, Some validate =>
      go! idToLeaf := clift (identityToLeaf validate g) in
      let removeSet := remove_set idToLeaf desired in
      let addIdents := add_idents idToLeaf desired in
      go! leaves := clift (ActiveLeaves g) in
      let committer := committer_elect leaves removeSet in
      let removeSet := removeSet ∖ {[OwnLeaf g]} in
      if negb (OwnLeaf g =? committer) then clift (Ok (zero_result, None)) else
      let removedLeaves := sortUint32 (elements removeSet) in
      go! (adds, addedIdents, pending) := clift (build_adds (cfg_Resolve (c_cfg c)) addIdents) in
      match map ProposeRemove removedLeaves ++ adds with
      | [] => clift (Ok (mkReconcileResult false false [] [] pending None None, None))
      | proposals =>
          go! (commitMsg, welcomeMsg, won, err) := commitAndOrder r proposals in
          match err with
          | Some e => clift (Err e)
          | None =>
              clift (Ok (mkReconcileResult true won addedIdents removedLeaves pending commitMsg welcomeMsg,
                         if won then None else Some ErrLostRace))
          end
      end
  end.

(** ** Fork recovery *)

(** The group of the handle is replaced on success only. *)
(* ironcore/recovery.go:33-68 RecoverViaExternalCommit *)
Definition RecoverViaExternalCommit (r : ExternalRand) (v : VNIGroup) (suite : Suite) (candidates : list (option bytes))
  (fetchGI : bytes -> outcome (option GroupInfo)) (cred : Credential) (signer : Signer) (lifetime : Lifetime)
  : CM (bytes * VNIGroup) :=
  match CanonicalCommit suite candidates with
  | None => clift (Err "ironcore: RecoverViaExternalCommit: no candidate branches")
  | Some canonical =>
      go! gi := clift (fetchGI canonical) in
      match gi with
      | None => clift Panic
      | Some gi =>
          go! (newGroup, commitMsg) := clift (ExternalCommit r suite gi cred signer lifetime) in
          go! ok := order (VNIGroup_GroupID v) (gc_Epoch (gi_GroupContext gi)) (Suite_Hash suite commitMsg) in
          if negb ok then clift (Err ErrRecoverySuperseded) else
          clift (Ok (commitMsg, mkVNIGroup (vg_vni v) newGroup))
      end
  end.

(** [(commitMsg, err)]: a failure to derive the association comes with the
    commit. *)
(* ironcore/controller.go:387-405 Controller.AutoRecover *)
Definition AutoRecover (r : ExternalRand) (candidates : list (option bytes)) (fetchGI : bytes -> outcome (option GroupInfo))
  : CM (bytes * option string) :=
  go! c := cget in
  match c_g c with
  | None => clift (Err ErrNoGroup)
  | Some g =>
      let vg := NewVNIGroup (cfg_VNI (c_cfg c)) g in
      go! (commitMsg, vg) := RecoverViaExternalCommit r vg (c_suite c) candidates fetchGI (cfg_Cred (c_cfg c))
                               (cfg_Signer (c_cfg c)) (cfg_Lifetime (c_cfg c)) in
      go! _ := cput (with_g (vg_g vg) c) in
      go! _ := applyHandshakePrivacy in
      go! rotated := ctry rotateSA in
      match rotated with
      | inr e => clift (Ok (commitMsg, Some e))
      | inl _ => clift (Ok (commitMsg, None))
      end
  end.

(* ironcore/controller.go:100-115 NewController *)
Definition NewController (cfg : ControllerConfig) (g : option Group) (s : S) : outcome (Controller * S) :=
  let c := mkController cfg g (GroupID (cfg_VNI cfg)) (cfg_Suite cfg) None None false in
  match g with
  | None => Ok (c, s)
  | Some _ =>
      match (go! _ := applyHandshakePrivacy in deriveCur) (c, s) with
      | (Ok _, cs) => Ok cs
      | (Err e, _) => Err e
      | (Panic, _) => Panic
      | (Diverge, _) => Diverge
      end
  end.
End methods.
