(* ===== verification/ControllerSync.v ===== *)
(** The membership controller: one committer, one winner, one association.

    Three promises of [ironcore]'s controller, proved over the whole stack
    below it.  Associations follow the epoch: a commit that wins and the
    [HandleCommit] of a peer leave both with associations that fit together.
    No two commits win the same epoch, whatever methods the controllers of a
    group call in whatever order, when the ordering service keeps the promise
    of the [Ordering] class.  And [Reconcile] elects one committer and leads the
    group to the desired membership. *)

From Stdlib Require Import ZArith Lia Strings.Byte.
From stdpp Require Import base list numbers strings sorting sets gmap.
From S2P Require Import Prelude Syntax TreeNodes TreeMath Cipher ToyCrypto RatchetTree TreeSync TreeKEM.
From S2P Require Import KeySchedule Sequencer Esp Framing GroupMessages Group GroupProposals GroupSync GroupKeys GroupLed Controller.

(** * Computing with controller methods *)

Section cm.
Context {C : StdCrypto} {S : Type}.
Local Abbreviation CM := (CM (S := S)).
Local Open Scope go_scope.

Lemma cbind_ok {A B} (m : CM A) (k : A -> CM B) s b s' :
  cbind m k s = (Ok b, s') <-> exists a s1, m s = (Ok a, s1) /\ k a s1 = (Ok b, s').
Proof.
  unfold cbind. split.
  - destruct (m s) as [[a| | |] s1]; [eauto|by intros [=]..].
  - by intros (a & s1 & -> & H).
Qed.

Lemma clift_ok {A} (m : outcome A) s a s' : clift (S := S) m s = (Ok a, s') <-> m = Ok a /\ s' = s.
Proof. unfold clift. split; [by intros [= <- <-]|by intros [-> ->]]. Qed.

Lemma cbind_lift {A B} (m : outcome A) (k : A -> CM B) s a : m = Ok a -> cbind (clift m) k s = k a s.
Proof. by intros ->. Qed.

Lemma cbind_get {B} (k : Controller -> CM B) s : cbind cget k s = k s.1 s.
Proof. done. Qed.

Lemma ctry_ok {A} (m : CM A) s r s' : ctry m s = (Ok r, s') <->
  match r with inl a => m s = (Ok a, s') | inr e => m s = (Err e, s') end.
Proof. unfold ctry. destruct (m s) as [[a|e| |] s1], r; naive_solver. Qed.

Lemma on_group_ok {A} (m : GM A) c g (s : S) a c' s' : c_g c = Some g ->
  on_group m (c, s) = (Ok a, (c', s')) -> exists g', m g = (Ok a, g') /\ c' = with_g g' c /\ s' = s.
Proof. unfold on_group. intros ->. destruct (m g) as [r g']. intros [= -> <- <-]. by exists g'. Qed.
End cm.

(** Opens a successful run of a controller method, one statement at a time. *)
Ltac go_ok_in H :=
  repeat match type of H with
  | cbind cget _ _ = (Ok _, _) => rewrite cbind_get in H; cbn [fst] in H
  | cbind (clift _) _ _ = (Ok _, _) =>
      let a := fresh "a" in let E := fresh "E" in let s := fresh "s" in
      apply cbind_ok in H as (a & s & E & H); apply clift_ok in E as [E ->];
      repeat match goal with x : (_ * _)%type |- _ => destruct x end; cbv beta match in H
  | clift _ _ = (Ok _, _) => apply clift_ok in H as [H ->]
  end.

(** * Associations *)

Section rotation.
Context {C : StdCrypto} {S : Type}.
Local Abbreviation CM := (CM (S := S)).

(** What a rotation leaves: the association of the epoch before as the
    previous one, and that of the group's epoch as the current one. *)
Definition rotated (c : Controller) (g' : Group) (sa : SA) (c' : Controller) : Prop :=
  c' = mkController (c_cfg c) (Some g') (c_groupID c) (c_suite c) (Some sa) (c_curSA c) true.

Lemma rotateSA_ok c g (s : S) : c_g c = Some g ->
  rotateSA (c, s) = match DeriveSAKeys (group_view g) (cfg_VNI (c_cfg c)) with
    | Ok sa => (Ok tt, (mkController (c_cfg c) (c_g c) (c_groupID c) (c_suite c) (Some sa) (c_curSA c) true, s))
    | Err e => (Err e, (mkController (c_cfg c) (c_g c) (c_groupID c) (c_suite c) (c_curSA c) (c_curSA c) true, s))
    | Panic => (Panic, (mkController (c_cfg c) (c_g c) (c_groupID c) (c_suite c) (c_curSA c) (c_curSA c) true, s))
    | Diverge => (Diverge, (mkController (c_cfg c) (c_g c) (c_groupID c) (c_suite c) (c_curSA c) (c_curSA c) true, s))
    end.
Proof.
  intros Eg. unfold rotateSA, deriveCur, cbind, cget, cput, clift. cbn [fst snd c_g c_cfg]. rewrite Eg.
  by destruct (DeriveSAKeys _ _).
Qed.

(** Members of one epoch see one view, but for the own leaf. *)
Lemma group_view_same g h : same_epoch g h ->
  gv_CipherSuite (group_view h) = gv_CipherSuite (group_view g) /\ gv_Epoch (group_view h) = gv_Epoch (group_view g) /\
  forall label ctx n, gv_Exporter (group_view h) label ctx n = gv_Exporter (group_view g) label ctx n.
Proof.
  intros [E1 E2 _ E3 _ _ _]. unfold group_view, Group_GroupContext, Epoch, Exporter. cbn. by rewrite E1, E2, E3.
Qed.
End rotation.

(** * What a receiver reads of a commit before it processes it *)

Section peek.
Context {C : StdCrypto} `{!StdCryptoLaws C}.
Implicit Types g h : Group.

Lemma frame_commit_sender g guard fc sig tag mm g' : frame_commit g guard fc sig tag g = (Ok mm, g') ->
  snd_Type (fc_Sender fc) = SenderTypeMember -> public_sender (fun t => negb (t =? SenderTypeMember)) mm = false.
Proof.
  unfold frame_commit. intros Hx Hs. destruct (g_encryptHandshakes g).
  - run_ok_in Hx. apply gbind_ok in Hx as (? & ? & _ & Hx). apply glift_ok in Hx as [[= <-] _]. done.
  - run_ok_in Hx. apply glift_ok in Hx as [[= <-] _]. unfold public_sender. cbn [mm_Public].
    match goal with E : AssembleCommitPublic _ _ _ _ _ _ = Ok _ |- _ => unfold AssembleCommitPublic in E; rename E into Ea end.
    repeat (apply obind_ok in Ea as (? & _ & Ea)). apply Ok_inj in Ea as <-. cbn [pm_Content]. by rewrite Hs.
Qed.

Lemma PeekCommit_delivered d g h opt signer r commit w g' :
  commit_ready d g opt signer -> same_epoch g h -> len (cr_guard r) = 4 -> Group_Commit r opt g = (Ok (commit, w), g') ->
  exists refs up, PeekCommit h commit = Ok (mkCommit (commit_proposals refs (ByValue opt)) (Some up)).
Proof.
  intros Hcr Hs Hgu Hcm. pose proof (cr_signer _ _ _ _ Hcr) as Hsf.
  destruct (Group_Commit_inv r opt g signer commit w g' (proj1 Hsf) Hcm)
    as (cache & refs & a & wt & up & cs & byNode & body & ci & sig & th & gcb & psk & es & mm & g1 & interim & priv & st &
        Hcl & Hca & Hap & Hgen & Hbody & Hsc & Hth & Hgcb & Hpsk & Hes & Hfr & Hms & _).
  destruct (staged_ok d g opt signer cache refs wt a Hcr Hcl Hca Hap) as (-> & rs & Hrs & Hrok & Hok & _).
  pose proof Hok as [_ (d' & _ & Hwf' & _) _].
  destruct (committed_tree d g opt signer a _ _ _ _ _ up cs byNode d' Hcr Hwf' Hgen) as (Hg & Hup & _).
  assert (Commit_ok (mkCommit (commit_proposals refs (ByValue opt)) (Some up))) as Hcok.
  { split; [apply commit_proposals_ok, (cr_proposals _ _ _ _ Hcr)|exact Hup]. }
  assert (FramedContent_ok (commit_content g body)) as Hfc.
  { repeat split; cbn; try done; try apply (cr_epoch _ _ _ _ Hcr); try (pose proof (proj1 (cr_own _ _ _ _ Hcr));
      pose proof (ti_depth _ _ (wf_inv _ _ (cr_tree _ _ _ _ Hcr))); pose proof (Z.pow_le_mono_r 2 d 30 ltac:(lia) ltac:(lia)); lia).
    by apply (commit_content_ok _ _ Hcok Hbody). }
  destruct (frame_commit_delivers g h (cr_guard r) (commit_content g body) ci sig _ signer mm g1 commit Hs Hsf eq_refl eq_refl Hfc eq_refl
    (cr_gen _ _ _ _ Hcr) Hgu Hsc Hfr Hms) as (Hum & _ & Hau).
  exists refs, up. unfold PeekCommit. rewrite Hum. cbn [obind]. rewrite (frame_commit_sender _ _ _ _ _ _ _ Hfr eq_refl), Hau.
  cbn [obind ac_Content commit_content fc_ContentType]. exact (unmarshal_marshal (r := decodeCommit) _ _ _ Hcok Hbody).
Qed.

(** The check for the own removal sees exactly the inline Removes. *)
Lemma commitRemovesSelf_delivered d g h opt signer r commit w g' :
  commit_ready d g opt signer -> same_epoch g h -> len (cr_guard r) = 4 -> Group_Commit r opt g = (Ok (commit, w), g') ->
  commitRemovesSelf h commit = Ok (existsb (fun p => (p_Type p =? ProposalTypeRemove) &&
    match p_Remove p with Some x => Removed x =? g_ownLeaf h | None => false end) (ByValue opt)).
Proof.
  intros Hcr Hs Hgu Hcm. destruct (PeekCommit_delivered d g h opt signer r commit w g' Hcr Hs Hgu Hcm) as (refs & up & E).
  unfold commitRemovesSelf. rewrite E. cbn [cm_Proposals]. f_equal. unfold commit_proposals.
  rewrite existsb_app. replace (existsb _ (map _ refs)) with false; [cbn [orb]|by clear E; induction refs as [|x refs IH]; [|cbn; rewrite <- IH]].
  clear. induction (ByValue opt) as [|p ps IH]; [done|]. cbn [map existsb]. rewrite IH. unfold removes_leaf, OwnLeaf. cbn [por_Type por_Proposal]. rewrite Z.eqb_refl. done.
Qed.
End peek.

(** * Committing through the service *)

Section order.
Context {C : StdCrypto} {X S : Type} (accept : S -> call X -> outcome bool * S) (who : X).

(** The call of the service for a commit of the controller. *)
Definition commit_call (c : Controller) (epoch : Z) (commit : bytes) : call X :=
  mkCall who (c_groupID c) epoch (Suite_Hash (c_suite c) commit).

(** What a commit that was made leaves: the group in its next epoch, whatever
    the service said; the associations rotated when it was accepted, and as
    they were when it was not. *)
Record made (c : Controller) (s : S) r ps (commit : bytes) w (won : bool) (err : option string) (c' : Controller) (s' : S) : Prop := {
  md_commit : exists g g' o, c_g c = Some g /\ c_g c' = Some g' /\
    Group_Commit r (mkCommitOptions ps []) g = (Ok (commit, w), g') /\
    accept s (commit_call c (Epoch g) commit) = (o, s') /\
    (won = true -> o = Ok true) /\ (won = false -> c' = with_g g' c) /\
    (won = true -> err = None -> exists sa, DeriveSAKeys (group_view g') (cfg_VNI (c_cfg c)) = Ok sa /\ rotated c g' sa c');
  md_same : c_groupID c' = c_groupID c /\ c_suite c' = c_suite c /\ c_cfg c' = c_cfg c
}.

Lemma commitAndOrder_inv r ps c s cm w won err c' s' :
  commitAndOrder accept who r ps (c, s) = (Ok (cm, w, won, err), (c', s')) ->
  (exists commit, cm = Some commit /\ made c s r ps commit w won err c' s') \/
  (cm = None /\ won = false /\ is_Some err /\ s' = s /\ c_groupID c' = c_groupID c /\ c_suite c' = c_suite c).
Proof.
  intros Hx. unfold commitAndOrder in Hx. rewrite cbind_get in Hx. cbn [fst] in Hx.
  destruct (c_g c) as [g|] eqn:Eg; [|done].
  apply cbind_ok in Hx as (res & [c1 s1] & Hc & Hx). apply ctry_ok in Hc. destruct res as [[commit w']|e]; cycle 1.
  { apply clift_ok in Hx as [[= <- <- <- <-] [= <- <-]]. right. unfold on_group in Hc. rewrite Eg in Hc.
    destruct (Group_Commit _ _ g) as [o1 g1]. injection Hc as -> <- <-. split_and!; try done. }
  apply (on_group_ok _ _ _ _ _ _ _ Eg) in Hc as (g' & Hcm & -> & ->). left.
  apply cbind_ok in Hx as (ok & [c2 s2] & Ho & Hx). apply ctry_ok in Ho.
  assert (c2 = with_g g' c /\ accept s (commit_call c (Epoch g) commit) = (match ok with inl b => Ok b | inr e => Err e end, s2)) as [-> Ha].
  { unfold order in Ho. unfold commit_call. destruct (accept s _) as [o1 s3]. destruct ok; by injection Ho as -> <- <-. }
  destruct ok as [[]|e].
  - apply cbind_ok in Hx as (rot & [c3 s3] & Hr & Hx). apply ctry_ok in Hr. rewrite (rotateSA_ok _ g') in Hr by done.
    destruct rot as [u|e].
    + apply clift_ok in Hx as [[= <- <- <- <-] [= <- <-]]. destruct (DeriveSAKeys _ _) as [sa| | |] eqn:Esa; try done.
      injection Hr as <- <- <-. exists commit. split; [done|]. split; [|done]. exists g, g', (Ok true). split_and!; try done. intros _ _. by exists sa.
    + apply clift_ok in Hx as [[= <- <- <- <-] [= <- <-]]. destruct (DeriveSAKeys _ _) as [sa| | |] eqn:Esa; try done.
      injection Hr as <- <- <-. exists commit. split; [done|]. split; [|done]. exists g, g', (Ok true). by split_and!.
  - apply clift_ok in Hx as [[= <- <- <- <-] [= -> ->]]. exists commit. split; [done|]. split; [|done]. exists g, g', (Ok false). by split_and!.
  - apply clift_ok in Hx as [[= <- <- <- <-] [= -> ->]]. exists commit. split; [done|]. split; [|done]. exists g, g', (Err e). by split_and!.
Qed.
End order.

Section follow.
Context {C : StdCrypto} `{!StdCryptoLaws C} {S : Type}.
Implicit Types g h : Group.

(** [HandleCommit] of a commit that a peer made. *)
Lemma HandleCommit_follows d g h opt signer r commit w g' p (s : S) :
  commit_ready d g opt signer -> receiver_ready d g opt h -> ByReference opt = [] -> derivable (g_suite g) -> len (cr_guard r) = 4 ->
  is_ok (let! a := staged g opt in RatchetTree_MarshalMLS (ap_tree a)) = true ->
  Group_Commit r opt g = (Ok (commit, w), g') -> c_g p = Some h ->
  exists h', same_epoch g' h' /\ next_epoch h h' /\ ProcessCommit [] commit h = (Ok tt, h') /\
    HandleCommit commit (p, s) = rotateSA (with_g h' p, s).
Proof.
  intros Hcr Hrr Hin Hder Hgu Henc Hcm Hp.
  destruct (ProcessCommit_follows_keys d g h opt signer r commit w g' Hcr Hrr Hder Hgu Henc Hcm)
    as (h' & d' & a & up & bn & Hpc & Hse & _). rewrite Hin in Hpc.
  exists h'. split_and!; [done|by eapply ProcessCommit_epoch|done|].
  unfold HandleCommit. rewrite cbind_get. cbn [fst]. rewrite Hp.
  assert (commitRemovesSelf h commit = Ok false) as Hno.
  { rewrite (commitRemovesSelf_delivered d g h opt signer r commit w g' Hcr (rr_epoch _ _ _ _ Hrr) Hgu Hcm). f_equal.
    apply not_true_is_false. intros (q & Hq & [Ht Hx]%andb_true_iff)%existsb_exists.
    destruct (p_Remove q) as [x|] eqn:Ex; [|done]. apply Z.eqb_eq in Ht, Hx.
    assert (staged_proposals g opt = Ok (map (fun p => mkCached p (g_ownLeaf g)) (ByValue opt))) as Hrs
      by (unfold staged_proposals; rewrite Hin; cbn [proposal_cache obind]; apply resolve_inline).
    pose proof (rr_spared _ _ _ _ Hrr _ Hrs) as HF. rewrite Forall_forall in HF.
    apply (HF (OpRemove (g_ownLeaf h))); [|done]. apply list_elem_of_fmap. exists (OpRemove (Removed x)). split.
    - cbn. f_equal. rewrite Hx. symmetry. apply leaf_index_small.
      pose proof (rr_leaf _ _ _ _ Hrr) as [Hl _]. pose proof (ti_depth _ _ (wf_inv _ _ (cr_tree _ _ _ _ Hcr))).
      pose proof (Z.pow_le_mono_r 2 d 30 ltac:(lia) ltac:(lia)). lia.
    - unfold commit_ops. rewrite !elem_of_app. right. left. apply elem_remove_ops. exists q, x. split_and!; [by apply list_elem_of_In|done..]. }
  rewrite (cbind_lift _ _ _ _ Hno). unfold cbind, on_group. rewrite Hp. by rewrite Hpc.
Qed.

(** Each sees the other's traffic. *)
Definition hears (sa' sa : SA) : Prop :=
  forall leaves l, InboundSAs sa' leaves = Ok l -> sa_OwnLeaf sa ∈ leaves ->
    mkInboundSA (sa_OwnLeaf sa) (sa_OwnSPI sa) (sa_Key sa) (sa_OwnSalt sa) ∈ l.

Lemma same_epoch_hears g h vni sa sa' : same_epoch g h ->
  DeriveSAKeys (group_view g) vni = Ok sa -> DeriveSAKeys (group_view h) vni = Ok sa' -> hears sa' sa.
Proof.
  intros Hs Hg Hh leaves l Hl Hin. destruct (group_view_same g h Hs) as (E1 & E2 & E3).
  pose proof (DeriveSAKeys_ok _ _ _ Hg) as (_ & _ & El & _). rewrite El in *.
  by eapply (esp_peers_agree (group_view g) (group_view h)).
Qed.
End follow.

(** * One winner per epoch *)

(** ** The epochs that commits lead to *)

Section entered.
Context {C : StdCrypto} {X S : Type} (accept : S -> call X -> outcome bool * S) (who : X).

Lemma ExternalCommit_epoch r suite gi cred signer lifetime g commit :
  ExternalCommit r suite gi cred signer lifetime = Ok (g, commit) -> Epoch g = u64 (gc_Epoch (gi_GroupContext gi) + 1).
Proof.
  unfold ExternalCommit. destruct (ExternalPubExtension gi); [|done]. intros Hx.
  repeat (apply obind_ok in Hx as (? & _ & Hx); repeat match goal with x : _ * _ |- _ => destruct x end).
  by apply Ok_inj in Hx as [= <- _].
Qed.

(** The calls of a controller's methods. *)
Inductive action : Type :=
| ActRekey (r : CommitRand)
| ActReconcile (r : CommitRand) (desired : list bytes)
| ActWelcome (welcomeMsg kpMsg initPriv leafPriv : bytes)
| ActExternal (r : ExternalRand) (gi : option GroupInfo)
| ActHandle (commitMsg : bytes)
| ActRecover (r : ExternalRand) (candidates : list (option bytes)) (fetchGI : bytes -> outcome (option GroupInfo)).

(** Epochs are unsigned 64-bit integers. *)
Definition action_typed (a : action) : Prop :=
  match a with
  | ActExternal _ (Some gi) => is_u64 (gc_Epoch (gi_GroupContext gi))
  | ActRecover _ _ fetchGI => forall ref gi, fetchGI ref = Ok (Some gi) -> is_u64 (gc_Epoch (gi_GroupContext gi))
  | _ => True
  end.

(** The methods, with the commit that the caller learns to have won. *)
Definition perform (a : action) : CM (S := S) (option bytes) :=
  match a with
  | ActRekey r => go! (msg, won, _) := Rekey accept who r in clift (Ok (if won : bool then msg else None))
  | ActReconcile r desired =>
      go! (res, _) := Reconcile accept who r desired in clift (Ok (if res_Won res then res_CommitMsg res else None))
  | ActWelcome w kp ip lp => go! _ := JoinViaWelcome w kp ip lp in clift (Ok None)
  | ActExternal r gi => go! msg := JoinViaExternalCommit accept who r gi in clift (Ok (Some msg))
  | ActHandle m => go! _ := HandleCommit m in clift (Ok None)
  | ActRecover r cs f => go! (msg, _) := AutoRecover accept who r cs f in clift (Ok (Some msg))
  end.

(** A win: the group, the epoch that the winner has entered, and the reference
    of its commit. *)
Definition win : Type := (bytes * Z * bytes)%type.

Definition won_by (o : outcome (option bytes)) (c' : Controller) : option win :=
  match o with
  | Ok (Some m) => Some (c_groupID c', Controller_Epoch c', Suite_Hash (c_suite c') m)
  | _ => None
  end.

(** One call of the service at most, and a win only when it accepted. *)
Definition one_call (s s' : S) (x : option win) : Prop :=
  (s' = s /\ x = None) \/
  exists k r, accept s k = (r, s') /\ is_u64 (c_epoch k) /\
    (x = None \/ r = Ok true /\ x = Some (c_group k, u64 (c_epoch k + 1), c_commit k)).

Lemma commitAndOrder_call r ps c s cm w won err c' s' : is_u64 (Controller_Epoch c) ->
  commitAndOrder accept who r ps (c, s) = (Ok (cm, w, won, err), (c', s')) ->
  one_call s s' (won_by (Ok (if won then cm else None)) c').
Proof.
  intros Hu Hx. apply commitAndOrder_inv in Hx as [(commit & -> & [(g & g' & o & Eg & Eg' & Hcm & Ha & Hw & _ & _) (E1 & E2 & _)])|H].
  - right. exists (commit_call who c (Epoch g) commit), o. unfold Controller_Epoch in Hu. rewrite Eg in Hu. split_and!; [done|done|].
    destruct won; [right|by left]. split; [by apply Hw|]. cbn [won_by commit_call c_group c_epoch c_commit].
    unfold Controller_Epoch. destruct (Group_Commit_epoch _ _ _ _ _ Hcm) as [Hn _]. by rewrite E1, E2, Eg', (ne_epoch _ _ Hn).
  - destruct H as (-> & -> & _ & -> & _). by left.
Qed.

(** Failures after the call leave no win. *)
Lemma one_call_none s s' x : one_call s s' x -> one_call s s' None.
Proof. intros [[-> _]|(k & r & Ha & Hu & _)]; [by left|right; exists k, r; split_and!; [done|done|by left]]. Qed.
End entered.

(** ** Which computations call the service *)

Section consults.
Context {C : StdCrypto} {X S : Type} (accept : S -> call X -> outcome bool * S) (who : X).
Local Abbreviation CM := (CM (S := S)).

Definition silent {A} (m : CM A) : Prop := forall cs, (m cs).2.2 = cs.2.

Definition consults {A} (m : CM A) (cs : Controller * S) : Prop :=
  let s' := (m cs).2.2 in s' = cs.2 \/ exists k r, accept cs.2 k = (r, s') /\ is_u64 (c_epoch k).

Lemma silent_lift {A} (m : outcome A) : silent (clift m).
Proof. done. Qed.
Lemma silent_get : silent cget.
Proof. done. Qed.
Lemma silent_put c : silent (cput c).
Proof. done. Qed.
Lemma silent_bind {A B} (m : CM A) (k : A -> CM B) : silent m -> (forall a, silent (k a)) -> silent (cbind m k).
Proof. intros Hm Hk cs. unfold cbind. specialize (Hm cs). destruct (m cs) as [[a| | |] cs']; [by rewrite Hk|done..]. Qed.
Lemma silent_try {A} (m : CM A) : silent m -> silent (ctry m).
Proof. intros Hm cs. unfold ctry. specialize (Hm cs). by destruct (m cs) as [[a| | |] cs']. Qed.
Lemma silent_on_group {A} (m : GM A) : silent (on_group m).
Proof. intros [c s]. unfold on_group. destruct (c_g c) as [g|]; [|done]. by destruct (m g). Qed.
Lemma silent_rotate : silent rotateSA.
Proof.
  intros [c s]. destruct (c_g c) as [g|] eqn:E; [rewrite (rotateSA_ok c g) by done; by destruct (DeriveSAKeys _ _)|].
  unfold rotateSA, deriveCur, cbind, cget, cput, clift. cbn. by rewrite E.
Qed.
Lemma silent_derive : silent deriveCur.
Proof. apply silent_bind; [done|]. intros c. destruct (c_g c); [|done]. by apply silent_bind. Qed.
Lemma silent_privacy : silent applyHandshakePrivacy.
Proof. intros [c s]. unfold applyHandshakePrivacy. destruct (c_g c) eqn:E; [apply silent_on_group|done]. Qed.

Lemma consults_silent {A} (m : CM A) cs : silent m -> consults m cs.
Proof. intros Hm. left. apply Hm. Qed.
Lemma consults_after {A B} (m : CM A) (k : A -> CM B) cs : silent m ->
  (forall a cs', m cs = (Ok a, cs') -> cs'.2 = cs.2 -> consults (k a) cs') -> consults (cbind m k) cs.
Proof.
  intros Hm Hk. specialize (Hm cs). unfold consults, cbind. destruct (m cs) as [[a| | |] cs'] eqn:E; try by left.
  cbn [snd] in Hm. specialize (Hk a cs' eq_refl Hm). unfold consults in Hk. by rewrite Hm in Hk.
Qed.
Lemma consults_before {A B} (m : CM A) (k : A -> CM B) cs : consults m cs -> (forall a, silent (k a)) -> consults (cbind m k) cs.
Proof.
  intros Hm Hk. unfold consults, cbind in *. destruct (m cs) as [[a| | |] cs'] eqn:E; try done. by rewrite (Hk a cs').
Qed.
Lemma consults_try {A} (m : CM A) cs : consults m cs -> consults (ctry m) cs.
Proof. unfold consults, ctry. by destruct (m cs) as [[a| | |] cs']. Qed.
Lemma consults_order gid e ref cs : is_u64 e -> consults (order accept who gid e ref) cs.
Proof.
  intros He. destruct cs as [c s]. unfold consults, order. destruct (accept s _) as [r s'] eqn:E. right. by exists (mkCall who gid e ref), r.
Qed.
End consults.

Create HintDb service.
#[export] Hint Resolve silent_lift silent_get silent_put silent_bind silent_try silent_on_group silent_rotate silent_derive
  silent_privacy : service.

(** Computations that do not call the service. *)
Ltac quiet := repeat first [progress intros|case_match|by auto with service|by simple apply silent_lift|simple apply silent_bind].

Section calls.
Context {C : StdCrypto} {X S : Type} (accept : S -> call X -> outcome bool * S) (who : X).

Lemma consults_commitAndOrder r ps cs : is_u64 (Controller_Epoch cs.1) -> consults accept (commitAndOrder accept who r ps) cs.
Proof.
  intros Hu. apply consults_after; [apply silent_get|]. intros c cs' [= <- <-] _. unfold Controller_Epoch in Hu.
  destruct (c_g cs.1) as [g|]; [|by left]. apply consults_after; [by auto with service|].
  intros [[commit w]|e] cs1 _ _; [|by left]. apply consults_before; [by apply consults_try, consults_order|].
  intros [[]|e]; quiet.
Qed.

Lemma consults_Rekey r cs : is_u64 (Controller_Epoch cs.1) -> consults accept (Rekey accept who r) cs.
Proof.
  intros Hu. apply consults_after; [apply silent_get|]. intros c cs' [= <- <-] _. destruct (c_g cs.1) as [g|] eqn:E; [|by left].
  apply consults_after; [by auto with service|]. intros b cs1 [_ ->]%clift_ok _. destruct b; [|by left]. cbn [negb].
  apply consults_before; [by apply consults_commitAndOrder|quiet].
Qed.

Lemma consults_Reconcile r ds cs : is_u64 (Controller_Epoch cs.1) -> consults accept (Reconcile accept who r ds) cs.
Proof.
  intros Hu. apply consults_after; [apply silent_get|]. intros c cs' [= <- <-] _.
  destruct (c_g cs.1) as [g|] eqn:E, (cfg_Validator (c_cfg cs.1)) as [v|]; try by left.
  apply consults_after; [by auto with service|]. intros m cs1 [_ ->]%clift_ok _.
  apply consults_after; [by auto with service|]. intros ls cs1 [_ ->]%clift_ok _.
  cbv zeta. case_match; [by left|]. apply consults_after; [by auto with service|]. intros [[adds added] pending] cs1 [_ ->]%clift_ok _.
  case_match; [by left|]. apply consults_before; [by apply consults_commitAndOrder|quiet].
Qed.

Lemma silent_adopt g : silent (S := S) (adopt g).
Proof. unfold adopt. quiet. Qed.

Lemma consults_External r gi cs : action_typed (ActExternal r gi) -> consults accept (JoinViaExternalCommit accept who r gi) cs.
Proof.
  destruct gi as [gi|]; [|by left]. intros Hu. apply consults_after; [apply silent_get|]. intros c cs' [= <- <-] _.
  apply consults_after; [by auto with service|]. intros [g m] cs1 _ _. apply consults_before; [by apply consults_order|].
  intros []; [|quiet]. cbn [negb]. apply silent_bind; [apply silent_adopt|quiet].
Qed.

Lemma consults_Recover r cands f cs : action_typed (ActRecover r cands f) -> consults accept (AutoRecover accept who r cands f) cs.
Proof.
  intros Hu. apply consults_after; [apply silent_get|]. intros c cs' [= <- <-] _. destruct (c_g cs.1) as [g|]; [|by left].
  apply consults_before; [|quiet]. unfold RecoverViaExternalCommit. destruct (CanonicalCommit _ _) as [ref|]; [|by left].
  apply consults_after; [by auto with service|]. intros gi cs1 [Hgi ->]%clift_ok _. destruct gi as [gi|]; [|by left].
  apply consults_after; [by auto with service|]. intros [ng m] cs1 _ _. apply consults_before; [by apply consults_order, (Hu ref)|quiet].
Qed.

Lemma perform_consults a cs : is_u64 (Controller_Epoch cs.1) -> action_typed a -> consults accept (perform accept who a) cs.
Proof.
  intros Hu Ha. destruct a; cbn [perform].
  - apply consults_before; [by apply consults_Rekey|quiet].
  - apply consults_before; [by apply consults_Reconcile|quiet].
  - apply consults_silent. unfold JoinViaWelcome. repeat (apply silent_bind; [by auto using silent_adopt with service|intros]); auto with service.
  - apply consults_before; [by apply (consults_External r)|quiet].
  - apply consults_silent. apply silent_bind; [|quiet]. unfold HandleCommit. quiet.
  - apply consults_before; [by apply (consults_Recover r)|quiet].
Qed.

(** Wins come from accepted commits. *)
Lemma adopt_ok g c (s : S) u c' s' : adopt g (c, s) = (Ok u, (c', s')) ->
  s' = s /\ Controller_Epoch c' = Epoch g /\ c_groupID c' = c_groupID c /\ c_suite c' = c_suite c.
Proof.
  unfold adopt, applyHandshakePrivacy, deriveCur, on_group, SetEncryptHandshakes, cbind, cget, cput, clift. cbn.
  destruct (DeriveSAKeys _ _); try done. by intros [= <- <- <-].
Qed.

Lemma order_ok gid e ref c (s : S) b c' s' : order accept who gid e ref (c, s) = (Ok b, (c', s')) ->
  c' = c /\ accept s (mkCall who gid e ref) = (Ok b, s').
Proof. unfold order. destruct (accept s _) as [r s1]. by intros [= -> <- <-]. Qed.

Lemma External_win r gi c s m c' s' : action_typed (ActExternal r gi) ->
  JoinViaExternalCommit accept who r gi (c, s) = (Ok m, (c', s')) -> one_call accept s s' (won_by (Ok (Some m)) c').
Proof.
  destruct gi as [gi|]; [|done]. intros Hu Hx. unfold JoinViaExternalCommit in Hx. go_ok_in Hx.
  apply cbind_ok in Hx as (b & [c1 s1] & Ho & Hx). apply order_ok in Ho as [-> Ha]. destruct b; [cbn [negb] in Hx|done].
  apply cbind_ok in Hx as (u & [c2 s2] & Hd & Hx). apply adopt_ok in Hd as (-> & Ee & Eg & Es).
  apply clift_ok in Hx as [[= <-] [= <- <-]]. right. eexists _, _. split_and!; [exact Ha|exact Hu|]. right. split; [done|].
  cbn [won_by c_group c_epoch c_commit]. rewrite Ee, Eg, Es.
  match goal with E : ExternalCommit _ _ _ _ _ _ = Ok _ |- _ => by rewrite (ExternalCommit_epoch _ _ _ _ _ _ _ _ E) end.
Qed.

Lemma rotated_keeps c (s : S) r c' s' : ctry rotateSA (c, s) = (Ok r, (c', s')) ->
  s' = s /\ Controller_Epoch c' = Controller_Epoch c /\ c_groupID c' = c_groupID c /\ c_suite c' = c_suite c.
Proof.
  intros Hx. apply ctry_ok in Hx. destruct (c_g c) as [g|] eqn:Eg; cycle 1.
  { unfold rotateSA, deriveCur, cbind, cget, cput, clift in Hx. cbn in Hx. rewrite Eg in Hx. by destruct r. }
  rewrite (rotateSA_ok c g) in Hx by done. unfold Controller_Epoch.
  destruct r, (DeriveSAKeys _ _); try done; injection Hx; intros; subst; done.
Qed.

Lemma Recover_win r cands f c s m e c' s' : c_groupID c = GroupID (cfg_VNI (c_cfg c)) -> action_typed (ActRecover r cands f) ->
  AutoRecover accept who r cands f (c, s) = (Ok (m, e), (c', s')) -> one_call accept s s' (won_by (Ok (Some m)) c').
Proof.
  intros Hid Hu Hx. unfold AutoRecover in Hx. go_ok_in Hx. destruct (c_g c) as [g|]; [|done].
  apply cbind_ok in Hx as ([m1 v1] & [c1 s1] & Hr & Hx). unfold RecoverViaExternalCommit in Hr.
  destruct (CanonicalCommit _ _) as [ref|]; [|done]. go_ok_in Hr. destruct a as [gi|]; [|done]. go_ok_in Hr.
  apply cbind_ok in Hr as (b & [c2 s2] & Ho & Hr). apply order_ok in Ho as [-> Ha]. destruct b; [cbn [negb] in Hr|done].
  apply clift_ok in Hr as [Em [= -> ->]]. injection Em as Em Ev. apply cbind_ok in Hx as (u & [c3 s3] & [= <- <- <-] & Hx).
  apply cbind_ok in Hx as (u' & [c4 s4] & Hp & Hx).
  unfold applyHandshakePrivacy, on_group, SetEncryptHandshakes in Hp. cbn in Hp. injection Hp as <- <- <-.
  apply cbind_ok in Hx as (rot & [c5 s5] & Hr & Hx). apply rotated_keeps in Hr as (-> & Ee & Eg & Es).
  assert (c' = c5 /\ s' = s2 /\ m = m1) as (-> & -> & ->).
  { destruct rot; apply clift_ok in Hx as [[= ? ?] [= -> ->]]; subst; done. }
  subst v1 m1. right. eexists _, _. split_and!; [exact Ha|by apply (Hu ref)|]. right. split; [done|].
  cbn [won_by c_group c_epoch c_commit]. rewrite Ee, Eg, Es. cbn [c_groupID c_suite with_g Controller_Epoch c_g vg_g Epoch].
  unfold Epoch. cbn [with_encryptHandshakes g_groupContext].
  match goal with E : ExternalCommit _ _ _ _ _ _ = Ok _ |- _ => pose proof (ExternalCommit_epoch _ _ _ _ _ _ _ _ E) as He end.
  unfold Epoch in He. rewrite He, Hid. done.
Qed.

Lemma Reconcile_win r ds c s res err c' s' : is_u64 (Controller_Epoch c) ->
  Reconcile accept who r ds (c, s) = (Ok (res, err), (c', s')) ->
  one_call accept s s' (won_by (Ok (if res_Won res then res_CommitMsg res else None)) c').
Proof.
  intros Hu Hx. unfold Reconcile in Hx. go_ok_in Hx. destruct (c_g c) as [g|], (cfg_Validator (c_cfg c)) as [v|]; try done. go_ok_in Hx.
  cbv zeta in Hx. case_match; [apply clift_ok in Hx as [[= <- <-] [= <- <-]]; by left|]. go_ok_in Hx.
  case_match; [apply clift_ok in Hx as [[= <- <-] [= <- <-]]; by left|].
  apply cbind_ok in Hx as ([[[cm w] won] e] & [c1 s1] & Hc & Hx). destruct e; [done|].
  apply clift_ok in Hx as [[= <- <-] [= -> ->]]. cbn [res_Won res_CommitMsg]. by eapply commitAndOrder_call.
Qed.

(** A controller as [NewController] builds it, in an epoch of 64 bits. *)
Definition live (c : Controller) : Prop :=
  is_u64 (Controller_Epoch c) /\ c_groupID c = GroupID (cfg_VNI (c_cfg c)).

Lemma perform_call a c s o c' s' : live c -> action_typed a ->
  perform accept who a (c, s) = (o, (c', s')) -> one_call accept s s' (won_by o c').
Proof.
  intros [Hu Hid] Ha Hx. assert (one_call accept s s' None) as Hnone.
  { pose proof (perform_consults a (c, s) Hu Ha) as Hc. unfold consults in Hc. rewrite Hx in Hc. cbn [snd] in Hc.
    destruct Hc as [->|(k & r & E & Hk)]; [by left|right; exists k, r; split_and!; [done|done|by left]]. }
  destruct o as [[m|]| | |]; [|exact Hnone..]. destruct a; cbn [perform] in Hx; apply cbind_ok in Hx as (x & [c1 s1] & Hm & Hx).
  - destruct x as [[msg won] e]. unfold Rekey in Hm. go_ok_in Hm. destruct (c_g c) as [g|] eqn:Eg; cycle 1.
    { apply clift_ok in Hm as [[= <- <- <-] _]. by apply clift_ok in Hx as [[=] _]. }
    go_ok_in Hm. destruct a; cbn [negb] in Hm; [|apply clift_ok in Hm as [[= <- <- <-] _]; by apply clift_ok in Hx as [[=] _]].
    apply cbind_ok in Hm as ([[[cm w] won'] e'] & [c2 s2] & Hc & Hm). apply clift_ok in Hm as [[= <- <- <-] [= -> ->]].
    apply clift_ok in Hx as [Hx [= -> ->]]. rewrite <- Hx. by eapply commitAndOrder_call.
  - destruct x as [res e]. apply clift_ok in Hx as [Hx [= -> ->]]. rewrite <- Hx. by eapply Reconcile_win.
  - by apply clift_ok in Hx as [[=] _].
  - apply clift_ok in Hx as [[= ->] [= -> ->]]. by eapply External_win.
  - by apply clift_ok in Hx as [[=] _].
  - destruct x as [m' e]. apply clift_ok in Hx as [[= ->] [= -> ->]]. by eapply Recover_win.
Qed.
End calls.

(** ** Controllers that share a service *)

Section world.
Context {C : StdCrypto} {X S : Type} {accept : S -> call X -> outcome bool * S} {decided : S -> bytes -> Z -> option bytes}.
Context `{!Ordering accept decided}.

Record World := mkWorld { w_ctl : gmap string Controller; w_service : S }.

(** A step is a method call of one controller, which identifies itself to the
    service as it likes, or a call of the service from elsewhere.  Controllers
    come and go. *)
Inductive wstep (w : World) : option win -> World -> Prop :=
| ws_perform i c who a o c' s' : w_ctl w !! i = Some c -> live c -> action_typed a ->
    perform accept who a (c, w_service w) = (o, (c', s')) ->
    wstep w (won_by o c') (mkWorld (<[i := c']> (w_ctl w)) s')
| ws_other k r s' : is_u64 (c_epoch k) -> accept (w_service w) k = (r, s') -> wstep w None (mkWorld (w_ctl w) s')
| ws_enter i c : wstep w None (mkWorld (<[i := c]> (w_ctl w)) (w_service w))
| ws_leave i : wstep w None (mkWorld (delete i (w_ctl w)) (w_service w)).

Inductive wrun (w : World) : list (option win) -> World -> Prop :=
| wr_nil : wrun w [] w
| wr_cons x w1 xs w2 : wstep w x w1 -> wrun w1 xs w2 -> wrun w (x :: xs) w2.

Lemma wstep_call w x w' : wstep w x w' -> one_call accept (w_service w) (w_service w') x.
Proof.
  destruct 1 as [i c who a o c' s' Hc Hl Ha Hp|k r s' Hk Ha|i c|i]; cbn [w_service]; [by eapply perform_call| |by left..].
  right. exists k, r. split_and!; [done|done|by left].
Qed.

(** The reference that the service keeps for the step into an epoch. *)
Definition kept_for (s : S) (gid : bytes) (e' : Z) (ref : bytes) : Prop :=
  exists e, is_u64 e /\ e' = u64 (e + 1) /\ decided s gid e = Some ref.

Lemma wstep_kept w x w' gid e ref : wstep w x w' -> kept_for (w_service w) gid e ref -> kept_for (w_service w') gid e ref.
Proof.
  intros Hs (e0 & Hu & He & Hd). exists e0. split_and!; [done..|]. apply wstep_call in Hs as [[-> _]|(k & r & Ha & Hk & _)]; [done|].
  by eapply (ord_stable (accept := accept)).
Qed.

Lemma wstep_win w w' gid e ref : wstep w (Some (gid, e, ref)) w' -> kept_for (w_service w') gid e ref.
Proof.
  intros Hs. apply wstep_call in Hs as [[_ [=]]|(k & r & Ha & Hk & [[=]|[-> [= -> -> ->]]])].
  exists (c_epoch k). split_and!; [done..|]. by eapply (ord_accepted (accept := accept)).
Qed.

Lemma wrun_kept w xs w' gid e ref : wrun w xs w' -> kept_for (w_service w) gid e ref -> kept_for (w_service w') gid e ref.
Proof. induction 1 as [|w x w1 xs w2 Hs _ IH]; [done|]. intros Hk. by eapply IH, wstep_kept. Qed.

Lemma wrun_win w xs w' gid e ref : wrun w xs w' -> Some (gid, e, ref) ∈ xs -> kept_for (w_service w') gid e ref.
Proof.
  induction 1 as [|w x w1 xs w2 Hs Hr IH]; [by intros ?%elem_of_nil|]. intros [<-|Hin]%elem_of_cons; [|auto].
  eapply wrun_kept; [done|]. by eapply wstep_win.
Qed.

Lemma u64_next_inj a b : is_u64 a -> is_u64 b -> u64 (a + 1) = u64 (b + 1) -> a = b.
Proof.
  unfold is_u64, u64. intros. destruct (decide (a = 2 ^ 64 - 1)) as [->|], (decide (b = 2 ^ 64 - 1)) as [->|]; [done| | |].
  - rewrite (Z.mod_small (b + 1)) in * by lia. replace (2 ^ 64 - 1 + 1) with (2 ^ 64) in * by lia. rewrite Z.mod_same in * by lia. lia.
  - rewrite (Z.mod_small (a + 1)) in * by lia. replace (2 ^ 64 - 1 + 1) with (2 ^ 64) in * by lia. rewrite Z.mod_same in * by lia. lia.
  - rewrite !Z.mod_small in * by lia. lia.
Qed.
End world.

(** * Reconciling the membership *)

(** ** Sorting *)

Lemma sort_insert_perm k l : sort_insert k l ≡ₚ k :: l.
Proof. induction l as [|x l IH]; cbn [sort_insert]; [done|]. case_match; [|done]. rewrite IH. apply perm_swap. Qed.

Lemma sort_insert_sorted k l : StronglySorted Z.ge l -> StronglySorted Z.ge (sort_insert k l).
Proof.
  induction 1 as [|x l Hs IH HF]; cbn [sort_insert]; [repeat constructor|]. case_match eqn:E.
  - constructor; [done|]. rewrite sort_insert_perm. constructor; [lia|done].
  - constructor; [by constructor|]. constructor; [lia|]. eapply Forall_impl; [exact HF|]. cbn. lia.
Qed.

Lemma sortUint32_perm l : sortUint32 l ≡ₚ l.
Proof.
  unfold sortUint32. rewrite <- Permutation_rev.
  assert (forall acc, foldl (fun sorted key => sort_insert key sorted) acc l ≡ₚ l ++ acc) as Hf.
  { induction l as [|x l IH]; intros acc; [done|]. cbn [foldl]. rewrite IH, sort_insert_perm. cbn. by rewrite Permutation_middle. }
  by rewrite Hf, app_nil_r.
Qed.

Lemma sortUint32_sorted l : StronglySorted Z.le (sortUint32 l).
Proof.
  unfold sortUint32. set (acc := foldl _ [] l).
  assert (StronglySorted Z.ge acc) as Hs.
  { unfold acc. assert (forall acc, StronglySorted Z.ge acc -> StronglySorted Z.ge (foldl (fun sorted key => sort_insert key sorted) acc l)) as Hf.
    { clear. induction l as [|x l IH]; intros acc Ha; [done|]. cbn [foldl]. by apply IH, sort_insert_sorted. }
    apply Hf. constructor. }
  clearbody acc. induction Hs as [|x acc Hs IH HF]; [constructor|]. cbn [rev].
  apply StronglySorted_app. split_and!; [|exact IH|repeat constructor]. intros a b Ha ->%list_elem_of_singleton.
  rewrite Forall_forall in HF. apply list_elem_of_In, in_rev, list_elem_of_In in Ha. specialize (HF a Ha). lia.
Qed.

(** ** The active leaves *)

Section identities.
Context {C : StdCrypto}.
Implicit Types g : Group.

Definition roster g : gmap Z LeafNode := roster_of (rt_nodes (g_tree g)).

Lemma active_leaves_spec t d n i : tree_inv d (rt_nodes t) -> 0 <= i -> i + Z.of_nat n <= 2 ^ 31 ->
  active_leaves t n i = Ok (filter (fun l => is_Some (roster_of (rt_nodes t) !! l)) (seqZ i (Z.of_nat n))).
Proof.
  intros Hinv. revert i. induction n as [|n IH]; intros i Hi Hn; [done|]. cbn [active_leaves].
  rewrite (LeafNodeAt_roster t d i Hinv ltac:(lia)), (seqZ_cons i (Z.of_nat (S n))) by lia.
  replace (Z.pred (Z.of_nat (S n))) with (Z.of_nat n) by lia. replace (Z.succ i) with (i + 1) by lia.
  rewrite filter_cons, (IH (i + 1)) by lia. destruct (roster_of (rt_nodes t) !! i) as [ln|] eqn:E.
  - rewrite decide_True by (by eexists). done.
  - rewrite decide_False by (by intros []). done.
Qed.

Lemma roster_key d nodes l ln : tree_inv d nodes -> roster_of nodes !! l = Some ln -> 0 <= l < 2 ^ d.
Proof.
  intros Hinv Hl. assert (0 <= l) as H0 by (apply Znot_gt_le; intros ?; by rewrite lookup_roster_neg in Hl by lia).
  split; [done|]. eapply populated_range; [apply Hinv|apply Hinv|]. apply (populated_roster d); [done|done|by eexists].
Qed.

Lemma filter_seqZ_sorted (P : Z -> Prop) `{!forall x, Decision (P x)} n i : StronglySorted Z.lt (filter P (seqZ i (Z.of_nat n))).
Proof.
  revert i. induction n as [|n IH]; intros i; [constructor|]. rewrite (seqZ_cons i (Z.of_nat (S n))) by lia.
  replace (Z.pred (Z.of_nat (S n))) with (Z.of_nat n) by lia. rewrite filter_cons. case_decide; [|apply IH].
  constructor; [apply IH|]. apply Forall_forall. intros x [_ Hx%elem_of_seqZ]%list_elem_of_filter. lia.
Qed.

Lemma ActiveLeaves_spec g d : tree_inv d (rt_nodes (g_tree g)) ->
  exists ls, ActiveLeaves g = Ok ls /\ StronglySorted Z.lt ls /\ forall l, l ∈ ls <-> is_Some (roster g !! l).
Proof.
  intros Hinv. pose proof (ti_depth _ _ Hinv) as Hd. unfold ActiveLeaves.
  assert (LeafCount (g_tree g) = 2 ^ d) as -> by (unfold LeafCount; by rewrite (proj1 (leaves_d d (g_tree g) Hinv))).
  pose proof (Z.pow_le_mono_r 2 d 30 ltac:(lia) ltac:(lia)). pose proof (pow2_pos d ltac:(lia)).
  rewrite (active_leaves_spec _ d _ 0 Hinv) by lia. eexists. split_and!; [done| |].
  - apply filter_seqZ_sorted.
  - intros l. rewrite list_elem_of_filter, elem_of_seqZ. split; [by intros [? _]|]. intros [ln Hl]. split; [by eexists|].
    pose proof (roster_key d _ _ _ Hinv Hl). lia.
Qed.

(** ** Identities *)

(** The identity of a leaf, as the validator sees it. *)
Definition identifies (validate : Credential -> bytes -> outcome bytes) (ln : LeafNode) (id : bytes) : Prop :=
  validate (ln_Credential ln) (ln_SignatureKey ln) = Ok id.

(** A validator returns. *)
Definition validates (validate : Credential -> bytes -> outcome bytes) : Prop := forall cred k, returns (validate cred k).

Lemma identity_loop_spec validate g d ls m : tree_inv d (rt_nodes (g_tree g)) -> validates validate ->
  (forall l, l ∈ ls -> is_Some (roster g !! l)) ->
  exists m', identity_loop validate g ls m = Ok m' /\
    (forall id l, m' !! id = Some l -> m !! id = Some l \/ (l ∈ ls /\ exists ln, roster g !! l = Some ln /\ identifies validate ln id)) /\
    (forall id, is_Some (m' !! id) <-> is_Some (m !! id) \/ exists l ln, l ∈ ls /\ roster g !! l = Some ln /\ identifies validate ln id).
Proof.
  intros Hinv Hv. revert m. induction ls as [|l ls IH]; intros m Hls; cbn [identity_loop].
  { exists m. split_and!; [done|by left|]. intros id. split; [by left|]. by intros [?|(l & ln & []%elem_of_nil & _)]. }
  destruct (Hls l ltac:(left)) as [ln Hl]. pose proof (roster_key d _ _ _ Hinv Hl) as Hr. pose proof (ti_depth _ _ Hinv).
  pose proof (Z.pow_le_mono_r 2 d 30 ltac:(lia) ltac:(lia)).
  unfold LeafCredential at 1. rewrite (LeafNodeAt_roster _ d l Hinv) by lia. unfold roster in Hl. rewrite Hl. cbn [obind].
  assert (forall l', l' ∈ ls -> is_Some (roster g !! l')) as Hls' by (intros; apply Hls; by right).
  pose proof (Hv (ln_Credential ln) (ln_SignatureKey ln)) as Hret.
  destruct (validate (ln_Credential ln) (ln_SignatureKey ln)) as [id0|e| |] eqn:E; [| |by destruct Hret..].
  - destruct (IH (<[id0 := l]> m) Hls') as (m' & -> & Hm & Hs). exists m'. split_and!; [done| |].
    + intros id l' Hx. apply Hm in Hx as [[[<- <-]|[_ Hx]]%lookup_insert_Some|(Hin & ln' & Hx)]; [right|by left|right].
      * split; [left|]. by exists ln.
      * split; [by right|]. by exists ln'.
    + intros id. rewrite Hs, lookup_insert_is_Some. split.
      * intros [[->|[_ ?]]|(l' & ln' & Hin & Hx)]; [right|by left|right]; [exists l, ln; split; [left|done]|exists l', ln'; split; [by right|done]].
      * intros [?|(l' & ln' & [->|Hin]%elem_of_cons & Hx & Hid)]; [left|left|right].
        -- destruct (decide (id0 = id)); [by left|by right].
        -- unfold roster in Hx. rewrite Hl in Hx. injection Hx as <-. unfold identifies in Hid. rewrite E in Hid. injection Hid as ->. by left.
        -- by exists l', ln'.
  - destruct (IH m Hls') as (m' & -> & Hm & Hs). exists m'. split_and!; [done| |].
    + intros id l' Hx. apply Hm in Hx as [?|(Hin & Hx)]; [by left|right]. split; [by right|done].
    + intros id. rewrite Hs. split; (intros [?|(l' & ln' & Hin & Hx & Hid)]; [by left|right]).
      * exists l', ln'. split; [by right|done].
      * apply elem_of_cons in Hin as [->|Hin]; [|by exists l', ln']. unfold roster in Hx. rewrite Hl in Hx. injection Hx as <-.
        unfold identifies in Hid. by rewrite E in Hid.
Qed.

(** The map of [identityToLeaf]: the identities of the roster. *)
Record identity_map (validate : Credential -> bytes -> outcome bytes) g (m : gmap bytes Z) : Prop := {
  im_leaf : forall id l, m !! id = Some l -> exists ln, roster g !! l = Some ln /\ identifies validate ln id;
  im_all : forall l ln id, roster g !! l = Some ln -> identifies validate ln id -> is_Some (m !! id)
}.

Lemma identityToLeaf_spec validate g d : tree_inv d (rt_nodes (g_tree g)) -> validates validate ->
  exists m, identityToLeaf validate g = Ok m /\ identity_map validate g m.
Proof.
  intros Hinv Hv. unfold identityToLeaf. destruct (ActiveLeaves_spec g d Hinv) as (ls & -> & _ & Hls). cbn [obind].
  destruct (identity_loop_spec validate g d ls ∅ Hinv Hv ltac:(intros; by apply Hls)) as (m & -> & Hm & Hs). exists m. split; [done|]. split.
  - intros id l Hx. by apply Hm in Hx as [[=]|(_ & ?)].
  - intros l ln id Hl Hid. apply Hs. right. exists l, ln. split_and!; [apply Hls; by eexists|done..].
Qed.

(** ** The election *)

Lemma elem_remove_set m desired l : l ∈ remove_set m desired <-> exists id, m !! id = Some l /\ id ∉ desired.
Proof.
  unfold remove_set. rewrite elem_of_list_to_set, list_elem_of_fmap. split.
  - intros ([id l'] & -> & [Hd Hm]%list_elem_of_filter). exists id. by apply elem_of_map_to_list in Hm.
  - intros (id & Hm & Hd). exists (id, l). split; [done|]. apply list_elem_of_filter. split; [done|]. by apply elem_of_map_to_list.
Qed.

Lemma filter_sorted (P : Z -> Prop) `{!forall x, Decision (P x)} l : StronglySorted Z.lt l -> StronglySorted Z.lt (filter P l).
Proof.
  induction 1 as [|y l Hs IH HF]; [constructor|]. rewrite filter_cons. case_decide; [|done]. constructor; [done|].
  apply Forall_forall. intros x [_ Hx]%list_elem_of_filter. by apply (proj1 (Forall_forall _ _) HF).
Qed.

(** The committer stays, and every leaf below it goes. *)
Lemma committer_elect_spec leaves rm l : StronglySorted Z.lt leaves -> l ∈ leaves -> l < 2 ^ 32 - 1 ->
  committer_elect leaves rm = l <-> l ∉ rm /\ forall l', l' ∈ leaves -> l' < l -> l' ∈ rm.
Proof.
  intros Hs Hl Hb. unfold committer_elect. destruct leaves as [|x ls]; [by apply elem_of_nil in Hl|].
  assert (forall y, y ∈ ls -> x < y) as Hx by (apply StronglySorted_inv in Hs as [_ HF]; exact (proj1 (Forall_forall _ _) HF)).
  case_decide as Hd.
  - assert (StronglySorted Z.lt (filter (fun l => l ∉ rm) (x :: ls))) as Hs' by (by apply filter_sorted).
    assert (forall y, y ∈ filter (fun l => l ∉ rm) (x :: ls) <-> y ∉ rm /\ y ∈ x :: ls) as Hf by (intros; by rewrite list_elem_of_filter).
    destruct (filter (fun l => l ∉ rm) (x :: ls)) as [|y f]; split.
    + intros <-. done.
    + intros [Hn _]. exfalso. apply (not_elem_of_nil l), Hf. done.
    + intros <-. destruct (proj1 (Hf y) ltac:(left)) as [Hy Hyin]. split; [done|]. intros l' Hl' Hlt. apply dec_stable. intros Hn.
      assert (l' ∈ y :: f) as [->|Hin]%elem_of_cons by (by apply Hf); [lia|].
      apply StronglySorted_inv in Hs' as [_ HF]. rewrite Forall_forall in HF. specialize (HF l' Hin). lia.
    + intros [Hn Hlow]. assert (l ∈ y :: f) as [->|Hin]%elem_of_cons by (by apply Hf); [done|].
      apply StronglySorted_inv in Hs' as [_ HF]. rewrite Forall_forall in HF. specialize (HF l Hin).
      destruct (proj1 (Hf y) ltac:(left)) as [Hy Hyin]. by destruct Hy; apply Hlow.
  - split.
    + intros <-. split; [done|]. intros l' [->|Hin]%elem_of_cons Hlt; [lia|]. specialize (Hx l' Hin). lia.
    + intros [Hn Hlow]. apply elem_of_cons in Hl as [->|Hin]; [done|]. exfalso. apply Hd, Hlow; [left|by apply Hx].
Qed.
End identities.

(** ** What the commit does to the roster *)

Lemma roster_run_split m o1 o2 m' : roster_run m (o1 ++ o2) m' -> exists m1, roster_run m o1 m1 /\ roster_run m1 o2 m'.
Proof.
  revert m. induction o1 as [|op o1 IH]; intros m; [exists m; split; [constructor|done]|]. cbn [app].
  inversion 1 as [|? ? m1 ? ? Hs Hr]; subst. apply IH in Hr as (m2 & H1 & H2). exists m2. split; [by econstructor|done].
Qed.

Lemma roster_run_removes m rem m' : roster_run m (OpRemove <$> rem) m' -> forall l, m' !! l = if decide (l ∈ rem) then None else m !! l.
Proof.
  revert m. induction rem as [|x rem IH]; intros m; cbn [fmap list_fmap]; inversion 1 as [|? ? m1 ? ? Hs Hr]; subst; intros l.
  - by rewrite decide_False by apply not_elem_of_nil.
  - inversion Hs; subst. rewrite (IH _ Hr l). destruct (decide (l ∈ rem)) as [Hin|Hn]; [by rewrite decide_True by (by right)|].
    destruct (decide (l = x)) as [->|Hne]; [rewrite decide_True by left; by rewrite lookup_delete_eq|].
    rewrite lookup_delete_ne, decide_False by (try done; by intros [->|?]%elem_of_cons). done.
Qed.

Lemma roster_run_adds m lns m' : roster_run m (OpAdd <$> lns) m' ->
  (forall l ln, m !! l = Some ln -> m' !! l = Some ln) /\
  (forall l ln, m' !! l = Some ln -> m !! l = Some ln \/ ln ∈ lns) /\
  (forall ln, ln ∈ lns -> exists l, m' !! l = Some ln).
Proof.
  revert m. induction lns as [|x lns IH]; intros m; cbn [fmap list_fmap]; inversion 1 as [|? ? m1 ? ? Hs Hr]; subst.
  - split_and!; [done|by left|]. by intros ln ?%elem_of_nil.
  - inversion Hs as [? i Hi Hfree Hlow| |]; subst. destruct (IH _ Hr) as (H1 & H2 & H3). split_and!.
    + intros l ln Hl. apply H1. rewrite lookup_insert_ne; [done|congruence].
    + intros l ln Hl. apply H2 in Hl as [[[<- <-]|[_ Hl]]%lookup_insert_Some|Hin]; [right; left|by left|right; by right].
    + intros ln [->|Hin]%elem_of_cons; [exists i; apply H1; by rewrite lookup_insert_eq|by apply H3].
Qed.

(** The operations of a commit of Removes and Adds. *)
Lemma reconcile_ops l rem kps :
  commit_ops (map (fun p => mkCached p l) (map ProposeRemove rem ++ map ProposeAdd kps)) =
  (OpRemove <$> rem) ++ (OpAdd <$> (kp_LeafNode <$> kps)).
Proof.
  assert (forall t, of_type t (map (fun p => mkCached p l) (map ProposeRemove rem ++ map ProposeAdd kps)) =
    (if t =? ProposalTypeRemove then map (fun p => mkCached p l) (map ProposeRemove rem) else []) ++
    (if t =? ProposalTypeAdd then map (fun p => mkCached p l) (map ProposeAdd kps) else [])) as Hof.
  { intros t. unfold of_type. rewrite map_app, List.filter_app. f_equal.
    - destruct (Z.eqb_spec t ProposalTypeRemove) as [->|Hne]; (induction rem as [|x rem IH]; [done|]); cbn [map List.filter]; rewrite IH; [done|].
      by rewrite (proj2 (Z.eqb_neq _ _)) by (cbn; congruence).
    - destruct (Z.eqb_spec t ProposalTypeAdd) as [->|Hne]; (induction kps as [|x kps IH]; [done|]); cbn [map List.filter]; rewrite IH; [done|].
      by rewrite (proj2 (Z.eqb_neq _ _)) by (cbn; congruence). }
  unfold commit_ops. rewrite !Hof. cbn [Z.eqb Pos.eqb ProposalTypeUpdate ProposalTypeRemove ProposalTypeAdd app].
  rewrite app_nil_r. cbn [omap list_omap app]. f_equal.
  - clear. induction rem as [|x rem IH]; [done|]. exact (f_equal (cons (OpRemove x)) IH).
  - clear. induction kps as [|x kps IH]; [done|]. exact (f_equal (cons (OpAdd (kp_LeafNode x))) IH).
Qed.

Section reconcile.
Context {C : StdCrypto} `{!StdCryptoLaws C} {X S : Type} (accept : S -> call X -> outcome bool * S) (who : X).
Implicit Types g : Group.

(** The key package of an identity. *)
Definition resolver (resolve : option (bytes -> option bytes)) (id : bytes) : option bytes :=
  match resolve with None => None | Some f => f id end.

Lemma build_adds_spec resolve ids props added pending : build_adds resolve ids = Ok (props, added, pending) ->
  exists kps, props = map ProposeAdd kps /\ Forall KeyPackage_ok kps /\
    Forall2 (fun id kp => exists msg, resolver resolve id = Some msg /\ DecodeKeyPackageMessage msg = Ok kp) added kps /\
    (forall id, id ∈ added <-> id ∈ ids /\ is_Some (resolver resolve id)) /\
    (forall id, id ∈ pending <-> id ∈ ids /\ resolver resolve id = None).
Proof.
  revert props added pending. induction ids as [|id ids IH]; intros props added pending; cbn [build_adds].
  { intros [= <- <- <-]. exists []. split_and!; [done|constructor..| |]; intros; rewrite elem_of_nil; naive_solver. }
  change (match resolve with None => None | Some f => f id end) with (resolver resolve id).
  destruct (resolver resolve id) as [msg|] eqn:E; intros Hx.
  - apply obind_ok in Hx as (kp & Hkp & Hx). apply obind_ok in Hx as ([[ps ad] pe] & Hr & [= <- <- <-]).
    destruct (IH _ _ _ Hr) as (kps & -> & Hok & HF & Ha & Hp). exists (kp :: kps). split_and!; [done| | | |].
    + constructor; [|done].
      by apply (envelope_exact (w := KeyPackage_marshal) (ok := KeyPackage_ok)) in Hkp as [? _]; [|split].
    + constructor; [by exists msg|done].
    + intros id'. rewrite !elem_of_cons, Ha. destruct (decide (id' = id)) as [->|]; [rewrite E|]; naive_solver.
    + intros id'. rewrite Hp, elem_of_cons. destruct (decide (id' = id)) as [->|]; [rewrite E|]; naive_solver.
  - apply obind_ok in Hx as ([[ps ad] pe] & Hr & [= <- <- <-]).
    destruct (IH _ _ _ Hr) as (kps & -> & Hok & HF & Ha & Hp). exists kps. split_and!; [done..| |].
    + intros id'. rewrite Ha, elem_of_cons. destruct (decide (id' = id)) as [->|]; [rewrite E|]; naive_solver.
    + intros id'. rewrite !elem_of_cons, Hp. destruct (decide (id' = id)) as [->|]; [rewrite E|]; naive_solver.
Qed.

(** The two ways through [Reconcile] without an error before the commit. *)
Lemma Reconcile_inv r desired c s res err c' s' : Reconcile accept who r desired (c, s) = (Ok (res, err), (c', s')) ->
  exists g validate m leaves, c_g c = Some g /\ cfg_Validator (c_cfg c) = Some validate /\ identityToLeaf validate g = Ok m /\
    ActiveLeaves g = Ok leaves /\
    let rm := remove_set m desired in
    (res_Committed res = false /\ c' = c /\ s' = s) \/
    (committer_elect leaves rm = g_ownLeaf g /\ res_Committed res = true /\
     exists props commit w, let rem := sortUint32 (elements (rm ∖ {[g_ownLeaf g]})) in
       build_adds (cfg_Resolve (c_cfg c)) (add_idents m desired) = Ok (props, res_Added res, res_Pending res) /\
       res_Removed res = rem /\ res_CommitMsg res = Some commit /\
       made accept who c s r (map ProposeRemove rem ++ props) commit w (res_Won res) None c' s').
Proof.
  intros Hx. unfold Reconcile in Hx. go_ok_in Hx. destruct (c_g c) as [g|] eqn:Eg, (cfg_Validator (c_cfg c)) as [v|] eqn:Ev; try done.
  go_ok_in Hx. exists g, v, a, a0. split_and!; [done..|]. cbv zeta in *.
  destruct (Z.eqb_spec (OwnLeaf g) (committer_elect a0 (remove_set a desired))) as [El|Hne]; cbn [negb] in Hx; cycle 1.
  { apply clift_ok in Hx as [[= <- <-] [= <- <-]]. by left. }
  go_ok_in Hx. destruct (map ProposeRemove _ ++ l0) as [|p ps] eqn:Eps.
  { apply clift_ok in Hx as [[= <- <-] [= <- <-]]. by left. }
  apply cbind_ok in Hx as ([[[cm w] won] e] & [c1 s1] & Hc & Hx). destruct e; [done|].
  apply clift_ok in Hx as [[= <- <-] [= -> ->]]. right. split_and!; [done|done|].
  apply commitAndOrder_inv in Hc as [(commit & -> & Hm)|(_ & _ & [? [=]] & _)].
  exists l0, commit, w. cbn [res_Added res_Pending res_Removed res_CommitMsg res_Won]. split_and!; [done..|]. by rewrite <- Eps in Hm.
Qed.

(** The identities of the members. *)
Definition present validate g (id : bytes) : Prop := exists l ln, roster g !! l = Some ln /\ identifies validate ln id.

(** No two members have one identity. *)
Definition distinct_identities validate g : Prop :=
  forall l l' ln ln' id, roster g !! l = Some ln -> roster g !! l' = Some ln' ->
    identifies validate ln id -> identifies validate ln' id -> l = l'.

(** What [Resolve] promises: key packages of the identity asked for. *)
Definition resolves (validate : Credential -> bytes -> outcome bytes) (resolve : option (bytes -> option bytes)) : Prop :=
  forall id msg kp, resolver resolve id = Some msg -> DecodeKeyPackageMessage msg = Ok kp -> identifies validate (kp_LeafNode kp) id.

Lemma map_present validate g d m id : tree_inv d (rt_nodes (g_tree g)) -> validates validate -> identity_map validate g m ->
  is_Some (m !! id) <-> present validate g id.
Proof.
  intros Hinv Hv [Hl Ha]. split.
  - intros [l Hx]. destruct (Hl id l Hx) as (ln & ? & ?). by exists l, ln.
  - intros (l & ln & Hx & Hid). by eapply Ha.
Qed.

(** The leaves that [Reconcile] removes are those of undesired identities. *)
Lemma stays validate g d m desired l ln id : tree_inv d (rt_nodes (g_tree g)) -> distinct_identities validate g ->
  identity_map validate g m -> roster g !! l = Some ln -> identifies validate ln id ->
  l ∈ remove_set m desired <-> id ∉ desired.
Proof.
  intros Hinv Hu Him Hl Hid. rewrite elem_remove_set. split.
  - intros (id' & Hm & Hn). destruct (im_leaf _ _ _ Him id' l Hm) as (ln' & Hl' & Hid'). rewrite Hl in Hl'. injection Hl' as <-.
    unfold identifies in *. rewrite Hid in Hid'. by injection Hid' as <-.
  - intros Hn. destruct (im_all _ _ _ Him l ln id Hl Hid) as [l' Hm]. exists id. split; [|done].
    destruct (im_leaf _ _ _ Him id l' Hm) as (ln' & Hl' & Hid'). by rewrite (Hu l l' ln ln' id).
Qed.

(** The roster after the commit, member by member. *)
Lemma reconciled_roster g g' r rem kps commit w : standing g -> Forall KeyPackage_ok kps ->
  Forall (fun l => 0 <= l < 2 ^ 31) rem -> g_ownLeaf g ∉ rem -> members (g_tree g) + len rem + len kps <= 2 ^ 30 ->
  Group_Commit r (mkCommitOptions (map ProposeRemove rem ++ map ProposeAdd kps) []) g = (Ok (commit, w), g') ->
  (exists d, tree_inv d (rt_nodes (g_tree g'))) /\ exists mid : gmap Z LeafNode,
    (forall l, l <> g_ownLeaf g -> roster g' !! l = mid !! l) /\
    (exists ln ln', mid !! g_ownLeaf g = Some ln /\ roster g !! g_ownLeaf g = Some ln /\ roster g' !! g_ownLeaf g = Some ln' /\
       ln_Credential ln' = ln_Credential ln /\ ln_SignatureKey ln' = ln_SignatureKey ln) /\
    (forall l ln, roster g !! l = Some ln -> l ∉ rem -> mid !! l = Some ln) /\
    (forall l ln, mid !! l = Some ln -> (roster g !! l = Some ln /\ l ∉ rem) \/ ln ∈ kp_LeafNode <$> kps) /\
    (forall ln, ln ∈ kp_LeafNode <$> kps -> exists l, mid !! l = Some ln).
Proof.
  intros Hsd Hkps Hrem Hown Hsz Hcm. set (opt := mkCommitOptions _ []) in *.
  assert (led_commit opt) as Hlc.
  { split; [done| |]; apply Forall_app; split; apply Forall_map; (eapply Forall_impl; [exact Hrem || exact Hkps|]); intros x Hx; try done.
    - constructor. unfold is_u32. cbn in Hx |- *. lia.
    - by constructor. }
  destruct (standing_commit_ready g opt Hsd Hlc) as (d & signer & Hcr).
  { unfold opt, len in *. cbn [ByValue]. rewrite length_app, !length_map. lia. }
  destruct (Group_Commit_committed d g opt signer r commit w g' Hcr Hcm) as (d' & a & rs & up & bn & fdp & pss & Hco).
  destruct Hco as [_ Hrs [Hrun _ _] _ _ _ _ [Hwf' _] Hro (orig & Horig & Esk & Ecr) _]. split; [exists d'; apply Hwf'|].
  rewrite (led_proposals g opt Hlc) in Hrs. apply Ok_inj in Hrs as <-. pose proof (rk_roster _ _ _ Hrun) as Hrr.
  unfold opt in Hrr. cbn [ByValue] in Hrr. rewrite reconcile_ops, fmap_app in Hrr.
  assert (wrapped <$> (OpRemove <$> rem) = OpRemove <$> rem) as E1.
  { clear -Hrem. induction Hrem as [|x rem Hx _ IH]; [done|]. cbn. f_equal; [|exact IH]. f_equal. by apply leaf_index_small. }
  assert (forall lns : list LeafNode, wrapped <$> (OpAdd <$> lns) = OpAdd <$> lns) as E2 by (intros lns; induction lns as [|x lns IH]; [done|]; cbn; f_equal; exact IH).
  rewrite E1, E2 in Hrr. apply roster_run_split in Hrr as (m1 & H1 & H2). pose proof (roster_run_removes _ _ _ H1) as Hd.
  destruct (roster_run_adds _ _ _ H2) as (Ha1 & Ha2 & Ha3). exists (roster_of (rt_nodes (ap_tree a))).
  assert (forall l ln, roster g !! l = Some ln -> l ∉ rem -> roster_of (rt_nodes (ap_tree a)) !! l = Some ln) as Hkeep.
  { intros l ln Hl Hn. apply Ha1. rewrite Hd, decide_False by done. exact Hl. }
  split_and!; [| |done| |done].
  - intros l Hne. unfold roster. by rewrite Hro, lookup_insert_ne.
  - exists orig, (up_LeafNode up). unfold roster at 2. rewrite Hro, lookup_insert_eq. split_and!; [done| |done..].
    destruct (proj1 (populated_roster d _ _ (wf_inv _ _ (cr_tree _ _ _ _ Hcr)) (proj1 (proj1 (cr_own _ _ _ _ Hcr)))) (sd_leaf _ Hsd)) as [ln Hln].
    pose proof (Hkeep _ _ Hln Hown) as Hk. rewrite Horig in Hk. by injection Hk as ->.
  - intros l ln Hl. apply Ha2 in Hl as [Hl|Hin]; [left|by right]. rewrite Hd in Hl. case_decide; [done|]. by split.
Qed.

Lemma elem_rem m desired own l : l ∈ sortUint32 (elements (remove_set m desired ∖ {[own]})) <-> l ∈ remove_set m desired /\ l <> own.
Proof.
  rewrite (elem_of_Permutation_proper l _ _ (sortUint32_perm _)), elem_of_elements, elem_of_difference, elem_of_singleton. done.
Qed.

Lemma elem_add_idents m desired id : id ∈ add_idents m desired <-> id ∈ desired /\ m !! id = None.
Proof. unfold add_idents. rewrite list_elem_of_filter. naive_solver. Qed.

(** After a commit of [Reconcile] the members are the desired identities, less
    those without a key package. *)
Lemma Reconcile_present r desired c s res err c' s' g validate : standing g -> c_g c = Some g ->
  cfg_Validator (c_cfg c) = Some validate -> validates validate -> distinct_identities validate g ->
  resolves validate (cfg_Resolve (c_cfg c)) -> members (g_tree g) + len (res_Removed res) + len (res_Added res) <= 2 ^ 30 ->
  Reconcile accept who r desired (c, s) = (Ok (res, err), (c', s')) -> res_Committed res = true ->
  (c_cfg c' = c_cfg c /\ (forall id, id ∈ res_Pending res -> resolver (cfg_Resolve (c_cfg c)) id = None)) /\
  exists g' d', c_g c' = Some g' /\ tree_inv d' (rt_nodes (g_tree g')) /\ g_ownLeaf g' = g_ownLeaf g /\
    forall id, present validate g' id <-> id ∈ desired /\ id ∉ res_Pending res.
Proof.
  intros Hsd Eg Ev Hv Hu Hres Hsz Hx Hc. apply Reconcile_inv in Hx as (g1 & v1 & m & leaves & Eg1 & Ev1 & Hm & Hls & Hcase).
  rewrite Eg in Eg1. injection Eg1 as <-. rewrite Ev in Ev1. injection Ev1 as <-. cbv zeta in Hcase.
  destruct Hcase as [(? & _)|(Hel & _ & props & commit & w & Hb & Erem & _ & [Hmd (_ & _ & Ecfg)])]; [congruence|].
  destruct Hmd as (g1 & g' & o & Eg1 & Eg' & Hcm & _). rewrite Eg in Eg1. injection Eg1 as <-.
  destruct (build_adds_spec _ _ _ _ _ Hb) as (kps & -> & Hkps & HF & Hadd & Hpend).
  split; [split; [done|by intros id [_ ?]%Hpend]|].
  destruct (sd_tree _ Hsd) as (d & Hwf & Hown). pose proof (wf_inv _ _ Hwf) as Hinv.
  pose proof (ti_depth _ _ Hinv). pose proof (Z.pow_le_mono_r 2 d 30 ltac:(lia) ltac:(lia)).
  destruct (identityToLeaf_spec validate g d Hinv Hv) as (m' & Hm' & Him). rewrite Hm in Hm'. apply Ok_inj in Hm' as <-.
  destruct (ActiveLeaves_spec g d Hinv) as (ls & Hls' & Hsort & Hact). rewrite Hls in Hls'. apply Ok_inj in Hls' as <-.
  assert (g_ownLeaf g ∈ leaves) as Hin by (apply Hact, (populated_roster d); [done|lia|apply Hsd]).
  apply committer_elect_spec in Hel as [Hstay _]; [|done|done|lia].
  destruct (reconciled_roster g g' r (sortUint32 (elements (remove_set m desired ∖ {[g_ownLeaf g]}))) kps commit w)
    as ([d' Hinv'] & mid & Hoth & (lo & lo' & Hlo & Hlo0 & Hlo' & Ecr & Esk) & Hkeep & Hfrom & Hnew); [done|done| | | |done|].
  { apply Forall_forall. intros l [(id & Hid & _)%elem_remove_set _]%elem_rem.
    destruct (im_leaf _ _ _ Him id l Hid) as (ln & Hl & _). pose proof (roster_key d _ _ _ Hinv Hl). lia. }
  { intros [_ []]%elem_rem. done. }
  { rewrite <- Erem. apply Forall2_length in HF. unfold len in *. lia. }
  exists g', d'. split_and!; [done|done|by destruct (Group_Commit_epoch _ _ _ _ _ Hcm) as [[] _]|].
  (** Who was there and stays. *)
  assert (forall l ln id, roster g !! l = Some ln -> identifies validate ln id -> l ∉ sortUint32 (elements (remove_set m desired ∖ {[g_ownLeaf g]})) ->
    id ∈ desired /\ id ∉ res_Pending res) as Hold.
  { intros l ln id Hl Hid Hn. assert (l ∉ remove_set m desired) as Hn'.
    { intros Hr. destruct (decide (l = g_ownLeaf g)) as [->|]; [done|]. by apply Hn, elem_rem. }
    rewrite (stays validate g d m desired l ln id) in Hn' by done. split; [by apply dec_stable|].
    intros [[_ Hnone]%elem_add_idents _]%Hpend. destruct (im_all _ _ _ Him l ln id Hl Hid). congruence. }
  intros id. split.
  - intros (l & ln & Hl & Hid). destruct (decide (l = g_ownLeaf g)) as [->|Hne].
    + rewrite Hlo' in Hl. injection Hl as <-. unfold identifies in Hid. rewrite Ecr, Esk in Hid.
      eapply Hold; [exact Hlo0|exact Hid|]. intros [_ []]%elem_rem. done.
    + rewrite Hoth in Hl by done. apply Hfrom in Hl as [[Hl Hn]|Hk]; [by eapply Hold|].
      apply list_elem_of_fmap in Hk as (kp & -> & [i Hi]%list_elem_of_lookup_1).
      destruct (Forall2_lookup_r _ _ _ _ _ HF Hi) as (id' & Hi' & msg & Hmsg & Hdec).
      pose proof (Hres id' msg kp Hmsg Hdec) as Hid'. unfold identifies in *. rewrite Hid in Hid'. injection Hid' as ->.
      assert (id' ∈ res_Added res) as [[Hd _]%elem_add_idents _]%Hadd by (by eapply list_elem_of_lookup_2).
      split; [done|]. intros [_ Hnone]%Hpend. congruence.
  - intros [Hd Hnp]. destruct (m !! id) as [l|] eqn:Eid.
    + destruct (im_leaf _ _ _ Him id l Eid) as (ln & Hl & Hid). destruct (decide (l = g_ownLeaf g)) as [->|Hne].
      * exists (g_ownLeaf g), lo'. split; [done|]. rewrite Hlo0 in Hl. injection Hl as <-. unfold identifies in *. by rewrite Ecr, Esk.
      * exists l, ln. split; [|done]. rewrite Hoth by done. apply Hkeep; [done|]. intros [Hr _]%elem_rem.
        by apply (stays validate g d m desired l ln id) in Hr.
    + assert (id ∈ add_idents m desired) as Hai by (by apply elem_add_idents).
      destruct (resolver (cfg_Resolve (c_cfg c)) id) as [msg|] eqn:Er; [|by destruct Hnp; apply Hpend].
      assert (id ∈ res_Added res) as [i Hi]%list_elem_of_lookup_1 by (apply Hadd; split; [done|by eexists]).
      destruct (Forall2_lookup_l _ _ _ _ _ HF Hi) as (kp & Hkp & msg' & Hmsg & Hdec).
      destruct (Hnew (kp_LeafNode kp)) as [l Hl]; [apply list_elem_of_fmap; exists kp; split; [done|by eapply list_elem_of_lookup_2]|].
      pose proof (Hres id msg' kp Hmsg Hdec) as Hid. destruct (decide (l = g_ownLeaf g)) as [->|Hne].
      * exists (g_ownLeaf g), lo'. split; [done|]. rewrite Hlo in Hl. injection Hl as ->. unfold identifies in *. by rewrite Ecr, Esk.
      * exists l, (kp_LeafNode kp). split; [|done]. by rewrite Hoth.
Qed.

(** A group whose members are the desired identities, less those without a key
    package, is left alone. *)
Lemma Reconcile_idle r desired c (s : S) g d validate : c_g c = Some g -> cfg_Validator (c_cfg c) = Some validate ->
  tree_inv d (rt_nodes (g_tree g)) -> validates validate ->
  (forall id, present validate g id -> id ∈ desired) ->
  (forall id, id ∈ desired -> present validate g id \/ resolver (cfg_Resolve (c_cfg c)) id = None) ->
  exists res, Reconcile accept who r desired (c, s) = (Ok (res, None), (c, s)) /\ res_Committed res = false.
Proof.
  intros Eg Ev Hinv Hv Hsub Hsup. destruct (identityToLeaf_spec validate g d Hinv Hv) as (m & Hm & Him).
  destruct (ActiveLeaves_spec g d Hinv) as (ls & Hls & _).
  assert (remove_set m desired = ∅) as Erm.
  { apply leibniz_equiv, elem_of_equiv_empty. intros l (id & Hid & Hn)%elem_remove_set. apply Hn, Hsub.
    destruct (im_leaf _ _ _ Him id l Hid) as (ln & ? & ?). by exists l, ln. }
  assert (exists pending, build_adds (cfg_Resolve (c_cfg c)) (add_idents m desired) = Ok ([], [], pending)) as [pending Hb].
  { assert (Forall (fun id => resolver (cfg_Resolve (c_cfg c)) id = None) (add_idents m desired)) as HF.
    { apply Forall_forall. intros id [Hd Hn]%elem_add_idents. destruct (Hsup id Hd) as [Hp|?]; [|done].
      apply (map_present validate g d m id Hinv Hv Him) in Hp as [? ?]. congruence. }
    induction HF as [|id ids Hid _ [p IH]]; [by exists []|]. exists (id :: p). cbn [build_adds]. unfold resolver in Hid. by rewrite Hid, IH. }
  unfold Reconcile. rewrite cbind_get. cbn [fst]. rewrite Eg, Ev, (cbind_lift _ _ _ _ Hm), (cbind_lift _ _ _ _ Hls). cbv zeta.
  rewrite Erm. destruct (negb _); [by eexists|]. rewrite (cbind_lift _ _ _ _ Hb).
  assert (sortUint32 (elements ((∅ : gset Z) ∖ {[OwnLeaf g]})) = []) as ->.
  { replace (∅ ∖ {[OwnLeaf g]}) with (∅ : gset Z) by set_solver. by rewrite elements_empty. }
  by eexists.
Qed.
End reconcile.

(** * Properties *)


(** C7: one winner per epoch.  Controllers that share an ordering service may
    rekey, reconcile, join by external commit, recover and follow commits in
    any order, come and go, and share the service with others: any two of
    their commits that won the step into the same epoch of the same group have
    the same reference, which is the one that the service has decided. *)
Theorem one_winner_per_epoch {C : StdCrypto} {X S : Type} {accept : S -> call X -> outcome bool * S}
  {decided : S -> bytes -> Z -> option bytes} `{!Ordering accept decided} w xs w' gid e ref ref' :
  wrun (accept := accept) w xs w' -> Some (gid, e, ref) ∈ xs -> Some (gid, e, ref') ∈ xs ->
  ref = ref' /\ exists e0, e = u64 (e0 + 1) /\ decided (w_service w') gid e0 = Some ref.
Proof.
  intros Hr H1 H2. destruct (wrun_win _ _ _ _ _ _ Hr H1) as (e1 & Hu1 & E1 & D1).
  destruct (wrun_win _ _ _ _ _ _ Hr H2) as (e2 & Hu2 & E2 & D2).
  assert (e1 = e2) as <- by (apply u64_next_inj; [done|done|congruence]). split; [congruence|by exists e1].
Qed.

(** C10: one committer.  Of the members of an epoch that reconcile towards the
    same set of identities, at most one commits: the one at the lowest leaf
    that stays.  Every other one returns without a commit and unchanged. *)
Theorem reconcile_one_committer {C : StdCrypto} {X S : Type} (accept : S -> call X -> outcome bool * S) who who'
  d c c2 s s2 r r2 desired desired2 res err c' s' res2 err2 c2' s2' g h validate m :
  c_g c = Some g -> c_g c2 = Some h -> same_epoch g h -> tree_inv d (rt_nodes (g_tree g)) ->
  0 <= g_ownLeaf g -> populated (rt_nodes (g_tree g)) (g_ownLeaf g) ->
  0 <= g_ownLeaf h -> populated (rt_nodes (g_tree g)) (g_ownLeaf h) -> g_ownLeaf g <> g_ownLeaf h ->
  cfg_Validator (c_cfg c) = Some validate -> cfg_Validator (c_cfg c2) = Some validate -> identityToLeaf validate g = Ok m ->
  (forall id, id ∈ desired <-> id ∈ desired2) ->
  Reconcile accept who r desired (c, s) = (Ok (res, err), (c', s')) ->
  Reconcile accept who' r2 desired2 (c2, s2) = (Ok (res2, err2), (c2', s2')) -> res_Committed res = true ->
  (g_ownLeaf g ∉ remove_set m desired /\ forall l, is_Some (roster g !! l) -> l < g_ownLeaf g -> l ∈ remove_set m desired) /\
  res_Committed res2 = false /\ c2' = c2 /\ s2' = s2.
Proof.
  intros Eg Eh Hse Hinv Hg0 Hg Hh0 Hh Hne Ev Ev2 Hm Hd Hr1 Hr2 Hc. destruct (ActiveLeaves_spec g d Hinv) as (ls & Hls & Hs & Hact).
  pose proof (ti_depth _ _ Hinv). pose proof (Z.pow_le_mono_r 2 d 30 ltac:(lia) ltac:(lia)).
  assert (forall l, 0 <= l -> populated (rt_nodes (g_tree g)) l -> l ∈ ls /\ l < 2 ^ 32 - 1) as Hin.
  { intros l Hl0 [ln Hl]%(populated_roster d); [|done|done]. split; [apply Hact; by eexists|]. pose proof (roster_key d _ _ _ Hinv Hl). lia. }
  apply Reconcile_inv in Hr1 as (g1 & v1 & m1 & ls1 & Eg1 & Ev1 & Hm1 & Hls1 & [(? & _)|(Hel & _)]); [congruence|].
  apply Reconcile_inv in Hr2 as (h1 & v2 & m2 & ls2 & Eh1 & Ev3 & Hm2 & Hls2 & Hcase). cbv zeta in *.
  rewrite Eg in Eg1. injection Eg1 as <-. rewrite Eh in Eh1. injection Eh1 as <-.
  rewrite Ev in Ev1. injection Ev1 as <-. rewrite Ev2 in Ev3. injection Ev3 as <-.
  rewrite Hm in Hm1. apply Ok_inj in Hm1 as <-. rewrite Hls in Hls1. apply Ok_inj in Hls1 as <-.
  assert (ActiveLeaves h = ActiveLeaves g) as Ea by (unfold ActiveLeaves; by rewrite (se_tree _ _ Hse)). rewrite Ea, Hls in Hls2.
  apply Ok_inj in Hls2 as <-. assert (forall ls m, identity_loop validate h ls m = identity_loop validate g ls m) as El.
  { intros ls0. induction ls0 as [|l ls0 IH]; intros m0; [done|]. cbn [identity_loop]. unfold LeafCredential. rewrite (se_tree _ _ Hse).
    destruct (LeafNodeAt (g_tree g) l); [|done..]. cbn [obind]. by destruct (validate _ _). }
  unfold identityToLeaf in Hm, Hm2. rewrite Ea, Hls in Hm2. rewrite Hls in Hm. cbn [obind] in *. rewrite El, Hm in Hm2. apply Ok_inj in Hm2 as <-.
  assert (remove_set m desired2 = remove_set m desired) as Er.
  { apply leibniz_equiv. intros l. rewrite !elem_remove_set. naive_solver. }
  pose proof (Hin _ Hg0 Hg) as [Hlg Hbg]. pose proof (committer_elect_spec ls (remove_set m desired) _ Hs Hlg Hbg) as Hspec.
  split; [split|].
  - by apply Hspec in Hel as [? _].
  - intros l Hl. apply Hspec in Hel as [_ Hlow]. apply Hlow, Hact. done.
  - destruct Hcase as [?|(Hel2 & _)]; [done|]. rewrite Er, Hel in Hel2. congruence.
Qed.


(** ** Concrete controllers *)
Module Site.
#[local] Existing Instances toy toy_laws.

(** Key packages of the members' own leaves, and of member 4. *)
Definition resolve (id : bytes) : option bytes :=
  if bytes_Equal id [byte_of_Z 69] then
    match EncodeKeyPackageMessage (Transaction.key_package 4) with Ok m => Some m | _ => None end
  else None.

Definition config : ControllerConfig :=
  mkControllerConfig 5 toy_suite (Some BasicCredentialValidator_Validate) (ln_Credential (Example.leaf 0)) (Example.signer 0)
    (mkLifetime 1 2) (Some resolve) HandshakePlaintext.

Definition controller (g : Group) : Controller := mkController config (Some g) (GroupID 5) toy_suite None None false.

(** The desired identities: members 0, 1 and 2, the new member 4, and one without a
    key package.  Member 3 is not among them. *)
Definition desired : list bytes := (fun i => [byte_of_Z i]) <$> [65; 66; 67; 69; 70].

Definition world : World := mkWorld {[ ("a" : string) := controller (Pair.member 0) ]} NewMemorySequencer.

Lemma basic_validates : validates BasicCredentialValidator_Validate.
Proof. intros cred k. unfold BasicCredentialValidator_Validate. by destruct (_ || _). Qed.

Lemma resolves_ok : resolves BasicCredentialValidator_Validate (Some resolve).
Proof.
  intros id msg kp Hr Hd. unfold resolver, resolve in Hr. destruct (bytes_Equal id [byte_of_Z 69]) eqn:E; [|done].
  apply bytes_Equal_spec in E as ->.
  destruct (EncodeKeyPackageMessage (Transaction.key_package 4)) as [m| | |] eqn:Em; try done. injection Hr as <-.
  assert (DecodeKeyPackageMessage m = Ok (Transaction.key_package 4)) as Hk
    by exact (decode_encode_envelope (w := KeyPackage_marshal) wireFormatKeyPackage ltac:(by split) _ (Transaction.key_package 4) m
      (Transaction.key_package_ok 4) Em).
  rewrite Hd in Hk. apply Ok_inj in Hk as ->. vm_compute. reflexivity.
Qed.

Lemma roster4 i l ln : roster (Crew.member i) !! l = Some ln -> 0 <= l < 4 /\ ln = Example.leaf l.
Proof.
  intros Hl. pose proof (roster_key 2 _ _ _ Example.tree4_inv Hl) as Hr. split; [lia|].
  unfold roster in Hl. rewrite lookup_roster in Hl by lia. change (g_tree (Crew.member i)) with (Example.tree 4) in Hl. rewrite Crew.nodes4 in Hl.
  enough (Some (Example.leaf l) = Some ln) as E by congruence. revert Hl. generalize Example.leaf. intros leaf Hl.
  assert (l = 0 \/ l = 1 \/ l = 2 \/ l = 3) as [->|[->|[->| ->]]] by (clear -Hr; lia); exact Hl.
Qed.

Lemma distinct i : distinct_identities BasicCredentialValidator_Validate (Crew.member i).
Proof.
  assert (forall l id, 0 <= l < 4 -> identifies BasicCredentialValidator_Validate (Example.leaf l) id -> id = [byte_of_Z (65 + l)]) as Hid.
  { intros l id Hl Hx. assert (l = 0 \/ l = 1 \/ l = 2 \/ l = 3) as [->|[->|[->| ->]]] by lia; vm_compute in Hx; by injection Hx as <-. }
  intros l l' ln ln' id [Hl ->]%roster4 [Hl' ->]%roster4 H1%Hid H2%Hid; [|done..]. subst id. injection H2 as E.
  apply (f_equal Z_of_byte) in E. rewrite !Z_of_byte_of_Z, !Z.mod_small in E by lia. lia.
Qed.
End Site.

#[local] Existing Instances toy toy_laws.


(** Member 0 wins; the same commit is the decided one. *)
Lemma one_winner_per_epoch_witness :
  exists w' gid ref, wrun (accept := memory_accept) Site.world
    [Some (gid, 4, ref)] w' /\ exists e0, 4 = u64 (e0 + 1) /\ MemorySequencer_Decided (w_service w') gid e0 = Some ref.
Proof.
  destruct (perform memory_accept tt (ActRekey (Pair.rand 1)) (Site.controller (Pair.member 0), NewMemorySequencer)) as [o [c' s']] eqn:E.
  assert (match won_by o c' with Some (_, e, _) => e =? 4 | None => false end = true) as Ho.
  { change (match won_by (o, (c', s')).1 (o, (c', s')).2.1 with Some (_, e, _) => e =? 4 | None => false end = true).
    rewrite <- E. vm_compute. reflexivity. }
  destruct (won_by o c') as [[[gid e] ref]|] eqn:Ew; [|discriminate Ho]. apply Z.eqb_eq in Ho. subst e.
  assert (wrun (accept := memory_accept) Site.world [Some (gid, 4, ref)] (mkWorld (<[("a" : string) := c']> (w_ctl Site.world)) s')) as Hr.
  { refine (wr_cons _ _ _ _ _ _ (wr_nil _)). replace (Some (gid, 4, ref)) with (won_by o c') by exact Ew.
    apply (ws_perform (accept := memory_accept) Site.world "a" (Site.controller (Pair.member 0)) tt (ActRekey (Pair.rand 1)) o c' s');
      [reflexivity|split; [change (is_u64 3); clear; done|reflexivity]|exact I|].
    change (w_service Site.world) with NewMemorySequencer. exact E. }
  eexists _, gid, ref. split; [exact Hr|].
  exact (proj2 (one_winner_per_epoch _ _ _ gid 4 ref ref Hr (list_elem_of_here _ _) (list_elem_of_here _ _))).
Defined.

(** Member 0 reconciles, member 1 stands back. *)
Lemma reconcile_one_committer_witness :
  match Reconcile memory_accept tt (Pair.rand 1) Site.desired (Site.controller (Crew.member 0), NewMemorySequencer),
        Reconcile memory_accept tt (Pair.rand 2) Site.desired (Site.controller (Crew.member 1), NewMemorySequencer) with
  | (Ok (res, _), _), (Ok (res2, _), (c2', _)) => res_Committed res = true /\ res_Committed res2 = false /\ c2' = Site.controller (Crew.member 1)
  | _, _ => False
  end.
Proof.
  destruct (Reconcile memory_accept tt (Pair.rand 1) _ _) as [o [c' s']] eqn:E.
  destruct (Reconcile memory_accept tt (Pair.rand 2) _ _) as [o2 [c2' s2']] eqn:E2.
  assert (match o with Ok (res, _) => res_Committed res | _ => false end = true) as Ho
    by (change o with (o, (c', s')).1; rewrite <- E; vm_compute; reflexivity).
  assert (is_ok o2 = true) as [[res2 err2] ->]%is_ok_inv by (change o2 with (o2, (c2', s2')).1; rewrite <- E2; vm_compute; reflexivity).
  destruct o as [[res err]| | |]; try discriminate Ho. split; [exact Ho|].
  destruct (is_ok_inv (identityToLeaf BasicCredentialValidator_Validate (Crew.member 0))) as [m Hm]; [vm_compute; reflexivity|].
  destruct (reconcile_one_committer memory_accept tt tt 2 (Site.controller (Crew.member 0)) (Site.controller (Crew.member 1))
    NewMemorySequencer NewMemorySequencer (Pair.rand 1) (Pair.rand 2) Site.desired Site.desired res err c' s' res2 err2 c2' s2'
    (Crew.member 0) (Crew.member 1) BasicCredentialValidator_Validate m) as (_ & H2 & H3 & _);
    [reflexivity|reflexivity|by split|exact Example.tree4_inv|discriminate|apply populated_b_ok; vm_compute; reflexivity|discriminate|
     apply populated_b_ok; vm_compute; reflexivity|discriminate|reflexivity|reflexivity|exact Hm|intros id; reflexivity|exact E|exact E2|exact Ho|].
  split; [exact H2|exact H3].
Defined.

