(* ===== verification/Bench.v ===== *)
(** [bench]: the groups whose messages are measured.

    [bench.go].  [BuildGroup] makes the group of a founder and [M - 1] members
    that it adds in one commit; the measurements are the lengths of the commit
    and of the Welcome that it makes next.  The draws of the founder, of the
    members by their number and of the joiner are arguments; [newSigner] and
    [keyPackage] panic where they fail, as in the code. *)

From Stdlib Require Import ZArith Lia Strings.Byte.
From stdpp Require Import base list numbers strings pretty sorting sets gmap.
From S2P Require Import Prelude Syntax TreeNodes TreeMath Cipher ToyCrypto RatchetTree TreeSync TreeKEM.
From S2P Require Import KeySchedule Framing GroupMessages Group GroupProposals GroupSync GroupKeys GroupLed GroupExternal Interop ControllerSync.

(** * The code *)

(* bench/bench.go:20-26 Op *)
Inductive Op := OpUpdate | OpAdd | OpRemove | OpOther (op : Z).

Section bench.
Context {C : StdCrypto} {K : KeyGen C}.

(** What one member draws: for its signing key, its init key, its leaf key. *)
Record Draw := mkDraw { dr_signer : Rand; dr_init : Rand; dr_leaf : Rand }.

(* bench/bench.go:28-28 life *)
Definition life : Lifetime := mkLifetime 0 (2 ^ 64 - 1).

(* bench/bench.go:30-32 cred *)
Definition cred (id : string) : Credential := mkCredential CredentialTypeBasic (bytes_of_string id) [].

(** [if err != nil { panic(err) }] *)
Definition must {A} (m : outcome A) : outcome A := match m with Err _ => Panic | _ => m end.

(* bench/bench.go:34-40 newSigner *)
Definition newSigner (r : Rand) : outcome Signer := must (ed25519_GenerateKey r).

(* bench/bench.go:42-48 keyPackage *)
Definition keyPackage (r : Draw) (suite : Suite) (id : string) : outcome KeyPackage :=
  let! signer := newSigner (dr_signer r) in
  let! (kp, _, _) := must (NewKeyPackage suite (dr_init r) (dr_leaf r) (cred id) signer life) in
  Ok kp.

(** [for i := 1; i < M; i++], [n] rounds left. *)
(* bench/bench.go:64-67 BuildGroup *)
Fixpoint member_adds (draws : Z -> Draw) (suite : Suite) (n : nat) (i : Z) : outcome (list Proposal) :=
  match n with
  | O => Ok []
  | S n =>
      let! kp := keyPackage (draws i) suite ("m-" ++ pretty i) in
      let! adds := member_adds draws suite n (i + 1) in
      Ok (ProposeAdd kp :: adds)
  end.

(* bench/bench.go:53-72 BuildGroup *)
Definition BuildGroup (draws : Z -> Draw) (r : CommitRand) (suite : Suite) (M : Z) : outcome Group :=
  if M <? 1 then Err "member count M must be >= 1" else
  let! signer := newSigner (dr_signer (draws 0)) in
  let! g := NewGroup (dr_init (draws 0)) (dr_leaf (draws 0)) suite (bytes_of_string "bench-group") (cred "founder") signer life in
  if M =? 1 then Ok g else
  let! adds := member_adds draws suite (Z.to_nat (M - 1)) 1 in
  match Group_Commit r (mkCommitOptions adds []) g with
  | (Ok _, g) => Ok g
  | (Err e, _) => Err e
  | (Panic, _) => Panic
  | (Diverge, _) => Diverge
  end.

(** The proposals of the operation that is measured. *)
(* bench/bench.go:81-97 MeasureCommitBytes *)
Definition measured_proposals (joiner : Draw) (suite : Suite) (g : Group) (op : Op) : outcome (list Proposal) :=
  match op with
  | OpUpdate => Ok []
  | OpAdd => let! kp := keyPackage joiner suite "joiner" in Ok [ProposeAdd kp]
  | OpRemove =>
      let! leaves := ActiveLeaves g in
      if len leaves <? 2 then Err "need >=2 members to remove" else
      let! l := index leaves 1 in
      Ok [ProposeRemove l]
  | OpOther _ => Err "unknown op"
  end.

(* bench/bench.go:76-102 MeasureCommitBytes *)
Definition MeasureCommitBytes (draws : Z -> Draw) (joiner : Draw) (r r' : CommitRand) (suite : Suite) (M : Z) (op : Op) : outcome Z :=
  let! g := BuildGroup draws r suite M in
  let! props := measured_proposals joiner suite g op in
  let! (commit, _) := (Group_Commit r' (mkCommitOptions props []) g).1 in
  Ok (len commit).

(** The length of a [nil] Welcome is 0. *)
(* bench/bench.go:106-118 MeasureWelcomeBytes *)
Definition MeasureWelcomeBytes (draws : Z -> Draw) (joiner : Draw) (r r' : CommitRand) (suite : Suite) (M : Z) : outcome Z :=
  let! g := BuildGroup draws r suite M in
  let! kp := keyPackage joiner suite "joiner" in
  let! (_, welcome) := (Group_Commit r' (mkCommitOptions [ProposeAdd kp] []) g).1 in
  Ok (len (default [] welcome)).
End bench.

(** * Groups by their number of members *)

(** A run of additions on a roster without gaps leaves one without gaps. *)
Lemma roster_run_fill lns : forall m m' n, roster_run m (RatchetTree.OpAdd <$> lns) m' -> 0 <= n ->
  (forall l, is_Some (m !! l) <-> 0 <= l < n) -> forall l, is_Some (m' !! l) <-> 0 <= l < n + len lns.
Proof.
  induction lns as [|ln lns IH]; intros m m' n Hr Hn Hm l; cbn [fmap list_fmap] in Hr.
  { inversion Hr; subst. rewrite Hm. unfold len. cbn. lia. }
  inversion Hr as [|? ? m1 ? ? Hs Hr']; subst. inversion Hs as [? i Hi Hf Hb| |]; subst.
  assert (i = n) as ->.
  { destruct (Z.lt_total i n) as [H|[H|H]]; [|done|].
    - destruct (proj2 (Hm i)) as [x Hx]; [lia|congruence].
    - destruct (proj1 (Hm n) (Hb n ltac:(lia))). lia. }
  rewrite len_cons, (IH _ _ (n + 1) Hr' ltac:(lia)); [lia|].
  intros j. rewrite lookup_insert_is_Some, Hm. lia.
Qed.

(** Two strictly sorted lists with the same elements are equal. *)
Lemma sorted_unique (l1 l2 : list Z) : StronglySorted Z.lt l1 -> StronglySorted Z.lt l2 -> (forall x, x ∈ l1 <-> x ∈ l2) -> l1 = l2.
Proof.
  assert (forall l, StronglySorted Z.lt l -> NoDup l) as Hnd.
  { induction 1 as [|x l _ IH Hx]; constructor; [|done]. rewrite Forall_forall in Hx. intros Hin. apply Hx in Hin. lia. }
  intros H1 H2 Hin. assert (AntiSymm (=) Z.lt) by (intros x y ? ?; lia).
  apply (StronglySorted_unique Z.lt); [done..|]. apply NoDup_Permutation; auto.
Qed.

Lemma seqZ_sorted i n : StronglySorted Z.lt (seqZ i (Z.of_nat n)).
Proof.
  revert i. induction n as [|n IH]; intros i; [constructor|]. rewrite (seqZ_cons i (Z.of_nat (S n))) by lia.
  replace (Z.pred (Z.of_nat (S n))) with (Z.of_nat n) by lia. constructor; [apply IH|].
  apply Forall_forall. intros x Hx%elem_of_seqZ. lia.
Qed.

Section built.
Context {C : StdCrypto} `{!StdCryptoLaws C} {K : KeyGen C}.
Implicit Types g : Group.

Lemma must_ok {A} (m : outcome A) a : must m = Ok a -> m = Ok a.
Proof. by destruct m. Qed.

Lemma life_ok : Lifetime_ok life.
Proof. split; unfold is_u64; cbn; lia. Qed.

Lemma cred_ok id : Credential_ok (cred id).
Proof. repeat split; cbn; try done; unfold is_u16; lia. Qed.

Lemma new_package_ok suite r1 r2 c signer lt kp ip lp : Credential_ok c -> Lifetime_ok lt -> is_u16 (suite_ID suite) ->
  NewKeyPackage suite r1 r2 c signer lt = Ok (kp, ip, lp) -> KeyPackage_ok kp.
Proof.
  intros Hc Hlt Hid H. pose proof (new_leaf_ok _ _ _ _ _ _ _ _ _ Hc Hlt Hid H) as [Hl _]. unfold NewKeyPackage in H.
  apply obind_ok in H as ([? ?] & _ & H). apply obind_ok in H as ([? lpub] & _ & H). apply obind_ok in H as (pub & Hp & H).
  apply obind_ok in H as (ln & Hln & H). apply obind_ok in H as (tbs & _ & H). apply obind_ok in H as (sig & _ & H).
  apply Ok_inj in H. injection H as <- _ _. unfold KeyPackage_ok. cbn [kp_LeafNode kp_Version kp_CipherSuite kp_Extensions] in *.
  split_and!; try done; unfold is_u16; cbn; lia.
Qed.

Lemma keyPackage_ok r suite id kp : is_u16 (suite_ID suite) -> keyPackage r suite id = Ok kp -> KeyPackage_ok kp.
Proof.
  intros Hid H. unfold keyPackage in H. apply obind_ok in H as (signer & _ & H). apply obind_ok in H as ([[kp' ip] lp] & Hk & H).
  apply Ok_inj in H as <-. apply must_ok in Hk. eapply new_package_ok; [apply cred_ok|apply life_ok|done|exact Hk].
Qed.

Lemma member_adds_ok draws suite n : is_u16 (suite_ID suite) -> forall i ps, member_adds draws suite n i = Ok ps ->
  exists kps, ps = map ProposeAdd kps /\ Forall KeyPackage_ok kps /\ length kps = n.
Proof.
  intros Hid. induction n as [|n IH]; intros i ps H; cbn [member_adds] in H; [apply Ok_inj in H as <-; by exists []|].
  apply obind_ok in H as (kp & Hkp & H). apply obind_ok in H as (adds & Ha & H). apply Ok_inj in H as <-.
  destruct (IH _ _ Ha) as (kps & -> & Hok & Hl). exists (kp :: kps). split_and!; [done| |cbn; lia].
  constructor; [by eapply keyPackage_ok|done].
Qed.

(** The founder of a new group: alone at leaf 0. *)
Lemma NewGroup_founder r1 r2 suite gid c signer lt g : Credential_ok c -> Lifetime_ok lt -> is_u16 (suite_ID suite) ->
  NewGroup r1 r2 suite gid c signer lt = Ok g ->
  (forall l, is_Some (roster g !! l) <-> 0 <= l < 1) /\ g_ownLeaf g = 0 /\ Epoch g = 0 /\
  forall props, Forall Proposal_ok props -> len props < 2 ^ 30 -> commit_ready 0 g (mkCommitOptions props []) signer.
Proof.
  intros Hc Hlt Hid H. unfold NewGroup in H. apply obind_ok in H as ([[kp ip] lp] & Hkp & H). apply obind_ok in H as (th & _ & H).
  apply obind_ok in H as (gcb & _ & H). apply obind_ok in H as (es & _ & H). apply obind_ok in H as (st & _ & H). apply Ok_inj in H as <-.
  destruct (new_leaf_ok _ _ _ _ _ _ _ _ _ Hc Hlt Hid Hkp) as [Hl Hsk].
  pose proof (NewRatchetTree_inv suite (kp_LeafNode kp)) as Hinv. set (t := NewRatchetTree suite (kp_LeafNode kp)) in *.
  assert (roster_of (rt_nodes t) = {[0 := kp_LeafNode kp]}) as Hro by reflexivity.
  assert (populated (rt_nodes t) 0) as Hpop by (apply (populated_roster 0); [done|lia|by rewrite Hro, lookup_singleton_eq]).
  cbn [roster g_tree g_ownLeaf Epoch g_groupContext gc_Epoch]. unfold roster. cbn [g_tree]. split_and!.
  - intros l. rewrite Hro, lookup_singleton_is_Some. lia.
  - done.
  - done.
  - intros props Hps Hlen. split; cbn [g_tree g_suite g_ownLeaf g_handshakeGeneration Group.ByValue Group.ByReference]; try done.
    + split; [done|left; exists 0; split; [cbn; lia|done]|]. apply Forall_cons. split; [exact Hl|constructor].
    + split; [done|]. exists (kp_LeafNode kp). split; [done|exact Hsk].
    + unfold members. fold t. rewrite Hro, map_size_singleton. unfold len at 1. cbn [length]. lia.
Qed.

(** A commit that adds members to a group without gaps. *)
Lemma Group_Commit_fills d g signer r kps commit w g' n : commit_ready d g (mkCommitOptions (map ProposeAdd kps) []) signer ->
  (forall l, is_Some (roster g !! l) <-> 0 <= l < n) -> 0 <= n -> Forall KeyPackage_ok kps ->
  Group_Commit r (mkCommitOptions (map ProposeAdd kps) []) g = (Ok (commit, w), g') ->
  (exists d', tree_inv d' (rt_nodes (g_tree g'))) /\ (forall l, is_Some (roster g' !! l) <-> 0 <= l < n + len kps).
Proof.
  intros Hcr Hro Hn Hkps Hcm. set (opt := mkCommitOptions _ []) in *.
  assert (led_commit opt) as Hlc.
  { split; [done|apply (cr_proposals _ _ _ _ Hcr)|]. apply Forall_map, Forall_true. done. }
  destruct (Group_Commit_committed d g opt signer r commit w g' Hcr Hcm) as (d' & a & rs & up & bn & fdp & pss & Hco).
  destruct Hco as [_ Hrs [Hrun _ _] _ _ _ _ [Hwf' _] Hr' (orig & Horig & _) _]. split; [exists d'; apply Hwf'|].
  rewrite (led_proposals g opt Hlc) in Hrs. apply Ok_inj in Hrs as <-. pose proof (rk_roster _ _ _ Hrun) as Hrr.
  change (Group.ByValue opt) with (map ProposeRemove [] ++ map ProposeAdd kps) in Hrr. rewrite reconcile_ops in Hrr. cbn [fmap list_fmap app] in Hrr.
  assert (forall lns : list LeafNode, wrapped <$> (RatchetTree.OpAdd <$> lns) = RatchetTree.OpAdd <$> lns) as E2
    by (intros lns; induction lns as [|x lns IH]; [done|]; cbn; f_equal; exact IH).
  change (list_fmap _ _ wrapped (list_fmap _ _ RatchetTree.OpAdd (list_fmap _ _ kp_LeafNode kps)))
    with (wrapped <$> (RatchetTree.OpAdd <$> (kp_LeafNode <$> kps))) in Hrr. rewrite E2 in Hrr.
  pose proof (roster_run_fill _ _ _ n Hrr Hn Hro) as Hf. unfold len in Hf. rewrite length_fmap in Hf. fold (len kps) in Hf.
  intros l. unfold roster. rewrite Hr', lookup_insert_is_Some'. rewrite Hf. split; [|by right]. intros [<-|H]; [|done].
  apply Hf. by rewrite Horig.
Qed.

(** [ActiveLeaves] of a group without gaps. *)
Lemma ActiveLeaves_full d g n : tree_inv d (rt_nodes (g_tree g)) -> 0 <= n -> (forall l, is_Some (roster g !! l) <-> 0 <= l < n) ->
  ActiveLeaves g = Ok (seqZ 0 n).
Proof.
  intros Hinv Hn Hro. destruct (ActiveLeaves_spec g d Hinv) as (ls & -> & Hs & Hin). f_equal.
  pose proof (seqZ_sorted 0 (Z.to_nat n)) as Hq. rewrite Z2Nat.id in Hq by done.
  apply sorted_unique; [done|done|]. intros l. rewrite Hin, Hro, elem_of_seqZ. lia.
Qed.

Lemma BuildGroup_members draws r suite M g : is_u16 (suite_ID suite) -> M <= 2 ^ 30 -> BuildGroup draws r suite M = Ok g ->
  1 <= M /\ ActiveLeaves g = Ok (seqZ 0 M) /\ OwnLeaf g = 0 /\ Epoch g = if M =? 1 then 0 else 1.
Proof.
  intros Hid HM H. unfold BuildGroup in H. destruct (Z.ltb_spec M 1) as [|H1]; [done|].
  apply obind_ok in H as (signer & _ & H). apply obind_ok in H as (g0 & Hg0 & H).
  destruct (NewGroup_founder _ _ _ _ _ _ _ _ (cred_ok _) life_ok Hid Hg0) as (Hro & Hown & Hep & Hcr).
  destruct (Z.eqb_spec M 1) as [->|Hne].
  - apply Ok_inj in H as <-. split_and!; [lia| |done|done].
    apply (ActiveLeaves_full 0); [|lia|done]. apply (wf_inv _ _ (cr_tree _ _ _ _ (Hcr [] (Forall_nil_2 _) ltac:(reflexivity)))).
  - apply obind_ok in H as (adds & Ha & H). destruct (member_adds_ok _ _ _ Hid _ _ Ha) as (kps & -> & Hkps & Hl).
    assert (len kps = M - 1) as Hlen by (unfold len; lia).
    assert (commit_ready 0 g0 (mkCommitOptions (map ProposeAdd kps) []) signer) as Hc.
    { apply Hcr; [|unfold len in *; rewrite length_map; lia]. apply Forall_map. eapply Forall_impl; [exact Hkps|]. intros kp Hkp. by constructor. }
    destruct (Group_Commit r _ g0) as [[[commit w]| | |] g'] eqn:Ec; try done. apply Ok_inj in H as ->.
    destruct (Group_Commit_fills 0 g0 signer r kps commit w g 1 Hc Hro ltac:(lia) Hkps Ec) as [[d Hinv] Hro'].
    destruct (Group_Commit_epoch _ _ _ _ _ Ec) as [Hn _]. split_and!; [lia| |..].
    + apply (ActiveLeaves_full d); [done|lia|]. intros l. rewrite Hro', Hlen. lia.
    + unfold OwnLeaf in *. by rewrite (ne_leaf _ _ Hn).
    + by rewrite (ne_epoch _ _ Hn), Hep.
Qed.
End built.

(** * Properties *)

(** A group built for [M] members has exactly these: [BuildGroup], when it
    returns a group, has been asked for at least one member, and the occupied
    leaves are [0] to [M - 1], the founder's the first; the group is in its
    first epoch when it has one member and in the second otherwise.  The
    removal that is measured is that of the member at leaf 1, never of the
    committer, and is refused in a group of one. *)
Theorem built_group_exact {C : StdCrypto} `{!StdCryptoLaws C} {K : KeyGen C} draws joiner r suite M g :
  is_u16 (suite_ID suite) -> M <= 2 ^ 30 -> BuildGroup draws r suite M = Ok g ->
  1 <= M /\ ActiveLeaves g = Ok (seqZ 0 M) /\ OwnLeaf g = 0 /\ Epoch g = (if M =? 1 then 0 else 1) /\
  measured_proposals joiner suite g OpRemove =
    if M =? 1 then Err "need >=2 members to remove" else Ok [ProposeRemove 1].
Proof.
  intros Hid HM H. assert (1 <= M /\ ActiveLeaves g = Ok (seqZ 0 M) /\ OwnLeaf g = 0 /\ Epoch g = if M =? 1 then 0 else 1) as Hb.
  { eapply BuildGroup_members; eassumption. }
  destruct Hb as (H1 & Ha & Ho & He). split_and!; [done..|]. cbn [measured_proposals]. rewrite Ha. cbn [obind].
  assert (len (seqZ 0 M) = M) as -> by (unfold len; rewrite length_seqZ; lia).
  destruct (Z.eqb_spec M 1) as [->|Hne]; [done|]. rewrite (proj2 (Z.ltb_ge M 2)) by lia.
  rewrite (seqZ_cons 0 M), (seqZ_cons (Z.succ 0) (Z.pred M)) by lia. reflexivity.
Qed.

Module Triple.
#[local] Existing Instances toy toy_laws Peers.toy_keygen.

Definition draws (i : Z) : Draw (C := toy) := @mkDraw toy (i + 1 : Z) (50 + i : Z) (80 + i : Z).
Definition built : outcome Group := BuildGroup draws Epoch7.rand toy_suite 3.
End Triple.

#[local] Existing Instances toy toy_laws Peers.toy_keygen.

Lemma built_group_exact_witness : exists g, Triple.built = Ok g /\ ActiveLeaves g = Ok [0; 1; 2] /\ Epoch g = 1.
Proof.
  destruct (is_ok_inv Triple.built) as [g E]; [vm_compute; reflexivity|].
  destruct (built_group_exact Triple.draws (Triple.draws 9) Epoch7.rand toy_suite 3 g ltac:(split; vm_compute; congruence) ltac:(lia) E)
    as (_ & Ha & _ & He & _).
  exists g. split; [exact E|]. split; [exact Ha|exact He].
Defined.
