(* ===== verification/Scaling.v ===== *)
(** [scaling] and [cmd/scalebench]: projections of the control-plane load.

    [model.go], [sweep.go] and [run] of [cmd/scalebench/main.go].  A [float64]
    is a [spec_float] of the Standard Library, with the IEEE operations at 53
    bits of precision; no expression of the model can be fused.  An [int] has
    64 bits.  The texts that [CSV] and [run] print are kept as their arguments,
    and the parsing of the command line is left out. *)

From Stdlib Require Import ZArith Lia Strings.Byte Floats.SpecFloat.
From stdpp Require Import base list numbers strings sorting sets.
From S2P Require Import Prelude Syntax Cipher ToyCrypto Group GroupSync GroupJoin Interop Bench.

(** * Numbers *)

Definition i64 (z : Z) : Z := (z + 2 ^ 63) mod 2 ^ 64 - 2 ^ 63.

Abbreviation float64 := spec_float.
Definition f_add : float64 -> float64 -> float64 := SFadd 53 1024.
Definition f_mul : float64 -> float64 -> float64 := SFmul 53 1024.
Definition f_div : float64 -> float64 -> float64 := SFdiv 53 1024.
Definition f_gt (x y : float64) : bool := SFltb y x.
(** [float64(i)] *)
Definition f_int (z : Z) : float64 := binary_normalize 53 1024 z 0 false.
(** [m * 2 ^ e] *)
Definition f_trunc (m e : Z) : Z := if 0 <=? e then m * 2 ^ e else m / 2 ^ (- e).
(** [int64(x)]: towards zero; what a value out of range gives is up to the
    implementation. *)
Definition int64_of (unspecified : float64 -> Z) (x : float64) : Z :=
  match x with
  | S754_zero _ => 0
  | S754_finite s m e =>
      let v := if s : bool then - f_trunc (Zpos m) e else f_trunc (Zpos m) e in
      if (- 2 ^ 63 <=? v) && (v <? 2 ^ 63) then v else unspecified x
  | _ => unspecified x
  end.

(** * model.go *)

(* scaling/model.go:8-24 Params *)
Record Params := mkParams {
  p_H : Z; p_V : Z; p_M : Z;
  p_S : Z;
  p_RRekey : float64;
  p_LambdaMove : float64;
  p_BytesPerCommit : Z;
  p_CPUApplyNanos : Z;
  p_CPUCommitNanos : Z;
  p_MTUPayload : Z;
  p_FwdBudgetBytesPerSec : float64;
  p_PktBudgetPerSec : float64
}.

(* scaling/model.go:27-41 Projection *)
Record Projection := mkProjection {
  j_Density : float64;
  j_ReflectorFwdBytesPerSec : float64;
  j_ReflectorOrderOpsPerSec : float64;
  j_HostApplyPerSec : float64;
  j_HostSAInstallsPerSec : float64;
  j_HostCPUFracBusy : float64;
  j_HostCommitCPUFracBusy : float64;
  j_ReflectorSaturated : bool;
  j_PacketsPerCommit : Z;
  j_ReflectorFwdPktsPerSec : float64;
  j_ReflectorPktSaturated : bool
}.

(* scaling/model.go:43-48 Params.shards *)
Definition shards (p : Params) : Z := if p_S p <? 1 then 1 else p_S p.

(* scaling/model.go:68-71 Project *)
Definition packetsPerCommit (bytesPerCommit mtuPayload : Z) : Z :=
  if 0 <? mtuPayload then Z.quot (i64 (i64 (bytesPerCommit + mtuPayload) - 1)) mtuPayload else 0.

(* scaling/model.go:51-87 Project *)
Definition Project (p : Params) : Projection :=
  let rate := f_add (p_RRekey p) (p_LambdaMove p) in
  let density := f_div (f_mul (f_int (p_V p)) (f_int (p_M p))) (f_int (p_H p)) in
  let perShardVNIs := f_div (f_int (p_V p)) (f_int (shards p)) in
  let fanout := f_int (i64 (p_M p - 1)) in
  let fwd := f_mul (f_mul (f_mul perShardVNIs rate) fanout) (f_int (p_BytesPerCommit p)) in
  let apply := f_mul density rate in
  let committerRate :=
    if 0 <? p_H p then f_mul (f_div (f_int (p_V p)) (f_int (p_H p))) rate else S754_zero false in
  let packets := packetsPerCommit (p_BytesPerCommit p) (p_MTUPayload p) in
  let fwdPkts := f_mul (f_mul (f_mul perShardVNIs rate) fanout) (f_int packets) in
  mkProjection density fwd (f_mul perShardVNIs rate) apply apply
    (f_div (f_mul apply (f_int (p_CPUApplyNanos p))) (f_int 1000000000))
    (f_div (f_mul committerRate (f_int (p_CPUCommitNanos p))) (f_int 1000000000))
    (f_gt (p_FwdBudgetBytesPerSec p) (S754_zero false) && f_gt fwd (p_FwdBudgetBytesPerSec p))
    packets fwdPkts
    (f_gt (p_PktBudgetPerSec p) (S754_zero false) && f_gt fwdPkts (p_PktBudgetPerSec p)).

(* scaling/model.go:90-94 IKEv2Projection *)
Record IKEv2Projection := mkIKEv2Projection {
  k_EstablishHandshakes : float64;
  k_HandshakesPerSecSteady : float64;
  k_DataPlaneMemberVNIsPerHost : float64
}.

(* scaling/model.go:100-106 IKEv2Project *)
Definition IKEv2Project (p : Params) : IKEv2Projection :=
  let V := f_int (p_V p) in
  let M := f_int (p_M p) in
  let M1 := f_int (i64 (p_M p - 1)) in
  mkIKEv2Projection (f_div (f_mul (f_mul V M) M1) (f_int 2)) (f_mul (f_mul V (p_LambdaMove p)) M1)
    (f_div (f_mul V M) (f_int (p_H p))).

(** * sweep.go *)

(* scaling/sweep.go:10-14 Row *)
Record Row := mkRow { r_H : Z; r_V : Z; r_M : Z; r_MLS : Projection; r_IKEv2 : IKEv2Projection }.

Definition at_point (base : Params) (h v : Z) : Params :=
  mkParams h v (p_M base) (p_S base) (p_RRekey base) (p_LambdaMove base) (p_BytesPerCommit base) (p_CPUApplyNanos base)
    (p_CPUCommitNanos base) (p_MTUPayload base) (p_FwdBudgetBytesPerSec base) (p_PktBudgetPerSec base).

(* scaling/sweep.go:20-26 Sweep *)
Definition rows (base : Params) (hosts vnis : list Z) : list Row :=
  h ← hosts; v ← vnis; let p := at_point base h v in [mkRow h v (p_M p) (Project p) (IKEv2Project p)].

(** [not (less b a)] *)
Definition row_le (a b : Row) : Prop := r_H a < r_H b \/ r_H a = r_H b /\ r_V a <= r_V b.

#[global] Instance row_le_dec a b : Decision (row_le a b).
Proof. unfold row_le. apply _. Defined.

(** [sort.Slice] puts the rows in some order that the comparison allows; there
    is only one, by [sweep_exact]. *)
(* scaling/sweep.go:18-34 Sweep *)
Definition Sweep (base : Params) (hosts vnis : list Z) : list Row := merge_sort row_le (rows base hosts vnis).

Fixpoint knee_loop (saturated : Row -> bool) (rs : list Row) (best : Z) (found : bool) : Z * bool :=
  match rs with
  | [] => (best, found)
  | r :: rs =>
      if saturated r && (negb found || (r_V r <? best)) then knee_loop saturated rs (r_V r) true
      else knee_loop saturated rs best found
  end.

(* scaling/sweep.go:38-46 Knee *)
Definition Knee (rs : list Row) : Z * bool := knee_loop (fun r => j_ReflectorSaturated (r_MLS r)) rs 0 false.

(* scaling/sweep.go:50-58 PktKnee *)
Definition PktKnee (rs : list Row) : Z * bool := knee_loop (fun r => j_ReflectorPktSaturated (r_MLS r)) rs 0 false.

(** * cmd/scalebench *)

Section scalebench.
Context {C : StdCrypto} {K : KeyGen C} (unspecified : float64 -> Z).

(* cmd/scalebench/main.go:30-41 config *)
Record config := mkConfig {
  cfg_M : Z;
  cfg_hosts : list Z;
  cfg_vnis : list Z;
  cfg_rekeySeconds : float64;
  cfg_moveSeconds : float64;
  cfg_fwdBudgetMBps : float64;
  cfg_mtuPayload : Z;
  cfg_pktBudgetPps : float64;
  cfg_cpuCommitMs : float64;
  cfg_cpuApplyMs : float64;
  cfg_suiteID : Z
}.

(** What [run] prints: the measured constant, the rows, and the two verdicts,
    the second only when packets are counted. *)
Record report := mkReport {
  rep_bytesPerCommit : Z;
  rep_rows : list Row;
  rep_bytes : option Z;
  rep_pps : option (option Z)
}.

Definition found_at (k : Z * bool) : option Z := if k.2 then Some k.1 else None.

(* cmd/scalebench/main.go:53-64 run *)
Definition base_params (cfg : config) (bytesPerCommit : Z) : Params :=
  mkParams 0 0 (cfg_M cfg) 1 (f_div (f_int 1) (cfg_rekeySeconds cfg)) (f_div (f_int 1) (cfg_moveSeconds cfg)) bytesPerCommit
    (int64_of unspecified (f_mul (cfg_cpuApplyMs cfg) (f_int 1000000)))
    (int64_of unspecified (f_mul (cfg_cpuCommitMs cfg) (f_int 1000000)))
    (cfg_mtuPayload cfg) (f_mul (cfg_fwdBudgetMBps cfg) (f_int 1000000)) (cfg_pktBudgetPps cfg).

(* cmd/scalebench/main.go:44-86 run *)
Definition run (draws : Z -> Draw) (joiner : Draw) (r r' : CommitRand) (cfg : config) : outcome report :=
  match Lookup (cfg_suiteID cfg) with
  | None => Err "ciphersuite not registered"
  | Some suite =>
      let! bytesPerCommit := MeasureCommitBytes draws joiner r r' suite (cfg_M cfg) OpUpdate in
      let rs := Sweep (base_params cfg bytesPerCommit) (cfg_hosts cfg) (cfg_vnis cfg) in
      Ok (mkReport bytesPerCommit rs (found_at (Knee rs))
            (if (0 <? cfg_mtuPayload cfg) && f_gt (cfg_pktBudgetPps cfg) (S754_zero false)
             then Some (found_at (PktKnee rs)) else None))
  end.
End scalebench.

(** * Lemmas *)

#[global] Instance row_le_total : Total row_le.
Proof. intros a b. unfold row_le. lia. Qed.

#[global] Instance row_le_trans : Transitive row_le.
Proof. intros a b c. unfold row_le. lia. Qed.

Lemma elem_of_rows base hosts vnis r : r ∈ rows base hosts vnis <->
  exists h v, h ∈ hosts /\ v ∈ vnis /\ r = mkRow h v (p_M base) (Project (at_point base h v)) (IKEv2Project (at_point base h v)).
Proof.
  unfold rows. rewrite list_elem_of_bind. setoid_rewrite list_elem_of_bind. setoid_rewrite list_elem_of_singleton. naive_solver.
Qed.

(** Rows of one point are one row. *)
Lemma rows_antisym base hosts vnis a b : a ∈ rows base hosts vnis -> b ∈ rows base hosts vnis -> row_le a b -> row_le b a -> a = b.
Proof.
  rewrite !elem_of_rows. intros (h & v & _ & _ & ->) (h' & v' & _ & _ & ->) H1 H2. unfold row_le in *. cbn in *.
  assert (h = h') as <- by lia. assert (v = v') as <- by lia. done.
Qed.

(** [v] is the least [V] of the saturated rows, if there is one. *)
Definition least_saturated (saturated : Row -> bool) (rs : list Row) (v : Z) (found : bool) : Prop :=
  if found then (exists r, r ∈ rs /\ saturated r = true /\ r_V r = v) /\ forall r, r ∈ rs -> saturated r = true -> v <= r_V r
  else v = 0 /\ forall r, r ∈ rs -> saturated r = false.

Lemma knee_loop_spec saturated rs : forall seen best found v b, least_saturated saturated seen best found ->
  knee_loop saturated rs best found = (v, b) -> least_saturated saturated (seen ++ rs) v b.
Proof.
  induction rs as [|r rs IH]; intros seen best found v b Hl H; cbn [knee_loop] in H.
  { injection H as <- <-. by rewrite app_nil_r. }
  replace (seen ++ r :: rs) with ((seen ++ [r]) ++ rs) by (by rewrite <- app_assoc).
  destruct (saturated r && _) eqn:Eb; (eapply IH; [|exact H]); clear IH H; unfold least_saturated in *.
  - apply andb_true_iff in Eb as [Es Eb]. setoid_rewrite elem_of_app. setoid_rewrite list_elem_of_singleton. split; [by exists r; auto|]. intros r' [Hr| ->] Hs; [|lia].
    destruct found; cbn [negb orb] in Eb; [apply Z.ltb_lt in Eb; destruct Hl as [_ Hl]; specialize (Hl r' Hr Hs); lia|].
    destruct Hl as [_ Hl]. rewrite (Hl r' Hr) in Hs. done.
  - destruct found; cbn [negb orb] in Eb; setoid_rewrite elem_of_app; setoid_rewrite list_elem_of_singleton.
    + destruct Hl as [(r0 & H1 & H2 & H3) Hl]. split; [exists r0; auto|]. intros r' [Hr| ->] Hs; [auto|].
      rewrite Hs in Eb. cbn [andb] in Eb. by apply Z.ltb_ge in Eb.
    + destruct Hl as [-> Hl]. split; [done|]. intros r' [Hr| ->]; [auto|]. by destruct (saturated r).
Qed.

Lemma knee_spec saturated rs v b : knee_loop saturated rs 0 false = (v, b) -> least_saturated saturated rs v b.
Proof. apply (knee_loop_spec saturated rs []). split; [done|]. intros r Hr. by apply not_elem_of_nil in Hr. Qed.

(** The number of VNIs at which a swept point passes a test, and the least one. *)
Definition exceeds (test : Projection -> bool) (base : Params) (hosts vnis : list Z) (v : Z) : Prop :=
  exists h, h ∈ hosts /\ v ∈ vnis /\ test (Project (at_point base h v)) = true.

Definition least_exceeding (test : Projection -> bool) (base : Params) (hosts vnis : list Z) (o : option Z) : Prop :=
  match o with
  | Some v => exceeds test base hosts vnis v /\ forall v', exceeds test base hosts vnis v' -> v <= v'
  | None => forall v, ~ exceeds test base hosts vnis v
  end.

Lemma knee_exact test base hosts vnis :
  least_exceeding test base hosts vnis (found_at (knee_loop (fun x => test (r_MLS x)) (Sweep base hosts vnis) 0 false)).
Proof.
  destruct (knee_loop _ _ _ _) as [v b] eqn:E. apply knee_spec in E.
  assert (forall x, x ∈ Sweep base hosts vnis <-> x ∈ rows base hosts vnis) as Hin.
  { intros x. apply elem_of_Permutation_proper, merge_sort_Permutation. }
  unfold found_at, least_exceeding, exceeds, least_saturated in *. cbn [fst snd]. destruct b; destruct E as [E1 E2].
  - destruct E1 as (x & Hx & Hs & <-). apply Hin, elem_of_rows in Hx as (h & v & Hh & Hv & ->). split; [by exists h|].
    intros v' (h' & Hh' & Hv' & Ht). refine (E2 (mkRow h' v' _ (Project (at_point base h' v')) _) _ Ht).
    apply Hin, elem_of_rows. by exists h', v'.
  - intros v' (h' & Hh' & Hv' & Ht). pose proof (E2 (mkRow h' v' (p_M base) (Project (at_point base h' v')) (IKEv2Project (at_point base h' v')))) as Hf.
    cbn [r_MLS] in Hf. rewrite Hf in Ht; [done|]. apply Hin, elem_of_rows. by exists h', v'.
Qed.

(** * Properties *)

(** A sweep has a row for each pair of a host count and a VNI count, as often as
    the pair occurs in the lists, and the rows stand in the order of the pairs;
    whatever permutation the sorting library picks among those in this order,
    the list is the same. *)
Theorem sweep_exact base hosts vnis :
  Sweep base hosts vnis ≡ₚ rows base hosts vnis /\ StronglySorted row_le (Sweep base hosts vnis) /\
  forall rs, rs ≡ₚ rows base hosts vnis -> StronglySorted row_le rs -> rs = Sweep base hosts vnis.
Proof.
  pose proof (merge_sort_Permutation row_le (rows base hosts vnis)) as Hp.
  assert (StronglySorted row_le (Sweep base hosts vnis)) as Hs by (apply (StronglySorted_merge_sort row_le)).
  split_and!; [done|done|]. intros rs Hrs Hsr. apply (StronglySorted_unique_strong row_le); [|done|done|by rewrite Hrs, <- Hp].
  intros a b Ha Hb. apply (rows_antisym base hosts vnis); [by rewrite <- Hrs|by rewrite <- Hp].
Qed.

(** The verdicts of [run] name the least number of VNIs at which some point of
    the sweep exceeds the budget of bytes, or of packets, and say that it fits
    exactly when no point does. *)
Theorem verdicts_exact {C : StdCrypto} {K : KeyGen C} unspecified draws joiner r r' cfg rep :
  run unspecified draws joiner r r' cfg = Ok rep ->
  let base := base_params unspecified cfg (rep_bytesPerCommit rep) in
  let exact test o := least_exceeding test base (cfg_hosts cfg) (cfg_vnis cfg) o in
  exact j_ReflectorSaturated (rep_bytes rep) /\ forall o, rep_pps rep = Some o -> exact j_ReflectorPktSaturated o.
Proof.
  intros H base exact. unfold run in H. destruct (Lookup _) as [suite|]; [|done].
  apply obind_ok in H as (n & _ & H). apply Ok_inj in H. subst rep. cbn [rep_bytes rep_pps]. change (base_params unspecified cfg n) with base.
  pose proof (fun test => knee_exact test base (cfg_hosts cfg) (cfg_vnis cfg)) as Hk.
  split; [apply (Hk j_ReflectorSaturated)|]. intros o. destruct (_ && _); [|done]. intros [= <-]. apply (Hk j_ReflectorPktSaturated).
Qed.

(** The packets of a commit are as many as are needed for its bytes, unless the
    sum overflows. *)
Theorem packets_exact bytes mtu : 0 < mtu -> 0 <= bytes -> bytes + mtu < 2 ^ 63 ->
  (packetsPerCommit bytes mtu - 1) * mtu < bytes <= packetsPerCommit bytes mtu * mtu.
Proof.
  intros Hm Hb Ho. unfold packetsPerCommit. rewrite (proj2 (Z.ltb_lt 0 mtu)) by done.
  assert (forall z, - 2 ^ 63 <= z < 2 ^ 63 -> i64 z = z) as Hi by (intros z Hz; unfold i64; rewrite Z.mod_small; lia).
  rewrite !Hi by (rewrite ?Hi; lia). rewrite Z.quot_div_nonneg by lia.
  pose proof (Z.div_mod (bytes + mtu - 1) mtu ltac:(lia)). pose proof (Z.mod_pos_bound (bytes + mtu - 1) mtu Hm). nia.
Qed.

(** A tenth, rounded to the nearest [float64]. *)
Example tenth : f_div (f_int 1) (f_int 10) = S754_finite false 7205759403792794 (-56).
Proof. reflexivity. Qed.

Module Envelope.
#[local] Existing Instances toy toy_laws Peers.toy_keygen.

(** Groups of two, rekeyed once a second, on a reflector that forwards 1 MB/s. *)
Definition cfg : config :=
  mkConfig 2 [10; 20] [100; 100000; 200000] (f_int 1) (f_int 600) (f_int 1) 1460 (f_int 1) (f_int 0) (f_int 0) 1.
Definition swept : outcome report := run (fun _ => 0) Triple.draws (Triple.draws 9) Epoch7.rand Epoch7.rand cfg.
End Envelope.

#[local] Existing Instances toy toy_laws Peers.toy_keygen.

Lemma verdicts_exact_witness :
  match Envelope.swept with
  | Ok rep => least_exceeding j_ReflectorSaturated (base_params (fun _ => 0) Envelope.cfg (rep_bytesPerCommit rep)) [10; 20]
                [100; 100000; 200000] (rep_bytes rep) /\ rep_bytes rep = Some 100000
  | _ => False
  end.
Proof.
  assert (match Envelope.swept with Ok rep => bool_decide (rep_bytes rep = Some 100000) | _ => false end = true) as Hs
    by (vm_compute; reflexivity).
  destruct Envelope.swept as [rep| | |] eqn:E; [|discriminate Hs..]. split; [|by apply bool_decide_eq_true in Hs].
  exact (proj1 (verdicts_exact (fun _ => 0) Triple.draws (Triple.draws 9) Epoch7.rand Epoch7.rand Envelope.cfg rep E)).
Defined.
