(* ===== verification/SimSched.v ===== *)
(** [sim]: events and the scheduler.

    [event.go] and [scheduler.go], with the binary heap of [container/heap]
    that the scheduler's queue is: a heap is a list read by index, and the two
    sifting loops run on fuel, the length of the list, which is more than
    their number of steps.  The random source is not read here; its state is a
    parameter. *)

From Stdlib Require Import ZArith Lia Strings.Byte.
From stdpp Require Import base list numbers strings sorting sets gmap.
From S2P Require Import Prelude Syntax Cipher.

(** * event.go *)

(* sim/event.go:7-7 ActorID *)
Definition ActorID : Type := Z.
(* sim/event.go:9-9 Broadcast *)
Definition Broadcast : ActorID := -1.

(* sim/event.go:14-21 MsgType *)
Inductive MsgType : Type := MsgCommit | MsgWelcome | MsgHeartbeat | MsgLogRequest | MsgLogReply | MsgData.
#[global] Instance MsgType_eq_dec : EqDecision MsgType.
Proof. solve_decision. Defined.

(* sim/event.go:23-40 MsgType.String *)
Definition MsgType_String (m : MsgType) : string :=
  match m with
  | MsgCommit => "commit"
  | MsgWelcome => "welcome"
  | MsgHeartbeat => "heartbeat"
  | MsgLogRequest => "logRequest"
  | MsgLogReply => "logReply"
  | MsgData => "data"
  end.

(** Go strings that are not constants, such as identities and content hashes,
    are byte strings. *)
(* sim/event.go:58-62 CommitRecord *)
Record CommitRecord := mkCommitRecord { cr_Base : Z; cr_Bytes : bytes; cr_Hash : bytes }.

(* sim/event.go:43-55 Envelope *)
Record Envelope := mkEnvelope {
  e_VNI : Z;
  e_Type : MsgType;
  e_Src : ActorID;
  e_Dst : ActorID;
  e_Base : Z;
  e_Payload : bytes;
  e_SPI : Z;
  e_DataSeq : Z;
  e_Records : list CommitRecord;
  e_Joiner : bytes;
  e_Hash : bytes
}.

(* sim/event.go:67-72 EventKind *)
Inductive EventKind : Type := KindDeliver | KindTimer | KindFault | KindChurn.
(* sim/event.go:77-82 TimerKind *)
Inductive TimerKind : Type := TimerRekey | TimerHeartbeat | TimerReconcile | TimerData.
(* sim/fault.go:5-8 faultKind *)
Inductive faultKind : Type := faultPartition | faultDSDown.

(* sim/event.go:88-94 FaultOp *)
Record FaultOp := mkFaultOp { fo_Kind : faultKind; fo_On : bool; fo_DS : ActorID; fo_SideA : list ActorID; fo_SideB : list ActorID }.
(* sim/event.go:97-101 ChurnOp *)
Record ChurnOp := mkChurnOp { ch_Join : bool; ch_Client : ActorID; ch_VNI : Z }.

(* sim/event.go:104-113 Event *)
Record Event := mkEvent {
  ev_At : Z;
  ev_Seq : Z;
  ev_Kind : EventKind;
  ev_Actor : ActorID;
  ev_Env : Envelope;
  ev_Timer : TimerKind;
  ev_Fault : FaultOp;
  ev_Churn : ChurnOp
}.

(** The zero values that the composite literals leave in place. *)
Definition zero_env : Envelope := mkEnvelope 0 MsgCommit 0 0 0 [] 0 0 [] [] [].
Definition zero_fault : FaultOp := mkFaultOp faultPartition false 0 [] [].
Definition zero_churn : ChurnOp := mkChurnOp false 0 0.

(* sim/event.go:116-119 contentHash *)
Definition contentHash {C : StdCrypto} (b : bytes) : bytes := hash_Sum sha256_New b.

(** * container/heap *)

Section heap.
Context {A : Type} (lessb : A -> A -> bool).
Implicit Types h : list A.

Definition heap_Less h (i j : nat) : bool :=
  match h !! i, h !! j with Some x, Some y => lessb x y | _, _ => false end.

Definition heap_Swap h (i j : nat) : list A :=
  match h !! i, h !! j with Some x, Some y => <[i := y]> (<[j := x]> h) | _, _ => h end.

Definition parent (j : nat) : nat := Nat.div2 (j - 1).

Fixpoint heap_up (fuel : nat) h (j : nat) : list A :=
  match fuel with
  | O => h
  | S fuel =>
      let i := parent j in
      if Nat.eqb i j || negb (heap_Less h j i) then h else heap_up fuel (heap_Swap h i j) i
  end.

Fixpoint heap_down (fuel : nat) h (i n : nat) : list A :=
  match fuel with
  | O => h
  | S fuel =>
      let j1 := (2 * i + 1)%nat in
      if Nat.leb n j1 then h else
      let j2 := (j1 + 1)%nat in
      let j := if Nat.ltb j2 n && heap_Less h j2 j1 then j2 else j1 in
      if negb (heap_Less h j i) then h else heap_down fuel (heap_Swap h i j) j n
  end.

Definition heap_Push h (x : A) : list A := let h := h ++ [x] in heap_up (length h) h (length h - 1).

(** The element and the rest; on an empty heap the code panics. *)
Definition heap_Pop h : option (A * list A) :=
  let n := (length h - 1)%nat in
  let h := heap_down (length h) (heap_Swap h 0 n) 0 n in
  (fun x => (x, take n h)) <$> h !! n.
End heap.

(** * scheduler.go *)

(* sim/scheduler.go:56-61 eventHeap.Less *)
Definition event_less (a b : Event) : bool :=
  if negb (ev_At a =? ev_At b) then ev_At a <? ev_At b else ev_Seq a <? ev_Seq b.

Section scheduler.
Context {R : Type}.

(* sim/scheduler.go:10-15 Scheduler *)
Record Scheduler := mkScheduler { s_clock : Z; s_seq : Z; s_pq : list Event; s_rng : R }.

(** [rng] is the source that the seed gives. *)
(* sim/scheduler.go:18-22 NewScheduler *)
Definition NewScheduler (rng : R) : Scheduler := mkScheduler 0 0 [] rng.

(* sim/scheduler.go:25-25 Scheduler.Now *)
Definition Now (s : Scheduler) : Z := s_clock s.

Definition with_At_Seq (at_ seq : Z) (e : Event) : Event :=
  mkEvent at_ seq (ev_Kind e) (ev_Actor e) (ev_Env e) (ev_Timer e) (ev_Fault e) (ev_Churn e).

(* sim/scheduler.go:32-40 Scheduler.Schedule *)
Definition Schedule (at_ : Z) (e : Event) (s : Scheduler) : Scheduler :=
  let at_ := if at_ <? s_clock s then s_clock s else at_ in
  mkScheduler (s_clock s) (u64 (s_seq s + 1)) (heap_Push event_less (s_pq s) (with_At_Seq at_ (s_seq s) e)) (s_rng s).

(* sim/scheduler.go:43-50 Scheduler.Pop *)
Definition Pop (s : Scheduler) : option Event * Scheduler :=
  match heap_Pop event_less (s_pq s) with
  | Some (e, pq) => (Some e, mkScheduler (ev_At e) (s_seq s) pq (s_rng s))
  | None => (None, s)
  end.
End scheduler.
Arguments Scheduler : clear implicits.

(** * The heap keeps the least element in front *)

Section heap_ok.
Context {A : Type} (lessb : A -> A -> bool).
Implicit Types h : list A.

(** [x] may stand above [y]. *)
Definition above (x y : A) : Prop := lessb y x = false.
Context (above_refl : forall x, above x x) (above_trans : forall x y z, above x y -> above y z -> above x z)
  (above_less : forall x y, lessb x y = true -> above x y).

(** Position [i] holds an element that may stand above that of [k]. *)
Definition over h (i k : nat) : Prop := forall x y, h !! i = Some x -> h !! k = Some y -> above x y.

Definition heap_ordered h (n : nat) : Prop := forall k, (0 < k < n)%nat -> over h (parent k) k.

Lemma over_trans h i j k : is_Some (h !! j) -> over h i j -> over h j k -> over h i k.
Proof using above_trans. intros [y Hy] H1 H2 x z Hx Hz. eapply above_trans; [by eapply H1|by eapply H2]. Qed.

Lemma Less_over h i j : heap_Less lessb h i j = false -> over h j i.
Proof. unfold heap_Less, over, above. intros Hl x y Hx Hy. by rewrite Hx, Hy in Hl. Qed.

Lemma Less_over_true h i j : heap_Less lessb h i j = true -> over h i j.
Proof using above_less. unfold heap_Less. intros Hl x y Hx Hy. rewrite Hx, Hy in Hl. by apply above_less. Qed.

Lemma heap_Swap_length h i j : length (heap_Swap h i j) = length h.
Proof. unfold heap_Swap. repeat case_match; [by rewrite !length_insert|done..]. Qed.

Lemma lookup_Swap h i j k : (i < length h)%nat -> (j < length h)%nat ->
  heap_Swap h i j !! k = if decide (k = i) then h !! j else if decide (k = j) then h !! i else h !! k.
Proof.
  intros Hi Hj. unfold heap_Swap. destruct (lookup_lt_is_Some_2 h i Hi) as [x Hx]. destruct (lookup_lt_is_Some_2 h j Hj) as [y Hy].
  rewrite Hx, Hy. destruct (decide (k = i)) as [->|Hki]; [by rewrite list_lookup_insert_eq by (by rewrite length_insert)|].
  rewrite list_lookup_insert_ne by done. destruct (decide (k = j)) as [->|Hkj]; [by rewrite list_lookup_insert_eq|].
  by rewrite list_lookup_insert_ne.
Qed.

Lemma heap_Swap_perm h i j : (i < length h)%nat -> (j < length h)%nat -> heap_Swap h i j ≡ₚ h.
Proof.
  intros Hi Hj. apply Permutation_inj. split; [apply heap_Swap_length|].
  exists (fun k => if decide (k = i) then j else if decide (k = j) then i else k). split.
  - intros a b. repeat case_decide; congruence.
  - intros k. rewrite lookup_Swap by done. by repeat case_decide.
Qed.

Lemma parent_lt k : (0 < k)%nat -> (parent k < k)%nat.
Proof. intros Hk. unfold parent. pose proof (Nat.div2_decr (k - 1) (k - 1)). lia. Qed.

Lemma heap_parent_children k i : (0 < k)%nat -> parent k = i <-> k = (2 * i + 1)%nat \/ k = (2 * i + 2)%nat.
Proof.
  intros Hk. unfold parent. rewrite Nat.div2_div. split.
  - intros <-. pose proof (Nat.div_mod_eq (k - 1) 2). pose proof (Nat.mod_upper_bound (k - 1) 2). lia.
  - intros [-> | ->]; [replace (2 * i + 1 - 1)%nat with (i * 2)%nat by lia; apply Nat.div_mul; lia|].
    replace (2 * i + 2 - 1)%nat with (1 + i * 2)%nat by lia. by rewrite Nat.div_add by lia.
Qed.

(** ** Sifting up *)

(** Ordered but for position [j], over whose children its parent stands. *)
Definition hole_up h (n j : nat) : Prop :=
  (forall k, (0 < k < n)%nat -> k <> j -> over h (parent k) k) /\
  (forall k, (0 < k < n)%nat -> parent k = j -> (0 < j)%nat -> over h (parent j) k).

Lemma heap_up_ok fuel h j : (j < length h)%nat -> (j < fuel)%nat -> hole_up h (length h) j ->
  heap_ordered (heap_up lessb fuel h j) (length h) /\ heap_up lessb fuel h j ≡ₚ h.
Proof using above_trans above_less above_refl.
  revert h j. induction fuel as [|fuel IH]; intros h j Hj Hf [H1 H2]; [lia|]. cbn [heap_up].
  destruct (Nat.eqb_spec (parent j) j) as [E|Hne]; cbn [orb].
  { split; [|done]. intros k Hk. apply H1; [done|]. intros ->. pose proof (parent_lt j ltac:(lia)). lia. }
  assert (0 < j)%nat as Hj0 by (destruct j; [done|lia]). pose proof (parent_lt j Hj0) as Hp.
  destruct (heap_Less lessb h j (parent j)) eqn:El; cbn [negb]; cycle 1.
  { split; [|done]. intros k Hk. destruct (decide (k = j)) as [->|]; [by apply Less_over|by apply H1]. }
  apply Less_over_true in El. set (i := parent j) in *.
  assert (forall k, heap_Swap h i j !! k = if decide (k = i) then h !! j else if decide (k = j) then h !! i else h !! k) as Hs
    by (intros; apply lookup_Swap; lia).
  assert (is_Some (h !! i)) as Hsi by (apply lookup_lt_is_Some_2; lia).
  destruct (IH (heap_Swap h i j) i) as [IH1 IH2]; [rewrite heap_Swap_length; lia|lia| |].
  - rewrite heap_Swap_length. split.
    + intros k Hk Hki. unfold over. rewrite !Hs, (decide_False (P := k = i)) by done. destruct (decide (k = j)) as [->|Hkj].
      * rewrite decide_True by done. exact El.
      * destruct (decide (parent k = i)) as [Ep|Hpi]; [|destruct (decide (parent k = j)) as [Ep|]].
        -- eapply over_trans; [exact Hsi|exact El|]. rewrite <- Ep. by apply H1.
        -- by apply H2.
        -- by apply H1.
    + intros k Hk Ep Hi0. unfold over. rewrite !Hs. pose proof (parent_lt i Hi0). pose proof (parent_lt k ltac:(lia)).
      rewrite !(decide_False (P := parent i = _)), (decide_False (P := k = i)) by lia. destruct (decide (k = j)) as [->|Hkj].
      * apply H1; [lia|]. lia.
      * eapply over_trans; [exact Hsi|apply H1; lia|]. rewrite <- Ep. by apply H1.
  - rewrite heap_Swap_length in IH1. split; [exact IH1|]. rewrite IH2. apply heap_Swap_perm; lia.
Qed.

(** Whatever the order, pushing loses nothing. *)
Lemma heap_up_perm fuel h j : (j < length h)%nat -> heap_up lessb fuel h j ≡ₚ h.
Proof.
  revert h j. induction fuel as [|fuel IH]; intros h j Hj; cbn [heap_up]; [done|]. case_match; [done|].
  assert (parent j < length h)%nat by (unfold parent; pose proof (Nat.div2_decr (j - 1) j); lia).
  rewrite IH by (by rewrite heap_Swap_length). by apply heap_Swap_perm.
Qed.

Lemma heap_Push_perm h x : heap_Push lessb h x ≡ₚ x :: h.
Proof.
  unfold heap_Push. rewrite heap_up_perm by (rewrite length_app; cbn; lia). by rewrite Permutation_app_comm.
Qed.

Lemma heap_Push_ok h x : heap_ordered h (length h) ->
  heap_ordered (heap_Push lessb h x) (length (heap_Push lessb h x)) /\ heap_Push lessb h x ≡ₚ x :: h.
Proof using above_trans above_less above_refl.
  intros Hh. unfold heap_Push. assert (length (h ++ [x]) = S (length h)) as El by (rewrite length_app; cbn; lia).
  destruct (heap_up_ok (length (h ++ [x])) (h ++ [x]) (length (h ++ [x]) - 1)) as [H1 H2]; [lia|lia| |].
  - rewrite El. replace (S (length h) - 1)%nat with (length h) by lia. split.
    + intros k Hk Hne y z Hy Hz. pose proof (parent_lt k ltac:(lia)). rewrite lookup_app_l in Hy, Hz by lia. by apply (Hh k ltac:(lia)).
    + intros k Hk Ep _. apply heap_parent_children in Ep; lia.
  - split; [by rewrite (Permutation_length H2)|]. rewrite H2. by rewrite Permutation_app_comm.
Qed.

(** ** Sifting down *)

(** Ordered in front of [n] but for the children of [i], over which the parent
    of [i] stands. *)
Definition hole_down h (n i : nat) : Prop :=
  (forall k, (0 < k < n)%nat -> parent k <> i -> over h (parent k) k) /\
  (forall k, (0 < k < n)%nat -> parent k = i -> (0 < i)%nat -> over h (parent i) k).

(** The lesser child. *)
Lemma lesser_child h i n : (2 * i + 1 < n)%nat -> (n <= length h)%nat ->
  let j1 := (2 * i + 1)%nat in let j2 := (j1 + 1)%nat in
  let j := if Nat.ltb j2 n && heap_Less lessb h j2 j1 then j2 else j1 in
  (0 < j < n)%nat /\ parent j = i /\ forall k, (0 < k < n)%nat -> parent k = i -> over h j k.
Proof using above_refl above_less.
  cbv zeta. intros H1 Hn. assert (forall k, over h k k) as Hrefl by (intros k x y Hx Hy; rewrite Hx in Hy; by injection Hy as <-).
  destruct (Nat.ltb_spec (2 * i + 1 + 1) n) as [H2|H2]; cbn [andb];
    [destruct (heap_Less lessb h (2 * i + 1 + 1) (2 * i + 1)) eqn:El|];
    (split_and!; [lia|lia|apply heap_parent_children; lia|]); intros k Hk [-> | ->]%heap_parent_children; try lia.
  - by apply Less_over_true.
  - replace (2 * i + 2)%nat with (2 * i + 1 + 1)%nat by lia. apply Hrefl.
  - apply Hrefl.
  - apply Less_over. by replace (2 * i + 2)%nat with (2 * i + 1 + 1)%nat by lia.
  - apply Hrefl.
Qed.

Lemma heap_down_ok fuel h i n : (n <= length h)%nat -> (n - i < fuel)%nat -> hole_down h n i ->
  heap_ordered (heap_down lessb fuel h i n) n /\ heap_down lessb fuel h i n ≡ₚ h /\
  forall k, (n <= k)%nat -> heap_down lessb fuel h i n !! k = h !! k.
Proof using above_trans above_less above_refl.
  revert h i. induction fuel as [|fuel IH]; intros h i Hn Hf [H1 H2]; [lia|]. cbn [heap_down].
  destruct (Nat.leb_spec n (2 * i + 1)) as [Hl|Hl].
  { split_and!; [|done|done]. intros k Hk. apply H1; [done|]. intros Ep%heap_parent_children; lia. }
  pose proof (lesser_child h i n Hl Hn) as Hch. cbv zeta in Hch. set (j := if _ : bool then _ else _) in *. clearbody j. destruct Hch as (Hj & Ep & Hmin).
  pose proof (parent_lt j ltac:(lia)) as Hlt.
  destruct (heap_Less lessb h j i) eqn:El; cbn [negb]; cycle 1.
  { split_and!; [|done|done]. intros k Hk. destruct (decide (parent k = i)) as [E|]; [|by apply H1]. rewrite E.
    apply (over_trans h i j k); [apply lookup_lt_is_Some_2; lia|by apply Less_over|by apply Hmin]. }
  apply Less_over_true in El.
  assert (forall k, heap_Swap h i j !! k = if decide (k = i) then h !! j else if decide (k = j) then h !! i else h !! k) as Hs
    by (intros; apply lookup_Swap; lia).
  destruct (IH (heap_Swap h i j) j) as (I1 & I2 & I3); [by rewrite heap_Swap_length|lia| |].
  - split.
    + intros k Hk Hpj. unfold over. rewrite !Hs, (decide_False (P := parent k = j)) by done. pose proof (parent_lt k ltac:(lia)).
      destruct (decide (parent k = i)) as [E|Hpi].
      * rewrite (decide_False (P := k = i)) by lia. destruct (decide (k = j)) as [->|]; [exact El|by apply Hmin].
      * destruct (decide (k = i)) as [->|Hki]; [by apply H2; [lia|lia|lia]|]. destruct (decide (k = j)) as [->|]; [lia|by apply H1].
    + intros k Hk E _. unfold over. rewrite Ep, !Hs, decide_True by done. pose proof (parent_lt k ltac:(lia)).
      rewrite !(decide_False (P := k = _)) by lia. rewrite <- E. apply H1; [done|lia].
  - split_and!; [done|rewrite I2; apply heap_Swap_perm; lia|]. intros k Hk. rewrite I3 by done. rewrite Hs, !decide_False by lia. done.
Qed.

(** The first element of a heap may stand above all others. *)
Lemma heap_root h x : heap_ordered h (length h) -> h !! 0%nat = Some x -> forall y, y ∈ h -> above x y.
Proof using above_trans above_refl.
  intros Hh Hx y [k Hk]%list_elem_of_lookup. revert y Hk. induction (lt_wf k) as [k _ IH]. intros y Hk.
  destruct (decide (k = 0%nat)) as [->|Hne]; [rewrite Hx in Hk; by injection Hk as <-|]. pose proof (parent_lt k ltac:(lia)) as Hp.
  pose proof (lookup_lt_Some _ _ _ Hk). destruct (lookup_lt_is_Some_2 h (parent k) ltac:(lia)) as [z Hz].
  eapply above_trans; [by eapply IH|]. eapply (Hh k); [lia|done|done].
Qed.

Lemma heap_Pop_ok h : heap_ordered h (length h) ->
  match heap_Pop lessb h with
  | Some (x, h') => h ≡ₚ x :: h' /\ heap_ordered h' (length h') /\ forall y, y ∈ h -> above x y
  | None => h = []
  end.
Proof using above_trans above_less above_refl.
  intros Hh. unfold heap_Pop. destruct h as [|x0 h0]; [done|]. set (h := x0 :: h0) in *. set (n := (length h - 1)%nat).
  assert (length h = S n) as El by (unfold n, h; cbn; lia). set (hs := heap_Swap h 0 n).
  assert (forall k, hs !! k = if decide (k = 0%nat) then h !! n else if decide (k = n) then h !! 0%nat else h !! k) as Hs
    by (intros; apply lookup_Swap; lia).
  destruct (heap_down_ok (length h) hs 0 n) as (H1 & H2 & H3); [unfold hs; rewrite heap_Swap_length; lia|lia| |].
  { split; [|lia]. intros k Hk Hp. unfold over. rewrite !Hs, !(decide_False (P := k = _)) by lia. pose proof (parent_lt k ltac:(lia)).
    rewrite !decide_False by lia. apply Hh. lia. }
  set (hd := heap_down lessb (length h) hs 0 n) in *.
  assert (hd ≡ₚ h) as Hperm by (rewrite H2; apply heap_Swap_perm; lia).
  pose proof (Permutation_length Hperm) as Hlen.
  assert (hd !! n = Some x0) as Hroot by (rewrite H3, Hs by lia; destruct (decide (n = 0%nat)) as [->|]; [done|by rewrite decide_True]).
  rewrite Hroot. cbn [fmap option_fmap option_map].
  assert (hd = take n hd ++ [x0]) as Esp.
  { rewrite <- (take_drop n hd) at 1. f_equal. rewrite (drop_S _ _ _ Hroot). f_equal. apply drop_ge. lia. }
  split_and!.
  - transitivity hd; [by symmetry|]. rewrite Esp at 1. apply (Permutation_app_comm (take n hd) [x0]).
  - rewrite length_take, Nat.min_l by lia. intros k Hk y z Hy Hz. pose proof (parent_lt k ltac:(lia)).
    rewrite lookup_take_lt in Hy, Hz by lia. by apply (H1 k).
  - intros y Hy. by eapply (heap_root h).
Qed.
End heap_ok.

(** * The scheduler *)

Section run.
Context {R : Type}.
Implicit Types s : Scheduler R.

Definition before (a b : Event) : Prop := ev_At a < ev_At b \/ (ev_At a = ev_At b /\ ev_Seq a < ev_Seq b).

Lemma event_less_spec a b : event_less a b = true <-> before a b.
Proof.
  unfold event_less, before. destruct (Z.eqb_spec (ev_At a) (ev_At b)); cbn [negb]; rewrite Z.ltb_lt; lia.
Qed.

Lemma event_above a b : above event_less a b <-> ~ before b a.
Proof. unfold above. rewrite <- event_less_spec. by destruct (event_less b a). Qed.

Lemma event_order : (forall x, above event_less x x) /\
  (forall x y z, above event_less x y -> above event_less y z -> above event_less x z) /\
  (forall x y, event_less x y = true -> above event_less x y).
Proof. split_and!; [intros x|intros x y z|intros x y Hl; apply event_less_spec in Hl; revert Hl]; rewrite !event_above; unfold before; lia. Qed.

Inductive sched_op : Type := SchedOp (at_ : Z) (e : Event) | PopOp.

(** The events as they were queued, the events that came out, and the state. *)
Fixpoint sched_run (ops : list sched_op) s : list Event * list Event * Scheduler R :=
  match ops with
  | [] => ([], [], s)
  | SchedOp at_ e :: ops =>
      let '(queued, popped, s') := sched_run ops (Schedule at_ e s) in
      (with_At_Seq (Z.max at_ (s_clock s)) (s_seq s) e :: queued, popped, s')
  | PopOp :: ops =>
      let '(e, s) := Pop s in
      let '(queued, popped, s') := sched_run ops s in
      (queued, match e with Some e => e :: popped | None => popped end, s')
  end.

#[global] Instance sched_op_pop_dec (o : sched_op) : Decision (o <> PopOp).
Proof. destruct o; [left|right]; naive_solver. Defined.

Definition schedules (ops : list sched_op) : Z := len (filter (fun o => o <> PopOp) ops).

(** The state of the queue. *)
Record sched_inv s : Prop := {
  si_heap : heap_ordered event_less (s_pq s) (length (s_pq s));
  si_fresh : Forall (fun e => 0 <= ev_Seq e < s_seq s /\ s_clock s <= ev_At e) (s_pq s);
  si_nodup : NoDup (ev_Seq <$> s_pq s)
}.

Lemma Schedule_inv at_ e s : 0 <= s_seq s < 2 ^ 64 - 1 -> sched_inv s -> sched_inv (Schedule at_ e s) /\
  s_seq (Schedule at_ e s) = s_seq s + 1 /\ s_pq (Schedule at_ e s) ≡ₚ with_At_Seq (Z.max at_ (s_clock s)) (s_seq s) e :: s_pq s /\
  s_clock (Schedule at_ e s) = s_clock s.
Proof.
  intros Hseq [Hh Hf Hn]. unfold Schedule.
  replace (if at_ <? s_clock s then s_clock s else at_) with (Z.max at_ (s_clock s)) by (case_match; lia).
  destruct event_order as (O1 & O2 & O3). destruct (heap_Push_ok event_less O1 O2 O3 (s_pq s) (with_At_Seq (Z.max at_ (s_clock s)) (s_seq s) e) Hh) as [H1 H2].
  cbn [s_seq s_pq s_clock]. unfold u64. rewrite Z.mod_small by lia. split; [split|done]; cbn [s_seq s_pq s_clock].
  - exact H1.
  - rewrite H2. constructor; [cbn; lia|]. eapply Forall_impl; [exact Hf|]. cbn. lia.
  - rewrite H2. cbn. constructor; [|done]. intros (x & E & Hx)%list_elem_of_fmap. rewrite Forall_forall in Hf. specialize (Hf x Hx). lia.
Qed.

Lemma Pop_inv s e s' : sched_inv s -> Pop s = (Some e, s') -> sched_inv s' /\ s_seq s' = s_seq s /\ s_pq s ≡ₚ e :: s_pq s' /\
  s_clock s' = ev_At e /\ 0 <= ev_Seq e < s_seq s /\ Forall (before e) (s_pq s').
Proof.
  intros [Hh Hf Hn] Hp. unfold Pop in Hp. destruct event_order as (O1 & O2 & O3). pose proof (heap_Pop_ok event_less O1 O2 O3 _ Hh) as Hx.
  destruct (heap_Pop event_less (s_pq s)) as [[x pq]|]; [|done]. injection Hp as -> <-. destruct Hx as (Hperm & Hh' & Hmin).
  rewrite Hperm in Hf, Hn. apply Forall_cons in Hf as [He Hf]. cbn in Hn. apply NoDup_cons in Hn as [Hne Hn].
  assert (Forall (before e) pq) as Hb.
  { apply Forall_forall. intros y Hy. assert (y ∈ s_pq s) as Hy' by (rewrite Hperm; by right). apply Hmin, event_above in Hy'.
    assert (ev_Seq y <> ev_Seq e) by (intros E; apply Hne; rewrite <- E; by apply list_elem_of_fmap_2). unfold before in *. lia. }
  cbn [s_seq s_pq s_clock]. split_and!; try done; try lia. split; cbn [s_seq s_pq s_clock]; [done| |done].
  apply Forall_forall. intros y Hy. rewrite Forall_forall in Hf, Hb. specialize (Hf y Hy). specialize (Hb y Hy). unfold before in Hb. lia.
Qed.

(** Everything that comes out follows [low]. *)
Lemma sched_run_ok ops s : sched_inv s -> 0 <= s_seq s -> s_seq s + schedules ops < 2 ^ 64 ->
  let '(queued, popped, s') := sched_run ops s in
  StronglySorted before popped /\ s_pq s ++ queued ≡ₚ popped ++ s_pq s' /\
  (forall low, s_clock s = ev_At low -> ev_Seq low < s_seq s -> Forall (before low) (s_pq s) -> Forall (before low) popped).
Proof.
  revert s. induction ops as [|[at_ e|] ops IH]; intros s Hi H0 Hs; cbn [sched_run].
  - split_and!; [constructor|by rewrite app_nil_r|done].
  - assert (schedules (SchedOp at_ e :: ops) = schedules ops + 1) as Es by (unfold schedules; rewrite filter_cons, decide_True by done; unfold len; cbn; lia).
    assert (0 <= schedules ops) by (unfold schedules; apply len_nonneg).
    destruct (Schedule_inv at_ e s ltac:(lia) Hi) as (Hi' & Eseq & Hpq & Ecl).
    specialize (IH _ Hi' ltac:(lia) ltac:(lia)). destruct (sched_run ops (Schedule at_ e s)) as [[queued popped] s']. destruct IH as (I1 & I2 & I3).
    split_and!; [done| |].
    + rewrite <- I2, Hpq. by rewrite <- Permutation_middle.
    + intros low E1 E2 HF. apply I3; [by rewrite Ecl|lia|]. rewrite Hpq. constructor; [|done]. unfold before. cbn. lia.
  - assert (schedules (PopOp :: ops) = schedules ops) as Es by (unfold schedules; rewrite filter_cons, decide_False by naive_solver; done).
    destruct (Pop s) as [[e|] s1] eqn:Ep; cycle 1.
    { unfold Pop in Ep. destruct (heap_Pop event_less (s_pq s)) as [[]|]; [done|]. injection Ep as <-.
      specialize (IH s Hi H0 ltac:(lia)). by destruct (sched_run ops s) as [[]]. }
    destruct (Pop_inv s e s1 Hi Ep) as (Hi' & Eseq & Hpq & Ecl & He & Hb).
    specialize (IH s1 Hi' ltac:(lia) ltac:(lia)). destruct (sched_run ops s1) as [[queued popped] s']. destruct IH as (I1 & I2 & I3).
    assert (Forall (before e) popped) as Hbp by (apply I3; [done|lia|done]).
    split_and!; [by constructor|rewrite Hpq; cbn; by rewrite I2|].
    intros low E1 E2 HF. rewrite Hpq in HF. apply Forall_cons in HF as [HF _]. constructor; [done|]. eapply Forall_impl; [exact Hbp|].
    unfold before in *. intros y. lia.
Qed.
End run.

(** * Properties *)

(** C30: the event queue is a priority queue with a total order.  Whatever is
    scheduled and popped in whatever order, into the past or not, the events
    come out in strictly increasing order of time and sequence number, so that
    time never runs backwards and the order of ties is that of scheduling; and
    at every moment each event that was scheduled has come out once or is
    still queued. *)
Theorem scheduler_total_order {R : Type} (rng : R) ops : schedules ops < 2 ^ 64 ->
  let '(queued, popped, s) := sched_run ops (NewScheduler rng) in
  StronglySorted before popped /\ queued ≡ₚ popped ++ s_pq s.
Proof.
  intros Hs. assert (sched_inv (NewScheduler rng)) as Hi by (split; [intros k Hk; cbn in Hk; lia|constructor|constructor]).
  pose proof (sched_run_ok ops (NewScheduler rng) Hi ltac:(done) ltac:(cbn; lia)) as Hx.
  destruct (sched_run ops (NewScheduler rng)) as [[queued popped] s]. destruct Hx as (H1 & H2 & _). by split.
Qed.

Definition example_event : Event := mkEvent 0 0 KindTimer 0 zero_env TimerRekey zero_fault zero_churn.

(** Out of order, with a tie and one event in the past. *)
Definition example_ops : list sched_op :=
  [SchedOp 5 example_event; SchedOp 3 example_event; SchedOp 3 example_event; PopOp; SchedOp 1 example_event; PopOp; PopOp; PopOp; PopOp].

Lemma scheduler_total_order_witness :
  match sched_run example_ops (NewScheduler tt) with
  | (_, popped, _) => StronglySorted before popped /\ (fun e => (ev_At e, ev_Seq e)) <$> popped = [(3, 1); (3, 2); (3, 3); (5, 0)]
  end.
Proof.
  pose proof (scheduler_total_order tt example_ops ltac:(vm_compute; reflexivity)) as Hx.
  destruct (sched_run example_ops (NewScheduler tt)) as [[queued popped] s] eqn:E. split; [apply Hx|].
  change popped with (queued, popped, s).1.2. rewrite <- E. vm_compute. reflexivity.
Defined.
