(* ===== verification/SimNet.v ===== *)
(** [sim]: metrics, faults, the bus and the reflectors.

    [metrics.go] (the counters), [fault.go], [bus.go] and [ds.go].  The bus,
    the fault state, the metrics and the scheduler are shared by all actors
    through pointers: here they are one record, [Net], that every operation
    takes and returns.  [math/rand] is the class [RandSource]; a [float64],
    which is only compared, is a rational.  [Int63n] panics on a bound that is
    not positive, so that publishing has an [outcome]. *)

From Stdlib Require Import ZArith Lia QArith Strings.Byte.
From stdpp Require Import base list numbers strings sorting sets gmap.
From S2P Require Import Prelude Syntax Cipher Sequencer Esp Framing SimSched.
Local Open Scope Z_scope.

(** * metrics.go *)

(** The deterministic counters.  [convKey] renders a channel and an epoch as one
    string; the key is the pair. *)
(* sim/metrics.go:13-43 Metrics *)
Record Metrics := mkMetrics {
  m_Delivered : Z;
  m_Reflected : Z;
  m_CtrlDropped : Z;
  m_DataDropped : Z;
  m_Blocked : Z;
  m_CatchupRequests : Z;
  m_LogRetransmits : Z;
  m_CommitRejected : Z;
  m_CommitResends : Z;
  m_DataSent : Z;
  m_DataDecryptable : Z;
  m_ReplayDrops : Z;
  m_CommitMsgs : Z;
  m_CommitBytes : Z;
  m_MaxOverlap : Z;
  m_MaxSendLag : Z;
  m_PlaintextHandshakeExposures : Z;
  m_CommitsIssued : Z;
  m_CommitDeliveries : Z;
  m_CommitsApplied : Z;
  m_Horizon : Z;
  m_MaxConvergeTicks : Z;
  m_convIssuedAt : gmap (Z * Z) Z
}.

(* sim/metrics.go:45-51 newMetrics *)
Definition newMetrics : Metrics := mkMetrics 0 0 0 0 0 0 0 0 0 0 0 0 0 0 0 0 0 0 0 0 0 0 ∅.

(** The counters that the code assigns. *)
Inductive counter : Type := CDelivered | CReflected | CCtrlDropped | CDataDropped | CBlocked | CCatchupRequests | CLogRetransmits | CCommitRejected | CCommitResends | CDataSent | CDataDecryptable | CReplayDrops | CPlaintextHandshakeExposures | CCommitsIssued | CCommitDeliveries | CCommitsApplied.
#[global] Instance counter_eq_dec : EqDecision counter.
Proof. solve_decision. Defined.

(** [m.X++]. *)
Definition count (x : counter) (m : Metrics) : Metrics :=
  let up c v := if decide (x = c) then v + 1 else v in
  mkMetrics (up CDelivered (m_Delivered m)) (up CReflected (m_Reflected m)) (up CCtrlDropped (m_CtrlDropped m))
    (up CDataDropped (m_DataDropped m)) (up CBlocked (m_Blocked m)) (up CCatchupRequests (m_CatchupRequests m))
    (up CLogRetransmits (m_LogRetransmits m)) (up CCommitRejected (m_CommitRejected m))
    (up CCommitResends (m_CommitResends m)) (up CDataSent (m_DataSent m)) (up CDataDecryptable (m_DataDecryptable m))
    (up CReplayDrops (m_ReplayDrops m)) (m_CommitMsgs m) (m_CommitBytes m) (m_MaxOverlap m) (m_MaxSendLag m)
    (up CPlaintextHandshakeExposures (m_PlaintextHandshakeExposures m)) (up CCommitsIssued (m_CommitsIssued m))
    (up CCommitDeliveries (m_CommitDeliveries m)) (up CCommitsApplied (m_CommitsApplied m)) (m_Horizon m)
    (m_MaxConvergeTicks m) (m_convIssuedAt m).

(* sim/metrics.go:59-62 Metrics.commitFanout *)
Definition commitFanout (size nDS : Z) (m : Metrics) : Metrics :=
  mkMetrics (m_Delivered m) (m_Reflected m) (m_CtrlDropped m) (m_DataDropped m) (m_Blocked m) (m_CatchupRequests m)
    (m_LogRetransmits m) (m_CommitRejected m) (m_CommitResends m) (m_DataSent m) (m_DataDecryptable m)
    (m_ReplayDrops m) (m_CommitMsgs m + nDS) (m_CommitBytes m + size * nDS) (m_MaxOverlap m) (m_MaxSendLag m)
    (m_PlaintextHandshakeExposures m) (m_CommitsIssued m) (m_CommitDeliveries m) (m_CommitsApplied m) (m_Horizon m)
    (m_MaxConvergeTicks m) (m_convIssuedAt m).

(* sim/metrics.go:64-68 Metrics.observeOverlap *)
Definition observeOverlap (n : Z) (m : Metrics) : Metrics :=
  mkMetrics (m_Delivered m) (m_Reflected m) (m_CtrlDropped m) (m_DataDropped m) (m_Blocked m) (m_CatchupRequests m)
    (m_LogRetransmits m) (m_CommitRejected m) (m_CommitResends m) (m_DataSent m) (m_DataDecryptable m)
    (m_ReplayDrops m) (m_CommitMsgs m) (m_CommitBytes m) (if m_MaxOverlap m <? n then n else m_MaxOverlap m)
    (m_MaxSendLag m) (m_PlaintextHandshakeExposures m) (m_CommitsIssued m) (m_CommitDeliveries m) (m_CommitsApplied m)
    (m_Horizon m) (m_MaxConvergeTicks m) (m_convIssuedAt m).

(* sim/metrics.go:70-74 Metrics.observeSendLag *)
Definition observeSendLag (lag : Z) (m : Metrics) : Metrics :=
  mkMetrics (m_Delivered m) (m_Reflected m) (m_CtrlDropped m) (m_DataDropped m) (m_Blocked m) (m_CatchupRequests m)
    (m_LogRetransmits m) (m_CommitRejected m) (m_CommitResends m) (m_DataSent m) (m_DataDecryptable m)
    (m_ReplayDrops m) (m_CommitMsgs m) (m_CommitBytes m) (m_MaxOverlap m)
    (if m_MaxSendLag m <? lag then lag else m_MaxSendLag m) (m_PlaintextHandshakeExposures m) (m_CommitsIssued m)
    (m_CommitDeliveries m) (m_CommitsApplied m) (m_Horizon m) (m_MaxConvergeTicks m) (m_convIssuedAt m).

(* sim/metrics.go:90-95 Metrics.commitIssued *)
Definition commitIssued (ch epoch tick : Z) (m : Metrics) : Metrics :=
  mkMetrics (m_Delivered m) (m_Reflected m) (m_CtrlDropped m) (m_DataDropped m) (m_Blocked m) (m_CatchupRequests m)
    (m_LogRetransmits m) (m_CommitRejected m) (m_CommitResends m) (m_DataSent m) (m_DataDecryptable m)
    (m_ReplayDrops m) (m_CommitMsgs m) (m_CommitBytes m) (m_MaxOverlap m) (m_MaxSendLag m)
    (m_PlaintextHandshakeExposures m) (m_CommitsIssued m) (m_CommitDeliveries m) (m_CommitsApplied m) (m_Horizon m)
    (m_MaxConvergeTicks m)
    (match m_convIssuedAt m !! (ch, epoch) with Some _ => m_convIssuedAt m | None => <[(ch, epoch) := tick]> (m_convIssuedAt m) end).

(* sim/metrics.go:99-105 Metrics.commitConverged *)
Definition commitConverged (ch epoch tick : Z) (m : Metrics) : Metrics :=
  mkMetrics (m_Delivered m) (m_Reflected m) (m_CtrlDropped m) (m_DataDropped m) (m_Blocked m) (m_CatchupRequests m)
    (m_LogRetransmits m) (m_CommitRejected m) (m_CommitResends m) (m_DataSent m) (m_DataDecryptable m)
    (m_ReplayDrops m) (m_CommitMsgs m) (m_CommitBytes m) (m_MaxOverlap m) (m_MaxSendLag m)
    (m_PlaintextHandshakeExposures m) (m_CommitsIssued m) (m_CommitDeliveries m) (m_CommitsApplied m) (m_Horizon m)
    (match m_convIssuedAt m !! (ch, epoch) with
     | Some issued => if (issued <=? tick) && (m_MaxConvergeTicks m <? tick - issued) then tick - issued else m_MaxConvergeTicks m
     | None => m_MaxConvergeTicks m
     end)
    (m_convIssuedAt m).

(* sim/sim.go:455-457 Run *)
Definition observeHorizon (at_ : Z) (m : Metrics) : Metrics :=
  mkMetrics (m_Delivered m) (m_Reflected m) (m_CtrlDropped m) (m_DataDropped m) (m_Blocked m) (m_CatchupRequests m)
    (m_LogRetransmits m) (m_CommitRejected m) (m_CommitResends m) (m_DataSent m) (m_DataDecryptable m)
    (m_ReplayDrops m) (m_CommitMsgs m) (m_CommitBytes m) (m_MaxOverlap m) (m_MaxSendLag m)
    (m_PlaintextHandshakeExposures m) (m_CommitsIssued m) (m_CommitDeliveries m) (m_CommitsApplied m)
    (if m_Horizon m <? at_ then at_ else m_Horizon m) (m_MaxConvergeTicks m) (m_convIssuedAt m).

(** * fault.go *)

(** [math/rand]: the results and the next state of the source. *)
Class RandSource (R : Type) := {
  rng_Float64 : R -> Q * R;
  rng_Int63n : R -> Z -> Z * R
}.

(** Two's complement. *)
Definition i64 (z : Z) : Z := (z + 2 ^ 63) mod 2 ^ 64 - 2 ^ 63.

(* sim/fault.go:11-15 FaultConfig *)
Record FaultConfig := mkFaultConfig { fc_DropProb : Q; fc_Latency : Z; fc_Jitter : Z }.

(** A partition maps an actor to its side. *)
(* sim/fault.go:24-26 partition *)
Definition partition : Type := gmap ActorID Z.

(* sim/fault.go:18-22 faultState *)
Record faultState := mkFaultState { f_cfg : FaultConfig; f_partitions : list partition; f_dsDown : gmap ActorID bool }.

(* sim/fault.go:28-30 newFaultState *)
Definition newFaultState (cfg : FaultConfig) : faultState := mkFaultState cfg [] ∅.

Definition Qlt_bool (a b : Q) : bool := negb (Qle_bool b a).

Section fault.
Context {R : Type} `{!RandSource R}.

(* sim/fault.go:33-41 faultState.drop *)
Definition drop (f : faultState) (rng : R) : bool * R :=
  if Qle_bool (fc_DropProb (f_cfg f)) 0 then (false, rng) else
  if Qle_bool 1 (fc_DropProb (f_cfg f)) then (true, rng) else
  let (x, rng) := rng_Float64 rng in (Qlt_bool x (fc_DropProb (f_cfg f)), rng).

(* sim/fault.go:44-53 faultState.latency *)
Definition latency (f : faultState) (rng : R) : outcome (Z * R) :=
  let d := fc_Latency (f_cfg f) in
  let! (d, rng) :=
    (if 0 <? fc_Jitter (f_cfg f) then
       let n := i64 (i64 (fc_Jitter (f_cfg f)) + 1) in
       if n <=? 0 then Panic else
       let (x, rng) := rng_Int63n rng n in Ok (u64 (d + u64 x), rng)
     else Ok (d, rng)) in
  Ok (if d =? 0 then 1 else d, rng).
End fault.

(* sim/fault.go:56-65 faultState.blocked *)
Definition blocked (f : faultState) (src dst : ActorID) : bool :=
  existsb (fun p : partition => match p !! src, p !! dst with Some a, Some b => negb (a =? b) | _, _ => false end) (f_partitions f).

(* sim/fault.go:73-79 faultState.applyFault *)
Definition sides (a b : list ActorID) : partition :=
  foldl (fun p x => <[x := 2]> p) (foldl (fun p x => <[x := 1]> p) ∅ a) b.

(* sim/fault.go:68-86 faultState.applyFault *)
Definition applyFault (op : FaultOp) (f : faultState) : faultState :=
  match fo_Kind op with
  | faultDSDown => mkFaultState (f_cfg f) (f_partitions f) (<[fo_DS op := fo_On op]> (f_dsDown f))
  | faultPartition =>
      mkFaultState (f_cfg f) (if fo_On op then f_partitions f ++ [sides (fo_SideA op) (fo_SideB op)] else []) (f_dsDown f)
  end.

(* sim/fault.go:88-88 faultState.isDown *)
Definition isDown (f : faultState) (ds : ActorID) : bool := default false (f_dsDown f !! ds).

(* sim/fault.go:91-97 faultState.liftAll *)
Definition liftAll (f : faultState) : faultState :=
  mkFaultState (mkFaultConfig 0 (fc_Latency (f_cfg f)) (fc_Jitter (f_cfg f))) [] ((fun _ => false) <$> f_dsDown f).

(** * bus.go *)

(** Sorted keys of a map, as the code takes them where the order matters. *)
Definition sorted_keys (s : gset Z) : list Z := merge_sort Z.le (elements s).

Section bus.
Context {R : Type} `{!RandSource R}.

(** [Bus], with the objects it shares. *)
(* sim/bus.go:8-13 Bus *)
Record Net := mkNet { n_sched : Scheduler R; n_faults : faultState; n_metrics : Metrics; n_subs : gmap Z (gset ActorID) }.

Definition with_sched (s : Scheduler R) (n : Net) : Net := mkNet s (n_faults n) (n_metrics n) (n_subs n).
Definition with_faults (f : faultState) (n : Net) : Net := mkNet (n_sched n) f (n_metrics n) (n_subs n).
Definition with_metrics (f : Metrics -> Metrics) (n : Net) : Net := mkNet (n_sched n) (n_faults n) (f (n_metrics n)) (n_subs n).
Definition with_subs (f : gmap Z (gset ActorID)) (n : Net) : Net := mkNet (n_sched n) (n_faults n) (n_metrics n) f.
Definition with_rng (rng : R) (n : Net) : Net :=
  with_sched (mkScheduler (s_clock (n_sched n)) (s_seq (n_sched n)) (s_pq (n_sched n)) rng) n.

(* sim/bus.go:15-17 newBus *)
Definition newBus (s : Scheduler R) (f : faultState) (m : Metrics) : Net := mkNet s f m ∅.

(* sim/bus.go:20-25 Bus.Subscribe *)
Definition Subscribe (vni : Z) (a : ActorID) (n : Net) : Net :=
  with_subs (<[vni := {[a]} ∪ default ∅ (n_subs n !! vni)]> (n_subs n)) n.

(* sim/bus.go:28-32 Bus.Unsubscribe *)
Definition Unsubscribe (vni : Z) (a : ActorID) (n : Net) : Net :=
  match n_subs n !! vni with
  | Some s => with_subs (<[vni := s ∖ {[a]}]> (n_subs n)) n
  | None => n
  end.

(* sim/bus.go:34-41 Bus.subscribers *)
Definition subscribers (vni : Z) (n : Net) : list ActorID := sorted_keys (default ∅ (n_subs n !! vni)).

Definition deliver_event (dst : ActorID) (env : Envelope) : Event :=
  mkEvent 0 0 KindDeliver dst env TimerRekey zero_fault zero_churn.

(** One turn of the loop. *)
(* sim/bus.go:52-70 Bus.Publish *)
Definition publish_to (env : Envelope) (dst : ActorID) (n : Net) : outcome Net :=
  if dst =? e_Src env then Ok n else
  if blocked (n_faults n) (e_Src env) dst then Ok (with_metrics (count CBlocked) n) else
  let (dropped, rng) := drop (n_faults n) (s_rng (n_sched n)) in
  let n := with_rng rng n in
  if dropped : bool then
    Ok (with_metrics (count (if decide (e_Type env = MsgData) then CDataDropped else CCtrlDropped)) n)
  else
    let! (d, rng) := latency (n_faults n) (s_rng (n_sched n)) in
    let n := with_rng rng n in
    let n := with_sched (Schedule (u64 (Now (n_sched n) + d)) (deliver_event dst env) (n_sched n)) n in
    Ok (with_metrics (count CDelivered) n).

Fixpoint publish_all (env : Envelope) (dsts : list ActorID) (n : Net) : outcome Net :=
  match dsts with
  | [] => Ok n
  | dst :: dsts => let! n := publish_to env dst n in publish_all env dsts n
  end.

(* sim/bus.go:46-72 Bus.Publish *)
Definition Publish (env : Envelope) (n : Net) : outcome Net :=
  publish_all env (if e_Dst env =? Broadcast then subscribers (e_VNI env) n else [e_Dst env]) n.
End bus.
Arguments Net : clear implicits.

(** * ds.go *)

(** [sort.SliceStable] by base. *)
Fixpoint insert_by_base (r : CommitRecord) (l : list CommitRecord) : list CommitRecord :=
  match l with
  | [] => [r]
  | x :: l' => if cr_Base x <? cr_Base r then x :: insert_by_base r l' else r :: l
  end.
Definition sort_by_base (l : list CommitRecord) : list CommitRecord := foldr insert_by_base [] l.

Section ds.
Context {R : Type} `{!RandSource R}.

(* sim/ds.go:19-27 DS *)
Record DS := mkDS {
  ds_id : ActorID;
  ds_replica : Z;
  ds_seq : MemorySequencer;
  ds_logs : gmap Z (list CommitRecord);
  ds_encryptHandshakes : bool
}.

(* sim/ds.go:29-35 newDS *)
Definition newDS (id : ActorID) (replica : Z) : DS := mkDS id replica NewMemorySequencer ∅ false.

(* sim/ds.go:56-73 DS.observeHandshakePrivacy *)
Definition observeHandshakePrivacy (d : DS) (env : Envelope) (m : Metrics) : outcome Metrics :=
  if negb (ds_encryptHandshakes d) then Ok m else
  if decide (e_Type env <> MsgCommit) then Ok m else
  match MLSMessage_UnmarshalMLS (e_Payload env) with
  | Ok msg =>
      if (mm_WireFormat msg =? WireFormatPublicMessage) &&
         match mm_Public msg with
         | Some pub => negb (snd_Type (fc_Sender (pm_Content pub)) =? SenderTypeNewMemberCommit)
         | None => false
         end
      then Ok (count CPlaintextHandshakeExposures m) else Ok m
  | Err _ => Ok m
  | Panic => Panic
  | Diverge => Diverge
  end.

(* sim/ds.go:94-103 DS.appendLog *)
Definition appendLog (env : Envelope) (d : DS) : DS :=
  let log := default [] (ds_logs d !! e_VNI env) in
  if existsb (fun r => bytes_Equal (cr_Hash r) (e_Hash env)) log then d else
  mkDS (ds_id d) (ds_replica d) (ds_seq d)
    (<[e_VNI env := log ++ [mkCommitRecord (e_Base env) (e_Payload env) (e_Hash env)]]> (ds_logs d)) (ds_encryptHandshakes d).

(* sim/ds.go:106-112 DS.reflect *)
Definition reflect (env : Envelope) (d : DS) (n : Net R) : outcome (Net R) :=
  let out := mkEnvelope (e_VNI env) (e_Type env) (ds_id d) Broadcast (e_Base env) (e_Payload env) (e_SPI env) (e_DataSeq env)
               (e_Records env) (e_Joiner env) (e_Hash env) in
  let! n := Publish out n in
  Ok (with_metrics (count CReflected) n).

(* sim/ds.go:79-90 DS.onCommit *)
Definition DS_onCommit (env : Envelope) (d : DS) (n : Net R) : outcome (DS * Net R) :=
  let! m := observeHandshakePrivacy d env (n_metrics n) in
  let n := with_metrics (fun _ => m) n in
  let (ok, seq) := MemorySequencer_AcceptCommit (ds_seq d) (GroupID (e_VNI env)) (e_Base env) (e_Hash env) in
  let d := mkDS (ds_id d) (ds_replica d) seq (ds_logs d) (ds_encryptHandshakes d) in
  if negb ok then Ok (d, with_metrics (count CCommitRejected) n) else
  let d := appendLog env d in
  let! n := reflect env d n in
  Ok (d, n).

(* sim/ds.go:115-125 DS.serveCatchup *)
Definition serveCatchup (env : Envelope) (d : DS) (n : Net R) : outcome (Net R) :=
  let recs := sort_by_base (List.filter (fun r => e_Base env <=? cr_Base r) (default [] (ds_logs d !! e_VNI env))) in
  let! n := Publish (mkEnvelope (e_VNI env) MsgLogReply (ds_id d) (e_Src env) 0 [] 0 0 recs [] []) n in
  Ok (with_metrics (count CLogRetransmits) n).

(* sim/ds.go:40-52 DS.handle *)
Definition handle (env : Envelope) (d : DS) (n : Net R) : outcome (DS * Net R) :=
  if isDown (n_faults n) (ds_id d) then Ok (d, n) else
  match e_Type env with
  | MsgCommit => DS_onCommit env d n
  | MsgWelcome => let! n := reflect env d n in Ok (d, n)
  | MsgLogRequest => let! n := serveCatchup env d n in Ok (d, n)
  | _ => Ok (d, n)
  end.
End ds.

(** * What publishing does *)

Section publish.
Context {R : Type} `{!RandSource R}.
Implicit Types n : Net R.

Definition queue n : list Event := s_pq (n_sched n).

(** Publishing only queues deliveries of the envelope, to its destinations,
    never to its source and never across a partition; the clock, the faults and
    the subscriptions stay. *)
Record published (env : Envelope) n n' : Prop := {
  pb_queue : forall e, e ∈ queue n' -> e ∈ queue n \/
    (ev_Kind e = KindDeliver /\ ev_Env e = env /\ ev_Actor e <> e_Src env /\ blocked (n_faults n) (e_Src env) (ev_Actor e) = false);
  pb_kept : forall e, e ∈ queue n -> e ∈ queue n';
  pb_same : s_clock (n_sched n') = s_clock (n_sched n) /\ n_faults n' = n_faults n /\ n_subs n' = n_subs n
}.

Lemma published_refl env n : published env n n.
Proof. split; [by left|done|done]. Qed.

Lemma published_trans env n1 n2 n3 : published env n1 n2 -> published env n2 n3 -> published env n1 n3.
Proof.
  intros [Q1 K1 (C1 & F1 & S1)] [Q2 K2 (C2 & F2 & S2)]. split; [|auto|split_and!; congruence].
  intros e He. apply Q2 in He as [He|(? & ? & ? & Hb)]; [auto|]. right. by rewrite F1 in Hb.
Qed.

Lemma elem_Schedule at_ e (s : Scheduler R) x : x ∈ s_pq (Schedule at_ e s) <->
  x = with_At_Seq (if at_ <? s_clock s then s_clock s else at_) (s_seq s) e \/ x ∈ s_pq s.
Proof.
  unfold Schedule. cbn [s_pq]. rewrite (elem_of_Permutation_proper x _ _ (heap_Push_perm event_less _ _)). apply elem_of_cons.
Qed.

Lemma publish_to_ok env dst n n' : publish_to env dst n = Ok n' -> published env n n'.
Proof.
  unfold publish_to. destruct (Z.eqb_spec dst (e_Src env)) as [_|Hne]; [intros [= <-]; apply published_refl|].
  destruct (blocked (n_faults n) (e_Src env) dst) eqn:Hb; [intros [= <-]; by split; [left|..]|].
  destruct (drop (n_faults n) (s_rng (n_sched n))) as [dropped rng]. destruct dropped; [intros [= <-]; by split; [left|..]|].
  intros Hx. apply obind_ok in Hx as ([dl rng'] & _ & [= <-]). split; [|intros e He; apply elem_Schedule; by right|done].
  intros e He. apply elem_Schedule in He as [->|He]; [right|by left]. done.
Qed.

Lemma publish_all_ok env dsts n n' : publish_all env dsts n = Ok n' -> published env n n'.
Proof.
  revert n. induction dsts as [|dst dsts IH]; intros n; cbn [publish_all]; [intros [= <-]; apply published_refl|].
  intros Hx. apply obind_ok in Hx as (n1 & H1%publish_to_ok & H2%IH). by eapply published_trans.
Qed.

Lemma Publish_ok env n n' : Publish env n = Ok n' -> published env n n'.
Proof. apply publish_all_ok. Qed.
End publish.

(** * A reflector emits one total order *)

Section reflector.
Context {R : Type} `{!RandSource R}.
Implicit Types n : Net R.

(** A commit on its way from the reflector. *)
Definition from_reflector (id : ActorID) (e : Event) : Prop :=
  ev_Kind e = KindDeliver /\ e_Src (ev_Env e) = id /\ e_Type (ev_Env e) = MsgCommit.

Definition typed_env (env : Envelope) : Prop := is_u32 (e_VNI env) /\ is_u64 (e_Base env).

(** The reference that the register keeps for a channel and base. *)
Definition decided_hash (d : DS) (ch base : Z) : option bytes := MemorySequencer_Decided (ds_seq d) (GroupID ch) base.

Record reflector_inv (d : DS) n : Prop := {
  ri_queue : forall e, e ∈ queue n -> from_reflector (ds_id d) e ->
    is_u64 (e_Base (ev_Env e)) /\ decided_hash d (e_VNI (ev_Env e)) (e_Base (ev_Env e)) = Some (e_Hash (ev_Env e));
  ri_log : forall ch log, ds_logs d !! ch = Some log -> NoDup (cr_Hash <$> log) /\
    Forall (fun r => is_u64 (cr_Base r) /\ decided_hash d ch (cr_Base r) = Some (cr_Hash r)) log
}.

(** What a step keeps: decisions, and the logs as prefixes. *)
Record grows (d d' : DS) : Prop := {
  gw_id : ds_id d' = ds_id d;
  gw_decided : forall ch b h, is_u64 b -> decided_hash d ch b = Some h -> decided_hash d' ch b = Some h;
  gw_log : forall ch log, ds_logs d !! ch = Some log -> exists more, ds_logs d' !! ch = Some (log ++ more)
}.

Lemma grows_refl d : grows d d.
Proof. split; [done..|]. intros ch log Hl. exists []. by rewrite app_nil_r. Qed.

Lemma grows_trans d1 d2 d3 : grows d1 d2 -> grows d2 d3 -> grows d1 d3.
Proof.
  intros [I1 D1 L1] [I2 D2 L2]. split; [congruence|auto|]. intros ch log Hl. destruct (L1 ch log Hl) as [m1 H1].
  destruct (L2 ch _ H1) as [m2 H2]. exists (m1 ++ m2). by rewrite app_assoc.
Qed.

(** A network in which no further commit of the reflector appears. *)
Lemma reflector_inv_net d n n' : reflector_inv d n -> (forall e, e ∈ queue n' -> e ∈ queue n \/ ~ from_reflector (ds_id d) e) -> reflector_inv d n'.
Proof. intros [Hq Hl] Hs. split; [|done]. intros e He Hf. destruct (Hs e He) as [?|?]; [by apply Hq|done]. Qed.

Lemma published_other env id n n' : published env n n' -> e_Type env <> MsgCommit \/ e_Src env <> id ->
  forall e, e ∈ queue n' -> e ∈ queue n \/ ~ from_reflector id e.
Proof.
  intros Hp Ht e He. destruct (pb_queue _ _ _ Hp e He) as [?|(_ & E & _)]; [by left|right]. intros (_ & E2 & E3). rewrite E in *. naive_solver.
Qed.

Lemma DS_onCommit_ok env d n d' n' : typed_env env -> reflector_inv d n -> e_Type env = MsgCommit ->
  DS_onCommit env d n = Ok (d', n') -> reflector_inv d' n' /\ grows d d'.
Proof.
  intros [Hv Hb] [Hq Hl] Ht Hx. unfold DS_onCommit in Hx. apply obind_ok in Hx as (m & _ & Hx).
  destruct (MemorySequencer_AcceptCommit (ds_seq d) (GroupID (e_VNI env)) (e_Base env) (e_Hash env)) as [ok seq] eqn:Ea.
  set (d1 := mkDS (ds_id d) (ds_replica d) seq (ds_logs d) (ds_encryptHandshakes d)) in *.
  assert (memory_accept (ds_seq d) (mkCall tt (GroupID (e_VNI env)) (e_Base env) (e_Hash env)) = (Ok ok, seq)) as Hacc
    by (unfold memory_accept; cbn [c_group c_epoch c_commit]; by rewrite Ea).
  assert (forall ch b h, is_u64 b -> decided_hash d ch b = Some h -> decided_hash d1 ch b = Some h) as Hst
    by (destruct memory_ordering as [_ Hk]; intros ch b h Hu Hd; exact (Hk _ (mkCall tt (GroupID (e_VNI env)) (e_Base env) (e_Hash env)) _ _ _ _ _ Hu Hb Hacc Hd)).
  assert (reflector_inv d1 n) as Hi1.
  { split; [intros e He Hf; destruct (Hq e He Hf); auto|]. intros ch log Hlog. destruct (Hl ch log Hlog) as [Hn HF]. split; [done|].
    eapply Forall_impl; [exact HF|]. intros r [? ?]; auto. }
  destruct ok; cbn [negb] in Hx; cycle 1.
  { injection Hx as <- <-. split; [by eapply reflector_inv_net; [exact Hi1|left]|]. split; [done|done|]. intros ch log ?. exists []. by rewrite app_nil_r. }
  assert (decided_hash d1 (e_VNI env) (e_Base env) = Some (e_Hash env)) as Hdec
    by (destruct (memory_ordering) as [Hok _]; exact (Hok _ (mkCall tt (GroupID (e_VNI env)) (e_Base env) (e_Hash env)) _ Hb Hacc)).
  apply obind_ok in Hx as (n1 & Hr & [= <- <-]). unfold reflect in Hr. apply obind_ok in Hr as (n2 & Hp%Publish_ok & [= <-]).
  assert (ds_id (appendLog env d1) = ds_id d /\ ds_seq (appendLog env d1) = seq) as [Eid Eseq] by (unfold appendLog; by case_match).
  assert (forall ch b, decided_hash (appendLog env d1) ch b = decided_hash d1 ch b) as Ed by (intros; unfold decided_hash; by rewrite Eseq).
  split.
  - split.
    + intros e He Hf. destruct (pb_queue _ _ _ Hp e He) as [He'|(_ & E & _)].
      * destruct (Hq e He') as [? Hd]; [by rewrite <- Eid|]. split; [done|]. rewrite Ed. by apply Hst.
      * rewrite E, Ed. done.
    + intros ch log Hlog. unfold appendLog in Hlog. destruct (existsb _ _) eqn:Ex.
      * destruct (ri_log _ _ Hi1 ch log Hlog) as [Hn HF]. split; [done|]. eapply Forall_impl; [exact HF|]. intros r. by rewrite Ed.
      * cbn [ds_logs] in Hlog. apply lookup_insert_Some in Hlog as [[<- <-]|[_ Hlog]]; cycle 1.
        { destruct (ri_log _ _ Hi1 ch log Hlog) as [Hn HF]. split; [done|]. eapply Forall_impl; [exact HF|]. intros r. by rewrite Ed. }
        assert (NoDup (cr_Hash <$> default [] (ds_logs d !! e_VNI env)) /\
          Forall (fun r => is_u64 (cr_Base r) /\ decided_hash d1 (e_VNI env) (cr_Base r) = Some (cr_Hash r)) (default [] (ds_logs d !! e_VNI env))) as [Hn HF].
        { destruct (ds_logs d !! e_VNI env) as [l|] eqn:El; [by apply (ri_log _ _ Hi1)|]. split; constructor. }
        split.
        -- rewrite fmap_app. apply NoDup_app. split_and!; [done| |apply NoDup_singleton]. intros h Hh ->%list_elem_of_singleton.
           apply list_elem_of_fmap in Hh as (r & E & Hr). apply not_true_iff_false in Ex. apply Ex, existsb_exists. exists r.
           split; [by apply list_elem_of_In|by apply bytes_Equal_spec].
        -- apply Forall_app. split; [|constructor; [cbn; rewrite Ed; done|constructor]]. eapply Forall_impl; [exact HF|]. intros r. by rewrite Ed.
  - split; [done|intros; rewrite Ed; auto|]. intros ch log Hlog. unfold appendLog. case_match; [exists []; by rewrite app_nil_r|].
    cbn [ds_logs]. destruct (decide (ch = e_VNI env)) as [->|]; [|exists []; by rewrite lookup_insert_ne, app_nil_r].
    rewrite lookup_insert_eq. cbn [ds_logs d1]. rewrite Hlog. by eexists.
Qed.

Lemma handle_ok env d n d' n' : typed_env env -> reflector_inv d n -> handle env d n = Ok (d', n') -> reflector_inv d' n' /\ grows d d'.
Proof.
  intros Htd Hi Hx. unfold handle in Hx. case_match; [injection Hx as <- <-; split; [done|apply grows_refl]|].
  destruct (e_Type env) eqn:Et.
  - by eapply DS_onCommit_ok.
  - unfold reflect in Hx. apply obind_ok in Hx as (n1 & Hr & [= <- <-]). apply obind_ok in Hr as (n2 & Hp%Publish_ok & [= <-]).
    split; [|apply grows_refl]. eapply reflector_inv_net; [exact Hi|]. apply (published_other _ _ n n2 Hp). left. cbn. congruence.
  - injection Hx as <- <-. split; [done|apply grows_refl].
  - unfold serveCatchup in Hx. apply obind_ok in Hx as (n1 & Hr & [= <- <-]). apply obind_ok in Hr as (n2 & Hp%Publish_ok & [= <-]).
    split; [|apply grows_refl]. eapply reflector_inv_net; [exact Hi|]. apply (published_other _ _ n n2 Hp). left. cbn. congruence.
  - injection Hx as <- <-. split; [done|apply grows_refl].
  - injection Hx as <- <-. split; [done|apply grows_refl].
Qed.

(** The life of a reflector: it handles envelopes, and the network changes
    around it. *)
Inductive ds_step : DS * Net R -> DS * Net R -> Prop :=
| ds_handle env d n d' n' : typed_env env -> handle env d n = Ok (d', n') -> ds_step (d, n) (d', n')
| ds_around d n n' : (forall e, e ∈ queue n' -> e ∈ queue n \/ ~ from_reflector (ds_id d) e) -> ds_step (d, n) (d, n').

Lemma ds_steps_ok x y : rtc ds_step x y -> reflector_inv x.1 x.2 -> reflector_inv y.1 y.2 /\ grows x.1 y.1.
Proof.
  induction 1 as [x|x y z Hs _ IH]; [split; [done|apply grows_refl]|]. intros Hi.
  assert (reflector_inv y.1 y.2 /\ grows x.1 y.1) as [Hi' Hg].
  { destruct Hs as [env d n d' n' Ht Hh|d n n' Hn]; [by eapply handle_ok|]. split; [by eapply reflector_inv_net|apply grows_refl]. }
  destruct (IH Hi') as [Hi'' Hg']. split; [done|by eapply grows_trans].
Qed.

Lemma newDS_inv id replica n : (forall e, e ∈ queue n -> ~ from_reflector id e) -> reflector_inv (newDS id replica) n.
Proof. intros Hn. split; [intros e He Hf; by destruct (Hn e He)|done]. Qed.

(** The bases of a log are distinct too. *)
Lemma log_bases d n ch log : reflector_inv d n -> ds_logs d !! ch = Some log -> NoDup (cr_Base <$> log).
Proof.
  intros Hi Hl. destruct (ri_log _ _ Hi ch log Hl) as [Hn HF]. clear Hl. induction log as [|r log IH]; [constructor|].
  cbn in Hn. apply NoDup_cons in Hn as [Hr Hn]. apply Forall_cons in HF as [[_ Hd] HF]. cbn. constructor; [|by apply IH].
  intros (r' & E & Hin)%list_elem_of_fmap. apply Hr, list_elem_of_fmap. exists r'. split; [|done].
  rewrite Forall_forall in HF. destruct (HF r' Hin) as [_ Hd']. rewrite <- E, Hd in Hd'. by injection Hd'.
Qed.
End reflector.

(** * Properties *)

(** C16: a reflector never forks its channels.  Whatever envelopes it handles, in
    whatever order, with resends and competing commits, while the network
    around it does what it likes: any two commits for the same channel and base
    that are on their way from it, now or later, carry the same hash; its log
    only grows, has one entry per base, and agrees with what it sends. *)
Theorem reflector_never_forks {R : Type} `{!RandSource R} id replica n0 d1 n1 d2 n2 :
  (forall e, e ∈ queue n0 -> ~ from_reflector id e) ->
  rtc ds_step (newDS id replica, n0) (d1, n1) -> rtc ds_step (d1, n1) (d2, n2) ->
  (forall e1 e2, e1 ∈ queue n1 -> e2 ∈ queue n2 -> from_reflector id e1 -> from_reflector id e2 ->
     e_VNI (ev_Env e1) = e_VNI (ev_Env e2) -> e_Base (ev_Env e1) = e_Base (ev_Env e2) -> e_Hash (ev_Env e1) = e_Hash (ev_Env e2)) /\
  (forall ch log1, ds_logs d1 !! ch = Some log1 -> exists more, ds_logs d2 !! ch = Some (log1 ++ more) /\
     NoDup (cr_Base <$> log1 ++ more) /\
     forall r e, r ∈ log1 -> e ∈ queue n2 -> from_reflector id e -> e_VNI (ev_Env e) = ch -> e_Base (ev_Env e) = cr_Base r ->
       e_Hash (ev_Env e) = cr_Hash r).
Proof.
  intros Hn H1 H2. destruct (ds_steps_ok _ _ H1 (newDS_inv id replica n0 Hn)) as [Hi1 Hg1]. cbn [fst snd] in *.
  destruct (ds_steps_ok _ _ H2 Hi1) as [Hi2 Hg2]. cbn [fst snd] in *.
  pose proof (gw_id _ _ Hg1) as E1. pose proof (gw_id _ _ Hg2) as E2. cbn [ds_id newDS] in E1.
  split.
  - intros e1 e2 He1 He2 Hf1 Hf2 Ev Eb. destruct (ri_queue _ _ Hi1 e1 He1 ltac:(by rewrite E1)) as [Hu Hd1].
    destruct (ri_queue _ _ Hi2 e2 He2 ltac:(by rewrite E2, E1)) as [_ Hd2].
    apply (gw_decided _ _ Hg2) in Hd1; [|done]. rewrite Ev, Eb, Hd2 in Hd1. by injection Hd1.
  - intros ch log1 Hl. destruct (gw_log _ _ Hg2 ch log1 Hl) as [more Hm]. exists more. split_and!; [done|by eapply log_bases|].
    intros r e Hr He Hf Ev Eb. destruct (ri_queue _ _ Hi2 e He ltac:(by rewrite E2, E1)) as [_ Hd2].
    destruct (ri_log _ _ Hi2 ch _ Hm) as [_ HF]. apply Forall_app in HF as [HF _]. rewrite Forall_forall in HF.
    destruct (HF r Hr) as [_ Hd]. rewrite Ev, Eb, Hd in Hd2. by injection Hd2.
Qed.

(** ** A concrete reflector *)
Module Reflector.
(** A source that always returns zero. *)
#[local] Instance still : RandSource unit := {| rng_Float64 := fun r => (0%Q, r); rng_Int63n := fun r _ => (0, r) |}.

Definition net : Net unit :=
  Subscribe 1 10 (Subscribe 1 11 (newBus (NewScheduler tt) (newFaultState (mkFaultConfig 0 2 0)) newMetrics)).

(** A commit of client 10 for base 5. *)
Definition commit (h : Z) : Envelope := mkEnvelope 1 MsgCommit 10 20 5 [] 0 0 [] [] [byte_of_Z h].
End Reflector.

#[local] Existing Instance Reflector.still.

(** Two different commits for one base: the first is fanned out, the second is not. *)
Lemma reflector_never_forks_witness :
  match handle (Reflector.commit 7) (newDS 20 0) Reflector.net with
  | Ok (d1, n1) =>
      match handle (Reflector.commit 8) d1 n1 with
      | Ok (d2, n2) => (forall e1 e2, e1 ∈ queue n1 -> e2 ∈ queue n2 -> from_reflector 20 e1 -> from_reflector 20 e2 ->
          e_VNI (ev_Env e1) = e_VNI (ev_Env e2) -> e_Base (ev_Env e1) = e_Base (ev_Env e2) -> e_Hash (ev_Env e1) = e_Hash (ev_Env e2)) /\
          len (queue n2) = 2
      | _ => False
      end
  | _ => False
  end.
Proof.
  assert ((let! (d1, n1) := handle (Reflector.commit 7) (newDS 20 0) Reflector.net in
    let! (d2, n2) := handle (Reflector.commit 8) d1 n1 in Ok (len (queue n2))) = Ok 2) as Hx by (vm_compute; reflexivity).
  apply obind_ok in Hx as ([d1 n1] & E1 & Hx). apply obind_ok in Hx as ([d2 n2] & E2 & Hx). apply Ok_inj in Hx. rewrite E1, E2.
  assert (forall h, typed_env (Reflector.commit h)) as Ht by (intros; split; cbn; unfold is_u32, is_u64; lia).
  split; [|exact Hx].
  refine (proj1 (reflector_never_forks 20 0 Reflector.net d1 n1 d2 n2 _ _ _)).
  - intros e He. exfalso. by apply elem_of_nil in He.
  - apply rtc_once. exact (ds_handle (Reflector.commit 7) _ _ _ _ (Ht 7) E1).
  - apply rtc_once. exact (ds_handle (Reflector.commit 8) _ _ _ _ (Ht 8) E2).
Defined.
