(* ===== verification/SimClient.v ===== *)
(** [sim]: a client, its control plane and its data plane.

    [client.go], and of [sim.go] the key-package directory and the sorted-key
    helpers.  A client is a host actor with one MLS group per replica channel,
    driven by an [ironcore] controller (Controller.v).  Its methods are
    computations of the monad [KM] over the client and what it shares with the
    other actors: the network, the directory, the loss events of the checker,
    and a counter for the entropy that [crypto/rand] supplies (streams that are
    parameters).  A panic ends the program, so that no state is kept with it.
    The zero [ironcore.SA] is [None].  Wall-clock measurements are left out; the
    code never uses them to decide anything. *)

From Stdlib Require Import ZArith Lia Strings.Byte.
From stdpp Require Import base list numbers strings pretty sorting sets gmap.
From S2P Require Import Prelude Syntax TreeNodes TreeMath Cipher ToyCrypto RatchetTree TreeSync TreeKEM.
From S2P Require Import KeySchedule Sequencer Esp Framing GroupMessages Group Controller SimSched SimNet.
Local Open Scope Z_scope.

(* sim/client.go:17-17 numDS *)
Definition numDS : Z := 2.

(* sim/client.go:23-23 saVNI *)
Definition saVNI (vni : Z) (r : Z) : Z := u32 (u32 (vni * numDS) + u32 r).
(* sim/client.go:25-25 replicaOf *)
Definition replicaOf (ch : Z) : Z := ch mod numDS.
(* sim/client.go:26-26 tenantOf *)
Definition tenantOf (ch : Z) : Z := ch / numDS.

(* sim/client.go:34-36 optimisticOrdering.AcceptCommit *)
Definition optimistic_accept (s : unit) (k : call unit) : outcome bool * unit := (Ok true, s).

(** * The anti-replay window *)

(* sim/client.go:41-41 replayWindow *)
Definition replayWindow : Z := 64.

(* sim/client.go:43-46 replayWin *)
Record replayWin := mkReplayWin { rw_high : Z; rw_seen : gset Z }.

(* sim/client.go:48-48 newReplayWin *)
Definition newReplayWin : replayWin := mkReplayWin 0 ∅.

(* sim/client.go:50-67 replayWin.accept *)
Definition replay_accept (seq : Z) (w : replayWin) : bool * replayWin :=
  if (replayWindow <=? rw_high w) && (seq <=? rw_high w - replayWindow) then (false, w) else
  if decide (seq ∈ rw_seen w) then (false, w) else
  let high := if rw_high w <? seq then seq else rw_high w in
  let seen := {[seq]} ∪ rw_seen w in
  (true, mkReplayWin high (filter (fun s => ~ (replayWindow <= high /\ s < high - replayWindow)) seen)).

(** * Identities *)

Definition client_prefix : bytes := bytes_of_string "client-".

(** Decimal digits, most significant first. *)
Fixpoint scan_digits (s : bytes) (acc : option Z) : option Z :=
  match s with
  | b :: s' =>
      let x := Z_of_byte b in
      if (48 <=? x) && (x <=? 57) then scan_digits s' (Some (10 * default 0 acc + (x - 48))) else acc
  | [] => acc
  end.

(** [%d] of [fmt.Sscanf]: (ASCII) blanks, a sign, digits; the rest is left. *)
Fixpoint scan_int (s : bytes) : option Z :=
  match s with
  | [] => None
  | b :: s' =>
      let x := Z_of_byte b in
      if (x =? 32) || (x =? 9) || ((11 <=? x) && (x <=? 13)) then scan_int s' else
      let n := if x =? 45 then Z.opp <$> scan_digits s' None else
               if x =? 43 then scan_digits s' None else scan_digits s None in
      match n with Some n => if (- 2 ^ 63 <=? n) && (n <? 2 ^ 63) then Some n else None | None => None end
  end.

(* sim/client.go:484-490 actorIDFromIdentity *)
Definition actorIDFromIdentity (identity : bytes) : option ActorID :=
  if bytes_Equal (take 7 identity) client_prefix then scan_int (List.skipn 7 identity) else None.

(* sim/client.go:492-497 identityFromActorID *)
Definition identityFromActorID (a : ActorID) : option bytes :=
  if a <? 0 then None else Some (bytes_of_string ("client-" ++ pretty a)).

(** [sort.Strings]. *)
Fixpoint insert_bytes (x : bytes) (l : list bytes) : list bytes :=
  match l with
  | [] => [x]
  | y :: l' => if bytes_lt y x then y :: insert_bytes x l' else x :: l
  end.
(* sim/client.go:759-766 sortedStrKeys *)
Definition sort_Strings (l : list bytes) : list bytes := foldr insert_bytes [] l.

(* sim/sim.go:98-123 sortedEpochs *)
Definition sorted_map_keys {A} (m : gmap Z A) : list Z := sorted_keys (dom m).

Section client.
Context {C : StdCrypto} {R : Type} `{!RandSource R}.

(** * State *)

(** Maps to [bool] that only ever hold [true] are sets. *)
(* sim/client.go:70-95 vniState *)
Record vniState := mkVNIState {
  v_ctrl : Controller;
  v_joined : bool;
  v_joinEpoch : Z;
  v_saCache : gmap Z (option SA);
  v_peerEpoch : gmap ActorID Z;
  v_heard : gset ActorID;
  v_outbox : gmap Z bytes;
  v_confirmed : gset Z;
  v_hasHead : bool;
  v_headBase : Z;
  v_pendingWelcome : gmap bytes bytes;
  v_catchupReqs : gmap Z Z;
  v_sendSeq : gmap Z Z;
  v_inSPIs : gmap Z (gset Z);
  v_replay : gmap Z replayWin
}.

Definition set_ctrl (x : Controller) (v : vniState) : vniState :=
  mkVNIState x (v_joined v) (v_joinEpoch v) (v_saCache v) (v_peerEpoch v) (v_heard v) (v_outbox v) (v_confirmed v)
    (v_hasHead v) (v_headBase v) (v_pendingWelcome v) (v_catchupReqs v) (v_sendSeq v) (v_inSPIs v) (v_replay v).
Definition set_joined (x : bool) (v : vniState) : vniState :=
  mkVNIState (v_ctrl v) x (v_joinEpoch v) (v_saCache v) (v_peerEpoch v) (v_heard v) (v_outbox v) (v_confirmed v)
    (v_hasHead v) (v_headBase v) (v_pendingWelcome v) (v_catchupReqs v) (v_sendSeq v) (v_inSPIs v) (v_replay v).
Definition set_joinEpoch (x : Z) (v : vniState) : vniState :=
  mkVNIState (v_ctrl v) (v_joined v) x (v_saCache v) (v_peerEpoch v) (v_heard v) (v_outbox v) (v_confirmed v) (v_hasHead v)
    (v_headBase v) (v_pendingWelcome v) (v_catchupReqs v) (v_sendSeq v) (v_inSPIs v) (v_replay v).
Definition set_saCache (x : gmap Z (option SA)) (v : vniState) : vniState :=
  mkVNIState (v_ctrl v) (v_joined v) (v_joinEpoch v) x (v_peerEpoch v) (v_heard v) (v_outbox v) (v_confirmed v) (v_hasHead v)
    (v_headBase v) (v_pendingWelcome v) (v_catchupReqs v) (v_sendSeq v) (v_inSPIs v) (v_replay v).
Definition set_peerEpoch (x : gmap ActorID Z) (v : vniState) : vniState :=
  mkVNIState (v_ctrl v) (v_joined v) (v_joinEpoch v) (v_saCache v) x (v_heard v) (v_outbox v) (v_confirmed v) (v_hasHead v)
    (v_headBase v) (v_pendingWelcome v) (v_catchupReqs v) (v_sendSeq v) (v_inSPIs v) (v_replay v).
Definition set_heard (x : gset ActorID) (v : vniState) : vniState :=
  mkVNIState (v_ctrl v) (v_joined v) (v_joinEpoch v) (v_saCache v) (v_peerEpoch v) x (v_outbox v) (v_confirmed v)
    (v_hasHead v) (v_headBase v) (v_pendingWelcome v) (v_catchupReqs v) (v_sendSeq v) (v_inSPIs v) (v_replay v).
Definition set_outbox (x : gmap Z bytes) (v : vniState) : vniState :=
  mkVNIState (v_ctrl v) (v_joined v) (v_joinEpoch v) (v_saCache v) (v_peerEpoch v) (v_heard v) x (v_confirmed v)
    (v_hasHead v) (v_headBase v) (v_pendingWelcome v) (v_catchupReqs v) (v_sendSeq v) (v_inSPIs v) (v_replay v).
Definition set_confirmed (x : gset Z) (v : vniState) : vniState :=
  mkVNIState (v_ctrl v) (v_joined v) (v_joinEpoch v) (v_saCache v) (v_peerEpoch v) (v_heard v) (v_outbox v) x (v_hasHead v)
    (v_headBase v) (v_pendingWelcome v) (v_catchupReqs v) (v_sendSeq v) (v_inSPIs v) (v_replay v).
Definition set_hasHead (x : bool) (v : vniState) : vniState :=
  mkVNIState (v_ctrl v) (v_joined v) (v_joinEpoch v) (v_saCache v) (v_peerEpoch v) (v_heard v) (v_outbox v) (v_confirmed v) x
    (v_headBase v) (v_pendingWelcome v) (v_catchupReqs v) (v_sendSeq v) (v_inSPIs v) (v_replay v).
Definition set_headBase (x : Z) (v : vniState) : vniState :=
  mkVNIState (v_ctrl v) (v_joined v) (v_joinEpoch v) (v_saCache v) (v_peerEpoch v) (v_heard v) (v_outbox v) (v_confirmed v)
    (v_hasHead v) x (v_pendingWelcome v) (v_catchupReqs v) (v_sendSeq v) (v_inSPIs v) (v_replay v).
Definition set_pendingWelcome (x : gmap bytes bytes) (v : vniState) : vniState :=
  mkVNIState (v_ctrl v) (v_joined v) (v_joinEpoch v) (v_saCache v) (v_peerEpoch v) (v_heard v) (v_outbox v) (v_confirmed v)
    (v_hasHead v) (v_headBase v) x (v_catchupReqs v) (v_sendSeq v) (v_inSPIs v) (v_replay v).
Definition set_catchupReqs (x : gmap Z Z) (v : vniState) : vniState :=
  mkVNIState (v_ctrl v) (v_joined v) (v_joinEpoch v) (v_saCache v) (v_peerEpoch v) (v_heard v) (v_outbox v) (v_confirmed v)
    (v_hasHead v) (v_headBase v) (v_pendingWelcome v) x (v_sendSeq v) (v_inSPIs v) (v_replay v).
Definition set_sendSeq (x : gmap Z Z) (v : vniState) : vniState :=
  mkVNIState (v_ctrl v) (v_joined v) (v_joinEpoch v) (v_saCache v) (v_peerEpoch v) (v_heard v) (v_outbox v) (v_confirmed v)
    (v_hasHead v) (v_headBase v) (v_pendingWelcome v) (v_catchupReqs v) x (v_inSPIs v) (v_replay v).
Definition set_inSPIs (x : gmap Z (gset Z)) (v : vniState) : vniState :=
  mkVNIState (v_ctrl v) (v_joined v) (v_joinEpoch v) (v_saCache v) (v_peerEpoch v) (v_heard v) (v_outbox v) (v_confirmed v)
    (v_hasHead v) (v_headBase v) (v_pendingWelcome v) (v_catchupReqs v) (v_sendSeq v) x (v_replay v).
Definition set_replay (x : gmap Z replayWin) (v : vniState) : vniState :=
  mkVNIState (v_ctrl v) (v_joined v) (v_joinEpoch v) (v_saCache v) (v_peerEpoch v) (v_heard v) (v_outbox v) (v_confirmed v)
    (v_hasHead v) (v_headBase v) (v_pendingWelcome v) (v_catchupReqs v) (v_sendSeq v) (v_inSPIs v) x.

(* sim/client.go:97-110 newVNIState *)
Definition newVNIState (ctrl : Controller) : vniState :=
  mkVNIState ctrl false 0 ∅ ∅ ∅ ∅ ∅ false 0 ∅ ∅ ∅ ∅ ∅.

(* sim/client.go:115-131 Client *)
Record Client := mkClient {
  k_id : ActorID;
  k_suite : Suite;
  k_signer : Signer;
  k_identity : bytes;
  k_vnis : gmap Z vniState;
  k_dsIDs : list ActorID;
  k_W : Z;
  k_mbbDisabled : bool;
  k_encryptHandshakes : bool;
  k_sharedSPIReplay : bool
}.

(* sim/client.go:143-150 newClient *)
Definition newClient (id : ActorID) (suite : Suite) (signer : Signer) (identity : bytes) (dsIDs : list ActorID) (W : Z) : Client :=
  mkClient id suite signer identity ∅ dsIDs W false false false.

Definition with_vnis (m : gmap Z vniState) (c : Client) : Client :=
  mkClient (k_id c) (k_suite c) (k_signer c) (k_identity c) m (k_dsIDs c) (k_W c) (k_mbbDisabled c) (k_encryptHandshakes c) (k_sharedSPIReplay c).

(* sim/sim.go:29-31 kpEntry *)
Record kpEntry := mkKpEntry { kp_kpMsg : bytes; kp_initPriv : bytes; kp_leafPriv : bytes }.

(** The signers of the directory are never read. *)
(* sim/sim.go:35-39 kpDirectory *)
Record kpDirectory := mkKpDirectory { dir_creds : gmap bytes Credential; dir_kps : gmap bytes (gmap Z kpEntry) }.

(* sim/invariant.go:25-30 LossEvent *)
Record LossEvent := mkLossEvent { le_VNI : Z; le_SentEpoch : Z; le_RecvEpoch : Z; le_At : Z }.

(** What the actors share. *)
Record Host := mkHost { h_net : Net R; h_dir : kpDirectory; h_loss : list LossEvent; h_drawn : nat }.

Definition with_net (n : Net R) (h : Host) : Host := mkHost n (h_dir h) (h_loss h) (h_drawn h).

(** * Methods *)

Definition KM (A : Type) : Type := Client * Host -> outcome (A * (Client * Host)).

Definition kret {A} (a : A) : KM A := fun s => Ok (a, s).
Definition kbind {A B} (m : KM A) (k : A -> KM B) : KM B := fun s => let! (a, s) := m s in k a s.
Definition kget : KM Client := fun s => Ok (s.1, s).
Definition kput (c : Client) : KM unit := fun s => Ok (tt, (c, s.2)).
Definition kshared : KM Host := fun s => Ok (s.2, s).
Definition kshare (h : Host) : KM unit := fun s => Ok (tt, (s.1, h)).
Definition klift {A} (m : outcome A) : KM A := fun s => let! a := m in Ok (a, s).
End client.

Notation "'at!' x := m 'in' k" := (kbind m (fun x => k))
  (at level 10, x pattern, m at level 100, k at level 200) : go_scope.

Section methods.
Context {C : StdCrypto} {R : Type} `{!RandSource R}.
(** The entropy of commits and of key packages, draw by draw. *)
Context (commitRand : nat -> CommitRand) (kpRand : nat -> Rand * Rand).
Local Abbreviation KM := (KM (R := R)).
Local Open Scope go_scope.

Definition draw : KM nat := fun s => Ok (h_drawn s.2, (s.1, mkHost (h_net s.2) (h_dir s.2) (h_loss s.2) (S (h_drawn s.2)))).

Definition publish (env : Envelope) : KM unit :=
  at! h := kshared in
  at! n := klift (Publish env (h_net h)) in
  kshare (with_net n h).

Definition metric (f : Metrics -> Metrics) : KM unit :=
  at! h := kshared in kshare (with_net (with_metrics f (h_net h)) h).

Definition now : KM Z := at! h := kshared in kret (Now (n_sched (h_net h))).

(* sim/sim.go:125-125 vni32 *)
Definition vni32 (v : Z) : Z := u32 v.

(* sim/invariant.go:34-36 InvariantChecker.packetLoss *)
Definition packetLoss (vni sentEpoch recvEpoch at_ : Z) : KM unit :=
  at! h := kshared in
  kshare (mkHost (h_net h) (h_dir h) (h_loss h ++ [mkLossEvent (vni32 vni) sentEpoch recvEpoch at_]) (h_drawn h)).

(** The state of a channel, and an assignment through its pointer. *)
Definition vni (ch : Z) : KM (option vniState) := at! c := kget in kret (k_vnis c !! ch).
Definition update (ch : Z) (f : vniState -> vniState) : KM unit :=
  at! c := kget in kput (with_vnis (alter f ch (k_vnis c)) c).

(** The state of a channel this client has joined. *)
Definition joined_vni (ch : Z) : KM (option vniState) :=
  at! st := vni ch in kret (match st with Some v => if v_joined v then Some v else None | None => None end).

(* sim/sim.go:82-89 kpDirectory.resolver *)
Definition dir_resolver (d : kpDirectory) (ch : Z) (identity : bytes) : option bytes :=
  kp_kpMsg <$> (dir_kps d !! identity ≫= lookup ch).

(** The resolver of a controller's configuration closes over the directory,
    which is a pointer: its methods see the directory of the moment. *)
Definition with_directory (d : kpDirectory) (ch : Z) (c : Controller) : Controller :=
  let cfg := c_cfg c in
  mkController (mkControllerConfig (cfg_VNI cfg) (cfg_Suite cfg) (cfg_Validator cfg) (cfg_Cred cfg) (cfg_Signer cfg) (cfg_Lifetime cfg)
      (Some (dir_resolver d ch)) (cfg_HandshakePrivacy cfg))
    (c_g c) (c_groupID c) (c_suite c) (c_curSA c) (c_prevSA c) (c_hasPrev c).

(** A controller method, through the pointer of the channel. *)
Definition on_ctrl {A} (ch : Z) (v : vniState) (m : CM (S := unit) A) : KM (outcome A) :=
  at! h := kshared in
  let '(r, (ctrl, _)) := m (with_directory (h_dir h) ch (v_ctrl v), tt) in
  at! _ := update ch (set_ctrl ctrl) in kret r.

(** An error that the caller looks at; a panic goes on. *)
Definition settle {A} (r : outcome A) : KM (A + string) :=
  match r with
  | Ok a => kret (inl a)
  | Err e => kret (inr e)
  | Panic => klift Panic
  | Diverge => klift Diverge
  end.

(* sim/client.go:136-141 Client.sendSPI *)
Definition sendSPI (c : Client) (sa : option SA) : Z :=
  match sa with Some sa => if k_sharedSPIReplay c then sa_SPI sa else sa_OwnSPI sa | None => 0 end.

(* sim/client.go:155-155 Client.reflectorFor *)
Definition reflectorFor (c : Client) (ch : Z) : outcome ActorID := index (k_dsIDs c) (replicaOf ch).

(* sim/client.go:452-456 Client.toReflector *)
Definition toReflector (ch : Z) (env : Envelope) : KM unit :=
  at! c := kget in
  at! dst := klift (reflectorFor c ch) in
  publish (mkEnvelope (e_VNI env) (e_Type env) (k_id c) dst (e_Base env) (e_Payload env) (e_SPI env) (e_DataSeq env)
             (e_Records env) (e_Joiner env) (e_Hash env)).

(** ** The directory *)

(* sim/sim.go:24-24 maxLifetime *)
Definition maxLifetime : Lifetime := mkLifetime 0 (2 ^ 64 - 1).

(** An identity without an entry has the zero credential. *)
(* sim/sim.go:57-57 kpDirectory.cred *)
Definition dir_cred (d : kpDirectory) (identity : bytes) : Credential := default (mkCredential 0 [] []) (dir_creds d !! identity).

(* sim/sim.go:49-55 kpDirectory.register *)
Definition dir_register (identity : bytes) (d : kpDirectory) : kpDirectory :=
  mkKpDirectory (<[identity := mkCredential CredentialTypeBasic identity []]> (dir_creds d)) (dir_kps d).

(* sim/sim.go:67-80 kpDirectory.publishKeyPackage *)
Definition publishKeyPackage (suite : Suite) (ch : Z) (identity : bytes) (signer : Signer) : KM unit :=
  at! i := draw in
  at! h := kshared in
  let d := h_dir h in
  let made :=
    let! (kp, ip, lp) := NewKeyPackage suite (kpRand i).1 (kpRand i).2 (dir_cred d identity) signer maxLifetime in
    let! kpMsg := EncodeKeyPackageMessage kp in
    Ok (mkKpEntry kpMsg ip lp) in
  match made with
  | Ok e => kshare (mkHost (h_net h) (mkKpDirectory (dir_creds d) (<[identity := <[ch := e]> (default ∅ (dir_kps d !! identity))]> (dir_kps d)))
                      (h_loss h) (h_drawn h))
  | Diverge => klift Diverge
  | _ => klift Panic
  end.

(* sim/sim.go:91-94 kpDirectory.joinerMaterial *)
Definition joinerMaterial (d : kpDirectory) (ch : Z) (identity : bytes) : bytes * bytes * bytes :=
  match dir_kps d !! identity ≫= lookup ch with
  | Some e => (kp_kpMsg e, kp_initPriv e, kp_leafPriv e)
  | None => ([], [], [])
  end.

(* sim/sim.go:59-65 kpDirectory.newFounderGroup *)
Definition newFounderGroup (i : nat) (d : kpDirectory) (suite : Suite) (ch : Z) (identity : bytes) (signer : Signer) : outcome Group :=
  match NewGroup (kpRand i).1 (kpRand i).2 suite (GroupID ch) (dir_cred d identity) signer maxLifetime with
  | Ok g => Ok g
  | Diverge => Diverge
  | _ => Panic
  end.

(* sim/client.go:181-203 Client.controllerCfg *)
Definition controllerCfg (c : Client) (d : kpDirectory) (ch : Z) : ControllerConfig :=
  mkControllerConfig ch (k_suite c) (Some BasicCredentialValidator_Validate) (dir_cred d (k_identity c)) (k_signer c)
    maxLifetime (Some (dir_resolver d ch)) (if k_encryptHandshakes c then HandshakeEncrypted else HandshakePlaintext).

(** ** Members of a channel, as this client sees them *)

(** The identities of the leaves; an error of [LeafCredential] skips the leaf. *)
Fixpoint leaf_identities (g : Group) (leaves : list Z) : outcome (list bytes) :=
  match leaves with
  | [] => Ok []
  | leaf :: leaves =>
      match LeafCredential g leaf with
      | Ok (cred, _) => let! ids := leaf_identities g leaves in Ok (Identity cred :: ids)
      | Err _ => leaf_identities g leaves
      | Panic => Panic
      | Diverge => Diverge
      end
  end.

Definition group_identities (g : Group) : outcome (list bytes) :=
  let! leaves := ActiveLeaves g in leaf_identities g leaves.

(** [nil] is the empty set. *)
(* sim/client.go:499-511 Client.leafIdentitySet *)
Definition leafIdentitySet (v : option vniState) : outcome (list bytes) :=
  match v with
  | Some v =>
      if negb (v_joined v) then Ok [] else
      match Controller_Group (v_ctrl v) with None => Ok [] | Some g => group_identities g end
  | None => Ok []
  end.

(* sim/client.go:514-522 Client.replicaMembers *)
Definition replicaMembers (v : option vniState) : outcome (gset ActorID) :=
  let! ids := leafIdentitySet v in
  Ok (list_to_set (omap actorIDFromIdentity ids)).

(** The entries of new members, at an epoch; known ones stay. *)
Definition seed_peers (own : ActorID) (epoch : Z) (ids : list bytes) (m : gmap ActorID Z) : gmap ActorID Z :=
  foldl (fun m id => match actorIDFromIdentity id with
    | Some aid => if negb (aid =? own) && bool_decide (m !! aid = None) then <[aid := epoch]> m else m
    | None => m
    end) m ids.

(* sim/client.go:527-548 Client.initPeerEpochForNewMembers *)
Definition initPeerEpochForNewMembers (ch : Z) (before : list bytes) : KM unit :=
  at! c := kget in
  at! st := joined_vni ch in
  match st with
  | None => kret tt
  | Some v =>
      match Controller_Group (v_ctrl v) with
      | None => kret tt
      | Some g =>
          at! ids := klift (group_identities g) in
          let fresh := List.filter (fun id => negb (existsb (bytes_Equal id) before)) ids in
          update ch (fun v => set_peerEpoch (seed_peers (k_id c) (Controller_Epoch (v_ctrl v)) fresh (v_peerEpoch v)) v)
      end
  end.

(* sim/client.go:556-568 Client.pruneDepartedPeers *)
Definition pruneDepartedPeers (ch : Z) : KM unit :=
  at! st := joined_vni ch in
  match st with
  | None => kret tt
  | Some v =>
      at! members := klift (replicaMembers (Some v)) in
      let gone := dom (v_peerEpoch v) ∖ members in
      update ch (fun v => set_heard (v_heard v ∖ gone) (set_peerEpoch (filter (fun x => x.1 ∉ gone) (v_peerEpoch v)) v))
  end.

(** ** Associations *)

Definition zsa_Epoch (sa : option SA) : Z := match sa with Some sa => sa_Epoch sa | None => 0 end.
Definition zsa_SPI (sa : option SA) : Z := match sa with Some sa => sa_SPI sa | None => 0 end.

(** The SPIs of the senders; an error skips the leaf. *)
Fixpoint sender_spis (sa : option SA) (leaves : list Z) : outcome (gset Z) :=
  match leaves with
  | [] => Ok ∅
  | leaf :: leaves =>
      match (match sa with Some sa => SenderSPI sa leaf | None => Err "ironcore: SA key not initialized (use DeriveSAKeys)" end) with
      | Ok s => let! l := sender_spis sa leaves in Ok ({[s]} ∪ l)
      | Err _ => sender_spis sa leaves
      | Panic => Panic
      | Diverge => Diverge
      end
  end.

(* sim/client.go:608-613 Client.effectiveW *)
Definition effectiveW (c : Client) : Z := if k_mbbDisabled c then 0 else k_W c.

(** The epochs of a cache that the window [cur - w .. cur] drops. *)
Definition outside (cur w e : Z) : Prop := w <= cur /\ e < cur - w.

(* sim/client.go:596-606 Client.trimSAs *)
Definition trimSAs (ch : Z) : KM unit :=
  at! c := kget in
  update ch (fun v =>
    let cur := Controller_Epoch (v_ctrl v) in
    let w := u64 (effectiveW c) in
    set_inSPIs (filter (fun x => ~ (outside cur w x.1 /\ x.1 ∈ dom (v_saCache v))) (v_inSPIs v))
      (set_saCache (filter (fun x => ~ outside cur w x.1) (v_saCache v)) v)).

(* sim/client.go:572-593 Client.cacheCurrentSA *)
Definition cacheCurrentSA (ch : Z) : KM unit :=
  at! st := joined_vni ch in
  match st with
  | None => kret tt
  | Some v =>
      match CurrentSA (v_ctrl v) with
      | Ok sa =>
          at! spis := klift (match Controller_Group (v_ctrl v) with
                             | None => Ok ∅
                             | Some g => let! leaves := ActiveLeaves g in sender_spis sa leaves
                             end) in
          at! _ := update ch (fun v => set_inSPIs (<[zsa_Epoch sa := {[zsa_SPI sa]} ∪ spis]> (v_inSPIs v))
                                         (set_saCache (<[zsa_Epoch sa := sa]> (v_saCache v)) v)) in
          at! _ := trimSAs ch in
          at! st := vni ch in
          metric (observeOverlap (match st with Some v => Z.of_nat (size (v_saCache v)) | None => 0 end))
      | Err _ => kret tt
      | Panic => klift Panic
      | Diverge => klift Diverge
      end
  end.

(** ** Founding and joining *)

(* sim/client.go:158-169 Client.foundVNI *)
Definition foundVNI (ch : Z) : KM unit :=
  at! c := kget in
  at! i := draw in
  at! h := kshared in
  let d := h_dir h in
  at! g := klift (newFounderGroup i d (k_suite c) ch (k_identity c) (k_signer c)) in
  match NewController (controllerCfg c d ch) (Some g) tt with
  | Ok (ctrl, _) =>
      at! _ := kput (with_vnis (<[ch := set_joined true (newVNIState ctrl)]> (k_vnis c)) c) in
      at! _ := kshare (with_net (Subscribe ch (k_id c) (h_net h)) h) in
      cacheCurrentSA ch
  | Diverge => klift Diverge
  | _ => klift Panic
  end.

(** Without a group [NewController] cannot fail. *)
(* sim/client.go:172-179 Client.prospectiveVNI *)
Definition prospectiveVNI (ch : Z) : KM unit :=
  at! c := kget in
  at! h := kshared in
  at! (ctrl, _) := klift (NewController (controllerCfg c (h_dir h) ch) None tt) in
  at! _ := kput (with_vnis (<[ch := newVNIState ctrl]> (k_vnis c)) c) in
  at! _ := publishKeyPackage (k_suite c) ch (k_identity c) (k_signer c) in
  at! h := kshared in
  kshare (with_net (Subscribe ch (k_id c) (h_net h)) h).

(* sim/client.go:419-422 Client.leaveVNI *)
Definition leaveVNI (ch : Z) : KM unit :=
  at! c := kget in
  at! h := kshared in
  at! _ := kshare (with_net (Unsubscribe ch (k_id c) (h_net h)) h) in
  kput (with_vnis (delete ch (k_vnis c)) c).

(** ** Committing *)

(* sim/client.go:210-222 Client.canCommit *)
Definition canCommit (ch : Z) : KM (option vniState) :=
  at! st := joined_vni ch in
  match st with
  | None => kret None
  | Some v =>
      at! b := klift (IsCommitter (v_ctrl v)) in
      if negb b then kret None else
      if 0 <? Z.of_nat (size (v_pendingWelcome v)) then kret None else
      if v_hasHead v && negb (bool_decide (v_headBase v ∈ v_confirmed v)) then kret None else
      kret (Some v)
  end.

(* sim/client.go:274-278 Client.recordHead *)
Definition recordHead (ch base : Z) (msg : bytes) : KM unit :=
  update ch (fun v => set_headBase base (set_hasHead true (set_outbox (<[base := msg]> (v_outbox v)) v))).

(* sim/client.go:426-437 Client.sendCommit *)
Definition sendCommit (ch base : Z) (msg : bytes) : KM unit :=
  at! _ := toReflector ch (mkEnvelope ch MsgCommit 0 0 base msg 0 0 [] [] (contentHash msg)) in
  at! _ := metric (commitFanout (len msg) 1) in
  at! _ := metric (count CCommitsIssued) in
  at! t := now in
  metric (commitIssued ch (u64 (base + 1)) t).

(* sim/client.go:439-449 Client.sendWelcome *)
Fixpoint sendWelcome (ch : Z) (welcome : bytes) (added : list bytes) : KM unit :=
  match added with
  | [] => kret tt
  | id :: added =>
      at! _ := toReflector ch (mkEnvelope ch MsgWelcome 0 0 0 welcome 0 0 [] id (contentHash welcome)) in
      sendWelcome ch welcome added
  end.

(* sim/client.go:242-250 Client.reconcile *)
Definition note_added (ch : Z) (own : ActorID) (welcome : bytes) (added : list bytes) : KM unit :=
  update ch (fun v =>
    let v := set_peerEpoch (seed_peers own (Controller_Epoch (v_ctrl v)) added (v_peerEpoch v)) v in
    set_pendingWelcome (foldl (fun m id => <[id := welcome]> m) (v_pendingWelcome v) added) v).

(* sim/client.go:225-253 Client.reconcile *)
Definition reconcile (ch : Z) (desired : list bytes) : KM unit :=
  at! ok := canCommit ch in
  match ok with
  | None => kret tt
  | Some v =>
      at! i := draw in
      at! r := on_ctrl ch v (Reconcile optimistic_accept tt (commitRand i) desired) in
      at! r := settle r in
      match r with
      | inr _ | inl (_, Some _) => kret tt
      | inl (res, None) =>
          if negb (res_Committed res) then kret tt else
          at! _ := cacheCurrentSA ch in
          at! _ := pruneDepartedPeers ch in
          at! st := vni ch in
          let base := match st with Some v => u64 (Controller_Epoch (v_ctrl v) - 1) | None => 0 end in
          let msg := default [] (res_CommitMsg res) in
          at! _ := recordHead ch base msg in
          at! _ := sendCommit ch base msg in
          let welcome := default [] (res_WelcomeMsg res) in
          if (0 <? len welcome) && (0 <? len (res_Added res)) then
            at! c := kget in
            at! _ := note_added ch (k_id c) welcome (res_Added res) in
            sendWelcome ch welcome (res_Added res)
          else kret tt
      end
  end.

(* sim/client.go:256-271 Client.rekey *)
Definition rekey (ch : Z) : KM unit :=
  at! ok := canCommit ch in
  match ok with
  | None => kret tt
  | Some v =>
      let base := Controller_Epoch (v_ctrl v) in
      at! i := draw in
      at! r := on_ctrl ch v (Rekey optimistic_accept tt (commitRand i)) in
      at! r := settle r in
      match r with
      | inl (Some msg, true, None) =>
          at! _ := cacheCurrentSA ch in
          at! _ := recordHead ch base msg in
          sendCommit ch base msg
      | _ => kret tt
      end
  end.

(** The Welcomes, in the order of their identities. *)
Fixpoint resend_welcomes (ch : Z) (l : list (bytes * bytes)) : KM unit :=
  match l with
  | [] => kret tt
  | (id, w) :: l =>
      at! _ := toReflector ch (mkEnvelope ch MsgWelcome 0 0 0 w 0 0 [] id (contentHash w)) in
      resend_welcomes ch l
  end.

(* sim/client.go:462-479 Client.resendUnacked *)
Definition resendUnacked (ch : Z) : KM unit :=
  at! st := joined_vni ch in
  match st with
  | None => kret tt
  | Some v =>
      at! b := klift (IsCommitter (v_ctrl v)) in
      if negb b then kret tt else
      at! _ :=
        (if v_hasHead v && negb (bool_decide (v_headBase v ∈ v_confirmed v)) then
           match v_outbox v !! v_headBase v with
           | Some msg =>
               at! _ := toReflector ch (mkEnvelope ch MsgCommit 0 0 (v_headBase v) msg 0 0 [] [] (contentHash msg)) in
               metric (count CCommitResends)
           | None => kret tt
           end
         else kret tt) in
      resend_welcomes ch (omap (fun id => (fun w => (id, w)) <$> v_pendingWelcome v !! id)
                            (sort_Strings (elements (dom (v_pendingWelcome v)))))
  end.

(* sim/client.go:735-748 Client.emitHeartbeat *)
Definition emitHeartbeat (ch : Z) : KM unit :=
  at! c := kget in
  at! st := joined_vni ch in
  match st with
  | None => kret tt
  | Some v =>
      at! _ := publish (mkEnvelope ch MsgHeartbeat (k_id c) Broadcast (Controller_Epoch (v_ctrl v)) [] 0 0 [] [] []) in
      resendUnacked ch
  end.

(** ** Following *)

(** After a commit that was applied. *)
(* sim/client.go:319-323 Client.onCommit *)
Definition applied (ch : Z) (before : list bytes) : KM unit :=
  at! _ := cacheCurrentSA ch in
  at! _ := initPeerEpochForNewMembers ch before in
  at! _ := pruneDepartedPeers ch in
  at! _ := metric (count CCommitsApplied) in
  at! st := vni ch in
  at! t := now in
  metric (commitConverged ch (match st with Some v => Controller_Epoch (v_ctrl v) | None => 0 end) t).

(** Handling one commit; [true] when it removed this client. *)
(* sim/client.go:313-326 Client.onCommit *)
Definition apply_commit (ch : Z) (v : vniState) (msg : bytes) : KM bool :=
  at! before := klift (leafIdentitySet (Some v)) in
  at! r := on_ctrl ch v (HandleCommit msg) in
  at! r := settle r in
  match r with
  | inl _ => at! _ := applied ch before in kret false
  | inr e => if String.eqb e ErrSelfRemoved then at! _ := leaveVNI ch in kret true else kret false
  end.

(* sim/client.go:298-327 Client.onCommit *)
Definition onCommit (env : Envelope) : KM unit :=
  let ch := e_VNI env in
  at! c := kget in
  at! _ := metric (count CCommitDeliveries) in
  at! st := joined_vni ch in
  match st with
  | None => kret tt
  | Some v =>
      at! refl := klift (reflectorFor c ch) in
      at! _ :=
        (if e_Src env =? refl then
           match v_outbox v !! e_Base env with
           | Some msg =>
               if bytes_Equal (contentHash msg) (e_Hash env)
               then update ch (fun v => set_confirmed ({[e_Base env]} ∪ v_confirmed v) v) else kret tt
           | None => kret tt
           end
         else kret tt) in
      if negb (Controller_Epoch (v_ctrl v) =? e_Base env) then kret tt else
      at! _ := apply_commit ch v (e_Payload env) in
      kret tt
  end.

(* sim/client.go:329-365 Client.onWelcome *)
Definition onWelcome (env : Envelope) : KM unit :=
  let ch := e_VNI env in
  at! c := kget in
  at! st := vni ch in
  match st with
  | None => kret tt
  | Some v =>
      if v_joined v then kret tt else
      at! h := kshared in
      let '(kp, ip, lp) := joinerMaterial (h_dir h) ch (k_identity c) in
      at! r := on_ctrl ch v (JoinViaWelcome (e_Payload env) kp ip lp) in
      at! r := settle r in
      match r with
      | inr _ => kret tt
      | inl _ =>
          at! _ := update ch (fun v => set_joinEpoch (Controller_Epoch (v_ctrl v)) (set_joined true v)) in
          at! _ := cacheCurrentSA ch in
          at! _ := emitHeartbeat ch in
          at! st := vni ch in
          match st with
          | Some v =>
              match Controller_Group (v_ctrl v) with
              | Some g =>
                  let e := Controller_Epoch (v_ctrl v) in
                  at! ids := klift (group_identities g) in
                  update ch (fun v => set_peerEpoch (seed_peers (k_id c) (if 0 <? e then e - 1 else e) ids (v_peerEpoch v)) v)
              | None => kret tt
              end
          | None => kret tt
          end
      end
  end.

(* sim/client.go:386-392 Client.requestCatchup *)
Definition requestCatchup (ch from : Z) : KM unit :=
  at! _ := update ch (fun v => set_catchupReqs (<[from := default 0 (v_catchupReqs v !! from) + 1]> (v_catchupReqs v)) v) in
  at! _ := toReflector ch (mkEnvelope ch MsgLogRequest 0 0 from [] 0 0 [] [] []) in
  metric (count CCatchupRequests).

(* sim/client.go:369-384 Client.onHeartbeat *)
Definition onHeartbeat (env : Envelope) : KM unit :=
  let ch := e_VNI env in
  at! st := joined_vni ch in
  match st with
  | None => kret tt
  | Some v =>
      let src := e_Src env in
      let known := default 0 (v_peerEpoch v !! src) in
      at! _ := update ch (fun v =>
        let v := set_heard ({[src]} ∪ v_heard v) v in
        let v := if (known <? e_Base env) || (known =? 0) then set_peerEpoch (<[src := e_Base env]> (v_peerEpoch v)) v else v in
        match identityFromActorID src with
        | Some id => set_pendingWelcome (delete id (v_pendingWelcome v)) v
        | None => v
        end) in
      if Controller_Epoch (v_ctrl v) <? e_Base env then requestCatchup ch (Controller_Epoch (v_ctrl v)) else kret tt
  end.

(** The records in order; a record for another epoch is skipped. *)
(* sim/client.go:401-416 Client.onLogReply *)
Fixpoint replay_log (ch : Z) (recs : list CommitRecord) : KM unit :=
  match recs with
  | [] => kret tt
  | r :: recs =>
      at! st := vni ch in
      match st with
      | None => kret tt
      | Some v =>
          if negb (Controller_Epoch (v_ctrl v) =? cr_Base r) then replay_log ch recs else
          at! gone := apply_commit ch v (cr_Bytes r) in
          if gone : bool then kret tt else replay_log ch recs
      end
  end.

(* sim/client.go:394-417 Client.onLogReply *)
Definition onLogReply (env : Envelope) : KM unit :=
  at! st := joined_vni (e_VNI env) in
  match st with
  | None => kret tt
  | Some _ => replay_log (e_VNI env) (sort_by_base (e_Records env))
  end.

(** ** The data plane *)

(* sim/client.go:618-631 Client.sendEpoch *)
Definition sendEpoch (c : Client) (v : vniState) : Z :=
  let cur := Controller_Epoch (v_ctrl v) in
  if k_mbbDisabled c then cur else
  foldl (fun mn a => let e := default 0 (v_peerEpoch v !! a) in if e <? mn then e else mn) cur (sorted_map_keys (v_peerEpoch v)).

(* sim/client.go:634-641 dataCand *)
Record dataCand := mkDataCand { dc_ch : Z; dc_se : Z; dc_spi : Z; dc_ok : bool; dc_members : gset ActorID; dc_heard : gset ActorID }.

(** The candidate of one replica. *)
(* sim/client.go:651-660 Client.sendData *)
Definition candidate (tenant r : Z) : KM (option dataCand) :=
  let ch := saVNI tenant r in
  at! c := kget in
  at! st := joined_vni ch in
  match st with
  | None => kret None
  | Some v =>
      let se := sendEpoch c v in
      at! members := klift (replicaMembers (Some v)) in
      kret (Some (mkDataCand ch se (sendSPI c (mjoin (v_saCache v !! se))) (bool_decide (is_Some (v_saCache v !! se)))
                    members (v_heard v)))
  end.

(** The first candidate that [sendToReceiver] takes, in the order of its two
    passes. *)
(* sim/client.go:676-684 Client.sendToReceiver *)
Definition choose (rcv : ActorID) (cands : list (option dataCand)) : option dataCand :=
  let usable (heard : bool) (x : option dataCand) :=
    match x with
    | Some cd => dc_ok cd && bool_decide (rcv ∈ dc_members cd) && (negb heard || bool_decide (rcv ∈ dc_heard cd))
    | None => false
    end in
  match List.find (usable true) cands with
  | Some x => x
  | None => mjoin (List.find (usable false) cands)
  end.

(* sim/client.go:673-695 Client.sendToReceiver *)
Definition sendToReceiver (rcv : ActorID) (cands : list (option dataCand)) : KM unit :=
  match choose rcv cands with
  | None => kret tt
  | Some cd =>
      at! c := kget in
      at! st := vni (dc_ch cd) in
      match st with
      | None => klift Panic
      | Some v =>
          at! _ := metric (observeSendLag (u64 (Controller_Epoch (v_ctrl v) - dc_se cd))) in
          let seq := default 0 (v_sendSeq v !! dc_se cd) in
          at! _ := update (dc_ch cd) (set_sendSeq (<[dc_se cd := u64 (seq + 1)]> (v_sendSeq v))) in
          at! _ := publish (mkEnvelope (dc_ch cd) MsgData (k_id c) rcv (dc_se cd) [] (dc_spi cd) seq [] [] []) in
          metric (count CDataSent)
      end
  end.

Fixpoint send_each (rcvs : list ActorID) (cands : list (option dataCand)) : KM unit :=
  match rcvs with
  | [] => kret tt
  | rcv :: rcvs => at! _ := sendToReceiver rcv cands in send_each rcvs cands
  end.

(* sim/client.go:647-671 Client.sendData *)
Definition sendData (tenant : Z) : KM unit :=
  at! c := kget in
  at! c0 := candidate tenant 0 in
  at! c1 := candidate tenant 1 in
  let cands := [c0; c1] in
  let recv := ⋃ (map (fun x => match x with Some cd => dc_members cd | None => ∅ end) cands) in
  send_each (List.filter (fun a => negb (a =? k_id c)) (sorted_keys recv)) cands.

(** A key for the packet's SPI, in an epoch since the join. *)
(* sim/client.go:707-716 Client.onData *)
Definition holds_spi (v : vniState) (spi : Z) : bool :=
  existsb (fun e => negb (e <? v_joinEpoch v) && bool_decide (spi ∈ default ∅ (v_inSPIs v !! e))) (sorted_map_keys (v_saCache v)).

(* sim/client.go:699-731 Client.onData *)
Definition onData (env : Envelope) : KM unit :=
  let ch := e_VNI env in
  at! st := joined_vni ch in
  match st with
  | None => kret tt
  | Some v =>
      if e_Base env <? v_joinEpoch v then kret tt else
      if negb (holds_spi v (e_SPI env)) then
        at! t := now in
        packetLoss (u64 ch) (e_Base env) (Controller_Epoch (v_ctrl v)) t
      else
        let (ok, win) := replay_accept (e_DataSeq env) (default newReplayWin (v_replay v !! e_SPI env)) in
        at! _ := update ch (set_replay (<[e_SPI env := win]> (v_replay v))) in
        metric (count (if ok then CDataDecryptable else CReplayDrops))
  end.

(* sim/client.go:281-296 Client.onDeliver *)
Definition onDeliver (env : Envelope) : KM unit :=
  match e_Type env with
  | MsgCommit => onCommit env
  | MsgWelcome => at! c := kget in if bytes_Equal (e_Joiner env) (k_identity c) then onWelcome env else kret tt
  | MsgHeartbeat => onHeartbeat env
  | MsgLogReply => onLogReply env
  | MsgData => onData env
  | MsgLogRequest => kret tt
  end.
End methods.

(** * Computing with client methods *)

Section km.
Context {C : StdCrypto} {R : Type} `{!RandSource R}.
Local Abbreviation KM := (KM (R := R)).

Lemma kbind_ok {A B} (m : KM A) (k : A -> KM B) s b s' :
  kbind m k s = Ok (b, s') <-> exists a s1, m s = Ok (a, s1) /\ k a s1 = Ok (b, s').
Proof.
  unfold kbind. rewrite obind_ok. split.
  - intros ([a s1] & Hm & Hk). by exists a, s1.
  - intros (a & s1 & Hm & Hk). by exists (a, s1).
Qed.

Lemma klift_ok {A} (m : outcome A) s a s' : klift (R := R) m s = Ok (a, s') <-> m = Ok a /\ s' = s.
Proof. unfold klift. destruct m; cbn; naive_solver. Qed.
End km.
