(* ===== verification/SimWindow.v ===== *)
(** [sim]: the data plane of a client.

    What the client code of SimClient.v is for: no packet is lost for want of a
    key.  The anti-replay window is the bounded form of an unbounded history.
    And a client that has entered an epoch can receive what the members of
    that epoch send, until it is more than the overlap [W] of epochs ahead,
    whatever it is called to do in between: make before break. *)

From Stdlib Require Import ZArith Lia Strings.Byte.
From stdpp Require Import base list numbers strings sorting sets gmap.
From S2P Require Import Prelude Syntax TreeNodes TreeMath Cipher ToyCrypto RatchetTree TreeSync TreeKEM.
From S2P Require Import KeySchedule Sequencer Esp Framing GroupMessages Group GroupSync GroupKeys GroupLed Controller ControllerSync.
From S2P Require Import SimSched SimNet SimClient.
Local Open Scope Z_scope.

(** * The anti-replay window *)

(** A window that forgets nothing: the sequence numbers accepted so far. *)
Definition history_high (h : list Z) : Z := foldr Z.max 0 h.
Definition history_accept (seq : Z) (h : list Z) : bool :=
  bool_decide (seq ∉ h) && ((history_high h <? replayWindow) || (history_high h - replayWindow <? seq)).

Fixpoint history_run (seqs : list Z) (h : list Z) : list bool * list Z :=
  match seqs with
  | [] => ([], h)
  | s :: seqs =>
      let b := history_accept s h in
      let (bs, h') := history_run seqs (if b then s :: h else h) in (b :: bs, h')
  end.

Fixpoint replay_run (seqs : list Z) (w : replayWin) : list bool * replayWin :=
  match seqs with
  | [] => ([], w)
  | s :: seqs => let (b, w) := replay_accept s w in let (bs, w') := replay_run seqs w in (b :: bs, w')
  end.

(** The window of a history. *)
Record window_of (h : list Z) (w : replayWin) : Prop := {
  wo_high : rw_high w = history_high h;
  wo_seen : forall s, s ∈ rw_seen w <-> s ∈ h /\ ~ (replayWindow <= history_high h /\ s < history_high h - replayWindow)
}.

Lemma history_high_bound h s : s ∈ h -> s <= history_high h.
Proof. induction h as [|x h IH]; [by intros ?%elem_of_nil|]. intros [->|Hin]%elem_of_cons; change (history_high (x :: h)) with (Z.max x (history_high h)); [lia|specialize (IH Hin); lia]. Qed.

Lemma replay_accept_refines seq h w : window_of h w ->
  (replay_accept seq w).1 = history_accept seq h /\
  window_of (if history_accept seq h then seq :: h else h) (replay_accept seq w).2.
Proof.
  intros [Hh Hs]. unfold replay_accept, history_accept. rewrite Hh.
  destruct (Z.leb_spec replayWindow (history_high h)) as [Hw|Hw], (Z.leb_spec seq (history_high h - replayWindow)) as [Ho|Ho]; cbn [andb].
  1: rewrite (proj2 (Z.ltb_ge _ _) Hw), (proj2 (Z.ltb_ge _ _) Ho), andb_false_r; by split.
  all: assert ((history_high h <? replayWindow) || (history_high h - replayWindow <? seq) = true) as ->
         by (apply orb_true_iff; rewrite !Z.ltb_lt; lia); rewrite andb_true_r.
  all: destruct (decide (seq ∈ rw_seen w)) as [Hin|Hout];
         [rewrite bool_decide_eq_false_2 by (intros Hn; apply Hn, Hs, Hin); by split|].
  all: rewrite bool_decide_eq_true_2 by (intros Hin; apply Hout, Hs; split; [done|lia]); split; [done|].
  all: assert ((if history_high h <? seq then seq else history_high h) = history_high (seq :: h)) as Em
         by (change (history_high (seq :: h)) with (Z.max seq (history_high h)); destruct (Z.ltb_spec (history_high h) seq); lia).
  all: split; cbn [snd rw_high rw_seen]; rewrite Em; [done|]; intros s; rewrite elem_of_filter, elem_of_union, elem_of_singleton, Hs, elem_of_cons.
  all: change (history_high (seq :: h)) with (Z.max seq (history_high h)); split;
         [intros (Hk & [->|[Hin _]]); tauto|intros [[->|Hin] Hk]; (split; [done|]); [by left|right; split; [done|lia]]].
Qed.

Lemma replay_run_refines seqs h w : window_of h w ->
  (replay_run seqs w).1 = (history_run seqs h).1 /\ window_of (history_run seqs h).2 (replay_run seqs w).2.
Proof.
  revert h w. induction seqs as [|s seqs IH]; intros h w Hw; [done|]. cbn [replay_run history_run].
  destruct (replay_accept_refines s h w Hw) as [Hb Hn]. destruct (replay_accept s w) as [b w1]. cbn [fst snd] in *. subst b.
  destruct (IH _ _ Hn) as [E Hn']. destruct (replay_run seqs w1), (history_run seqs _). cbn [fst snd] in *. by subst.
Qed.

Lemma history_run_NoDup seqs h : NoDup h -> Forall (Z.le 0) h -> Forall (Z.le 0) seqs ->
  NoDup (history_run seqs h).2 /\ Forall (Z.le 0) (history_run seqs h).2.
Proof.
  revert h. induction seqs as [|s seqs IH]; intros h Hn Hh Hs; [done|]. cbn [history_run]. inversion_clear Hs.
  specialize (IH (if history_accept s h then s :: h else h)). destruct (history_run seqs _) as [bs h']. apply IH; [| |done].
  - unfold history_accept. case_bool_decide; cbn [andb]; [|done]. destruct (_ || _); [by constructor|done].
  - destruct (history_accept s h); [by constructor|done].
Qed.

(** A window holds at most one more than its width. *)
Lemma window_of_size h w : Forall (Z.le 0) h -> window_of h w -> (size (rw_seen w) <= 65)%nat.
Proof.
  intros Hpos [Hh Hs]. assert (rw_seen w ⊆ list_to_set (seqZ (Z.max 0 (history_high h - 64)) 65)) as Hsub.
  { intros s [Hin Hk]%Hs. apply elem_of_list_to_set, elem_of_seqZ. pose proof (history_high_bound _ _ Hin).
    rewrite Forall_forall in Hpos. specialize (Hpos _ Hin). unfold replayWindow in *. lia. }
  apply subseteq_size in Hsub. etrans; [exact Hsub|]. rewrite size_list_to_set by apply NoDup_seqZ. by rewrite length_seqZ.
Qed.

(** C29: the anti-replay window is exact.  Over any stream of sequence numbers,
    the window answers as one that remembers everything it has accepted: a
    number is accepted if and only if it was not accepted before and is not 64 or
    more behind the highest one.  So none is accepted twice, and at most 65
    numbers are remembered at any time. *)
Theorem replay_window_exact seqs : Forall is_u64 seqs ->
  let (answers, w) := replay_run seqs newReplayWin in
  let (expected, accepted) := history_run seqs [] in
  answers = expected /\ NoDup accepted /\ (size (rw_seen w) <= 65)%nat.
Proof.
  intros Hs. destruct (replay_run_refines seqs [] newReplayWin) as [E Hw]; [split; [done|set_solver]|].
  destruct (history_run_NoDup seqs []) as [Hn Hp]; [constructor|constructor|eapply Forall_impl; [exact Hs|unfold is_u64; cbn; lia]|].
  destruct (replay_run seqs newReplayWin), (history_run seqs []). split_and!; [done|done|by eapply window_of_size].
Qed.

Lemma replay_window_exact_witness :
  (replay_run [0; 5; 5; 70; 3; 6; 7; 70] newReplayWin).1 = [true; true; false; true; false; false; true; false].
Proof.
  pose proof (replay_window_exact [0; 5; 5; 70; 3; 6; 7; 70] ltac:(repeat constructor; unfold is_u64; lia)) as H.
  destruct (replay_run [0; 5; 5; 70; 3; 6; 7; 70] newReplayWin) as [a w], (history_run [0; 5; 5; 70; 3; 6; 7; 70] []) as [x h] eqn:E.
  destruct H as (-> & _). vm_compute in E. by injection E as <- _.
Defined.

(** * Methods that leave the keys alone *)

Section quiet.
Context {C : StdCrypto} {R : Type} `{!RandSource R}.
Local Abbreviation KM := (KM (R := R)).
Implicit Types c : Client.
Implicit Types v : vniState.

(** What the data plane of a channel is: its controller and its keys. *)
Record calm v v' : Prop := {
  ca_ctrl : v_ctrl v' = v_ctrl v;
  ca_joined : v_joined v' = v_joined v;
  ca_joinEpoch : v_joinEpoch v' = v_joinEpoch v;
  ca_saCache : v_saCache v' = v_saCache v;
  ca_inSPIs : v_inSPIs v' = v_inSPIs v
}.

#[global] Instance calm_preorder : PreOrder calm.
Proof. split; [done|]. intros v1 v2 v3 [] []. split; congruence. Qed.

Record calm_client c c' : Prop := {
  cc_W : k_W c' = k_W c;
  cc_mbb : k_mbbDisabled c' = k_mbbDisabled c;
  cc_vnis : forall ch, option_Forall2 calm (k_vnis c !! ch) (k_vnis c' !! ch)
}.

#[global] Instance calm_client_preorder : PreOrder calm_client.
Proof.
  split; [split; [done|done|intros ch; by destruct (k_vnis x !! ch); constructor]|].
  intros c1 c2 c3 [W1 M1 V1] [W2 M2 V2]. split; [congruence|congruence|]. intros ch. specialize (V1 ch). specialize (V2 ch).
  destruct V1 as [v1 v2 H|]; inversion V2; subst; constructor. by etrans.
Qed.

Definition quiet {A} (m : KM A) : Prop := forall s a s', m s = Ok (a, s') -> calm_client s.1 s'.1.

Lemma quiet_ret {A} (a : A) : quiet (kret a).
Proof. by intros s b s' [= <- <-]. Qed.
Lemma quiet_lift {A} (m : outcome A) : quiet (klift m).
Proof. by intros s b s' [_ ->]%klift_ok. Qed.
Lemma quiet_get : quiet kget.
Proof. by intros s b s' [= <- <-]. Qed.
Lemma quiet_shared : quiet kshared.
Proof. by intros s b s' [= <- <-]. Qed.
Lemma quiet_share h : quiet (kshare h).
Proof. by intros [c h0] b s' [= <- <-]. Qed.
Lemma quiet_draw : quiet draw.
Proof. by intros [c h0] b s' [= <- <-]. Qed.
Lemma quiet_bind {A B} (m : KM A) (k : A -> KM B) : quiet m -> (forall a, quiet (k a)) -> quiet (kbind m k).
Proof. intros Hm Hk s b s' (a & s1 & H1 & H2)%kbind_ok. etrans; [by eapply Hm|by eapply Hk]. Qed.
Lemma quiet_update ch f : (forall v, calm v (f v)) -> quiet (update ch f).
Proof.
  intros Hf [c h] b s' [= <- <-]. split; [done|done|]. intros ch'. cbn [fst k_vnis with_vnis].
  destruct (decide (ch = ch')) as [->|Hne]; [rewrite lookup_alter_eq|rewrite lookup_alter_ne by done]; destruct (k_vnis c !! ch'); by constructor.
Qed.
Lemma quiet_settle {A} (r : outcome A) : quiet (settle r).
Proof. destruct r; [apply quiet_ret|apply quiet_ret|apply quiet_lift|apply quiet_lift]. Qed.
End quiet.

Create HintDb hush.
#[export] Hint Resolve quiet_ret quiet_lift quiet_get quiet_shared quiet_share quiet_draw quiet_settle : hush.

(** Computations that leave the keys alone, statement by statement. *)
Ltac hush := repeat first [by auto with hush|match goal with |- forall _, _ => intro | |- quiet (kbind _ _) => apply quiet_bind end|apply quiet_update; by split|case_match].

Section quiets.
Context {C : StdCrypto} {R : Type} `{!RandSource R}.

Lemma quiet_publish env : quiet (R := R) (publish env).
Proof. unfold publish. hush. Qed.
Lemma quiet_metric f : quiet (R := R) (metric f).
Proof. unfold metric. hush. Qed.
Lemma quiet_now : quiet (R := R) now.
Proof. unfold now. hush. Qed.
Lemma quiet_vni ch : quiet (R := R) (vni ch).
Proof. unfold vni. hush. Qed.
Lemma quiet_joined ch : quiet (R := R) (joined_vni ch).
Proof. apply quiet_bind; [apply quiet_vni|hush]. Qed.
Lemma quiet_loss a b x y : quiet (R := R) (packetLoss a b x y).
Proof. unfold packetLoss. hush. Qed.
End quiets.
#[export] Hint Resolve quiet_publish quiet_metric quiet_now quiet_vni quiet_joined quiet_loss : hush.

Section calls.
Context {C : StdCrypto} {R : Type} `{!RandSource R}.

Lemma quiet_toReflector ch env : quiet (R := R) (toReflector ch env).
Proof. unfold toReflector. hush. Qed.
#[local] Hint Resolve quiet_toReflector : hush.

Lemma quiet_initPeer ch before : quiet (R := R) (initPeerEpochForNewMembers ch before).
Proof. unfold initPeerEpochForNewMembers. hush. Qed.
Lemma quiet_prune ch : quiet (R := R) (pruneDepartedPeers ch).
Proof. unfold pruneDepartedPeers. hush. Qed.
Lemma quiet_recordHead ch base msg : quiet (R := R) (recordHead ch base msg).
Proof. unfold recordHead. hush. Qed.
Lemma quiet_sendCommit ch base msg : quiet (R := R) (sendCommit ch base msg).
Proof. unfold sendCommit. hush. Qed.
Lemma quiet_sendWelcome ch w added : quiet (R := R) (sendWelcome ch w added).
Proof. induction added; cbn [sendWelcome]; hush. Qed.
Lemma quiet_note ch own w added : quiet (R := R) (note_added ch own w added).
Proof. unfold note_added. hush. Qed.
Lemma quiet_resend ch l : quiet (R := R) (resend_welcomes ch l).
Proof. induction l as [|[id w] l IH]; cbn [resend_welcomes]; hush. Qed.
#[local] Hint Resolve quiet_resend : hush.
Lemma quiet_heartbeat ch : quiet (R := R) (emitHeartbeat ch).
Proof. unfold emitHeartbeat, resendUnacked. hush. Qed.
Lemma quiet_onHeartbeat env : quiet (R := R) (onHeartbeat env).
Proof. unfold onHeartbeat, requestCatchup. hush. all: apply quiet_update; intros v; repeat case_match; by split. Qed.
Lemma quiet_sendToReceiver rcv cands : quiet (R := R) (sendToReceiver rcv cands).
Proof. unfold sendToReceiver. hush. Qed.
#[local] Hint Resolve quiet_sendToReceiver : hush.
Lemma quiet_send_each rcvs cands : quiet (R := R) (send_each rcvs cands).
Proof. induction rcvs; cbn [send_each]; hush. Qed.
#[local] Hint Resolve quiet_send_each : hush.
Lemma quiet_sendData tenant : quiet (R := R) (sendData tenant).
Proof. unfold sendData, candidate. hush. Qed.
Lemma quiet_onData env : quiet (R := R) (onData env).
Proof. unfold onData. hush. Qed.
Lemma quiet_publishKeyPackage kr suite ch identity signer : quiet (R := R) (publishKeyPackage kr suite ch identity signer).
Proof. unfold publishKeyPackage. hush. Qed.
End calls.
#[export] Hint Resolve quiet_initPeer quiet_prune quiet_recordHead quiet_sendCommit quiet_sendWelcome quiet_note
  quiet_heartbeat quiet_onHeartbeat quiet_sendData quiet_onData quiet_publishKeyPackage : hush.

(** * What the controller's methods do to the epoch *)

Section epochs.
Context {C : StdCrypto} {X S : Type} (accept : S -> call X -> outcome bool * S) (who : X).
Implicit Types c : Controller.

(** The association of the epoch is the derived one. *)
Definition fresh c (g : Group) (sa : SA) : Prop :=
  c_g c = Some g /\ c_curSA c = Some sa /\ DeriveSAKeys (group_view g) (cfg_VNI (c_cfg c)) = Ok sa.

(** A step into the next epoch, with its association. *)
Definition entered c c' : Prop :=
  cfg_VNI (c_cfg c') = cfg_VNI (c_cfg c) /\
  exists g g' sa, c_g c = Some g /\ Epoch g' = u64 (Epoch g + 1) /\ fresh c' g' sa.

(** A call that has failed leaves the association as it was, and the group
    perhaps in its next epoch. *)
Definition idled c c' : Prop :=
  cfg_VNI (c_cfg c') = cfg_VNI (c_cfg c) /\ c_curSA c' = c_curSA c /\
  exists g g', c_g c = Some g /\ c_g c' = Some g' /\
    (Epoch g' = u64 (Epoch g + 1) \/ group_view g' = group_view g /\ ActiveLeaves g' = ActiveLeaves g).

Lemma idled_refl c g : c_g c = Some g -> idled c c.
Proof. intros Hg. split_and!; [done|done|]. exists g, g. auto. Qed.

Lemma rotateSA_step c g g' (s : S) : c_g c = Some g -> Epoch g' = u64 (Epoch g + 1) ->
  match rotateSA (with_g g' c, s) with
  | (Ok _, (c', _)) => entered c c'
  | (_, (c', _)) => idled c c'
  end.
Proof.
  intros Hg He. rewrite (rotateSA_ok _ g') by done. cbn [with_g c_cfg c_g c_groupID c_suite c_curSA].
  destruct (DeriveSAKeys _ _) as [sa| | |] eqn:Ed; [split; [done|]; by exists g, g', sa|..].
  all: split; [done|]; split; [done|]; exists g, g'; auto.
Qed.

Lemma HandleCommit_step commitMsg c g (s : S) : c_g c = Some g ->
  match HandleCommit commitMsg (c, s) with
  | (Ok _, (c', _)) => entered c c'
  | (_, (c', _)) => idled c c'
  end.
Proof.
  intros Hg. unfold HandleCommit. rewrite cbind_get. cbn [fst]. rewrite Hg.
  pose proof (idled_refl c g Hg) as Hi. unfold cbind at 1, clift.
  destruct (commitRemovesSelf g commitMsg) as [[]| | |]; try done. unfold cbind, on_group. rewrite Hg.
  pose proof (ProcessCommit_fails [] commitMsg g) as Hf. unfold fails_in in Hf.
  destruct (ProcessCommit [] commitMsg g) as [[[]| | |] g'] eqn:E.
  { apply rotateSA_step with (g := g); [done|]. by eapply ne_epoch, ProcessCommit_epoch. }
  all: subst g'; by destruct c; cbn in Hg; subst.
Qed.

Lemma spent_idles c g g' : c_g c = Some g -> spent_handshake g g' -> idled c (with_g g' c).
Proof. intros Hg [->| ->]; (split_and!; [done|done|]); eexists g, _; (split_and!; [done|done|by right]). Qed.

Lemma commitAndOrder_step r ps c g (s : S) : c_g c = Some g ->
  match commitAndOrder accept who r ps (c, s) with
  | (Ok (cm, _, true, None), (c', _)) => is_Some cm /\ entered c c'
  | (_, (c', _)) => idled c c'
  end.
Proof.
  intros Hg. unfold commitAndOrder. rewrite cbind_get. cbn [fst]. rewrite Hg. unfold cbind at 1, ctry at 1, on_group. rewrite Hg.
  pose proof (Group_Commit_fails r (mkCommitOptions ps []) g) as Hf. unfold fails_in in Hf.
  destruct (Group_Commit r _ g) as [[[commit w]| | |] g'] eqn:E; cycle 1.
  1-3: by eapply spent_idles.
  assert (Epoch g' = u64 (Epoch g + 1)) as He by (eapply ne_epoch, Group_Commit_epoch; exact E).
  assert (idled c (with_g g' c)) as Hi by (split_and!; [done|done|]; exists g, g'; auto).
  unfold cbind at 1, ctry at 1, order. destruct (accept s _) as [[[]| | |] s1]; try done.
  pose proof (rotateSA_step c g g' s1 Hg He) as Hr. unfold cbind, ctry, clift. destruct (rotateSA _) as [[[]| | |] [c' s']]; by eauto.
Qed.

Lemma Rekey_step r c g (s : S) : c_g c = Some g ->
  match Rekey accept who r (c, s) with
  | (Ok (Some _, true, None), (c', _)) => entered c c'
  | (_, (c', _)) => idled c c'
  end.
Proof.
  intros Hg. pose proof (idled_refl c g Hg) as Hi. unfold Rekey. rewrite cbind_get. cbn [fst]. rewrite Hg. unfold cbind at 1, clift at 1.
  destruct (IsCommitter c) as [[]| | |]; try done. cbn [negb]. pose proof (commitAndOrder_step r [] c g s Hg) as Hc.
  unfold cbind, clift. destruct (commitAndOrder _ _ _ _ _) as [[[[[[m|] w] []] [e|]]| | |] [c' s']]; try done; by destruct Hc as [[? ?] ?].
Qed.

Lemma Reconcile_step r desired c g (s : S) : c_g c = Some g ->
  match Reconcile accept who r desired (c, s) with
  | (Ok (res, None), (c', _)) => if res_Committed res then entered c c' else idled c c'
  | (_, (c', _)) => idled c c'
  end.
Proof.
  intros Hg. pose proof (idled_refl c g Hg) as Hi. unfold Reconcile. rewrite cbind_get. cbn [fst]. rewrite Hg.
  destruct (cfg_Validator (c_cfg c)) as [validate|]; [|done].
  unfold cbind at 1, clift at 1. destruct (identityToLeaf validate g) as [m| | |]; try done.
  unfold cbind at 1, clift at 1. destruct (ActiveLeaves g) as [leaves| | |]; try done. cbv zeta. destruct (negb _); [done|].
  unfold cbind at 1, clift at 1. destruct (build_adds _ _) as [[[adds added] pending]| | |]; try done.
  destruct (map ProposeRemove _ ++ adds) as [|p ps]; [done|]. match goal with |- context [commitAndOrder _ _ r ?ps] => pose proof (commitAndOrder_step r ps c g s Hg) as Hc end.
  unfold cbind, clift. destruct (commitAndOrder _ _ _ _ _) as [[[[[[cm|] w] []] [e|]]| | |] [c' s']]; try done; by destruct Hc as [[? ?] ?].
Qed.

Lemma JoinViaWelcome_step w kp ip lp c (s : S) :
  match JoinViaWelcome w kp ip lp (c, s) with
  | (r, (c', _)) => cfg_VNI (c_cfg c') = cfg_VNI (c_cfg c) /\ (is_ok r = true -> exists g sa, fresh c' g sa)
  end.
Proof.
  unfold JoinViaWelcome. rewrite cbind_get. cbn [fst]. unfold cbind at 1, clift. destruct (JoinFromWelcome _ _ _) as [g| | |]; try done.
  unfold adopt, applyHandshakePrivacy, deriveCur, on_group, SetEncryptHandshakes, cbind, cget, cput, clift. cbn.
  destruct (DeriveSAKeys _ _) as [sa| | |] eqn:E; try done. split; [done|]. intros _. by eexists _, _.
Qed.

Lemma NewController_fresh cfg g (s : S) c s' : NewController cfg (Some g) s = Ok (c, s') ->
  cfg_VNI (c_cfg c) = cfg_VNI cfg /\ exists g' sa, fresh c g' sa.
Proof.
  unfold NewController, applyHandshakePrivacy, deriveCur, on_group, SetEncryptHandshakes, cbind, cget, cput, clift. cbn.
  destruct (DeriveSAKeys _ _) as [sa| | |] eqn:E; try done. intros [= <- <-]. split; [done|]. by eexists _, _.
Qed.
End epochs.

(** * Keys of a channel *)

Lemma u64_small z : 0 <= z < 2 ^ 64 -> u64 z = z.
Proof. apply Z.mod_small. Qed.

Section keys.
Context {C : StdCrypto} {R : Type} `{!RandSource R}.
Implicit Types c : Client.
Implicit Types v : vniState.

Definition epoch_of v : Z := Controller_Epoch (v_ctrl v).

(** The association of a group's epoch is cached, and with it the SPIs of the
    senders of that epoch. *)
Definition cached v (g : Group) (sa : SA) : Prop :=
  v_saCache v !! sa_Epoch sa = Some (Some sa) /\ DeriveSAKeys (group_view g) (cfg_VNI (c_cfg (v_ctrl v))) = Ok sa /\
  exists leaves spis, ActiveLeaves g = Ok leaves /\ v_inSPIs v !! sa_Epoch sa = Some spis /\
    forall l s, l ∈ leaves -> SenderSPI sa l = Ok s -> s ∈ spis.

(** A channel holds keys once it is joined, of no later epoch than its own; and
    when its controller has the association of its epoch, it is cached. *)
Record tidy (ch : Z) v : Prop := {
  td_vni : cfg_VNI (c_cfg (v_ctrl v)) = ch;
  td_out : v_joined v = false -> v_saCache v = ∅ /\ v_inSPIs v = ∅;
  td_group : v_joined v = true -> is_Some (c_g (v_ctrl v));
  td_past : v_joined v = true -> forall e, is_Some (v_saCache v !! e) -> e <= epoch_of v;
  td_sa : v_joined v = true -> forall sa, c_curSA (v_ctrl v) = Some sa -> sa_Epoch sa <= epoch_of v;
  td_cached : v_joined v = true -> forall g sa, c_g (v_ctrl v) = Some g -> c_curSA (v_ctrl v) = Some sa ->
    sa_Epoch sa = epoch_of v -> cached v g sa
}.

(** How a joined channel may change: it moves on by at most [n] epochs, and
    keeps the keys of the window [w]. *)
Record good (w n : Z) v v' : Prop := {
  gd_joined : v_joined v' = true;
  gd_joinEpoch : v_joinEpoch v' = v_joinEpoch v;
  gd_epoch : epoch_of v <= epoch_of v' <= epoch_of v + n;
  gd_keys : forall e sa, v_saCache v !! e = Some sa -> epoch_of v' <= e + w ->
    v_saCache v' !! e = Some sa /\ v_inSPIs v' !! e = v_inSPIs v !! e
}.

(** Room for [n] more epochs in 64 bits. *)
Definition roomy (n : Z) v : Prop := v_joined v = true -> 0 < n -> 0 <= epoch_of v /\ epoch_of v + n < 2 ^ 64.

(** A cached association: what [cacheCurrentSA] does to the channel. *)
Definition cache_sa (w : Z) (sa : SA) (spis : gset Z) v : vniState :=
  let v := set_inSPIs (<[sa_Epoch sa := {[sa_SPI sa]} ∪ spis]> (v_inSPIs v)) (set_saCache (<[sa_Epoch sa := Some sa]> (v_saCache v)) v) in
  set_inSPIs (filter (fun x => ~ (outside (epoch_of v) w x.1 /\ x.1 ∈ dom (v_saCache v))) (v_inSPIs v))
    (set_saCache (filter (fun x => ~ outside (epoch_of v) w x.1) (v_saCache v)) v).

Lemma tidy_calm ch v v' : calm v v' -> tidy ch v -> tidy ch v'.
Proof.
  intros [E1 E2 E3 E4 E5] [H1 H2 H3 H4 H5 H6]. split; unfold cached, epoch_of in *; rewrite ?E1, ?E2, ?E4, ?E5; auto.
Qed.

Lemma good_calm w v v' : calm v v' -> v_joined v = true -> good w 0 v v'.
Proof. intros [E1 E2 E3 E4 E5] Hj. split; unfold epoch_of in *; rewrite ?E1, ?E2, ?E3, ?E4, ?E5; auto. lia. Qed.

Lemma good_trans w n m v v1 v2 : good w n v v1 -> good w m v1 v2 -> good w (n + m) v v2.
Proof.
  intros [J1 E1 P1 K1] [J2 E2 P2 K2]. split; [done|congruence|lia|]. intros e sa He Hw.
  destruct (K1 e sa He) as [Ka Ka']; [lia|]. destruct (K2 e sa Ka Hw) as [Kb Kb']. by rewrite Kb', Ka'.
Qed.

Lemma sender_spis_in sa leaves spis : sender_spis (Some sa) leaves = Ok spis ->
  forall l s, l ∈ leaves -> SenderSPI sa l = Ok s -> s ∈ spis.
Proof.
  revert spis. induction leaves as [|leaf leaves IH]; intros spis H l s Hl Hs; [by apply elem_of_nil in Hl|].
  cbn [sender_spis] in H. apply elem_of_cons in Hl as [->|Hl].
  - rewrite Hs in H. apply obind_ok in H as (rest & _ & [= <-]). set_solver.
  - destruct (SenderSPI sa leaf); [|by eapply IH|done..]. apply obind_ok in H as (rest & Hr & [= <-]).
    apply elem_of_union_r. by eapply IH.
Qed.

(** The keys after caching: the new ones, and those of the window. *)
Lemma cache_sa_new w sa spis v : 0 <= w -> sa_Epoch sa = epoch_of v ->
  v_saCache (cache_sa w sa spis v) !! sa_Epoch sa = Some (Some sa) /\
  v_inSPIs (cache_sa w sa spis v) !! sa_Epoch sa = Some ({[sa_SPI sa]} ∪ spis).
Proof.
  intros Hw He. unfold cache_sa. cbn. unfold epoch_of. cbn. unfold outside.
  split; apply map_lookup_filter_Some; (split; [by rewrite lookup_insert_eq|]); cbn; unfold epoch_of in He; lia.
Qed.

Lemma cache_sa_old w sa spis v e : e <> sa_Epoch sa -> epoch_of v <= e + w ->
  v_saCache (cache_sa w sa spis v) !! e = v_saCache v !! e /\ v_inSPIs (cache_sa w sa spis v) !! e = v_inSPIs v !! e.
Proof.
  intros Hne Hw. unfold cache_sa. cbn. unfold epoch_of in *. cbn. unfold outside.
  split; rewrite map_lookup_filter; rewrite lookup_insert_ne by done.
  - destruct (v_saCache v !! e); cbn; [|done]. rewrite option_guard_True; [done|lia].
  - destruct (v_inSPIs v !! e); cbn; [|done]. rewrite option_guard_True; [done|lia].
Qed.

Lemma cache_sa_dom w sa spis v e x : v_saCache (cache_sa w sa spis v) !! e = Some x -> e = sa_Epoch sa \/ v_saCache v !! e = Some x.
Proof.
  unfold cache_sa. cbn. intros [H _]%map_lookup_filter_Some. destruct (decide (e = sa_Epoch sa)) as [->|Hne]; [by left|].
  rewrite lookup_insert_ne in H by done. by right.
Qed.

(** A group with its association: the state after the association was
    cached, whatever keys of earlier epochs there were. *)
Lemma tidy_cached ch w v ctrl g sa leaves spis : 0 <= w -> cfg_VNI (c_cfg ctrl) = ch -> fresh ctrl g sa ->
  ActiveLeaves g = Ok leaves -> sender_spis (Some sa) leaves = Ok spis -> v_joined v = true -> v_ctrl v = ctrl ->
  (forall e, is_Some (v_saCache v !! e) -> e <= Epoch g) -> tidy ch (cache_sa w sa spis v).
Proof.
  intros Hw Hch (Eg & Esa & Hd) Hl Hs Hj Ec Hpast.
  assert (epoch_of v = Epoch g) as Ee by (unfold epoch_of, Controller_Epoch; by rewrite Ec, Eg).
  assert (sa_Epoch sa = epoch_of v) as Ese by (rewrite Ee; apply (DeriveSAKeys_ok _ _ _ Hd)).
  split; change (v_ctrl (cache_sa w sa spis v)) with (v_ctrl v); change (v_joined (cache_sa w sa spis v)) with (v_joined v);
    change (epoch_of (cache_sa w sa spis v)) with (epoch_of v); rewrite ?Ec.
  - done.
  - by rewrite Hj.
  - eauto.
  - intros _ e [x [->|Hx]%cache_sa_dom]; [lia|]. rewrite Ee. eauto.
  - rewrite Esa. intros _ sa' [= <-]. lia.
  - rewrite Esa, Eg. intros _ g' sa' [= <-] [= <-] _. destruct (cache_sa_new w sa spis v Hw Ese) as [H1 H2].
    split; [done|]. split; [change (v_ctrl (cache_sa w sa spis v)) with (v_ctrl v); by rewrite Ec|].
    eexists leaves, _. split_and!; [done|exact H2|]. intros l s Hin Hsp. apply elem_of_union_r. by eapply sender_spis_in.
Qed.

(** Entering the next epoch, and caching its association. *)
Lemma channel_enters ch w v ctrl g sa leaves spis : 0 <= w -> tidy ch v -> roomy 1 v -> v_joined v = true -> entered (v_ctrl v) ctrl ->
  fresh ctrl g sa -> ActiveLeaves g = Ok leaves -> sender_spis (Some sa) leaves = Ok spis ->
  tidy ch (cache_sa w sa spis (set_ctrl ctrl v)) /\ good w 1 v (cache_sa w sa spis (set_ctrl ctrl v)).
Proof.
  intros Hw Ht Hr Hj (Ev & g0 & g' & sa' & Eg0 & He & Eg' & Esa' & _) Hf Hl Hs. pose proof Hf as (Eg & Esa & Hd).
  assert (g' = g) as -> by congruence. clear sa' Esa' Eg'.
  assert (epoch_of v = Epoch g0) as Ee0 by (unfold epoch_of, Controller_Epoch; by rewrite Eg0).
  destruct (Hr Hj ltac:(lia)) as [Hlo Hhi]. rewrite <- Ee0, u64_small in He by lia.
  assert (epoch_of (set_ctrl ctrl v) = Epoch g) as Ee by (unfold epoch_of, Controller_Epoch; cbn; by rewrite Eg).
  assert (sa_Epoch sa = Epoch g) as Ese by apply (DeriveSAKeys_ok _ _ _ Hd). split.
  - eapply tidy_cached; eauto; [rewrite Ev; by apply (td_vni _ _ Ht)|]. intros e Hx. pose proof (td_past _ _ Ht Hj e Hx). lia.
  - split; [done|done| |].
    + change (epoch_of (cache_sa w sa spis (set_ctrl ctrl v))) with (epoch_of (set_ctrl ctrl v)). lia.
    + intros e x Hx. change (epoch_of (cache_sa w sa spis (set_ctrl ctrl v))) with (epoch_of (set_ctrl ctrl v)). intros Hwin.
      pose proof (td_past _ _ Ht Hj e (ex_intro _ _ Hx)). destruct (cache_sa_old w sa spis (set_ctrl ctrl v) e) as [H1 H2]; [lia|done|].
      rewrite H1, H2. done.
Qed.

(** A failed call. *)
Lemma channel_idles ch w v ctrl : tidy ch v -> roomy 1 v -> v_joined v = true -> idled (v_ctrl v) ctrl ->
  tidy ch (set_ctrl ctrl v) /\ good w 1 v (set_ctrl ctrl v).
Proof.
  intros Ht Hr Hj (Ev & Esa & g & g' & Eg & Eg' & Hg). destruct (Hr Hj ltac:(lia)) as [Hlo Hhi].
  assert (epoch_of v = Epoch g) as Ee by (unfold epoch_of, Controller_Epoch; by rewrite Eg).
  assert (epoch_of (set_ctrl ctrl v) = Epoch g') as Ee' by (unfold epoch_of, Controller_Epoch; cbn; by rewrite Eg').
  assert (Epoch g' = Epoch g + 1 \/ group_view g' = group_view g /\ ActiveLeaves g' = ActiveLeaves g) as Hg'
    by (destruct Hg as [Hg|Hg]; [left; by rewrite Hg, u64_small by lia|by right]).
  assert (epoch_of v <= epoch_of (set_ctrl ctrl v) <= epoch_of v + 1) as Hb.
  { destruct Hg' as [Hg'|[Hv _]]; [lia|]. assert (Epoch g' = Epoch g) by (change (gv_Epoch (group_view g') = gv_Epoch (group_view g)); by rewrite Hv). lia. }
  split.
  - split; cbn [set_ctrl v_ctrl v_joined v_saCache v_inSPIs].
    + rewrite Ev. apply (td_vni _ _ Ht).
    + by apply (td_out _ _ Ht).
    + eauto.
    + intros _ e Hx. pose proof (td_past _ _ Ht Hj e Hx). lia.
    + rewrite Esa. intros _ sa Hsa. pose proof (td_sa _ _ Ht Hj sa Hsa). lia.
    + rewrite Esa, Eg'. intros _ h sa [= <-] Hsa Hse. pose proof (td_sa _ _ Ht Hj sa Hsa).
      destruct Hg' as [Hg'|[Hv Hl]]; [lia|]. destruct (td_cached _ _ Ht Hj g sa Eg Hsa ltac:(lia)) as (H1 & H2 & H3).
      split; [done|]. cbn [set_ctrl v_ctrl]. by rewrite Ev, Hv, Hl.
  - by split.
Qed.
End keys.

(** * Keys of a client *)

Section clients.
Context {C : StdCrypto} {R : Type} `{!RandSource R} (commitRand : nat -> CommitRand) (kpRand : nat -> Rand * Rand).
Local Abbreviation KM := (KM (R := R)).
Implicit Types c : Client.
Implicit Types v : vniState.

Definition wnd c : Z := u64 (effectiveW c).

Definition tidy_client c : Prop := forall ch v, k_vnis c !! ch = Some v -> tidy ch v.
Definition roomy_client (n : Z) c : Prop := forall ch v, k_vnis c !! ch = Some v -> roomy n v.

(** Channels may be left, and none is joined. *)
Definition evolves (n : Z) c c' : Prop :=
  wnd c' = wnd c /\ forall ch v', k_vnis c' !! ch = Some v' ->
    exists v, k_vnis c !! ch = Some v /\ v_joined v' = v_joined v /\ (v_joined v = true -> good (wnd c) n v v').

Definition steps (n : Z) c c' : Prop := tidy_client c' /\ evolves n c c'.

Lemma wnd_nonneg c : 0 <= wnd c.
Proof. apply Z.mod_pos_bound. lia. Qed.

Lemma wnd_calm c c' : calm_client c c' -> wnd c' = wnd c.
Proof. intros [E1 E2 _]. unfold wnd, effectiveW. by rewrite E1, E2. Qed.

Lemma calm_back c c' ch v' : calm_client c c' -> k_vnis c' !! ch = Some v' -> exists v, k_vnis c !! ch = Some v /\ calm v v'.
Proof. intros Hc Hv. pose proof (cc_vnis _ _ Hc ch) as H. rewrite Hv in H. inversion H; subst; eauto. Qed.

Lemma steps_calm c c' : tidy_client c -> calm_client c c' -> steps 0 c c'.
Proof.
  intros Ht Hc. split.
  - intros ch v' (v & Hv & Hcv)%(calm_back _ _ _ _ Hc). eapply tidy_calm; eauto.
  - split; [by apply wnd_calm|]. intros ch v' (v & Hv & Hcv)%(calm_back _ _ _ _ Hc). exists v.
    split_and!; [done|apply Hcv|]. by apply good_calm.
Qed.

Lemma steps_trans n m c c1 c2 : steps n c c1 -> steps m c1 c2 -> steps (n + m) c c2.
Proof.
  intros [_ [W1 E1]] [T2 [W2 E2]]. split; [done|]. split; [congruence|]. intros ch v2 (v1 & Hv1 & J1 & G1)%E2.
  destruct (E1 ch v1 Hv1) as (v & Hv & J & G). exists v. split_and!; [done|congruence|]. intros Hj.
  eapply good_trans; [by apply G|]. rewrite <- W1. apply G1. congruence.
Qed.

Lemma steps_then n c c1 c2 : steps n c c1 -> calm_client c1 c2 -> steps n c c2.
Proof. intros H Hc. rewrite <- (Z.add_0_r n). eapply steps_trans; [done|]. apply steps_calm; [apply H|done]. Qed.

Lemma roomy_steps n m c c' : 0 <= n -> roomy_client (n + m) c -> steps n c c' -> roomy_client m c'.
Proof.
  intros Hn Hr [_ [_ E]] ch v' (v & Hv & J & G)%E Hj Hm. rewrite J in Hj. specialize (G Hj).
  destruct (Hr _ _ Hv Hj ltac:(lia)). pose proof (gd_epoch _ _ _ _ G). lia.
Qed.

Lemma good_refl w n v : 0 <= n -> v_joined v = true -> good w n v v.
Proof. split; auto. lia. Qed.

(** An assignment to one channel. *)
Lemma steps_alter n c ch f : 0 <= n -> tidy_client c ->
  (forall v, k_vnis c !! ch = Some v -> tidy ch (f v) /\ v_joined (f v) = v_joined v /\ (v_joined v = true -> good (wnd c) n v (f v))) ->
  steps n c (with_vnis (alter f ch (k_vnis c)) c).
Proof.
  intros Hn Ht Hf. split.
  - intros ch' v'. cbn [k_vnis with_vnis]. destruct (decide (ch = ch')) as [<-|Hne].
    + rewrite lookup_alter_eq. intros (v & Hv & ->)%fmap_Some. by apply Hf.
    + rewrite lookup_alter_ne by done. apply Ht.
  - split; [done|]. intros ch' v'. cbn [k_vnis with_vnis]. destruct (decide (ch = ch')) as [<-|Hne].
    + rewrite lookup_alter_eq. intros (v & Hv & ->)%fmap_Some. exists v. split; [done|]. by apply Hf.
    + rewrite lookup_alter_ne by done. intros Hv. exists v'. split_and!; [done|done|]. by apply good_refl.
Qed.

(** ** The calls of a controller *)

Lemma on_ctrl_ok {A} ch v (m : CM (S := unit) A) c h r c' h' : on_ctrl (R := R) ch v m (c, h) = Ok (r, (c', h')) ->
  exists ctrl, m (with_directory (h_dir h) ch (v_ctrl v), tt) = (r, (ctrl, tt)) /\ h' = h /\
    c' = with_vnis (alter (set_ctrl ctrl) ch (k_vnis c)) c.
Proof.
  unfold on_ctrl, update, kshared, kbind, kget, kput, kret. cbn. destruct (m _) as [r1 [ctrl []]]. cbn.
  intros [= <- <- <-]. by exists ctrl.
Qed.

(** [cacheCurrentSA] when the controller has the association of its epoch. *)
Lemma cacheCurrentSA_fresh ch v g sa c h u c' h' : k_vnis c !! ch = Some v -> v_joined v = true -> fresh (v_ctrl v) g sa ->
  cacheCurrentSA (R := R) ch (c, h) = Ok (u, (c', h')) ->
  exists leaves spis, ActiveLeaves g = Ok leaves /\ sender_spis (Some sa) leaves = Ok spis /\
    calm_client (with_vnis (alter (cache_sa (wnd c) sa spis) ch (k_vnis c)) c) c'.
Proof.
  intros Hv Hj (Eg & Esa & _) H. unfold cacheCurrentSA in H.
  apply kbind_ok in H as (st & s1 & Hst & H). unfold joined_vni, vni, kbind, kget, kret in Hst. cbn in Hst. rewrite Hv, Hj in Hst.
  injection Hst as <- <-. unfold CurrentSA in H. rewrite Eg, Esa in H. unfold Controller_Group in H. rewrite Eg in H.
  apply kbind_ok in H as (spis & s1 & Hsp & H). apply klift_ok in Hsp as [Hsp ->]. apply obind_ok in Hsp as (leaves & Hl & Hsp).
  exists leaves, spis. split_and!; [done|done|].
  apply kbind_ok in H as (u1 & s1 & Hu & H). unfold update, kbind, kget, kput in Hu. cbn in Hu. injection Hu as <- <-.
  apply kbind_ok in H as (u2 & s1 & Hu & H). unfold trimSAs, update, kbind, kget, kput in Hu. cbn in Hu. injection Hu as <- <-.
  assert (quiet (R := R) (at! st := vni ch in metric (observeOverlap (match st with Some v => Z.of_nat (size (v_saCache v)) | None => 0 end)))%go)
    as Hq by hush.
  specialize (Hq _ _ _ H). cbn [fst] in Hq. rewrite alter_alter_eq in Hq. exact Hq.
Qed.

(** The step of the controller into the next epoch, and its association. *)
Lemma steps_enter ch v ctrl c h u c' h' : tidy_client c -> roomy_client 1 c -> k_vnis c !! ch = Some v -> v_joined v = true ->
  entered (v_ctrl v) ctrl ->
  cacheCurrentSA (R := R) ch (with_vnis (alter (set_ctrl ctrl) ch (k_vnis c)) c, h) = Ok (u, (c', h')) -> steps 1 c c'.
Proof.
  intros Ht Hr Hv Hj He H. pose proof He as (Ev & g & g' & sa & Eg & Ee & Hf).
  eapply (cacheCurrentSA_fresh ch (set_ctrl ctrl v) g' sa) in H as (leaves & spis & Hl & Hsp & Hc); [|cbn; by rewrite lookup_alter_eq, Hv|done|done].
  assert (calm_client (with_vnis (alter (cache_sa (wnd c) sa spis ∘ set_ctrl ctrl) ch (k_vnis c)) c) c') as Hc'
    by (rewrite <- alter_alter_eq; exact Hc).
  eapply steps_then; [|exact Hc'].
  apply steps_alter; [lia|done|]. intros v1 Hv1. assert (v1 = v) as -> by congruence. cbn [compose].
  destruct (channel_enters ch (wnd c) v ctrl g' sa leaves spis (wnd_nonneg c) (Ht _ _ Hv) (Hr _ _ Hv) Hj He Hf Hl Hsp). done.
Qed.

Lemma steps_idle ch v ctrl c : tidy_client c -> roomy_client 1 c -> k_vnis c !! ch = Some v -> v_joined v = true ->
  idled (v_ctrl v) ctrl -> steps 1 c (with_vnis (alter (set_ctrl ctrl) ch (k_vnis c)) c).
Proof.
  intros Ht Hr Hv Hj Hi. apply steps_alter; [lia|done|]. intros v1 Hv1. assert (v1 = v) as -> by congruence.
  destruct (channel_idles ch (wnd c) v ctrl (Ht _ _ Hv) (Hr _ _ Hv) Hj Hi). done.
Qed.

Lemma tidy_group c ch v : tidy_client c -> k_vnis c !! ch = Some v -> v_joined v = true -> exists g, c_g (v_ctrl v) = Some g.
Proof. intros Ht Hv Hj. destruct (td_group _ _ (Ht _ _ Hv) Hj) as [g Hg]. by exists g. Qed.

Lemma joined_vni_ok ch c h st s' : joined_vni (R := R) ch (c, h) = Ok (st, s') ->
  s' = (c, h) /\ match st with Some v => k_vnis c !! ch = Some v /\ v_joined v = true | None => True end.
Proof.
  unfold joined_vni, vni, kbind, kget, kret. cbn. intros [= <- <-]. split; [done|].
  destruct (k_vnis c !! ch) as [v|]; [|done]. destruct (v_joined v) eqn:E; [done|done].
Qed.

Lemma settle_ok {A} (r : outcome A) s x s' : settle (R := R) r s = Ok (x, s') ->
  s' = s /\ r = match x with inl a => Ok a | inr e => Err e end.
Proof. destruct r; cbn; try done; by intros [= <- <-]. Qed.
(** ** Committing and following *)

Lemma canCommit_ok ch c h st s' : canCommit (R := R) ch (c, h) = Ok (st, s') ->
  s' = (c, h) /\ match st with Some v => k_vnis c !! ch = Some v /\ v_joined v = true | None => True end.
Proof.
  unfold canCommit. intros (st1 & s1 & [-> Hv]%joined_vni_ok & H)%kbind_ok. destruct st1 as [v|]; [|by injection H as <- <-].
  apply kbind_ok in H as (b & s2 & [_ ->]%klift_ok & H).
  destruct (negb b); [by injection H as <- <-|]. destruct (0 <? _); [by injection H as <- <-|].
  destruct (_ && _); by injection H as <- <-.
Qed.

(** A computation on a tidy client with room for [n] epochs. *)
Definition sound {A} (n : Z) (m : KM A) : Prop :=
  forall c h a c' h', tidy_client c -> roomy_client n c -> m (c, h) = Ok (a, (c', h')) -> steps n c c'.

Lemma steps_refl n c : 0 <= n -> tidy_client c -> steps n c c.
Proof. intros Hn Ht. split; [done|]. split; [done|]. intros ch v Hv. exists v. split_and!; [done|done|by apply good_refl]. Qed.

Lemma steps_le n m c c' : n <= m -> steps n c c' -> steps m c c'.
Proof.
  intros Hle [Ht [Hw He]]. split; [done|]. split; [done|]. intros ch v' (v & Hv & J & G)%He. exists v. split_and!; [done|done|].
  intros Hj. destruct (G Hj) as [g1 g2 g3 g4]. split; [done|done|lia|done].
Qed.

Lemma sound_quiet {A} (m : KM A) n : 0 <= n -> quiet m -> sound n m.
Proof. intros Hn Hq c h a c' h' Ht Hr H. apply (steps_le 0); [done|]. apply steps_calm; [done|]. by apply (Hq _ _ _ H). Qed.

(** After the controller's step, whatever follows leaves the keys alone. *)
Lemma steps_commit {A} ch v ctrl (k : KM A) c h a c' h' : tidy_client c -> roomy_client 1 c -> k_vnis c !! ch = Some v ->
  v_joined v = true -> entered (v_ctrl v) ctrl -> quiet k ->
  kbind (cacheCurrentSA ch) (fun _ => k) (with_vnis (alter (set_ctrl ctrl) ch (k_vnis c)) c, h) = Ok (a, (c', h')) -> steps 1 c c'.
Proof.
  intros Ht Hr Hv Hj He Hk H. apply kbind_ok in H as ([] & [c2 h3] & Hcache & H).
  eapply steps_then; [by eapply steps_enter|]. by apply (Hk _ _ _ H).
Qed.

Lemma sound_rekey ch : sound 1 (rekey commitRand ch).
Proof.
  intros c h u c' h' Ht Hr H. unfold rekey in H. apply kbind_ok in H as (st & s1 & [-> Hst]%canCommit_ok & H).
  destruct st as [v|]; [destruct Hst as [Hv Hj]|injection H as <- <- <-; by apply steps_refl].
  apply kbind_ok in H as (i & [c1 h1] & [= <- <- <-] & H). destruct (tidy_group _ _ _ Ht Hv Hj) as [g Hg].
  apply kbind_ok in H as (r & [c1 h2] & (ctrl & Hrun & -> & ->)%on_ctrl_ok & H).
  apply kbind_ok in H as (x & s1 & [-> ->]%settle_ok & H). cbn [h_dir] in Hrun.
  pose proof (Rekey_step optimistic_accept tt (commitRand (h_drawn h)) (with_directory (h_dir h) ch (v_ctrl v)) g tt Hg) as Hs.
  rewrite Hrun in Hs. destruct x as [[[[m|] []] [e|]]|e]; try (injection H as <- <- <-; by eapply steps_idle).
  eapply (steps_commit ch v ctrl); [done..|exact Hs| |exact H]. hush.
Qed.

Lemma sound_reconcile ch desired : sound 1 (reconcile commitRand ch desired).
Proof.
  intros c h u c' h' Ht Hr H. unfold reconcile in H. apply kbind_ok in H as (st & s1 & [-> Hst]%canCommit_ok & H).
  destruct st as [v|]; [destruct Hst as [Hv Hj]|injection H as <- <- <-; by apply steps_refl].
  apply kbind_ok in H as (i & [c1 h1] & [= <- <- <-] & H). destruct (tidy_group _ _ _ Ht Hv Hj) as [g Hg].
  apply kbind_ok in H as (r & [c1 h2] & (ctrl & Hrun & -> & ->)%on_ctrl_ok & H).
  apply kbind_ok in H as (x & s1 & [-> ->]%settle_ok & H). cbn [h_dir] in Hrun.
  pose proof (Reconcile_step optimistic_accept tt (commitRand (h_drawn h)) desired (with_directory (h_dir h) ch (v_ctrl v)) g tt Hg) as Hs.
  rewrite Hrun in Hs. destruct x as [[res [e|]]|e]; try (injection H as <- <- <-; by eapply steps_idle).
  destruct (res_Committed res); cbn [negb] in H; [|injection H as <- <- <-; by eapply steps_idle].
  eapply (steps_commit ch v ctrl); [done..|exact Hs| |exact H]. hush.
Qed.

Lemma sound_leave ch n : 0 <= n -> sound n (leaveVNI (R := R) ch).
Proof.
  intros Hn c h u c' h' Ht _ H. unfold leaveVNI, kbind, kget, kshared, kshare, kput in H. cbn in H. injection H as <- <- <-. split.
  - intros ch' v. cbn [k_vnis with_vnis]. intros [_ Hv]%lookup_delete_Some. by apply Ht.
  - split; [done|]. intros ch' v. cbn [k_vnis with_vnis]. intros [_ Hv]%lookup_delete_Some. exists v. split_and!; [done|done|by apply good_refl].
Qed.

Lemma sound_apply ch v0 v msg c h b c' h' : tidy_client c -> roomy_client 1 c -> k_vnis c !! ch = Some v -> v_joined v = true ->
  v_ctrl v0 = v_ctrl v -> apply_commit (R := R) ch v0 msg (c, h) = Ok (b, (c', h')) -> steps 1 c c'.
Proof.
  intros Ht Hr Hv Hj E0 H. unfold apply_commit in H. destruct (tidy_group _ _ _ Ht Hv Hj) as [g Hg].
  apply kbind_ok in H as (before & s1 & [_ ->]%klift_ok & H).
  apply kbind_ok in H as (r & [c1 h2] & (ctrl & Hrun & -> & ->)%on_ctrl_ok & H).
  apply kbind_ok in H as (x & s1 & [-> ->]%settle_ok & H).
  pose proof (HandleCommit_step msg (with_directory (h_dir h) ch (v_ctrl v)) g tt Hg) as Hs. rewrite <- E0, Hrun, E0 in Hs.
  destruct x as [[]|e].
  - unfold applied in H. apply kbind_ok in H as (u & [c2 h2] & H1 & H2). injection H2 as <- <- <-.
    eapply (steps_commit ch v ctrl); [done..|exact Hs| |exact H1]. hush.
  - pose proof (steps_idle _ _ _ _ Ht Hr Hv Hj Hs) as Hi. destruct (String.eqb e ErrSelfRemoved); [|by injection H as <- <- <-].
    apply kbind_ok in H as (u & [c2 h2] & H1 & H2). injection H2 as <- <- <-.
    rewrite <- (Z.add_0_r 1). eapply steps_trans; [exact Hi|]. eapply (sound_leave ch 0); [done|apply Hi| |exact H1]. intros ? ? _ ? ?. lia.
Qed.

Lemma vni_ok ch c h st s' : vni (R := R) ch (c, h) = Ok (st, s') -> s' = (c, h) /\ st = k_vnis c !! ch.
Proof. unfold vni, kbind, kget, kret. cbn. by intros [= <- <-]. Qed.

Lemma steps_replay ch recs c h u c' h' : tidy_client c -> roomy_client (len recs) c ->
  (forall v, k_vnis c !! ch = Some v -> v_joined v = true) -> replay_log (R := R) ch recs (c, h) = Ok (u, (c', h')) -> steps (len recs) c c'.
Proof.
  revert c h. induction recs as [|r recs IH]; intros c h Ht Hr Hj H; [injection H as <- <- <-; by apply steps_refl|].
  cbn [replay_log] in H. rewrite len_cons in *. pose proof (len_nonneg recs).
  apply kbind_ok in H as (st & s1 & [-> ->]%vni_ok & H). destruct (k_vnis c !! ch) as [v|] eqn:Hv; [|injection H as <- <- <-; apply steps_refl; [lia|done]].
  rewrite <- Hv in Hj. destruct (negb _).
  { apply (steps_le (len recs)); [lia|]. apply IH with (h := h); [done| |done|done]. intros ch' v' Hv' J Hn. specialize (Hr _ _ Hv' J). lia. }
  apply kbind_ok in H as (gone & [c1 h1] & H1 & H2).
  assert (steps 1 c c1) as Hs.
  { eapply (sound_apply ch v v); [done| |exact Hv|by apply Hj|done|exact H1]. intros ch' v' Hv' J Hn. specialize (Hr _ _ Hv' J). lia. }
  destruct gone; [injection H2 as <- <- <-; apply (steps_le 1); [lia|done]|].
  eapply steps_trans; [exact Hs|]. apply IH with (h := h1); [apply Hs|by eapply (roomy_steps 1)| |done].
  intros v1 Hv1. destruct (proj2 (proj2 Hs) _ _ Hv1) as (v0 & Hv0 & J & _). rewrite J. apply Hj. congruence.
Qed.

Lemma sort_by_base_perm l : sort_by_base l ≡ₚ l.
Proof.
  assert (forall r l, insert_by_base r l ≡ₚ r :: l) as Hi.
  { intros r l0. induction l0 as [|x l0 IH]; [done|]. cbn [insert_by_base]. case_match; [|done]. rewrite IH. constructor. }
  induction l as [|r l IH]; [done|]. cbn. by rewrite Hi, IH.
Qed.

Lemma sound_onLogReply env : sound (len (e_Records env)) (onLogReply (R := R) env).
Proof.
  intros c h u c' h' Ht Hr H. unfold onLogReply in H. apply kbind_ok in H as (st & s1 & [-> Hst]%joined_vni_ok & H).
  pose proof (len_nonneg (e_Records env)). destruct st as [v|]; [destruct Hst as [Hv Hj]|injection H as <- <- <-; by apply steps_refl].
  assert (len (sort_by_base (e_Records env)) = len (e_Records env)) as El.
  { unfold len, sort_by_base. f_equal. apply Permutation_length, sort_by_base_perm. }
  rewrite <- El in *. eapply steps_replay; [done|done| |exact H]. intros v1 Hv1. congruence.
Qed.

Lemma sound_onCommit env : sound 1 (onCommit (R := R) env).
Proof.
  intros c h u c' h' Ht Hr H. unfold onCommit in H. apply kbind_ok in H as (c0 & s1 & [= <- <-] & H).
  apply kbind_ok in H as (u1 & [c1 h1] & Hm & H). assert (c1 = c) as -> by (by injection Hm as <- <- <-).
  apply kbind_ok in H as (st & s1 & [-> Hst]%joined_vni_ok & H).
  destruct st as [v|]; [destruct Hst as [Hv Hj]|injection H as <- <- <-; by apply steps_refl].
  apply kbind_ok in H as (refl & s1 & [_ ->]%klift_ok & H).
  apply kbind_ok in H as (u2 & [c2 h2] & Hq & H).
  assert (calm_client c c2) as Hc.
  { match type of Hq with ?m _ = _ => assert (quiet (R := R) m) as Hqq by hush end. by apply (Hqq _ _ _ Hq). }
  pose proof (steps_calm _ _ Ht Hc) as Hs. destruct (negb _); [injection H as <- <- <-; by apply (steps_le 0)|].
  apply kbind_ok in H as (b & [c3 h3] & Ha & H). injection H as <- <- <-.
  pose proof (cc_vnis _ _ Hc (e_VNI env)) as Hcv. rewrite Hv in Hcv. inversion Hcv as [? v2 Hcalm E1 E2|]; subst. symmetry in E2.
  apply (steps_trans 0 1 c c2); [done|]. eapply (sound_apply (e_VNI env) v v2); [apply Hs|by apply (roomy_steps 0 1 c)|done| | |exact Ha].
  - by rewrite (ca_joined _ _ Hcalm).
  - by rewrite (ca_ctrl _ _ Hcalm).
Qed.

(** ** Joining *)

(** The association of a channel that was just adopted. *)
Lemma tidy_adopted ch c v g sa h u c' h' : tidy_client (with_vnis (delete ch (k_vnis c)) c) -> k_vnis c !! ch = Some v ->
  v_joined v = true -> v_saCache v = ∅ -> cfg_VNI (c_cfg (v_ctrl v)) = ch -> fresh (v_ctrl v) g sa ->
  cacheCurrentSA (R := R) ch (c, h) = Ok (u, (c', h')) ->
  tidy_client c' /\ wnd c' = wnd c /\
  forall ch' v', k_vnis c' !! ch' = Some v' -> ch' = ch \/ ch' <> ch /\ exists v0, k_vnis c !! ch' = Some v0 /\ calm v0 v'.
Proof.
  intros Ht Hv Hj He Hch Hf H. destruct (cacheCurrentSA_fresh _ _ _ _ _ _ _ _ _ Hv Hj Hf H) as (leaves & spis & Hl & Hsp & Hc).
  assert (forall ch' v', ch' <> ch -> k_vnis c' !! ch' = Some v' -> exists v0, k_vnis c !! ch' = Some v0 /\ calm v0 v') as Hother.
  { intros ch' v' Hne (v0 & Hv0 & Hcv)%(calm_back _ _ _ _ Hc). cbn [k_vnis with_vnis] in Hv0. rewrite lookup_alter_ne in Hv0 by done. eauto. }
  split_and!; [|by rewrite (wnd_calm _ _ Hc)|].
  - intros ch' v' Hv'. destruct (decide (ch' = ch)) as [->|Hne].
    + destruct (calm_back _ _ _ _ Hc Hv') as (v0 & Hv0 & Hcv). eapply tidy_calm; [exact Hcv|]. cbn [k_vnis with_vnis] in Hv0.
      rewrite lookup_alter_eq, Hv in Hv0. injection Hv0 as <-.
      eapply (tidy_cached ch (wnd c) v (v_ctrl v)); [apply wnd_nonneg|done|done|done|done|done|done|].
      intros e. rewrite He, lookup_empty. by intros [].
    + destruct (Hother _ _ Hne Hv') as (v0 & Hv0 & Hcv). eapply tidy_calm; [exact Hcv|]. apply Ht. cbn [k_vnis with_vnis]. by rewrite lookup_delete_ne.
  - intros ch' v' Hv'. destruct (decide (ch' = ch)); eauto.
Qed.

(** What a call leaves of the channels that were joined before it. *)
Definition serves (n : Z) c c' : Prop :=
  wnd c' = wnd c /\ forall ch v', k_vnis c' !! ch = Some v' ->
    exists v, k_vnis c !! ch = Some v /\ (v_joined v = true -> good (wnd c) n v v').

Lemma steps_serves n c c' : steps n c c' -> tidy_client c' /\ serves n c c'.
Proof. intros [Ht [Hw He]]. split; [done|]. split; [done|]. intros ch v' (v & Hv & _ & G)%He. eauto. Qed.

Lemma tidy_delete ch c : tidy_client c -> tidy_client (with_vnis (delete ch (k_vnis c)) c).
Proof. intros Ht ch' v. cbn [k_vnis with_vnis]. intros [_ Hv]%lookup_delete_Some. by apply Ht. Qed.

Lemma tidy_insert ch v c : tidy_client c -> tidy ch v -> tidy_client (with_vnis (<[ch := v]> (k_vnis c)) c).
Proof.
  intros Ht Hv ch' v'. cbn [k_vnis with_vnis]. intros [[<- <-]|[_ Hv']]%lookup_insert_Some; [done|by apply Ht].
Qed.

Lemma tidy_fail ch c v ctrl : tidy_client c -> k_vnis c !! ch = Some v -> v_joined v = false -> cfg_VNI (c_cfg ctrl) = ch ->
  tidy_client (with_vnis (alter (set_ctrl ctrl) ch (k_vnis c)) c).
Proof.
  intros Ht Hv Hj Hch ch' v'. cbn [k_vnis with_vnis]. destruct (decide (ch = ch')) as [<-|Hne].
  - rewrite lookup_alter_eq, Hv. intros [= <-]. split; cbn [set_ctrl v_ctrl v_joined v_saCache v_inSPIs]; rewrite ?Hj; try done.
    intros _. by apply (td_out _ _ (Ht _ _ Hv)).
  - rewrite lookup_alter_ne by done. apply Ht.
Qed.

Lemma serves_onWelcome env c h u c' h' : tidy_client c -> onWelcome (R := R) env (c, h) = Ok (u, (c', h')) ->
  tidy_client c' /\ serves 1 c c'.
Proof.
  intros Ht H. unfold onWelcome in H. set (ch := e_VNI env) in *. apply kbind_ok in H as (c0 & s1 & [= <- <-] & H).
  apply kbind_ok in H as (st & s1 & [-> ->]%vni_ok & H).
  pose proof (steps_serves 1 c c (steps_refl 1 c ltac:(lia) Ht)) as Hrefl.
  destruct (k_vnis c !! ch) as [v|] eqn:Hv; [|by injection H as <- <- <-].
  destruct (v_joined v) eqn:Hj; [by injection H as <- <- <-|].
  apply kbind_ok in H as (h0 & s1 & [= <- <-] & H). cbn [snd] in H. destruct (joinerMaterial _ _ _) as [[kp ip] lp].
  apply kbind_ok in H as (r & [c1 h2] & (ctrl & Hrun & -> & ->)%on_ctrl_ok & H).
  apply kbind_ok in H as (x & s1 & [-> ->]%settle_ok & H).
  pose proof (JoinViaWelcome_step (e_Payload env) kp ip lp (with_directory (h_dir h) ch (v_ctrl v)) tt) as Hs. rewrite Hrun in Hs.
  destruct Hs as [Ev Hs]. cbn in Ev. rewrite (td_vni _ _ (Ht _ _ Hv)) in Ev. destruct x as [[]|e]; cycle 1.
  { injection H as <- <- <-. split; [by eapply tidy_fail|]. split; [done|]. intros ch' v'. cbn [k_vnis with_vnis].
    destruct (decide (ch = ch')) as [<-|Hne]; [exists v; split; [done|congruence]|].
    rewrite lookup_alter_ne by done. intros Hv'. exists v'. split; [done|]. by apply good_refl. }
  destruct Hs as (g & sa & Hf); [done|].
  apply kbind_ok in H as (u1 & [c2 h2] & Hu & H). unfold update, kbind, kget, kput in Hu. cbn in Hu. injection Hu as <- <- <-.
  rewrite alter_alter_eq in H. apply kbind_ok in H as (u2 & [c3 h3] & Hcache & H).
  match type of Hcache with cacheCurrentSA _ (?x, _) = _ => set (c2 := x) in * end.
  destruct (td_out _ _ (Ht _ _ Hv) Hj) as [Hsa _].
  destruct (tidy_adopted ch c2 (set_joinEpoch (Controller_Epoch ctrl) (set_joined true (set_ctrl ctrl v))) g sa h u2 c3 h3) as (T3 & W3 & V3);
    [|unfold c2; cbn; by rewrite lookup_alter_eq, Hv|done|done|done|done|exact Hcache|].
  { intros ch' v'. unfold c2. cbn [k_vnis with_vnis]. intros [Hne Hv']%lookup_delete_Some. rewrite lookup_alter_ne in Hv' by done. by apply Ht. }
  assert (calm_client c3 c') as Hc.
  { match type of H with ?m _ = _ => assert (quiet (R := R) m) as Hq by hush end. by apply (Hq _ _ _ H). }
  split; [by apply (steps_calm c3)|]. split; [by rewrite (wnd_calm _ _ Hc), W3|].
  intros ch' v' (v3 & Hv3 & Hcv)%(calm_back _ _ _ _ Hc). destruct (V3 _ _ Hv3) as [->|(Hne & v0 & Hv0 & Hcv0)]; [exists v; split; [done|congruence]|].
  unfold c2 in Hv0. cbn [k_vnis with_vnis] in Hv0. rewrite lookup_alter_ne in Hv0 by done. exists v0. split; [done|]. intros J.
  destruct (good_calm (wnd c) v0 v' ltac:(by etrans) J) as [g1 g2 g3 g4]. split; [done|done|lia|done].
Qed.

Lemma tidy_new ch ctrl : cfg_VNI (c_cfg ctrl) = ch -> tidy ch (newVNIState ctrl).
Proof. by intros Hch; split. Qed.

Lemma tidy_found ch c h u c' h' : tidy_client c -> foundVNI (R := R) kpRand ch (c, h) = Ok (u, (c', h')) -> tidy_client c' /\ wnd c' = wnd c.
Proof.
  intros Ht H. unfold foundVNI in H. apply kbind_ok in H as (c0 & s1 & [= <- <-] & H). cbn [fst] in H.
  apply kbind_ok in H as (i & [c1 h1] & [= <- <- <-] & H). apply kbind_ok in H as (h2 & s1 & [= <- <-] & H). cbn [snd h_dir] in H.
  apply kbind_ok in H as (g & s1 & [_ ->]%klift_ok & H).
  destruct (NewController _ (Some g) tt) as [[ctrl []]| | |] eqn:En; [|done..]. apply NewController_fresh in En as (Ev & g' & sa & Hf).
  apply kbind_ok in H as (u1 & s1 & [= <- <-] & H). apply kbind_ok in H as (u2 & s1 & [= <- <-] & H). cbn [fst snd] in H.
  edestruct (tidy_adopted ch) as (T3 & W3 & V3); [| | | | | |exact H|split; [exact T3|exact W3]].
  - intros ch' v'. cbn [k_vnis with_vnis]. intros [Hne Hv']%lookup_delete_Some. rewrite lookup_insert_ne in Hv' by done. by apply Ht.
  - cbn [k_vnis with_vnis]. by rewrite lookup_insert_eq.
  - done.
  - done.
  - done.
  - exact Hf.
Qed.

Lemma tidy_prospective ch c h u c' h' : tidy_client c -> prospectiveVNI (R := R) kpRand ch (c, h) = Ok (u, (c', h')) ->
  tidy_client c' /\ wnd c' = wnd c.
Proof.
  intros Ht H. unfold prospectiveVNI in H. apply kbind_ok in H as (c0 & s1 & [= <- <-] & H). cbn [fst] in H.
  apply kbind_ok in H as (h2 & s1 & [= <- <-] & H). apply kbind_ok in H as ([ctrl []] & s1 & [En ->]%klift_ok & H). injection En as <-.
  apply kbind_ok in H as (u1 & s1 & [= <- <-] & H).
  match type of H with ?m _ = _ => assert (quiet (R := R) m) as Hq by hush end. pose proof (Hq _ _ _ H) as Hc. cbn [fst] in Hc.
  split; [|by rewrite (wnd_calm _ _ Hc)]. eapply steps_calm; [|exact Hc]. apply tidy_insert; [done|]. by apply tidy_new.
Qed.

(** * Runs of a client *)

(** What the simulation calls. *)
Inductive kcall : Type :=
| KFound (ch : Z)
| KProspect (ch : Z)
| KDeliver (env : Envelope)
| KReconcile (ch : Z) (desired : list bytes)
| KRekey (ch : Z)
| KHeartbeat (ch : Z)
| KData (tenant : Z).

Definition kperform (x : kcall) : KM unit :=
  match x with
  | KFound ch => foundVNI kpRand ch
  | KProspect ch => prospectiveVNI kpRand ch
  | KDeliver env => onDeliver env
  | KReconcile ch desired => reconcile commitRand ch desired
  | KRekey ch => rekey commitRand ch
  | KHeartbeat ch => emitHeartbeat ch
  | KData tenant => sendData tenant
  end.

(** Calls after the bootstrap, which do not start a channel afresh. *)
Definition serving (x : kcall) : Prop := match x with KFound _ | KProspect _ => False | _ => True end.

(** How many epochs a call may enter. *)
Definition reach (x : kcall) : Z := match x with KDeliver env => 1 + len (e_Records env) | _ => 1 end.

(** A sequence of calls.  The other actors may have done anything to the shared
    state in between; epochs do not run out of their 64 bits. *)
Inductive krun : Client -> list kcall -> Client -> Prop :=
| krun_nil c : krun c [] c
| krun_cons c h x c1 h1 xs c' : roomy_client (reach x) c -> kperform x (c, h) = Ok (tt, (c1, h1)) -> krun c1 xs c' -> krun c (x :: xs) c'.

Lemma roomy_le n m c : n <= m -> roomy_client m c -> roomy_client n c.
Proof. intros Hle Hr ch v Hv J Hn. specialize (Hr ch v Hv J). lia. Qed.

Lemma kperform_serves x c h u c' h' : serving x -> tidy_client c -> roomy_client (reach x) c -> kperform x (c, h) = Ok (u, (c', h')) ->
  tidy_client c' /\ serves (reach x) c c'.
Proof.
  intros Hx Ht Hr H. destruct x as [| |env|ch ds|ch|ch|t]; try done; cbn [kperform reach] in *.
  - pose proof (len_nonneg (e_Records env)) as Hl. unfold onDeliver in H. destruct (e_Type env).
    + apply steps_serves. apply (steps_le 1); [lia|]. eapply sound_onCommit; [done|by apply (roomy_le 1 (1 + len (e_Records env))); [lia|]|exact H].
    + apply kbind_ok in H as (c0 & s1 & [= <- <-] & H). destruct (bytes_Equal _ _).
      * destruct (serves_onWelcome _ _ _ _ _ _ Ht H) as [T [W V]]. split; [done|]. split; [done|]. intros ch v' (v & Hv & G)%V. exists v.
        split; [done|]. intros J. destruct (G J) as [g1 g2 g3 g4]. split; [done|done|lia|done].
      * injection H as <- <- <-. apply steps_serves, steps_refl; [lia|done].
    + eapply steps_serves, (sound_quiet (onHeartbeat env)); [lia|hush|done|done|exact H].
    + injection H as <- <- <-. apply steps_serves, steps_refl; [lia|done].
    + apply steps_serves. apply (steps_le (len (e_Records env))); [lia|].
      eapply sound_onLogReply; [done|by apply (roomy_le (len (e_Records env)) (1 + len (e_Records env))); [lia|]|exact H].
    + eapply steps_serves, (sound_quiet (onData env)); [lia|hush|done|done|exact H].
  - eapply steps_serves, sound_reconcile; [done|done|exact H].
  - eapply steps_serves, sound_rekey; [done|done|exact H].
  - eapply steps_serves, (sound_quiet (emitHeartbeat ch)); [lia|hush|done|done|exact H].
  - eapply steps_serves, (sound_quiet (sendData t)); [lia|hush|done|done|exact H].
Qed.

Lemma krun_tidy c xs c' : krun c xs c' -> tidy_client c -> tidy_client c' /\ wnd c' = wnd c.
Proof.
  induction 1 as [c|c h x c1 h1 xs c' Hr H _ IH]; intros Ht; [done|].
  assert (tidy_client c1 /\ wnd c1 = wnd c) as [T1 W1].
  { destruct x as [ch|ch| | | | |]; [exact (tidy_found _ _ _ _ _ _ Ht H)|exact (tidy_prospective _ _ _ _ _ _ Ht H)|..];
      match type of H with kperform ?x _ = _ => destruct (kperform_serves x _ _ _ _ _ I Ht Hr H) as [T [W _]] end; exact (conj T W). }
  destruct (IH T1) as [T' W']. split; [done|]. congruence.
Qed.

(** A channel that was joined, through a run that does not restart it. *)
Lemma krun_good c xs c' ch v' : krun c xs c' -> Forall serving xs -> tidy_client c -> k_vnis c' !! ch = Some v' ->
  exists v, k_vnis c !! ch = Some v /\ (v_joined v = true -> exists n, good (wnd c) n v v').
Proof.
  induction 1 as [c|c h x c1 h1 xs c' Hr H Hrun IH]; intros Hs Ht Hv'.
  { exists v'. split; [done|]. intros J. exists 0. by apply good_refl. }
  apply Forall_cons in Hs as [Hx Hs]. destruct (kperform_serves _ _ _ _ _ _ Hx Ht Hr H) as [T1 [W1 V1]].
  destruct (IH Hs T1 Hv') as (v1 & Hv1 & G1). destruct (V1 _ _ Hv1) as (v & Hv & G). exists v. split; [done|]. intros J.
  destruct (G1 (gd_joined _ _ _ _ (G J))) as [n Hn]. rewrite W1 in Hn. eexists. eapply good_trans; [by apply G|exact Hn].
Qed.

(** ** Receiving *)

(** A packet of an SPI that is held is not a loss. *)
Lemma onData_held env c h v : k_vnis c !! e_VNI env = Some v -> v_joined v = true ->
  e_Base env < v_joinEpoch v \/ holds_spi v (e_SPI env) = true ->
  exists c' h', onData (R := R) env (c, h) = Ok (tt, (c', h')) /\ h_loss h' = h_loss h.
Proof.
  intros Hv J Hh. unfold onData, joined_vni, vni, update, metric, kshared, kshare, kbind, kget, kput, kret. cbn. rewrite Hv, J.
  destruct (Z.ltb_spec (e_Base env) (v_joinEpoch v)); [by eexists _, _|]. destruct Hh as [Hh|Hh]; [lia|]. rewrite Hh. cbn [negb].
  destruct (replay_accept _ _) as [ok win]. cbn. eexists _, _. split; [done|]. done.
Qed.

Lemma holds_cached v e spis spi : is_Some (v_saCache v !! e) -> v_inSPIs v !! e = Some spis -> spi ∈ spis -> v_joinEpoch v <= e ->
  holds_spi v spi = true.
Proof.
  intros Hc Hs Hin Hj. unfold holds_spi. apply existsb_exists. exists e. split.
  - apply list_elem_of_In. unfold sorted_map_keys, sorted_keys. rewrite merge_sort_Permutation. by apply elem_of_elements, elem_of_dom.
  - rewrite Hs. cbn [default]. rewrite (proj2 (Z.ltb_ge _ _) Hj). by apply bool_decide_eq_true_2.
Qed.
End clients.

(** * Property *)

(** C6: make before break.  A client is called in any order, and shares the
    network and the directory with actors that may do anything.  Once it is in an epoch
    of a channel with the association of that epoch, it can receive what any
    member of the epoch sends: whatever it is called to do after that, and
    however many commits it follows or makes, a packet that a member stamped
    with the epoch and with its own SPI is never counted as a loss, as long as
    the client has not left the channel and is at most [W] epochs ahead. *)
Theorem make_before_break {C : StdCrypto} {R : Type} `{!RandSource R} commitRand kpRand
  c0 xs c1 ys c2 ch v1 v2 g g1 leaves sa sa1 env (h : Host (R := R)) :
  k_vnis c0 = ∅ -> krun (R := R) commitRand kpRand c0 xs c1 -> krun (R := R) commitRand kpRand c1 ys c2 -> Forall serving ys ->
  k_vnis c1 !! ch = Some v1 -> v_joined v1 = true -> c_g (v_ctrl v1) = Some g1 ->
  c_curSA (v_ctrl v1) = Some sa1 -> sa_Epoch sa1 = Epoch g1 ->
  same_epoch g g1 -> ActiveLeaves g1 = Ok leaves -> OwnLeaf g ∈ leaves -> DeriveSAKeys (group_view g) ch = Ok sa ->
  k_vnis c2 !! ch = Some v2 -> Controller_Epoch (v_ctrl v2) <= Epoch g1 + u64 (effectiveW c0) ->
  e_VNI env = ch -> e_Type env = MsgData -> e_Base env = Epoch g1 -> e_SPI env = sa_OwnSPI sa ->
  exists c3 h3, onDeliver env (c2, h) = Ok (tt, (c3, h3)) /\ h_loss h3 = h_loss h.
Proof.
  intros H0 Hr1 Hr2 Hsv Hv1 J1 Eg1 Esa1 Ese Hse Hl Hin Hsa Hv2 Hw Ech Ety Eb Espi.
  destruct (krun_tidy _ _ _ _ _ Hr1) as [T1 W1]; [intros ch' v'; rewrite H0; by rewrite lookup_empty|].
  destruct (krun_good _ _ _ _ _ _ _ Hr2 Hsv T1 Hv2) as (v & Hv & G). assert (v = v1) as -> by congruence. destruct (G J1) as [n [J2 Ej Ee Hk]].
  assert (epoch_of v1 = Epoch g1) as Ee1 by (unfold epoch_of, Controller_Epoch; by rewrite Eg1).
  destruct (td_cached _ _ (T1 _ _ Hv1) J1 g1 sa1 Eg1 Esa1 ltac:(congruence)) as (Hc & Hd & leaves' & spis & Hl' & Hsp & Hspi).
  rewrite (td_vni _ _ (T1 _ _ Hv1)) in Hd. assert (leaves' = leaves) as -> by congruence.
  destruct (Hk _ _ Hc) as [Hc2 Hs2]; [rewrite Ese, W1; exact Hw|]. rewrite Hsp in Hs2.
  unfold onDeliver. rewrite Ety. apply (onData_held env c2 h v2); [by rewrite Ech|done|].
  destruct (Z.lt_ge_cases (e_Base env) (v_joinEpoch v2)) as [Hlt|Hge]; [by left|right].
  eapply holds_cached; [by rewrite Hc2|exact Hs2| |rewrite Ese, <- Eb; exact Hge].
  rewrite Espi. apply (Hspi (OwnLeaf g)); [done|]. destruct (group_view_same _ _ Hse) as (E1 & E2 & E3).
  by apply (sender_spi_agrees (group_view g) (group_view g1) ch).
Qed.

(** ** A concrete client *)
Module Lone.
#[local] Existing Instances toy toy_laws Reflector.still.

(** Client 0, before its bootstrap, and what it shares. *)
Definition client : Client :=
  newClient 0 toy_suite (Example.signer 0) (bytes_of_string "client-0") [5; 6] 4.
Definition host : Host (R := unit) :=
  mkHost Reflector.net (dir_register (bytes_of_string "client-0") (mkKpDirectory ∅ ∅)) [] 0.
Definition rands (i : nat) : CommitRand := Pair.rand (Z.of_nat i).
Definition kps (i : nat) : Rand * Rand := (Z.of_nat i : Rand (StdCrypto := toy), Z.of_nat i + 1 : Rand (StdCrypto := toy)).

(** A founder in its epoch 0, ready for a commit. *)
Definition ready (c : Client) : bool :=
  match k_vnis c !! 10 with
  | Some v =>
      v_joined v && match c_g (v_ctrl v), c_curSA (v_ctrl v) with
      | Some g, Some sa => (sa_Epoch sa =? Epoch g) && (Epoch g =? 0) &&
          match ActiveLeaves g with Ok leaves => existsb (Z.eqb (OwnLeaf g)) leaves | _ => false end && is_ok (DeriveSAKeys (group_view g) 10)
      | _, _ => false
      end
  | None => false
  end && forallb (fun x : Z * vniState => (0 <=? epoch_of x.2) && (epoch_of x.2 <? 10)) (map_to_list (k_vnis c)).

Definition packet (spi : Z) : Envelope := mkEnvelope 10 MsgData 1 0 0 [] spi 0 [] [] [].
End Lone.

#[local] Existing Instances toy toy_laws Reflector.still.

(** The founder rekeys; a packet of its first epoch is still decryptable. *)
Lemma make_before_break_witness :
  match kperform Lone.rands Lone.kps (KFound 10) (Lone.client, Lone.host) with
  | Ok (_, (c1, h1)) =>
      match kperform Lone.rands Lone.kps (KRekey 10) (c1, h1), k_vnis c1 !! 10 with
      | Ok (_, (c2, h2)), Some v1 =>
          exists g1 sa, c_g (v_ctrl v1) = Some g1 /\ DeriveSAKeys (group_view g1) 10 = Ok sa /\
            exists c3 h3, onDeliver (Lone.packet (sa_OwnSPI sa)) (c2, h2) = Ok (tt, (c3, h3)) /\ h_loss h3 = h_loss h2
      | _, _ => False
      end
  | _ => False
  end.
Proof.
  assert ((let! (_, (c1, h1)) := kperform Lone.rands Lone.kps (KFound 10) (Lone.client, Lone.host) in
    let! (_, (c2, h2)) := kperform Lone.rands Lone.kps (KRekey 10) (c1, h1) in
    Ok (Lone.ready c1 && match k_vnis c2 !! 10 with Some v2 => epoch_of v2 =? 1 | None => false end)) = Ok true) as Hx
    by (vm_compute; reflexivity).
  apply obind_ok in Hx as ([[] [c1 h1]] & E1 & Hx). apply obind_ok in Hx as ([[] [c2 h2]] & E2 & Hx).
  apply Ok_inj, andb_true_iff in Hx as [Hr H2]. rewrite E1, E2. unfold Lone.ready in Hr. apply andb_true_iff in Hr as [Hr Hroom].
  destruct (k_vnis c1 !! 10) as [v1|] eqn:Hv1; [|discriminate Hr]. destruct (k_vnis c2 !! 10) as [v2|] eqn:Hv2; [|discriminate H2].
  apply andb_true_iff in Hr as [Hj Hr]. destruct (c_g (v_ctrl v1)) as [g1|] eqn:Eg; [|discriminate Hr]. destruct (c_curSA (v_ctrl v1)) as [sa1|] eqn:Esa; [|discriminate Hr].
  apply andb_true_iff in Hr as [Hr Hd]. apply andb_true_iff in Hr as [Hr Hl]. apply andb_true_iff in Hr as [He H0].
  apply Z.eqb_eq in He, H0, H2. apply is_ok_inv in Hd as [sa Hd]. destruct (ActiveLeaves g1) as [leaves| | |] eqn:El; [|discriminate Hl..].
  apply existsb_exists in Hl as (l & Hin & <-%Z.eqb_eq).
  exists g1, sa. split; [reflexivity|]. split; [exact Hd|].
  eapply (make_before_break Lone.rands Lone.kps Lone.client [KFound 10] c1 [KRekey 10] c2 10 v1 v2 g1 g1 leaves sa sa1);
    [reflexivity| | | |exact Hv1|exact Hj|exact Eg|exact Esa|exact He|reflexivity|exact El|by apply list_elem_of_In|exact Hd|exact Hv2
    | |reflexivity|reflexivity|symmetry; exact H0|reflexivity].
  - eapply krun_cons; [|exact E1|constructor]. intros ch v Hv. cbn in Hv. rewrite lookup_empty in Hv. discriminate Hv.
  - eapply krun_cons; [|exact E2|constructor]. intros ch v Hv J _. rewrite forallb_forall in Hroom. cbn [reach].
    specialize (Hroom (ch, v)). cbn [snd] in Hroom. rewrite <- list_elem_of_In, elem_of_map_to_list in Hroom.
    specialize (Hroom Hv). apply andb_true_iff in Hroom as [Ha%Z.leb_le Hb%Z.ltb_lt]. lia.
  - repeat constructor.
  - change (epoch_of v2 <= Epoch g1 + 4). rewrite H2, H0. clear. lia.
Defined.
