(* ===== verification/SimWorld.v ===== *)
(** [sim]: scenarios, the world, and the verdict of a run.

    [scenario.go], [invariant.go], and of [sim.go] the world: its bootstrap, the
    dispatch of events and the main loop of [Run].  The keys that
    [ed25519.GenerateKey] makes and the random source of a seed are parameters.
    The loop pops events until the queue is empty and runs on fuel; [None] is the
    run that has used it up (SimRun.v shows that enough of it always exists).
    Messages that the code formats for people (the lines of the trace, the
    failures of the verdict) are kept as their arguments. *)

From Stdlib Require Import ZArith Lia QArith Strings.Byte.
From stdpp Require Import base list numbers strings pretty sorting sets gmap.
From S2P Require Import Prelude Syntax TreeNodes TreeMath Cipher ToyCrypto RatchetTree TreeSync TreeKEM.
From S2P Require Import KeySchedule Sequencer Esp Framing GroupMessages Group Controller SimSched SimNet SimClient.
Local Open Scope Z_scope.

(** * scenario.go *)

(* sim/scenario.go:32-35 scriptedPartition *)
Record scriptedPartition := mkScriptedPartition { sp_At : Z; sp_Until : Z; sp_SideA : list ActorID; sp_SideB : list ActorID }.
(* sim/scenario.go:36-39 scriptedDSDown *)
Record scriptedDSDown := mkScriptedDSDown { sd_At : Z; sd_Until : Z; sd_DS : ActorID }.

(* sim/scenario.go:10-30 Scenario *)
Record Scenario := mkScenario {
  sc_Name : string;
  sc_Clients : Z;
  sc_VNIs : Z;
  sc_Suite : Z;
  sc_W : Z;
  sc_Faults : FaultConfig;
  sc_Partitions : list scriptedPartition;
  sc_DSDowns : list scriptedDSDown;
  sc_Churn : list ChurnOp;
  sc_SettleRounds : Z;
  sc_MBBDisabled : bool;
  sc_SingleReplica : bool;
  sc_SharedSPIReplay : bool;
  sc_EncryptHandshakes : bool
}.

(* sim/scenario.go:41-41 defaultSuite *)
Definition defaultSuite : Z := XWING_AES256GCM_SHA256_Ed25519.

(* sim/scenario.go:43-47 base *)
Definition base (name : string) (clients vnis : Z) : Scenario :=
  mkScenario name clients vnis defaultSuite 4 (mkFaultConfig 0 2 2) [] [] [] 300 false false false false.

(* sim/scenario.go:51-51 Scenario.reflectorID *)
Definition reflectorID (s : Scenario) (r : Z) : ActorID := sc_Clients s + r.

(* sim/scenario.go:186-194 churnPlan *)
Definition churnPlan (clients vnis : Z) : list ChurnOp :=
  flat_map (fun c => map (fun v => mkChurnOp true c (u32 v)) (seqZ 0 vnis)) (seqZ 1 (clients - 1)).

(* sim/scenario.go:117-134 migrationPlan *)
Definition migrationPlan (vnis : Z) : list ChurnOp :=
  flat_map (fun v => [mkChurnOp true 1 (u32 v); mkChurnOp true 2 (u32 v)]) (seqZ 0 vnis) ++
  flat_map (fun v => [mkChurnOp false 1 (u32 v); mkChurnOp true 3 (u32 v); mkChurnOp false 2 (u32 v); mkChurnOp true 4 (u32 v)])
    (seqZ 0 vnis).

Definition with_Churn (ops : list ChurnOp) (s : Scenario) : Scenario :=
  mkScenario (sc_Name s) (sc_Clients s) (sc_VNIs s) (sc_Suite s) (sc_W s) (sc_Faults s) (sc_Partitions s) (sc_DSDowns s) ops
    (sc_SettleRounds s) (sc_MBBDisabled s) (sc_SingleReplica s) (sc_SharedSPIReplay s) (sc_EncryptHandshakes s).
Definition with_DropProb (p : Q) (s : Scenario) : Scenario :=
  mkScenario (sc_Name s) (sc_Clients s) (sc_VNIs s) (sc_Suite s) (sc_W s)
    (mkFaultConfig p (fc_Latency (sc_Faults s)) (fc_Jitter (sc_Faults s))) (sc_Partitions s) (sc_DSDowns s) (sc_Churn s)
    (sc_SettleRounds s) (sc_MBBDisabled s) (sc_SingleReplica s) (sc_SharedSPIReplay s) (sc_EncryptHandshakes s).
Definition with_script (ps : list scriptedPartition) (ds : list scriptedDSDown) (s : Scenario) : Scenario :=
  mkScenario (sc_Name s) (sc_Clients s) (sc_VNIs s) (sc_Suite s) (sc_W s) (sc_Faults s) ps ds (sc_Churn s)
    (sc_SettleRounds s) (sc_MBBDisabled s) (sc_SingleReplica s) (sc_SharedSPIReplay s) (sc_EncryptHandshakes s).
Definition with_controls (name : string) (mbb single shared encrypt : bool) (s : Scenario) : Scenario :=
  mkScenario name (sc_Clients s) (sc_VNIs s) (sc_Suite s) (sc_W s) (sc_Faults s) (sc_Partitions s) (sc_DSDowns s) (sc_Churn s)
    (sc_SettleRounds s) mbb single shared encrypt.

(** The [float64] nearest to 0.2. *)
Definition fifth : Q := 3602879701896397 # 18014398509481984.

(* sim/scenario.go:54-58 Nominal *)
Definition Nominal : Scenario := with_Churn (churnPlan 5 2) (base "nominal" 5 2).
(* sim/scenario.go:62-67 Drops *)
Definition Drops : Scenario := with_Churn (churnPlan 5 2) (with_DropProb fifth (base "drops" 5 2)).
(* sim/scenario.go:77-82 DSDown *)
Definition DSDown : Scenario :=
  let s := with_Churn (churnPlan 5 2) (base "ds_down" 5 2) in with_script [] [mkScriptedDSDown 50 130 (reflectorID s 0)] s.
(* sim/scenario.go:87-93 PartitionRecover *)
Definition PartitionRecover : Scenario :=
  let s := with_Churn (churnPlan 6 2) (base "partition_recover" 6 2) in
  with_script [mkScriptedPartition 40 150 [2; 3] [reflectorID s 0]] [] s.
(* sim/scenario.go:98-102 BothRekey *)
Definition BothRekey : Scenario := with_Churn (churnPlan 5 3) (base "both_rekey" 5 3).
(* sim/scenario.go:106-111 EncryptedChurn *)
Definition EncryptedChurn : Scenario := with_controls "encrypted_churn" false false false true Nominal.
(* sim/scenario.go:138-142 MigrationChurn *)
Definition MigrationChurn : Scenario := with_Churn (migrationPlan 2) (base "migration_churn" 5 2).
(* sim/scenario.go:147-154 NegativeControl *)
Definition NegativeControl : Scenario :=
  with_controls "negative_control" true true false false
    (with_Churn (churnPlan 5 2) (with_DropProb fifth (base "negative_control" 5 2))).
(* sim/scenario.go:159-164 SharedSPIReplayControl *)
Definition SharedSPIReplayControl : Scenario :=
  with_controls "shared_spi_replay" false false true false (with_Churn (churnPlan 5 2) (base "shared_spi_replay" 5 2)).

(* sim/scenario.go:170-172 All *)
Definition All : list Scenario := [Nominal; Drops; DSDown; PartitionRecover; BothRekey; EncryptedChurn].
(* sim/scenario.go:175-182 ByName *)
Definition ByName (name : string) : option Scenario :=
  List.find (fun s => String.eqb (sc_Name s) name) (All ++ [NegativeControl; MigrationChurn; SharedSPIReplayControl]).

(** * invariant.go *)

(** The arguments of the messages of a verdict. *)
Inductive divergence : Type := EpochMismatch (ch : Z) (ei e0 : Z) | KeyMismatch (ch : Z).

(* sim/sim.go:138-148 sameSet *)
Definition sameSet (want got : gset bytes) : bool :=
  if negb (Nat.eqb (size want) (size got)) then false else forallb (fun k => bool_decide (k ∈ got)) (elements want).

(* sim/invariant.go:112-119 sortedSetKeys *)
Definition sortedSetKeys (m : gset bytes) : list bytes := sort_Strings (elements m).

Section evaluate.
Context {C : StdCrypto}.

(* sim/invariant.go:56-60 InvariantChecker.Evaluate *)
Record tip := mkTip { t_epoch : Z; t_ea : bytes; t_key : bytes }.

(** The verdict, with the counters of the run once it has ended. *)
(* sim/invariant.go:39-47 Result *)
Record Result := mkResult {
  r_InvariantsHeld : bool;
  r_Divergence : list divergence;
  r_Membership : list (Z * list bytes * list bytes);
  r_PacketLoss : list LossEvent;
  r_Metrics : option Metrics
}.

(** The tip of one channel of a client, when it is live there. *)
(* sim/invariant.go:65-73 InvariantChecker.Evaluate *)
Definition client_tip (v : vniState) : option tip :=
  if negb (v_joined v) then None else
  match CurrentSA (v_ctrl v), Controller_Group (v_ctrl v) with
  | Ok sa, Some g => Some (mkTip (Controller_Epoch (v_ctrl v)) (EpochAuthenticator g) (match sa with Some sa => sa_Key sa | None => [] end))
  | _, _ => None
  end.

(** The live channels of a client in the order of their keys, and their tips. *)
Definition client_tips (c : Client) : list (Z * tip) :=
  omap (fun ch => (fun t => (ch, t)) <$> (k_vnis c !! ch ≫= client_tip)) (sorted_map_keys (k_vnis c)).

(* sim/invariant.go:63-79 InvariantChecker.Evaluate *)
Definition gather (clients : list Client) : gmap Z (list tip) * gmap Z (gset bytes) :=
  foldl (fun '(byCh, live) c =>
    foldl (fun '(byCh, live) '(ch, t) =>
      (<[ch := default [] (byCh !! ch) ++ [t]]> byCh, <[ch := {[k_identity c]} ∪ default ∅ (live !! ch)]> live))
      (byCh, live) (client_tips c)) (∅, ∅) clients.

(* sim/invariant.go:82-95 InvariantChecker.Evaluate *)
Definition diverging (ch : Z) (tips : list tip) : list divergence :=
  match tips with
  | [] => []
  | t0 :: rest =>
      flat_map (fun t =>
        (if negb (t_epoch t =? t_epoch t0) || negb (bytes_Equal (t_ea t) (t_ea t0)) then [EpochMismatch ch (t_epoch t) (t_epoch t0)] else []) ++
        (if negb (bytes_Equal (t_key t) (t_key t0)) then [KeyMismatch ch] else [])) rest
  end.

(* sim/invariant.go:51-110 InvariantChecker.Evaluate *)
Definition Evaluate (lossEvents : list LossEvent) (clients : list Client) (intended : gmap Z (gset bytes)) : Result :=
  let (byCh, live) := gather clients in
  let div := flat_map (fun ch => diverging ch (default [] (byCh !! ch))) (sorted_map_keys byCh) in
  let mem := omap (fun ch =>
    let want := default ∅ (intended !! ch) in let got := default ∅ (live !! ch) in
    if sameSet want got then None else Some (ch, sortedSetKeys want, sortedSetKeys got)) (sorted_map_keys intended) in
  mkResult (Nat.eqb (length lossEvents) 0 && Nat.eqb (length div) 0 && Nat.eqb (length mem) 0) div mem lossEvents None.
End evaluate.

(** * sim.go *)

Section world.
Context {C : StdCrypto} {R : Type} `{!RandSource R}.
Context (commitRand : nat -> CommitRand) (kpRand : nat -> Rand * Rand).
(** [makeSigner], draw by draw, and [rand.New(rand.NewSource(seed))]. *)
Context (signers : nat -> Signer) (source : Z -> R).

(* sim/sim.go:161-182 world *)
Record world := mkWorld_ {
  w_sc : Scenario;
  w_host : Host (R := R);
  w_clients : list Client;
  w_dss : list DS;
  w_numReplicas : Z;
  w_intended : gmap Z (gset bytes);
  w_desired : gmap Z (gset bytes);
  w_settleDeadline : Z;
  w_faultsLifted : bool
}.

Definition with_host (h : Host (R := R)) (w : world) : world :=
  mkWorld_ (w_sc w) h (w_clients w) (w_dss w) (w_numReplicas w) (w_intended w) (w_desired w) (w_settleDeadline w) (w_faultsLifted w).
Definition with_clients (cs : list Client) (w : world) : world :=
  mkWorld_ (w_sc w) (w_host w) cs (w_dss w) (w_numReplicas w) (w_intended w) (w_desired w) (w_settleDeadline w) (w_faultsLifted w).
Definition with_dss (ds : list DS) (w : world) : world :=
  mkWorld_ (w_sc w) (w_host w) (w_clients w) ds (w_numReplicas w) (w_intended w) (w_desired w) (w_settleDeadline w) (w_faultsLifted w).
Definition with_sets (intended desired : gmap Z (gset bytes)) (w : world) : world :=
  mkWorld_ (w_sc w) (w_host w) (w_clients w) (w_dss w) (w_numReplicas w) intended desired (w_settleDeadline w) (w_faultsLifted w).
Definition with_lifted (w : world) : world :=
  mkWorld_ (w_sc w) (w_host w) (w_clients w) (w_dss w) (w_numReplicas w) (w_intended w) (w_desired w) (w_settleDeadline w) true.
Definition over_net (f : Net R -> Net R) (w : world) : world := with_host (with_net (f (h_net (w_host w))) (w_host w)) w.

Definition wsched (w : world) : Scheduler R := n_sched (h_net (w_host w)).
Definition schedule (at_ : Z) (e : Event) (w : world) : world :=
  over_net (fun n => with_sched (Schedule at_ e (n_sched n)) n) w.

(** A method of a client, by its index; the index was checked. *)
Definition on_client (a : nat) (m : KM (R := R) unit) (w : world) : outcome world :=
  match w_clients w !! a with
  | None => Panic
  | Some c => let! (_, (c', h')) := m (c, w_host w) in Ok (with_host h' (with_clients (<[a := c']> (w_clients w)) w))
  end.

(** A loop over a list. *)
Fixpoint wfor {A} (l : list A) (f : A -> world -> outcome world) (w : world) : outcome world :=
  match l with [] => Ok w | x :: l => let! w := f x w in wfor l f w end.

(* sim/sim.go:185-185 defaultRekeyInterval *)
Definition defaultRekeyInterval : Z := 20.
(* sim/sim.go:186-186 defaultHeartbeatInterval *)
Definition defaultHeartbeatInterval : Z := 5.
(* sim/sim.go:187-187 defaultReconcileInterval *)
Definition defaultReconcileInterval : Z := 15.
(* sim/sim.go:188-188 defaultDataInterval *)
Definition defaultDataInterval : Z := 3.

Definition interval (t : TimerKind) : Z :=
  match t with
  | TimerRekey => defaultRekeyInterval
  | TimerHeartbeat => defaultHeartbeatInterval
  | TimerReconcile => defaultReconcileInterval
  | TimerData => defaultDataInterval
  end.

Definition env_of (ch : Z) : Envelope := mkEnvelope ch MsgCommit 0 0 0 [] 0 0 [] [] [].
Definition timer_event (a : ActorID) (t : TimerKind) (env : Envelope) : Event := mkEvent 0 0 KindTimer a env t zero_fault zero_churn.
Definition fault_event (op : FaultOp) : Event := mkEvent 0 0 KindFault 0 zero_env TimerRekey op zero_churn.
Definition churn_event (op : ChurnOp) : Event := mkEvent 0 0 KindChurn 0 zero_env TimerRekey zero_fault op.

(** An entry of a set of a map, made when there is none. *)
Definition set_add (ch : Z) (id : bytes) (m : gmap Z (gset bytes)) : gmap Z (gset bytes) :=
  <[ch := {[id]} ∪ default ∅ (m !! ch)]> m.
(** [delete(m[ch], id)]; of a [nil] map there is nothing to delete. *)
Definition set_remove (ch : Z) (id : bytes) (m : gmap Z (gset bytes)) : gmap Z (gset bytes) :=
  match m !! ch with Some s => <[ch := s ∖ {[id]}]> m | None => m end.

Definition founderID : bytes := bytes_of_string "client-0".

(** One replica of one tenant. *)
(* sim/sim.go:210-222 world.bootstrap *)
Definition bootstrap_channel (ch : Z) (w : world) : outcome world :=
  let! w := on_client 0 (foundVNI kpRand ch) w in
  let w := with_sets (set_add ch founderID (w_intended w)) (set_add ch founderID (w_desired w)) w in
  wfor (seq 1 (length (w_clients w) - 1)) (fun a => on_client a (prospectiveVNI kpRand ch)) w.

(* sim/sim.go:227-235 world.bootstrap *)
Definition schedule_partition (p : scriptedPartition) (w : world) : world :=
  schedule (sp_Until p) (fault_event (mkFaultOp faultPartition false 0 [] []))
    (schedule (sp_At p) (fault_event (mkFaultOp faultPartition true 0 (sp_SideA p) (sp_SideB p))) w).
(* sim/sim.go:236-243 world.bootstrap *)
Definition schedule_down (d : scriptedDSDown) (w : world) : world :=
  schedule (sd_Until d) (fault_event (mkFaultOp faultDSDown false (sd_DS d) [] []))
    (schedule (sd_At d) (fault_event (mkFaultOp faultDSDown true (sd_DS d) [] [])) w).

(* sim/sim.go:246-257 world.bootstrap *)
Definition schedule_churn (w : world) : world :=
  let churn := sc_Churn (w_sc w) in
  let spread := sc_SettleRounds (w_sc w) / 2 in
  let spread := if spread <? 10 then 10 else spread in
  foldl (fun w '(i, op) =>
    let at_ := u64 (u64 (Z.of_nat i + 1) * (spread / u64 (len churn + 1))) in
    schedule (if at_ =? 0 then 1 else at_) (churn_event op) w) w (imap (fun i op => (i, op)) churn).

(* sim/sim.go:264-274 world.bootstrap *)
Definition schedule_timers (start : Z) (id : ActorID) (v : Z) (w : world) : world :=
  let w := schedule (u64 (start + defaultDataInterval)) (timer_event id TimerData (env_of (u32 v))) w in
  foldl (fun w r =>
    let ch := saVNI (u32 v) r in
    foldl (fun w t => schedule (u64 (start + interval t)) (timer_event id t (env_of ch)) w) w
      [TimerRekey; TimerHeartbeat; TimerReconcile]) w (seqZ 0 (w_numReplicas w)).

(* sim/sim.go:193-277 world.bootstrap *)
Definition bootstrap (w : world) : outcome world :=
  let vnis := seqZ 0 (sc_VNIs (w_sc w)) in
  let! w := wfor vnis (fun v w => wfor (seqZ 0 (w_numReplicas w)) (fun r => bootstrap_channel (saVNI (u32 v) r)) w) w in
  let w := foldl (fun w p => schedule_partition p w) w (sc_Partitions (w_sc w)) in
  let w := foldl (fun w d => schedule_down d w) w (sc_DSDowns (w_sc w)) in
  let w := schedule_churn w in
  Ok (foldl (fun w '(i, c) => foldl (fun w v => schedule_timers (u64 (Z.of_nat i + 1)) (k_id c) v w) w vnis) w
        (imap (fun i c => (i, c)) (w_clients w))).

(** The lines of the trace. *)
Inductive trace_line : Type :=
| TraceDeliver (at_ : Z) (a : ActorID) (vni : Z) (ty : MsgType) (dropped : bool)
| TraceTimer (at_ : Z) (a : ActorID) (vni : Z) (t : TimerKind)
| TraceFault (at_ : Z) (k : faultKind) (on : bool)
| TraceChurn (at_ : Z) (a : ActorID) (vni : Z) (join : option bool).

(** [int(e.Actor)] as an index of the clients. *)
Definition client_index (w : world) (a : ActorID) : option nat :=
  if (0 <=? a) && (a <? len (w_clients w)) then Some (Z.to_nat a) else None.

(* sim/sim.go:294-308 world.dispatchDeliver *)
Definition dispatchDeliver (e : Event) (w : world) : outcome (trace_line * world) :=
  let line := TraceDeliver (ev_At e) (ev_Actor e) (e_VNI (ev_Env e)) (e_Type (ev_Env e)) in
  match client_index w (ev_Actor e) with
  | Some a => let! w := on_client a (onDeliver (ev_Env e)) w in Ok (line false, w)
  | None =>
      match list_find (fun d => ds_id d = ev_Actor e) (w_dss w) with
      | Some (i, d) =>
          let! (d', n') := handle (ev_Env e) d (h_net (w_host w)) in
          Ok (line false, over_net (fun _ => n') (with_dss (<[i := d']> (w_dss w)) w))
      | None => Ok (line true, w)
      end
  end.

(* sim/sim.go:396-408 world.desiredSlice *)
Definition desiredSlice (ch : Z) (w : world) : list bytes := sort_Strings (elements (default ∅ (w_desired w !! ch))).

(* sim/sim.go:315-343 world.dispatchTimer *)
Definition fire (t : TimerKind) (vni : Z) (w : world) : KM (R := R) unit :=
  match t with
  | TimerRekey => rekey commitRand vni
  | TimerHeartbeat => emitHeartbeat vni
  | TimerReconcile => reconcile commitRand vni (desiredSlice vni w)
  | TimerData => sendData vni
  end.

(* sim/sim.go:310-351 world.dispatchTimer *)
Definition dispatchTimer (e : Event) (w : world) : outcome (trace_line * world) :=
  let vni := e_VNI (ev_Env e) in
  let deadline := u64 (w_settleDeadline w + sc_SettleRounds (w_sc w)) in
  let! w := match client_index w (ev_Actor e) with Some a => on_client a (fire (ev_Timer e) vni w) w | None => Ok w end in
  let w := if ev_At e <? deadline
           then schedule (u64 (ev_At e + interval (ev_Timer e))) (timer_event (ev_Actor e) (ev_Timer e) (ev_Env e)) w else w in
  Ok (TraceTimer (ev_At e) (ev_Actor e) vni (ev_Timer e), w).

(* sim/sim.go:353-360 world.dispatchFault *)
Definition dispatchFault (e : Event) (w : world) : outcome (trace_line * world) :=
  Ok (TraceFault (ev_At e) (fo_Kind (ev_Fault e)) (fo_On (ev_Fault e)),
      over_net (fun n => with_faults (applyFault (ev_Fault e) (n_faults n)) n) w).

(* sim/sim.go:373-391 world.dispatchChurn *)
Definition churn_replica (op : ChurnOp) (id : bytes) (r : Z) (w : world) : outcome world :=
  let ch := saVNI (ch_VNI op) r in
  let w := if ch_Join op then with_sets (set_add ch id (w_intended w)) (set_add ch id (w_desired w)) w
           else with_sets (set_remove ch id (w_intended w)) (set_remove ch id (w_desired w)) w in
  let! c0 := index (w_clients w) 0 in
  Ok (schedule (u64 (Now (wsched w) + 1)) (timer_event (k_id c0) TimerReconcile (env_of ch)) w).

(* sim/sim.go:362-393 world.dispatchChurn *)
Definition dispatchChurn (e : Event) (w : world) : outcome (trace_line * world) :=
  let op := ev_Churn e in
  match client_index w (ch_Client op) with
  | None => Ok (TraceChurn (ev_At e) (ch_Client op) (ch_VNI op) None, w)
  | Some c =>
      let! cl := index (w_clients w) (Z.of_nat c) in
      let! w := wfor (seqZ 0 (w_numReplicas w)) (churn_replica op (k_identity cl)) w in
      Ok (TraceChurn (ev_At e) (ch_Client op) (ch_VNI op) (Some (ch_Join op)), w)
  end.

(* sim/sim.go:280-292 world.dispatch *)
Definition dispatch (e : Event) (w : world) : outcome (trace_line * world) :=
  match ev_Kind e with
  | KindDeliver => dispatchDeliver e w
  | KindTimer => dispatchTimer e w
  | KindFault => dispatchFault e w
  | KindChurn => dispatchChurn e w
  end.

(** One turn of the main loop, for the event that was popped. *)
(* sim/sim.go:455-462 Run *)
Definition turn (e : Event) (s : Scheduler R) (w : world) : outcome (trace_line * world) :=
  let w := over_net (fun n => with_metrics (observeHorizon (ev_At e)) (with_sched s n)) w in
  let! (line, w) := dispatch e w in
  Ok (line, if (w_settleDeadline w <=? Now (wsched w)) && negb (w_faultsLifted w)
            then with_lifted (over_net (fun n => with_faults (liftAll (n_faults n)) n) w) else w).

(* sim/sim.go:449-463 Run *)
Fixpoint main_loop (fuel : nat) (w : world) (trace : list trace_line) : option (outcome (world * list trace_line)) :=
  match fuel with
  | O => None
  | S fuel =>
      match Pop (wsched w) with
      | (None, _) => Some (Ok (w, trace))
      | (Some e, s) =>
          match turn e s w with
          | Ok (line, w) => main_loop fuel w (trace ++ [line])
          | Err x => Some (Err x)
          | Panic => Some Panic
          | Diverge => Some Diverge
          end
      end
  end.

(* sim/sim.go:427-435 Run *)
Definition make_client (sc : Scenario) (suite : Suite) (dsIDs : list ActorID) (i : nat) : Client :=
  let c := newClient (Z.of_nat i) suite (signers i) (bytes_of_string ("client-" ++ pretty (Z.of_nat i))) dsIDs (sc_W sc) in
  mkClient (k_id c) (k_suite c) (k_signer c) (k_identity c) (k_vnis c) (k_dsIDs c) (k_W c) (sc_MBBDisabled sc)
    (sc_EncryptHandshakes sc) (sc_SharedSPIReplay sc).

(* sim/sim.go:41-47 newKPDirectory *)
Definition newKPDirectory : kpDirectory := mkKpDirectory ∅ ∅.

(* sim/sim.go:412-446 Run *)
Definition setup (sc : Scenario) (seed : Z) : outcome world :=
  let n := sc_Clients sc in
  let dsIDs := [n; n + 1] in
  match Lookup (sc_Suite sc) with
  | None => Panic
  | Some suite =>
      if n <? 0 then Panic else
      let clients := map (make_client sc suite dsIDs) (seq 0 (Z.to_nat n)) in
      let dir := foldl (fun d c => dir_register (k_identity c) d) newKPDirectory clients in
      let ds id r := mkDS id r NewMemorySequencer ∅ (sc_EncryptHandshakes sc) in
      let net := newBus (NewScheduler (source seed)) (newFaultState (sc_Faults sc)) newMetrics in
      bootstrap (mkWorld_ sc (mkHost net dir [] 0) clients [ds n 0; ds (n + 1) 1] (if sc_SingleReplica sc then 1 else numDS)
                   ∅ ∅ (sc_SettleRounds sc) false)
  end.

(** The verdict of a run that has ended. *)
(* sim/sim.go:467-475 Run *)
Definition verdict (sc : Scenario) (w : world) : Result :=
  let m := n_metrics (h_net (w_host w)) in
  let r := Evaluate (h_loss (w_host w)) (w_clients w) (w_intended w) in
  mkResult (r_InvariantsHeld r && negb (0 <? m_PlaintextHandshakeExposures m) &&
            negb (negb (sc_SharedSPIReplay sc) && (0 <? m_ReplayDrops m)))
    (r_Divergence r) (r_Membership r) (r_PacketLoss r) (Some m).

(* sim/sim.go:411-477 Run *)
Definition Run (fuel : nat) (sc : Scenario) (seed : Z) : option (outcome (Result * list trace_line)) :=
  match setup sc seed with
  | Ok w =>
      match main_loop fuel w [] with
      | Some (Ok (w, trace)) => Some (Ok (verdict sc w, trace))
      | Some (Err x) => Some (Err x)
      | Some Panic => Some Panic
      | Some Diverge => Some Diverge
      | None => None
      end
  | Err x => Some (Err x)
  | Panic => Some Panic
  | Diverge => Some Diverge
  end.
End world.
