(* ===== verification/SimRun.v ===== *)
(** [sim]: the verdict is exact, and every run ends.

    The verdict of [Evaluate] against what it means, and the termination of the
    main loop of [Run]: every event that handling an event adds to the queue has
    a lower rank, and queues are well-founded in the order of multisets. *)

From Stdlib Require Import ZArith Lia Strings.Byte Wf_nat.
From stdpp Require Import base list numbers strings pretty sorting sets gmap.
From S2P Require Import Prelude Syntax TreeNodes TreeMath Cipher ToyCrypto RatchetTree TreeSync TreeKEM.
From S2P Require Import KeySchedule Sequencer Esp Framing GroupMessages Group Controller SimSched SimNet SimClient SimWorld.
Local Open Scope Z_scope.

(** * The verdict *)

Section verdict.
Context {C : StdCrypto}.
Implicit Types c : Client.

(** The tip of a client that is live on a channel. *)
Definition tip_at c (ch : Z) : option tip := k_vnis c !! ch ≫= client_tip.

Lemma elem_client_tips c ch t : (ch, t) ∈ client_tips c <-> tip_at c ch = Some t.
Proof.
  unfold client_tips. rewrite list_elem_of_omap. split.
  - intros (ch' & _ & Hx). apply fmap_Some in Hx as (t' & Ht & [= -> ->]). done.
  - intros Ht. exists ch. split; [|unfold tip_at in Ht; by rewrite Ht].
    unfold sorted_map_keys, sorted_keys. rewrite merge_sort_Permutation. apply elem_of_elements, elem_of_dom.
    unfold tip_at in Ht. by destruct (k_vnis c !! ch).
Qed.

Definition gathered (x : gmap Z (list tip) * gmap Z (gset bytes)) (P : Z -> tip -> Prop) (Q : Z -> bytes -> Prop) : Prop :=
  forall ch, (forall t, t ∈ default [] (x.1 !! ch) <-> P ch t) /\ (forall id, id ∈ default ∅ (x.2 !! ch) <-> Q ch id).

Lemma gather_client id l x P Q : gathered x P Q ->
  gathered (foldl (fun '(byCh, live) '(ch, t) =>
      (<[ch := default [] (byCh !! ch) ++ [t]]> byCh, <[ch := {[id]} ∪ default ∅ (live !! ch)]> live)) x l)
    (fun ch t => P ch t \/ (ch, t) ∈ l) (fun ch i => Q ch i \/ (i = id /\ exists t, (ch, t) ∈ l)).
Proof.
  revert x P Q. induction l as [|[k t0] l IH]; intros [byCh live] P Q Hg.
  { intros ch. destruct (Hg ch) as [H1 H2]. split; [intros t; rewrite H1; set_solver|intros i; rewrite H2; set_solver]. }
  cbn [foldl]. pose proof (IH (<[k := default [] (byCh !! k) ++ [t0]]> byCh, <[k := {[id]} ∪ default ∅ (live !! k)]> live)
    (fun ch t => P ch t \/ (ch, t) = (k, t0)) (fun ch i => Q ch i \/ (i = id /\ ch = k))) as Hi.
  assert (forall (A B : Prop), A -> (A -> B) -> B) as cut by auto. eapply cut; [apply Hi|clear Hi; intros Hi].
  - intros ch. destruct (Hg ch) as [H1 H2]. cbn [fst snd] in *. destruct (decide (ch = k)) as [->|Hne].
    + rewrite !lookup_insert_eq. cbn. split.
      * intros t. rewrite elem_of_app, H1, list_elem_of_singleton. naive_solver.
      * intros i. rewrite elem_of_union, elem_of_singleton, H2. naive_solver.
    + rewrite !lookup_insert_ne by done. split; [intros t; rewrite H1; naive_solver|intros i; rewrite H2; naive_solver].
  - intros ch. destruct (Hi ch) as [H1 H2]. split.
    + intros t. rewrite H1, elem_of_cons. naive_solver.
    + intros i. rewrite H2. split.
      * intros [[?|[-> ->]]|[-> [t Ht]]]; [by left|right; split; [done|]; exists t0; by left|right; split; [done|]; exists t; by right].
      * intros [?|[-> [t [[= -> ->]|Ht]%elem_of_cons]]]; eauto 6.
Qed.

(** What [Evaluate] collects: the tips, and who is live. *)
Lemma gather_spec clients : gathered (gather clients)
  (fun ch t => exists c, c ∈ clients /\ tip_at c ch = Some t)
  (fun ch id => exists c, c ∈ clients /\ k_identity c = id /\ is_Some (tip_at c ch)).
Proof.
  unfold gather. assert (forall x P Q, gathered x P Q -> gathered (foldl (fun '(byCh, live) c =>
    foldl (fun '(byCh, live) '(ch, t) =>
      (<[ch := default [] (byCh !! ch) ++ [t]]> byCh, <[ch := {[k_identity c]} ∪ default ∅ (live !! ch)]> live))
      (byCh, live) (client_tips c)) x clients)
    (fun ch t => P ch t \/ exists c, c ∈ clients /\ tip_at c ch = Some t)
    (fun ch id => Q ch id \/ exists c, c ∈ clients /\ k_identity c = id /\ is_Some (tip_at c ch))) as Hg.
  - induction clients as [|c clients IH]; intros [byCh live] P Q Hx.
    { intros ch. destruct (Hx ch) as [H1 H2]. split; [intros t; rewrite H1; set_solver|intros i; rewrite H2; set_solver]. }
    cbn [foldl]. pose proof (IH _ _ _ (gather_client (k_identity c) (client_tips c) _ _ _ Hx)) as Hi. intros ch. destruct (Hi ch) as [H1 H2]. split.
    + intros t. rewrite H1, elem_client_tips. setoid_rewrite elem_of_cons. naive_solver.
    + intros i. rewrite H2. setoid_rewrite elem_client_tips. setoid_rewrite elem_of_cons. unfold is_Some. naive_solver.
  - intros ch. edestruct (Hg (∅, ∅) (fun _ _ => False) (fun _ _ => False)) as [H1 H2].
    { intros k. cbn [fst snd]. rewrite !lookup_empty. cbn. set_solver. }
    split; [intros t; rewrite H1; naive_solver|intros i; rewrite H2; naive_solver].
Qed.

Lemma sameSet_spec want got : sameSet want got = true <-> want = got.
Proof.
  unfold sameSet. destruct (Nat.eqb_spec (size want) (size got)) as [E|Hne]; cbn [negb].
  - rewrite forallb_forall. split.
    + intros Hall. apply leibniz_equiv, set_subseteq_size_equiv; [|lia]. intros k Hk. apply elem_of_elements in Hk.
      specialize (Hall k). rewrite <- list_elem_of_In in Hall. specialize (Hall Hk). by apply bool_decide_eq_true in Hall.
    + intros -> k Hk%list_elem_of_In%elem_of_elements. by apply bool_decide_eq_true_2.
  - split; [done|]. by intros ->.
Qed.

Lemma diverging_spec ch tips : diverging ch tips = [] <-> forall t t', t ∈ tips -> t' ∈ tips -> t = t'.
Proof.
  destruct tips as [|t0 rest]; [set_solver|]. cbn [diverging]. split.
  - intros Hd. assert (forall t, t ∈ rest -> t = t0) as Heq.
    { intros t Ht. apply list_elem_of_In, in_split in Ht as (l1 & l2 & ->). rewrite flat_map_app in Hd. cbn [flat_map] in Hd.
      apply app_eq_nil in Hd as [_ Hd]. apply app_eq_nil in Hd as [Hd _]. apply app_eq_nil in Hd as [H1 H2].
      destruct (Z.eqb_spec (t_epoch t) (t_epoch t0)) as [E1|]; [|done]. destruct (bytes_Equal (t_ea t) (t_ea t0)) eqn:E2; [|done].
      destruct (bytes_Equal (t_key t) (t_key t0)) eqn:E3; [|done]. apply bytes_Equal_spec in E2, E3. destruct t, t0; cbn in *; congruence. }
    intros t t' [->|Ht]%elem_of_cons [->|Ht']%elem_of_cons; [done|symmetry; auto|auto|]. by rewrite (Heq t), (Heq t').
  - intros Heq. assert (forall t, t ∈ rest -> t = t0) as Hr by (intros t Ht; apply Heq; set_solver). clear Heq.
    induction rest as [|t rest IH]; [done|]. cbn [flat_map]. rewrite (Hr t) by set_solver.
    rewrite Z.eqb_refl, !(proj2 (bytes_Equal_spec _ _) eq_refl). cbn. apply IH. set_solver.
Qed.
End verdict.

Lemma flat_map_nil {A B} (f : A -> list B) l : flat_map f l = [] <-> forall x, x ∈ l -> f x = [].
Proof.
  induction l as [|x l IH]; cbn [flat_map]; [set_solver|]. split.
  - intros [H1 H2]%app_eq_nil y [->|Hy]%elem_of_cons; [done|by apply IH].
  - intros H. rewrite (H x) by set_solver. apply IH. set_solver.
Qed.

Lemma omap_nil {A B} (f : A -> option B) l : omap f l = [] <-> forall x, x ∈ l -> f x = None.
Proof.
  induction l as [|x l IH]; [set_solver|]. cbn. split.
  - destruct (f x) eqn:E; [done|]. intros H y [->|Hy]%elem_of_cons; [done|by apply IH].
  - intros H. rewrite (H x) by set_solver. apply IH. set_solver.
Qed.

Lemma elem_sorted_map_keys {A} (m : gmap Z A) k : k ∈ sorted_map_keys m <-> is_Some (m !! k).
Proof. unfold sorted_map_keys, sorted_keys. rewrite merge_sort_Permutation, elem_of_elements. apply elem_of_dom. Qed.


(** * Queues are well-founded *)

(** A queue of ranks in which one was replaced by any number of lower ones. *)
Definition lowered (l' l : list nat) : Prop :=
  exists n rest new, l ≡ₚ n :: rest /\ l' ≡ₚ new ++ rest /\ Forall (fun m => (m < n)%nat) new.

Lemma lowered_perm l l1 l2 : l1 ≡ₚ l2 -> lowered l l1 -> lowered l l2.
Proof. intros Hp (n & rest & new & H1 & H2 & H3). exists n, rest, new. split_and!; [by rewrite <- Hp|done|done]. Qed.

Lemma Acc_perm l1 l2 : l1 ≡ₚ l2 -> Acc lowered l1 -> Acc lowered l2.
Proof. intros Hp [H]. constructor. intros l Hl. apply H. by eapply lowered_perm; [symmetry|]. Qed.

Lemma Acc_cons n l : Acc lowered l -> Acc lowered (n :: l).
Proof.
  revert l. induction (lt_wf n) as [n _ IHn]. intros l Hl. induction Hl as [l Hacc IHl]. constructor. intros l' (m & rest & new & H1 & H2 & H3).
  assert (Acc lowered l) as Hl by (by constructor).
  destruct (decide (m = n)) as [->|Hne].
  - apply Permutation.Permutation_cons_inv in H1. apply (Acc_perm (new ++ l)); [by rewrite H2, H1|]. clear H2.
    induction H3 as [|k new Hk _ IH]; [done|]. cbn. by apply IHn.
  - assert (n ∈ rest) as Hin.
    { assert (n ∈ m :: rest) as Hin by (rewrite <- H1; by left). by apply elem_of_cons in Hin as [?|?]. }
    apply elem_of_Permutation in Hin as [rest' Hr]. apply (Acc_perm (n :: new ++ rest')).
    + by rewrite H2, Hr, Permutation_middle.
    + apply IHl. exists m, rest', new. split_and!; [|done|done]. rewrite Hr in H1. apply (Permutation.Permutation_cons_inv (a := n)).
      rewrite H1. constructor.
Qed.

Lemma lowered_wf : well_founded lowered.
Proof. intros l. induction l as [|n l IH]; [|by apply Acc_cons]. constructor. intros l' (n & rest & new & H & _). by apply Permutation_nil_cons in H. Qed.

(** ** Popping loses nothing *)

Lemma heap_down_perm {A} (lessb : A -> A -> bool) fuel h i n : (i < length h)%nat -> (n <= length h)%nat -> heap_down lessb fuel h i n ≡ₚ h.
Proof.
  revert h i. induction fuel as [|fuel IH]; intros h i Hi Hn; [done|]. cbn [heap_down].
  destruct (Nat.leb_spec n (2 * i + 1)) as [Hl|Hl]; [done|]. set (j := if _ && _ then _ else _).
  assert (j < n)%nat as Hj by (unfold j; destruct (Nat.ltb_spec (2 * i + 1 + 1) n); cbn [andb]; [case_match|]; lia).
  destruct (negb _); [done|]. rewrite IH; [|rewrite heap_Swap_length; lia..]. apply heap_Swap_perm; lia.
Qed.

Lemma heap_Pop_perm {A} (lessb : A -> A -> bool) h : match heap_Pop lessb h with Some (x, rest) => h ≡ₚ x :: rest | None => h = [] end.
Proof.
  unfold heap_Pop. destruct h as [|y h0]; [done|]. set (h := y :: h0). set (n := (length h - 1)%nat). assert (length h = S n) as El by (unfold n, h; cbn; lia).
  assert (heap_down lessb (length h) (heap_Swap h 0 n) 0 n ≡ₚ h) as Hp.
  { rewrite heap_down_perm by (rewrite heap_Swap_length; lia). apply heap_Swap_perm; lia. }
  set (h1 := heap_down _ _ _ _ _) in *. assert (length h1 = S n) as El1 by (by rewrite (Permutation_length Hp)).
  destruct (lookup_lt_is_Some_2 h1 n ltac:(lia)) as [x Hx]. rewrite Hx. cbn [fmap option_fmap option_map]. rewrite <- Hp.
  rewrite <- (take_drop_middle h1 n x Hx) at 1. rewrite drop_ge by lia. by rewrite <- Permutation_middle, app_nil_r.
Qed.

(** * Ranks *)

Section ranks.
Context {C : StdCrypto} {R : Type} `{!RandSource R}.
Local Abbreviation KM := (KM (R := R)).
(** The number of clients, whose actors are [0 .. n - 1], and the time after
    which timers are not set again. *)
Context (n : Z) (deadline : Z).
Implicit Types c : Client.
Implicit Types v : vniState.
Implicit Types h : Host (R := R).

Definition is_client (a : ActorID) : bool := (0 <=? a) && (a <? n).

(** A message leads to lower ones only.  The reflectors reflect commits and
    Welcomes to clients and answer requests; a client that joins sends a
    heartbeat, which makes others ask for what they have missed. *)
Definition rank_msg (dst : ActorID) (t : MsgType) : nat :=
  match t with
  | MsgLogReply | MsgData => 1
  | MsgCommit => if is_client dst then 1 else 2
  | MsgLogRequest => 2
  | MsgHeartbeat => 3
  | MsgWelcome => if is_client dst then 4 else 5
  end.

Definition rank (e : Event) : nat :=
  match ev_Kind e with
  | KindFault => 0
  | KindDeliver => rank_msg (ev_Actor e) (e_Type (ev_Env e))
  | KindTimer => 10 + Z.to_nat (deadline - ev_At e)
  | KindChurn => 11 + Z.to_nat deadline
  end.

(** Events of rank below [k] were added, at the same time. *)
Definition adds (k : nat) (h h' : Host (R := R)) : Prop :=
  s_clock (n_sched (h_net h')) = s_clock (n_sched (h_net h)) /\
  exists new, queue (h_net h') ≡ₚ new ++ queue (h_net h) /\ Forall (fun e => (rank e < k)%nat) new.

Lemma adds_refl k h : adds k h h.
Proof. split; [done|]. by exists []. Qed.

Lemma adds_trans k h1 h2 h3 : adds k h1 h2 -> adds k h2 h3 -> adds k h1 h3.
Proof.
  intros [C1 (n1 & P1 & F1)] [C2 (n2 & P2 & F2)]. split; [congruence|]. exists (n2 ++ n1). split; [by rewrite P2, P1, app_assoc|].
  by apply Forall_app.
Qed.

Lemma adds_le k k' h h' : (k <= k')%nat -> adds k h h' -> adds k' h h'.
Proof. intros Hk [Hc (new & P & F)]. split; [done|]. exists new. split; [done|]. eapply Forall_impl; [exact F|]. cbn. lia. Qed.

(** Only clients subscribe. *)
Definition fit_net (w : Net R) : Prop := forall ch s a, n_subs w !! ch = Some s -> a ∈ s -> is_client a = true.
Definition fit_host h : Prop := fit_net (h_net h).

(** A channel that was not joined has nothing to resend. *)
Definition fit_vni v : Prop := v_joined v = false -> v_hasHead v = false /\ v_pendingWelcome v = ∅.

Record fit_client c : Prop := {
  fit_id : is_client (k_id c) = true;
  fit_ds : k_dsIDs c = [n; n + 1];
  fit_vnis : forall ch v, k_vnis c !! ch = Some v -> fit_vni v
}.

(** All there is of a channel is joined. *)
Definition joins (o : option Z) c : Prop := match o with Some ch => forall v, k_vnis c !! ch = Some v -> v_joined v = true | None => True end.

(** A computation that adds events of rank below [k] only, for a client that
    has joined the channel [o]. *)
Definition busy (o : option Z) (k : nat) {A} (m : KM A) : Prop :=
  forall c h a c' h', fit_client c -> fit_host h -> joins o c -> m (c, h) = Ok (a, (c', h')) ->
    fit_client c' /\ fit_host h' /\ adds k h h' /\ forall o', joins o' c -> joins o' c'.

Lemma busy_idle o k {A} (m : KM A) : (forall c h a c' h', m (c, h) = Ok (a, (c', h')) -> c' = c /\ h' = h) -> busy o k m.
Proof. intros Hm c h a c' h' Hc Hh _ [-> ->]%Hm. split_and!; [done|done|apply adds_refl|done]. Qed.

Lemma busy_ret o k {A} (a : A) : busy o k (kret a).
Proof. apply busy_idle. by intros c h b c' h' [= <- <- <-]. Qed.
Lemma busy_lift o k {A} (m : outcome A) : busy o k (klift m).
Proof. apply busy_idle. intros c h b c' h' H. unfold klift in H. destruct m; cbn in H; try done. by injection H as <- <- <-. Qed.
Lemma busy_get o k : busy o k kget.
Proof. apply busy_idle. by intros c h b c' h' [= <- <- <-]. Qed.
Lemma busy_shared o k : busy o k kshared.
Proof. apply busy_idle. by intros c h b c' h' [= <- <- <-]. Qed.
Lemma busy_settle o k {A} (r : outcome A) : busy o k (settle r).
Proof. destruct r; [apply busy_ret|apply busy_ret|apply busy_lift|apply busy_lift]. Qed.

Lemma busy_bind o k {A B} (m : KM A) (f : A -> KM B) : busy o k m -> (forall a, busy o k (f a)) -> busy o k (kbind m f).
Proof.
  intros Hm Hf c h b c' h' Hc Hh Ho Hx. unfold kbind in Hx. apply obind_ok in Hx as ([a [c1 h1]] & H1 & H2).
  destruct (Hm _ _ _ _ _ Hc Hh Ho H1) as (C1 & D1 & A1 & J1). destruct (Hf a _ _ _ _ _ C1 D1 (J1 _ Ho) H2) as (C2 & D2 & A2 & J2).
  split_and!; [done|done|by eapply adds_trans|auto].
Qed.

Lemma busy_weaken o k {A} (m : KM A) : busy None k m -> busy o k m.
Proof. intros Hm c h a c' h' Hc Hh _. by apply Hm. Qed.

Lemma busy_le o k k' {A} (m : KM A) : (k <= k')%nat -> busy o k m -> busy o k' m.
Proof.
  intros Hk Hm c h a c' h' Hc Hh Ho Hx. destruct (Hm _ _ _ _ _ Hc Hh Ho Hx) as (? & ? & ? & ?).
  split_and!; [done|done|by eapply adds_le|done].
Qed.

(** Changes of the shared state that keep the queue and the subscriptions. *)
Lemma busy_host o k (f : Host -> Host) : (forall h, h_net (f h) = h_net h \/ exists g, h_net (f h) = with_metrics g (h_net h)) ->
  busy o k (fun s => Ok (tt, (s.1, f s.2))).
Proof.
  intros Hf c h a c' h' Hc Hh _ [= _ <- <-]. cbn. destruct (Hf h) as [E|[g E]]; unfold fit_host, adds, queue in *; rewrite E.
  all: split_and!; [done|done|done|by exists []|done].
Qed.

Lemma busy_draw o k : busy o k draw.
Proof.
  intros c h a c' h' Hc Hh _ [= _ <- <-]. split_and!; [done|done| |done]. split; [done|by exists []].
Qed.
Lemma busy_metric o k f : busy o k (metric f).
Proof. apply (busy_host o k (fun h => with_net (with_metrics f (h_net h)) h)). intros h. right. by exists f. Qed.
Lemma busy_now o k : busy o k now.
Proof. apply busy_bind; [apply busy_shared|intros; apply busy_ret]. Qed.
Lemma busy_vni o k ch : busy o k (vni ch).
Proof. apply busy_bind; [apply busy_get|intros; apply busy_ret]. Qed.
Lemma busy_loss o k a b x y : busy o k (packetLoss a b x y).
Proof.
  apply (busy_host o k (fun h => mkHost (h_net h) (h_dir h) (h_loss h ++ [mkLossEvent (vni32 a) b x y]) (h_drawn h))). by left.
Qed.

Lemma busy_update o k ch f : (forall v, (o = Some ch -> v_joined v = true) -> fit_vni v -> fit_vni (f v) /\ (v_joined v = true -> v_joined (f v) = true)) ->
  busy o k (update ch f).
Proof.
  intros Hf c h a c' h' [H1 H2 H3] Hh Ho [= _ <- <-]. cbn.
  assert (forall ch' v', alter f ch (k_vnis c) !! ch' = Some v' -> exists v, k_vnis c !! ch' = Some v /\ (v' = v \/ ch' = ch /\ v' = f v)) as Hl.
  { intros ch' v'. destruct (decide (ch = ch')) as [<-|Hne].
    - rewrite lookup_alter_eq. intros (v & Hv & ->)%fmap_Some. eauto.
    - rewrite lookup_alter_ne by done. eauto. }
  split_and!; [|done|apply adds_refl|].
  - split; [done|done|]. cbn [k_vnis with_vnis]. intros ch' v' (v & Hv & [->|[-> ->]])%Hl; [by eapply H3|].
    apply Hf; [|by eapply H3]. intros ->. by apply Ho.
  - intros [ch'|] Hj; [|done]. cbn [joins k_vnis with_vnis] in *. intros v' (v & Hv & [->|[-> ->]])%Hl; [by apply Hj|].
    apply Hf; [|by eapply H3|by apply Hj]. intros ->. by apply Ho.
Qed.
(** ** Publishing *)

Definition may_reach (env : Envelope) (dst : ActorID) : Prop :=
  if e_Dst env =? Broadcast then is_client dst = true else dst = e_Dst env.

Lemma publish_to_adds k env dst w w' : (rank_msg dst (e_Type env) < k)%nat -> publish_to env dst w = Ok w' ->
  n_subs w' = n_subs w /\ s_clock (n_sched w') = s_clock (n_sched w) /\
  exists new, queue w' ≡ₚ new ++ queue w /\ Forall (fun e => (rank e < k)%nat) new.
Proof.
  intros Hk. unfold publish_to. destruct (dst =? e_Src env); [intros [= <-]; split_and!; [done|done|by exists []]|].
  destruct (blocked _ _ _); [intros [= <-]; split_and!; [done|done|by exists []]|].
  destruct (drop _ _) as [dropped rng]. destruct dropped; [intros [= <-]; split_and!; [done|done|by exists []]|].
  intros ([dl rng'] & _ & [= <-])%obind_ok. split_and!; [done|done|].
  eexists [_]. split; [apply heap_Push_perm|]. by constructor.
Qed.

Lemma publish_all_adds k env dsts w w' : Forall (fun dst => (rank_msg dst (e_Type env) < k)%nat) dsts -> publish_all env dsts w = Ok w' ->
  n_subs w' = n_subs w /\ s_clock (n_sched w') = s_clock (n_sched w) /\
  exists new, queue w' ≡ₚ new ++ queue w /\ Forall (fun e => (rank e < k)%nat) new.
Proof.
  intros Hk. revert w. induction Hk as [|dst dsts Hk _ IH]; intros w; cbn [publish_all].
  { intros [= <-]. split_and!; [done|done|by exists []]. }
  intros (w1 & (S1 & C1 & n1 & P1 & F1)%(publish_to_adds k) & (S2 & C2 & n2 & P2 & F2)%IH)%obind_ok; [|done].
  split_and!; [congruence|congruence|]. exists (n2 ++ n1). split; [by rewrite P2, P1, app_assoc|by apply Forall_app].
Qed.

Lemma Publish_adds k env w w' : fit_net w -> (forall dst, may_reach env dst -> (rank_msg dst (e_Type env) < k)%nat) -> Publish env w = Ok w' ->
  n_subs w' = n_subs w /\ s_clock (n_sched w') = s_clock (n_sched w) /\
  exists new, queue w' ≡ₚ new ++ queue w /\ Forall (fun e => (rank e < k)%nat) new.
Proof.
  intros Hf Hk. apply publish_all_adds. apply Forall_forall. intros dst Hd. apply Hk. unfold may_reach.
  destruct (e_Dst env =? Broadcast); [|by apply list_elem_of_singleton in Hd].
  unfold subscribers, sorted_keys in Hd. rewrite merge_sort_Permutation, elem_of_elements in Hd.
  destruct (n_subs w !! e_VNI env) as [s|] eqn:E; [by eapply Hf|]. cbn in Hd. set_solver.
Qed.

Lemma busy_publish o k env : (forall dst, may_reach env dst -> (rank_msg dst (e_Type env) < k)%nat) -> busy o k (publish env).
Proof.
  intros Hk c h a c' h' Hc Hh _ Hx. unfold publish, kbind, kshared, klift, kshare in Hx. cbn in Hx.
  apply obind_ok in Hx as ([w s] & Hp & Hx). apply obind_ok in Hp as (w1 & Hp & [= <- <-]). cbn in Hx. injection Hx as _ <- <-.
  destruct (Publish_adds k env _ _ Hh Hk Hp) as (S1 & C1 & Hn). split_and!; [done| |by split|done].
  unfold fit_host, fit_net. cbn [h_net with_net]. by rewrite S1.
Qed.

Context (Hn : 0 <= n).

Lemma reflector_not_client ch c x : fit_client c -> reflectorFor c ch = Ok x -> is_client x = false /\ x <> Broadcast.
Proof using Hn.
  intros [_ Hd _] Hx. unfold reflectorFor, index in Hx. rewrite Hd in Hx. destruct (replicaOf ch <? 0); [done|].
  unfold is_client, Broadcast. destruct (Z.to_nat (replicaOf ch)) as [|[|i]]; cbn in Hx; [injection Hx as <-|injection Hx as <-|done].
  all: split; [|lia]; apply andb_false_iff; right; apply Z.ltb_ge; lia.
Qed.

Lemma busy_toReflector o k ch env : (forall dst, is_client dst = false -> (rank_msg dst (e_Type env) < k)%nat) -> busy o k (toReflector ch env).
Proof using Hn.
  intros Hk c h a c' h' Hc Hh Ho Hx. unfold toReflector in Hx. unfold kbind at 1 2, kget, klift in Hx. cbn in Hx.
  destruct (reflectorFor c ch) as [dst| | |] eqn:E; cbn in Hx; try done. destruct (reflector_not_client _ _ _ Hc E) as [Hd Hb].
  eapply busy_publish; [|done|done|exact Ho|exact Hx]. intros x. unfold may_reach. cbn [e_Dst e_Type].
  rewrite (proj2 (Z.eqb_neq _ _) Hb). intros ->. by apply Hk.
Qed.

(** A method on a channel that must be joined. *)
Lemma busy_joined o k ch {A} (f : option vniState -> KM A) :
  busy o k (f None) -> (forall v, busy (Some ch) k (f (Some v))) -> busy o k (kbind (joined_vni ch) f).
Proof.
  intros H0 H1 c h a c' h' Hc Hh Ho Hx. unfold joined_vni, vni, kbind, kget, kret in Hx. cbn in Hx.
  destruct (k_vnis c !! ch) as [v|] eqn:Hv; [|by eapply H0]. destruct (v_joined v) eqn:Hj; [|by eapply H0].
  eapply (H1 v); [done|done| |exact Hx]. intros v' Hv'. cbn in Hv'. congruence.
Qed.
End ranks.

Create HintDb busy.
#[export] Hint Resolve busy_ret busy_lift busy_get busy_shared busy_settle busy_draw busy_metric busy_now busy_vni busy_loss : busy.

(** Computations that add events of low rank only, statement by statement. *)
Ltac toil := repeat first
  [ by auto with busy
  | match goal with
    | |- forall _, _ => intro
    | |- busy _ _ _ _ (kbind (joined_vni _) _) => apply busy_joined
    | |- busy _ _ _ _ (kbind _ _) => apply busy_bind
    | |- busy _ _ _ _ (toReflector _ _) => apply busy_toReflector; [done|intros dst Hd; cbn; rewrite ?Hd; lia]
    end
  | apply busy_update; intros ? _ ?; split; [done|done]
  | case_match ].

(** * The methods of a client *)

Section methods.
Context {C : StdCrypto} {R : Type} `{!RandSource R} (n deadline : Z) (Hn : 0 <= n).
Context (commitRand : nat -> CommitRand) (kpRand : nat -> Rand * Rand).
Local Abbreviation busy := (busy (R := R) n deadline).

Lemma busy_on_ctrl o k {A} ch v (m : CM (S := unit) A) : busy o k (on_ctrl ch v m).
Proof. unfold on_ctrl. toil. Qed.
Lemma busy_cache o k ch : busy o k (cacheCurrentSA ch).
Proof. unfold cacheCurrentSA, trimSAs. toil. Qed.
Lemma busy_initPeer o k ch before : busy o k (initPeerEpochForNewMembers ch before).
Proof. unfold initPeerEpochForNewMembers. toil. Qed.
Lemma busy_prune o k ch : busy o k (pruneDepartedPeers ch).
Proof. unfold pruneDepartedPeers. toil. Qed.
#[local] Hint Resolve busy_on_ctrl busy_cache busy_initPeer busy_prune : busy.

Lemma busy_leave o k ch : busy o k (leaveVNI ch).
Proof.
  intros c h a c' h' [H1 H2 H3] Hh Ho Hx. unfold leaveVNI, kbind, kget, kshared, kshare, kput in Hx. cbn in Hx. injection Hx as _ <- <-.
  split_and!.
  - split; [done|done|]. cbn [k_vnis with_vnis]. intros ch' v [_ Hv]%lookup_delete_Some. by eapply H3.
  - unfold fit_host, fit_net, Unsubscribe in *. cbn [h_net with_net]. destruct (n_subs (h_net h) !! ch) as [s|] eqn:E; [|done].
    cbn [n_subs with_subs]. intros ch' s' x [[<- <-]|[_ Hs]]%lookup_insert_Some Ha; [|by eapply Hh]. eapply Hh; [exact E|]. set_solver.
  - unfold Unsubscribe. split; [|exists []; split; [|done]]; cbn; by destruct (n_subs (h_net h) !! ch).
  - intros [ch'|] Hj; [|done]. cbn [joins k_vnis with_vnis] in *. intros v [_ Hv]%lookup_delete_Some. by apply Hj.
Qed.
#[local] Hint Resolve busy_leave : busy.

Lemma busy_apply o k ch v msg : busy o k (apply_commit ch v msg).
Proof. unfold apply_commit, applied. toil. Qed.
#[local] Hint Resolve busy_apply : busy.
Lemma busy_onCommit k env : busy None k (onCommit env).
Proof. unfold onCommit. toil. Qed.
Lemma busy_replay o k ch recs : busy o k (replay_log ch recs).
Proof. induction recs; cbn [replay_log]; toil. Qed.
#[local] Hint Resolve busy_replay : busy.
Lemma busy_onLogReply k env : busy None k (onLogReply env).
Proof. unfold onLogReply. toil. Qed.
Lemma busy_onData k env : busy None k (onData env).
Proof. unfold onData. toil. Qed.

Lemma busy_onHeartbeat env : busy None 3 (onHeartbeat env).
Proof using Hn.
  unfold onHeartbeat, requestCatchup. apply busy_joined; [toil|]. intros v. apply busy_bind; [|toil].
  apply busy_update. intros w _ Hw. unfold fit_vni in *.
  destruct (_ || _), (identityFromActorID (e_Src env)); cbn; (split; [|done]); intros Hj; destruct (Hw Hj) as [-> Hp]; rewrite ?Hp, ?delete_empty; done.
Qed.

Lemma busy_sendData tenant : busy None 10 (sendData tenant).
Proof.
  assert (forall rcv cands, busy None 10 (sendToReceiver rcv cands)) as Hs.
  { intros rcv cands. unfold sendToReceiver. toil. apply busy_publish. intros dst _. cbn. lia. }
  assert (forall rcvs cands, busy None 10 (send_each rcvs cands)) as He by (induction rcvs; intros; cbn [send_each]; toil).
  unfold sendData, candidate. toil.
Qed.

Lemma busy_sendCommit o ch base msg : busy o 10 (sendCommit ch base msg).
Proof using Hn. unfold sendCommit. toil. Qed.
Lemma busy_sendWelcome o ch w added : busy o 10 (sendWelcome ch w added).
Proof using Hn. induction added; cbn [sendWelcome]; toil. Qed.
Lemma busy_recordHead k ch base msg : busy (Some ch) k (recordHead ch base msg).
Proof. apply busy_update. intros v Hj _. split; [|done]. intros E. cbn in E. rewrite (Hj eq_refl) in E. done. Qed.
Lemma busy_note k ch own w added : busy (Some ch) k (note_added ch own w added).
Proof. apply busy_update. intros v Hj _. split; [|done]. intros E. cbn in E. rewrite (Hj eq_refl) in E. done. Qed.
#[local] Hint Resolve busy_sendCommit busy_sendWelcome busy_recordHead busy_note : busy.

(** The head of a commit, after [canCommit]. *)
Lemma busy_canCommit k ch {A} (f : option vniState -> KM (R := R) A) :
  busy None k (f None) -> (forall v, busy (Some ch) k (f (Some v))) -> busy None k (kbind (canCommit ch) f).
Proof.
  intros H0 H1 c h a c' h' Hc Hh Ho Hx. unfold kbind at 1 in Hx. apply obind_ok in Hx as ([st [c1 h1]] & Hst & Hx).
  unfold canCommit, joined_vni, vni, kbind, kget, kret, klift in Hst. cbn in Hst.
  destruct (k_vnis c !! ch) as [v|] eqn:Hv; [destruct (v_joined v) eqn:Hj|]; cbn in Hst; [|injection Hst as <- <- <-; by eapply H0..].
  apply obind_ok in Hst as ([b s] & Hb & Hst). apply obind_ok in Hb as (b' & _ & [= <- <-]).
  assert ((c1, h1) = (c, h) /\ (st = None \/ st = Some v)) as [[= -> ->] [->| ->]]
    by (repeat match type of Hst with context [if ?x then _ else _] => destruct x end; injection Hst as <- <- <-; auto).
  - by eapply H0.
  - eapply (H1 v); [done|done| |exact Hx]. intros v' Hv'. congruence.
Qed.

Lemma busy_rekey ch : busy None 10 (rekey commitRand ch).
Proof using Hn. unfold rekey. apply busy_canCommit; toil. Qed.
Lemma busy_reconcile ch desired : busy None 10 (reconcile commitRand ch desired).
Proof using Hn. unfold reconcile. apply busy_canCommit; toil. Qed.

Lemma busy_beat o k ch base own : (3 < k)%nat -> busy o k (publish (mkEnvelope ch MsgHeartbeat own Broadcast base [] 0 0 [] [] [])).
Proof. intros Hk. by apply busy_publish. Qed.

Lemma busy_heartbeat ch : busy None 10 (emitHeartbeat ch).
Proof using Hn.
  assert (forall l, busy (Some ch) 10 (resend_welcomes ch l)) as Hr by (induction l as [|[id w] l IH]; cbn [resend_welcomes]; toil).
  unfold emitHeartbeat, resendUnacked. toil. apply busy_beat. lia.
Qed.
(** ** Joining *)

(** Nothing to resend on a channel. *)
Definition plain (ch : Z) (c : Client) : Prop := forall v, k_vnis c !! ch = Some v -> v_hasHead v = false /\ v_pendingWelcome v = ∅.

Lemma plain_alter ch f c : (forall v, v_hasHead (f v) = v_hasHead v /\ v_pendingWelcome (f v) = v_pendingWelcome v) ->
  plain ch c -> plain ch (with_vnis (alter f ch (k_vnis c)) c).
Proof.
  intros Hf Hp v. cbn [k_vnis with_vnis]. rewrite lookup_alter_eq. intros (v0 & Hv0 & ->)%fmap_Some.
  destruct (Hf v0) as [-> ->]. by apply Hp.
Qed.

Lemma plain_on_ctrl {A} ch v (m : CM (S := unit) A) c h r c' h' : plain ch c -> on_ctrl (R := R) ch v m (c, h) = Ok (r, (c', h')) -> plain ch c'.
Proof.
  intros Hp Hx. unfold on_ctrl, update, kbind, kshared, kget, kput, kret in Hx. cbn in Hx. destruct (m _) as [r1 [ctrl u]].
  cbn in Hx. injection Hx as _ <- <-. by apply plain_alter.
Qed.

Lemma plain_cache ch c h a c' h' : plain ch c -> cacheCurrentSA (R := R) ch (c, h) = Ok (a, (c', h')) -> plain ch c'.
Proof.
  intros Hp Hx. unfold cacheCurrentSA, joined_vni, vni in Hx. unfold kbind at 1 2 3, kget, kret in Hx. cbn in Hx.
  destruct (match k_vnis c !! ch with Some v => _ | None => None end) as [v|]; [|by injection Hx as _ <- <-].
  destruct (CurrentSA (v_ctrl v)) as [sa| | |]; [|by injection Hx as _ <- <-|done|done].
  unfold kbind at 1 in Hx. apply obind_ok in Hx as ([spis s1] & H1 & Hx). unfold klift in H1. apply obind_ok in H1 as (x & _ & [= <- <-]).
  unfold trimSAs, update, metric, kbind, kget, kput, kret, kshared, kshare in Hx. cbn in Hx. injection Hx as _ <- <-.
  apply plain_alter; [done|]. by apply plain_alter.
Qed.

Lemma resend_nothing ch c h a c' h' : plain ch c -> resendUnacked (R := R) ch (c, h) = Ok (a, (c', h')) -> c' = c /\ h' = h.
Proof.
  intros Hp Hx. unfold resendUnacked, joined_vni, vni in Hx. unfold kbind at 1 2 3, kget, kret in Hx. cbn in Hx.
  destruct (k_vnis c !! ch) as [v|] eqn:Hv; [|by injection Hx as _ <- <-]. destruct (v_joined v); [|by injection Hx as _ <- <-].
  destruct (Hp v Hv) as [Eh Ep]. rewrite Eh, Ep, dom_empty_L, elements_empty in Hx. cbn in Hx.
  unfold kbind at 1, klift in Hx. destruct (IsCommitter (v_ctrl v)) as [b| | |]; cbn in Hx; try done.
  destruct b; cbn in Hx; by injection Hx as _ <- <-.
Qed.

Lemma heartbeat_plain ch c h a c' h' : fit_client n c -> fit_host n h -> plain ch c -> emitHeartbeat (R := R) ch (c, h) = Ok (a, (c', h')) ->
  c' = c /\ fit_host n h' /\ adds n deadline 4 h h'.
Proof.
  intros Hc Hh Hp Hx. unfold emitHeartbeat, joined_vni, vni in Hx. unfold kbind at 1 2 3 4, kget, kret in Hx. cbn in Hx.
  destruct (match k_vnis c !! ch with Some v => _ | None => None end) as [v|]; [|injection Hx as _ <- <-; split_and!; [done|done|apply adds_refl]].
  unfold kbind at 1 in Hx. apply obind_ok in Hx as ([u [c1 h1]] & H1 & H2).
  assert (c1 = c) as ->.
  { unfold publish, kbind, kshared, klift, kshare in H1. cbn in H1. apply obind_ok in H1 as ([w s] & Hw & H1).
    apply obind_ok in Hw as (w1 & _ & [= <- <-]). by injection H1 as _ <- <-. }
  apply resend_nothing in H2 as [-> ->]; [|done].
  destruct (busy_beat None 4 ch (Controller_Epoch (v_ctrl v)) (k_id c) ltac:(lia) _ _ _ _ _ Hc Hh I H1) as (_ & Hh' & Ha & _). done.
Qed.

Lemma busy_onWelcome env : busy None 4 (onWelcome env).
Proof using Hn.
  unfold onWelcome. set (ch := e_VNI env). apply busy_bind; [apply busy_get|intros own].
  intros c h a c' h' Hc Hh Ho Hx. unfold kbind at 1, vni in Hx. unfold kbind at 1, kget, kret in Hx. cbn in Hx.
  destruct (k_vnis c !! ch) as [v|] eqn:Hv; [|injection Hx as _ <- <-; split_and!; [done|done|apply adds_refl|done]].
  destruct (v_joined v) eqn:Hj; [injection Hx as _ <- <-; split_and!; [done|done|apply adds_refl|done]|].
  unfold kbind at 1, kshared in Hx. cbn in Hx. destruct (joinerMaterial _ _ _) as [[kp ip] lp].
  unfold kbind at 1 in Hx. apply obind_ok in Hx as ([r [c1 h1]] & H1 & Hx).
  destruct (busy_on_ctrl None 4 _ _ _ _ _ _ _ _ Hc Hh I H1) as (C1 & D1 & A1 & J1).
  assert (plain ch c) as Hp by (intros v0 Hv0; apply (fit_vnis _ _ Hc ch v0 Hv0); congruence).
  pose proof (plain_on_ctrl _ _ _ _ _ _ _ _ Hp H1) as Hp1.
  unfold kbind at 1 in Hx. apply obind_ok in Hx as ([x [c2 h2]] & H2 & Hx).
  destruct (busy_settle n deadline None 4 _ _ _ _ _ _ C1 D1 I H2) as (C2 & D2 & A2 & J2).
  assert (c2 = c1) as -> by (destruct r; cbn in H2; [by injection H2 as _ <- <-|by injection H2 as _ <- <-|done|done]).
  destruct x as [u|e]; cycle 1.
  { injection Hx as _ <- <-. split_and!; [done|done|by eapply adds_trans|auto]. }
  unfold kbind at 1 in Hx. apply obind_ok in Hx as ([u3 [c3 h3]] & H3 & Hx).
  assert (busy None 4 (update ch (fun v => set_joinEpoch (Controller_Epoch (v_ctrl v)) (set_joined true v)))) as Hb3 by (apply busy_update; done).
  destruct (Hb3 _ _ _ _ _ C1 D2 I H3) as (C3 & D3 & A3 & J3).
  assert (plain ch c3) as Hp3 by (unfold update, kbind, kget, kput in H3; cbn in H3; injection H3 as _ <- <-; by apply plain_alter).
  unfold kbind at 1 in Hx. apply obind_ok in Hx as ([u4 [c4 h4]] & H4 & Hx).
  destruct (busy_cache None 4 _ _ _ _ _ _ C3 D3 I H4) as (C4 & D4 & A4 & J4). apply plain_cache in H4; [|done].
  unfold kbind at 1 in Hx. apply obind_ok in Hx as ([u5 [c5 h5]] & H5 & Hx).
  apply heartbeat_plain in H5 as (-> & D5 & A5); [|done..].
  match type of Hx with ?m _ = _ => assert (busy None 4 m) as Hb by (toil; apply busy_ret) end.
  destruct (Hb _ _ _ _ _ C4 D5 I Hx) as (C6 & D6 & A6 & J6).
  split_and!; [done|done| |auto 10]. do 5 (eapply adds_trans; [eassumption|]). done.
Qed.

(** A delivery to a client leads to messages of lower rank. *)
Lemma busy_onDeliver env : busy None (match e_Type env with MsgHeartbeat => 3 | MsgWelcome => 4 | MsgLogRequest => 2 | _ => 1 end) (onDeliver env).
Proof using Hn.
  unfold onDeliver. destruct (e_Type env); [apply busy_onCommit| |apply busy_onHeartbeat|apply busy_ret|apply busy_onLogReply|apply busy_onData].
  apply busy_bind; [apply busy_get|intros c]. destruct (bytes_Equal _ _); [apply busy_onWelcome|apply busy_ret].
Qed.

(** ** Reflectors *)

Definition handle_rank (t : MsgType) : nat := match t with MsgWelcome => 5 | MsgCommit | MsgLogRequest => 2 | MsgHeartbeat => 3 | _ => 1 end.

Lemma handle_adds env d w d' w' : fit_net n w -> handle env d w = Ok (d', w') ->
  ds_id d' = ds_id d /\ n_subs w' = n_subs w /\ s_clock (n_sched w') = s_clock (n_sched w) /\
  exists new, queue w' ≡ₚ new ++ queue w /\ Forall (fun e => (rank n deadline e < handle_rank (e_Type env))%nat) new.
Proof.
  intros Hf Hx. assert (ds_id d = ds_id d /\ n_subs w = n_subs w /\ s_clock (n_sched w) = s_clock (n_sched w) /\
    exists new, queue w ≡ₚ new ++ queue w /\ Forall (fun e => (rank n deadline e < handle_rank (e_Type env))%nat) new) as Hrefl
    by (split_and!; [done|done|done|by exists []]).
  assert (forall env' d0 w1 w2, fit_net n w1 -> (e_Type env' = MsgCommit \/ e_Type env' = MsgWelcome) -> reflect env' d0 w1 = Ok w2 ->
    n_subs w2 = n_subs w1 /\ s_clock (n_sched w2) = s_clock (n_sched w1) /\
    exists new, queue w2 ≡ₚ new ++ queue w1 /\ Forall (fun e => (rank n deadline e < handle_rank (e_Type env'))%nat) new) as Hr.
  { intros env' d0 w1 w2 Hf1 Ht Hw. unfold reflect in Hw. apply obind_ok in Hw as (w3 & Hp & [= <-]).
    apply (Publish_adds n deadline (handle_rank (e_Type env'))) in Hp; [done|done|]. intros dst Hd. unfold may_reach in Hd. cbn in Hd |- *.
    destruct Ht as [-> | ->]; cbn; rewrite Hd; lia. }
  unfold handle in Hx. destruct (isDown _ _); [by injection Hx as <- <-|].
  destruct (e_Type env) eqn:Et; try (by injection Hx as <- <-).
  - unfold DS_onCommit in Hx. apply obind_ok in Hx as (m & _ & Hx). destruct (MemorySequencer_AcceptCommit _ _ _ _) as [ok seq].
    destruct ok; cbn [negb] in Hx; [|by injection Hx as <- <-]. apply obind_ok in Hx as (w1 & Hw & [= <- <-]).
    eapply Hr in Hw as (S1 & C1 & Hq); [|exact Hf|by left]. rewrite Et in Hq. split_and!; [|done|done|done].
    unfold appendLog. by case_match.
  - apply obind_ok in Hx as (w1 & Hw & [= <- <-]). eapply Hr in Hw as (S1 & C1 & Hq); [|exact Hf|by right]. rewrite Et in Hq. done.
  - apply obind_ok in Hx as (w1 & Hw & [= <- <-]). unfold serveCatchup in Hw. apply obind_ok in Hw as (w2 & Hp & [= <-]).
    apply (Publish_adds n deadline 2) in Hp as (S1 & C1 & Hq); [done|done|]. intros dst _. cbn. lia.
Qed.
End methods.

(** * The world *)

Section worlds.
Context {C : StdCrypto} {R : Type} `{!RandSource R} (n deadline : Z) (Hn : 0 <= n) (Hd : 0 <= deadline < 2 ^ 64 - 20).
Context (commitRand : nat -> CommitRand) (kpRand : nat -> Rand * Rand) (signers : nat -> Signer) (source : Z -> R).
Implicit Types w : world (R := R).

Record fit_world w : Prop := {
  fw_len : len (w_clients w) = n;
  fw_clients : Forall (fit_client n) (w_clients w);
  fw_host : fit_host n (w_host w);
  fw_deadline : u64 (w_settleDeadline w + sc_SettleRounds (w_sc w)) = deadline
}.

Definition wqueue w : list Event := queue (h_net (w_host w)).

Lemma on_client_fits (P : Host -> Host -> Prop) a m w w' : fit_world w ->
  (forall c h u c' h', fit_client n c -> fit_host n h -> m (c, h) = Ok (u, (c', h')) -> fit_client n c' /\ fit_host n h' /\ P h h') ->
  on_client (R := R) a m w = Ok w' -> fit_world w' /\ P (w_host w) (w_host w').
Proof.
  intros [H1 H2 H3 H4] Hm Hx. unfold on_client in Hx. destruct (w_clients w !! a) as [c|] eqn:Ec; [|done].
  apply obind_ok in Hx as ([u [c' h']] & Hc & [= <-]). rewrite Forall_lookup in H2. destruct (Hm _ _ _ _ _ (H2 _ _ Ec) H3 Hc) as (F1 & F2 & F3).
  split; [|done]. split; [|  |done|done]; cbn [w_clients with_host with_clients].
  - rewrite <- H1. unfold len. by rewrite length_insert.
  - apply Forall_insert; [by apply Forall_lookup|done].
Qed.

Lemma on_client_adds k a m w w' : fit_world w -> busy n deadline None k m -> on_client (R := R) a m w = Ok w' ->
  fit_world w' /\ adds n deadline k (w_host w) (w_host w').
Proof.
  intros Hw Hm. apply on_client_fits; [done|]. intros c h u c' h' Hc Hh Hx. by destruct (Hm _ _ _ _ _ Hc Hh I Hx) as (? & ? & ? & _).
Qed.

Lemma schedule_fits at_ e w : fit_world w -> fit_world (schedule at_ e w) /\
  wqueue (schedule at_ e w) ≡ₚ with_At_Seq (if at_ <? s_clock (wsched w) then s_clock (wsched w) else at_) (s_seq (wsched w)) e :: wqueue w /\
  s_clock (wsched (schedule at_ e w)) = s_clock (wsched w).
Proof. intros [H1 H2 H3 H4]. split_and!; [by split|apply heap_Push_perm|done]. Qed.

(** What handling an event adds to the queue. *)
Definition spawned (k : nat) w w' : Prop := exists new, wqueue w' ≡ₚ new ++ wqueue w /\ Forall (fun e => (rank n deadline e < k)%nat) new.

Lemma spawned_refl k w : spawned k w w.
Proof. by exists []. Qed.

Lemma spawned_trans k w1 w2 w3 : spawned k w1 w2 -> spawned k w2 w3 -> spawned k w1 w3.
Proof. intros (n1 & P1 & F1) (n2 & P2 & F2). exists (n2 ++ n1). split; [by rewrite P2, P1, app_assoc|by apply Forall_app]. Qed.

Lemma client_index_spec w a : fit_world w ->
  match client_index w a with Some i => is_client n a = true /\ i = Z.to_nat a | None => is_client n a = false end.
Proof. intros [H1 _ _ _]. unfold client_index, is_client. rewrite H1. by destruct (_ && _). Qed.

Lemma dispatchDeliver_fits e w line w' : fit_world w -> ev_Kind e = KindDeliver -> dispatchDeliver e w = Ok (line, w') ->
  fit_world w' /\ spawned (rank n deadline e) w w'.
Proof using Hn.
  intros Hw Hk Hx. unfold dispatchDeliver in Hx. unfold rank. rewrite Hk. pose proof (client_index_spec w (ev_Actor e) Hw) as Hi.
  destruct (client_index w (ev_Actor e)) as [a|].
  - destruct Hi as [Hi _]. apply obind_ok in Hx as (w1 & Hc & [= _ <-]).
    eapply on_client_adds in Hc as [Hw1 [_ Hq]]; [|done|by apply busy_onDeliver]. split; [done|].
    replace (rank_msg n (ev_Actor e) (e_Type (ev_Env e))) with
      (match e_Type (ev_Env e) with MsgHeartbeat => 3 | MsgWelcome => 4 | MsgLogRequest => 2 | _ => 1 end)%nat; [exact Hq|].
    unfold rank_msg. rewrite Hi. by destruct (e_Type _).
  - destruct (list_find _ (w_dss w)) as [[i d]|]; [|injection Hx as _ <-; split; [done|apply spawned_refl]].
    apply obind_ok in Hx as ([d' net'] & Hh & [= _ <-]). apply (handle_adds n deadline) in Hh as (_ & S1 & C1 & Hq); [|apply Hw].
    split.
    + destruct Hw as [H1 H2 H3 H4]. split; [done|done| |done]. unfold fit_host, fit_net in *. cbn. by rewrite S1.
    + replace (rank_msg n (ev_Actor e) (e_Type (ev_Env e))) with (handle_rank (e_Type (ev_Env e))); [exact Hq|].
      unfold rank_msg. rewrite Hi. by destruct (e_Type _).
Qed.

Lemma interval_bound t : 3 <= interval t <= 20.
Proof. destruct t; cbn; unfold defaultRekeyInterval, defaultHeartbeatInterval, defaultReconcileInterval, defaultDataInterval; lia. Qed.

Lemma timer_rank at_ seq e t : ev_Kind e = KindTimer -> ev_At e < deadline -> 3 <= t <= 20 -> at_ = u64 (ev_At e + t) ->
  Nat.lt (rank n deadline (with_At_Seq (if at_ <? ev_At e then ev_At e else at_) seq (timer_event (ev_Actor e) (ev_Timer e) (ev_Env e))))
    (rank n deadline e).
Proof using Hd.
  intros Hk Ha Ht ->. unfold rank. rewrite Hk. cbn [ev_Kind with_At_Seq timer_event ev_At].
  pose proof (Z.mod_pos_bound (ev_At e + t) (2 ^ 64) ltac:(lia)) as Hm. unfold u64.
  destruct (Z.lt_ge_cases (ev_At e + t) 0) as [Hlt|Hge].
  - rewrite (proj2 (Z.ltb_ge _ _)) by lia. lia.
  - rewrite Z.mod_small by lia. rewrite (proj2 (Z.ltb_ge _ _)) by lia. lia.
Qed.

Lemma dispatchTimer_fits e w line w' : fit_world w -> ev_Kind e = KindTimer -> s_clock (wsched w) = ev_At e ->
  dispatchTimer commitRand e w = Ok (line, w') -> fit_world w' /\ spawned (rank n deadline e) w w'.
Proof using Hn Hd.
  intros Hw Hk Hc Hx. unfold dispatchTimer in Hx. rewrite (fw_deadline _ Hw) in Hx. apply obind_ok in Hx as (w1 & H1 & [= _ <-]).
  assert (fit_world w1 /\ adds n deadline 10 (w_host w) (w_host w1)) as [Hw1 [Hc1 (new & Hq & HF)]].
  { destruct (client_index w (ev_Actor e)) as [a|]; [|injection H1 as <-; split; [done|apply adds_refl]].
    eapply on_client_adds; [done| |exact H1]. destruct (ev_Timer e); [by apply busy_rekey|by apply busy_heartbeat|by apply busy_reconcile|by apply busy_sendData]. }
  assert (spawned (rank n deadline e) w w1) as Hs.
  { exists new. split; [exact Hq|]. eapply Forall_impl; [exact HF|]. intros x Hr. unfold rank at 2. rewrite Hk. cbn in Hr. lia. }
  destruct (Z.ltb_spec (ev_At e) deadline) as [Hlt|]; [|done].
  destruct (schedule_fits (u64 (ev_At e + interval (ev_Timer e))) (timer_event (ev_Actor e) (ev_Timer e) (ev_Env e)) w1 Hw1) as (Hw2 & Hq2 & _).
  split; [done|]. eapply spawned_trans; [exact Hs|]. eexists [_]. split; [exact Hq2|]. constructor; [|done].
  change (s_clock (wsched w1)) with (s_clock (n_sched (h_net (w_host w1)))). rewrite Hc1. change (s_clock (n_sched (h_net (w_host w)))) with (s_clock (wsched w)).
  rewrite Hc. by eapply timer_rank; [..|apply interval_bound|].
Qed.

Lemma churn_replica_fits k op id r w w' : fit_world w -> (10 + Z.to_nat deadline < k)%nat -> churn_replica op id r w = Ok w' ->
  fit_world w' /\ spawned k w w'.
Proof.
  intros Hw Hk Hx. unfold churn_replica in Hx. set (w0 := if ch_Join op then _ else _) in Hx.
  assert (fit_world w0 /\ wqueue w0 = wqueue w) as [Hw0 Eq].
  { unfold w0. destruct Hw as [H1 H2 H3 H4]. destruct (ch_Join op); (split; [by split|done]). }
  apply obind_ok in Hx as (c0 & _ & [= <-]).
  match goal with |- context [schedule ?a ?e w0] => destruct (schedule_fits a e w0 Hw0) as (Hw1 & Hq & _) end.
  rewrite Eq in Hq. split; [done|]. eexists [_]. split; [exact Hq|]. constructor; [|done]. unfold rank. cbn [ev_Kind with_At_Seq timer_event ev_At].
  pose proof (Z.mod_pos_bound (Now (wsched w0) + 1) (2 ^ 64) ltac:(lia)) as Hm. fold (u64 (Now (wsched w0) + 1)) in Hm.
  destruct (Z.ltb_spec (u64 (Now (wsched w0) + 1)) (s_clock (wsched w0))); lia.
Qed.

Lemma dispatchChurn_fits e w line w' : fit_world w -> ev_Kind e = KindChurn -> dispatchChurn e w = Ok (line, w') ->
  fit_world w' /\ spawned (rank n deadline e) w w'.
Proof.
  intros Hw Hk Hx. unfold dispatchChurn in Hx. destruct (client_index w _); [|injection Hx as _ <-; split; [done|apply spawned_refl]].
  apply obind_ok in Hx as (cl & _ & Hx). apply obind_ok in Hx as (w1 & Hf & [= _ <-]).
  assert (10 + Z.to_nat deadline < rank n deadline e)%nat as Hr by (unfold rank; rewrite Hk; lia).
  generalize dependent w. generalize (rank n deadline e) Hr. clear Hr. intros k Hr w Hw. generalize (seqZ 0 (w_numReplicas w)). intros l. revert w Hw.
  induction l as [|r l IH]; intros w Hw Hf; cbn [wfor] in Hf; [injection Hf as <-; split; [done|apply spawned_refl]|].
  apply obind_ok in Hf as (w2 & H2 & Hf). eapply churn_replica_fits in H2 as [Hw2 Hs2]; [|done|done]. destruct (IH _ Hw2 Hf) as [Hw1 Hs1].
  split; [done|]. by eapply spawned_trans.
Qed.

(** Every event of the queue that a turn adds has a lower rank. *)
Lemma turn_fits e s w line w' : fit_world w -> Pop (wsched w) = (Some e, s) -> turn commitRand e s w = Ok (line, w') ->
  fit_world w' /\ lowered (rank n deadline <$> wqueue w') (rank n deadline <$> wqueue w).
Proof using Hn Hd.
  intros Hw Hpop Hx. unfold Pop in Hpop. pose proof (heap_Pop_perm event_less (s_pq (wsched w))) as Hperm.
  destruct (heap_Pop event_less _) as [[e0 rest]|]; [|done]. injection Hpop as -> <-.
  unfold turn in Hx. match type of Hx with context [dispatch _ e ?x] => set (w1 := x) in Hx end.
  assert (fit_world w1 /\ wqueue w1 = rest /\ s_clock (wsched w1) = ev_At e) as (Hw1 & Eq & Ec) by (destruct Hw as [H1 H2 H3 H4]; split_and!; [by split|done|done]).
  apply obind_ok in Hx as ([line1 w2] & Hdis & [= _ Ew]).
  assert (fit_world w2 /\ spawned (rank n deadline e) w1 w2) as [Hw2 (new & Hq & HF)].
  { unfold dispatch in Hdis. destruct (ev_Kind e) eqn:Ek.
    - by eapply dispatchDeliver_fits.
    - by eapply dispatchTimer_fits.
    - injection Hdis as _ <-. destruct Hw1 as [H1 H2 H3 H4]. split; [by split|by exists []].
    - by eapply dispatchChurn_fits. }
  assert (fit_world w' /\ wqueue w' = wqueue w2) as [Hw' Eq'] by (subst w'; destruct (_ && _); [destruct Hw2; by split|done]).
  split; [done|]. rewrite Eq'. exists (rank n deadline e), (rank n deadline <$> rest), (rank n deadline <$> new). split_and!.
  - unfold wqueue, queue. change (n_sched (h_net (w_host w))) with (wsched w). by rewrite Hperm.
  - rewrite Hq, fmap_app, Eq. done.
  - by apply Forall_fmap.
Qed.

(** More fuel does not change the outcome. *)
Lemma main_loop_more fuel fuel' w trace r : (fuel <= fuel')%nat -> main_loop commitRand fuel w trace = Some r ->
  main_loop commitRand fuel' w trace = Some r.
Proof.
  revert fuel' w trace. induction fuel as [|fuel IH]; intros fuel' w trace Hle Hx; [done|]. destruct fuel' as [|fuel']; [lia|].
  cbn [main_loop] in *. destruct (Pop (wsched w)) as [[e|] s]; [|done]. destruct (turn commitRand e s w) as [[line w']| | |]; [|done..].
  apply IH; [lia|done].
Qed.

Lemma main_loop_ends w trace : fit_world w -> exists fuel, is_Some (main_loop commitRand fuel w trace).
Proof using Hn Hd.
  intros Hw. remember (rank n deadline <$> wqueue w) as q eqn:Eq. revert w trace Hw Eq.
  induction (lowered_wf q) as [q _ IH]. intros w trace Hw ->.
  destruct (Pop (wsched w)) as [[e|] s] eqn:Hp; [|exists 1%nat; cbn; rewrite Hp; eauto].
  destruct (turn commitRand e s w) as [[line w']| | |] eqn:Ht; [|exists 1%nat; cbn; rewrite Hp, Ht; eauto..].
  destruct (turn_fits _ _ _ _ _ Hw Hp Ht) as [Hw' Hl]. destruct (IH _ Hl w' (trace ++ [line]) Hw' eq_refl) as [fuel Hf].
  exists (S fuel). cbn. by rewrite Hp, Ht.
Qed.

(** ** The bootstrap *)

Lemma subscribe_fits ch a net : fit_net (R := R) n net -> is_client n a = true -> fit_net n (Subscribe ch a net).
Proof.
  intros Hf Ha ch' s x. unfold Subscribe. cbn [n_subs with_subs]. intros [[<- <-]|[_ Hs]]%lookup_insert_Some Hx; [|by eapply Hf].
  apply elem_of_union in Hx as [->%elem_of_singleton|Hx]; [done|]. destruct (n_subs net !! ch) as [s|] eqn:E; [by eapply Hf|]. cbn in Hx. set_solver.
Qed.

Lemma insert_fits ch v c : fit_client n c -> fit_vni v -> fit_client n (with_vnis (<[ch := v]> (k_vnis c)) c).
Proof.
  intros [H1 H2 H3] Hv. split; [done|done|]. cbn [k_vnis with_vnis]. intros ch' v' [[<- <-]|[_ Hv']]%lookup_insert_Some; [done|by eapply H3].
Qed.

Lemma found_fits ch c h u c' h' : fit_client n c -> fit_host n h -> foundVNI (R := R) kpRand ch (c, h) = Ok (u, (c', h')) ->
  fit_client n c' /\ fit_host n h'.
Proof.
  intros Hc Hh Hx. unfold foundVNI in Hx. apply kbind_ok in Hx as (c0 & s1 & [= <- <-] & Hx). cbn [fst] in Hx.
  apply kbind_ok in Hx as (i & [c1 h1] & [= <- <- <-] & Hx). apply kbind_ok in Hx as (h2 & s1 & [= <- <-] & Hx). cbn [snd h_dir] in Hx.
  apply kbind_ok in Hx as (g & s1 & [_ ->]%klift_ok & Hx). destruct (NewController _ (Some g) tt) as [[ctrl []]| | |]; [|done..].
  apply kbind_ok in Hx as (u1 & s1 & [= <- <-] & Hx). apply kbind_ok in Hx as (u2 & s1 & [= <- <-] & Hx). cbn [fst snd] in Hx.
  eapply (busy_cache n deadline None 10) in Hx as (F1 & F2 & _); [done| | |done].
  - apply insert_fits; [done|]. by intros E.
  - apply subscribe_fits; [done|apply Hc].
Qed.

Lemma prospective_fits ch c h u c' h' : fit_client n c -> fit_host n h -> prospectiveVNI (R := R) kpRand ch (c, h) = Ok (u, (c', h')) ->
  fit_client n c' /\ fit_host n h'.
Proof.
  intros Hc Hh Hx. unfold prospectiveVNI in Hx. apply kbind_ok in Hx as (c0 & s1 & [= <- <-] & Hx). cbn [fst] in Hx.
  apply kbind_ok in Hx as (h0 & s1 & [= <- <-] & Hx). apply kbind_ok in Hx as ([ctrl u0] & s1 & [_ ->]%klift_ok & Hx).
  apply kbind_ok in Hx as (u1 & s1 & [= <- <-] & Hx). apply kbind_ok in Hx as (u2 & [c2 h2] & H2 & Hx).
  apply kbind_ok in Hx as (h3 & s1 & [= <- <-] & Hx). injection Hx as _ <- <-. cbn [snd].
  unfold publishKeyPackage in H2. apply kbind_ok in H2 as (i & s1 & [= <- <-] & H2). apply kbind_ok in H2 as (h3 & s1 & [= <- <-] & H2).
  cbv zeta in H2. match type of H2 with match ?x with _ => _ end _ = _ => destruct x as [entry| | |] end; try done. injection H2 as _ <- <-.
  split; [apply insert_fits; [done|by intros _]|]. apply subscribe_fits; [done|apply Hc].
Qed.

Lemma wfor_fits {A} (l : list A) f w w' : (forall x w w', fit_world w -> f x w = Ok w' -> fit_world w') -> fit_world w ->
  wfor (R := R) l f w = Ok w' -> fit_world w'.
Proof.
  intros Hf. revert w. induction l as [|x l IH]; intros w Hw Hx; cbn [wfor] in Hx; [by injection Hx as <-|].
  apply obind_ok in Hx as (w1 & H1 & Hx). eapply IH; [by eapply Hf|done].
Qed.

Lemma fold_fits {A} (l : list A) (f : world -> A -> world) w : (forall x w, fit_world w -> fit_world (f w x)) -> fit_world w ->
  fit_world (foldl f w l).
Proof. intros Hf. revert w. induction l as [|x l IH]; intros w Hw; [done|]. cbn. by apply IH, Hf. Qed.

Lemma bootstrap_fits w w' : fit_world w -> bootstrap kpRand w = Ok w' -> fit_world w'.
Proof.
  intros Hw Hx. assert (forall at_ e w, fit_world w -> fit_world (schedule at_ e w)) as Hs by (intros; by apply schedule_fits).
  unfold bootstrap in Hx. apply obind_ok in Hx as (w1 & H1 & [= <-]).
  assert (fit_world w1) as Hw1.
  { eapply (wfor_fits (seqZ 0 (sc_VNIs (w_sc w)))); [|exact Hw|exact H1]. cbv beta. intros v wa wb Ha. apply wfor_fits; [|done]. intros r w2 w3 H2 Hb.
    unfold bootstrap_channel in Hb. apply obind_ok in Hb as (w4 & H4 & Hb).
    eapply (on_client_fits (fun _ _ => True)) in H4 as [Hw4 _]; [|done|].
    - eapply wfor_fits; [|  |exact Hb]; [|destruct Hw4; by split]. cbv beta. intros a w5 w6 H5 H6.
      eapply (on_client_fits (fun _ _ => True)) in H6 as [Hw6 _]; [done|done|].
      intros c h u c' h' Hc Hh Hy. destruct (prospective_fits _ _ _ _ _ _ Hc Hh Hy). done.
    - intros c h u c' h' Hc Hh Hy. destruct (found_fits _ _ _ _ _ _ Hc Hh Hy). done. }
  apply fold_fits.
  { intros [i c] w2 H2. apply fold_fits; [|done]. intros v w3 H3. unfold schedule_timers. apply fold_fits; [|by apply Hs].
    intros r w4 H4. apply fold_fits; [|done]. intros t w5 H5. by apply Hs. }
  unfold schedule_churn. apply fold_fits; [intros [i op] w2 H2; by apply Hs|].
  apply fold_fits; [intros d w2 H2; by apply Hs, Hs|]. apply fold_fits; [intros p w2 H2; by apply Hs, Hs|done].
Qed.
End worlds.

(** * Property *)

(** A computation on fuel has an outcome: with enough fuel always the same. *)
Definition ends {A} (run : nat -> option A) : Prop := exists enough r, forall fuel, (enough <= fuel)%nat -> run fuel = Some r.

(** Every run has an outcome. *)
Lemma Run_ends {C : StdCrypto} {R : Type} `{!RandSource R} commitRand kpRand signers (source : Z -> R) sc seed :
  0 <= sc_SettleRounds sc < 2 ^ 62 -> ends (fun fuel => Run commitRand kpRand signers source fuel sc seed).
Proof.
  intros Hs. unfold ends, Run. destruct (setup kpRand signers source sc seed) as [w| | |] eqn:Es; [|by eexists 0%nat, _..].
  unfold setup in Es. destruct (Lookup (sc_Suite sc)) as [suite|]; [|done]. destruct (Z.ltb_spec (sc_Clients sc) 0) as [|Hn]; [done|].
  assert (u64 (sc_SettleRounds sc + sc_SettleRounds sc) = sc_SettleRounds sc + sc_SettleRounds sc) as Eu by (apply Z.mod_small; lia).
  assert (fit_world (sc_Clients sc) (sc_SettleRounds sc + sc_SettleRounds sc) w) as Hw.
  { eapply bootstrap_fits; [exact Hn|lia| |exact Es]. split; cbn.
    - unfold len. rewrite length_map, length_seq. lia.
    - apply Forall_forall. intros c (i & <- & Hi)%list_elem_of_In%in_map_iff. apply in_seq in Hi. split; [|done|done].
      apply andb_true_iff. split; [apply Z.leb_le|apply Z.ltb_lt]; cbn; lia.
    - done.
    - done. }
  destruct (main_loop_ends (sc_Clients sc) (sc_SettleRounds sc + sc_SettleRounds sc) Hn ltac:(lia) commitRand w [] Hw) as [fuel [r Hr]].
  exists fuel. destruct r as [[w' trace]| | |]; (eexists; intros fuel' Hle; rewrite (main_loop_more _ _ _ _ _ _ Hle Hr); reflexivity).
Qed.


