(* ===== verification/Metalsim.v ===== *)
(** [cmd/metalsim]: the command that runs the scenarios as a gate.

    [main.go].  The flags are arguments and the exit code is the result; what
    is printed on the way is left out, but for the rows of the summary.  A
    probability is a finite [float64], a rational number as in [SimNet].  A
    panic of a run ends the process. *)

From Stdlib Require Import ZArith QArith Lia Strings.Byte.
From stdpp Require Import base list numbers strings sorting sets gmap.
From S2P Require Import Prelude Syntax Cipher ToyCrypto GroupMessages Group SimSched SimNet SimClient SimWorld SimRun.

Local Open Scope Z_scope.

(* cmd/metalsim/main.go:54-67 applyOverrides *)
Definition applyOverrides (clients vnis rounds : Z) (drop : Q) (sc : Scenario) : Scenario :=
  mkScenario (sc_Name sc) (if 0 <? clients then clients else sc_Clients sc) (if 0 <? vnis then vnis else sc_VNIs sc)
    (sc_Suite sc) (sc_W sc)
    (mkFaultConfig (if Qle_bool 0 drop then drop else fc_DropProb (sc_Faults sc)) (fc_Latency (sc_Faults sc)) (fc_Jitter (sc_Faults sc)))
    (sc_Partitions sc) (sc_DSDowns sc) (sc_Churn sc) (if 0 <? rounds then rounds else sc_SettleRounds sc)
    (sc_MBBDisabled sc) (sc_SingleReplica sc) (sc_SharedSPIReplay sc) (sc_EncryptHandshakes sc).

(* cmd/metalsim/main.go:108-117 scenarioRow *)
Record scenarioRow := mkScenarioRow {
  row_Scenario : string;
  row_Pass : bool;
  row_PacketLoss : Z;
  row_CommitMsgs : Z;
  row_CommitBytes : Z;
  row_DataDecrypt : Z;
  row_MaxOverlap : Z;
  row_MaxSendLag : Z
}.

(** The row of one run; [Run] always sets the counters. *)
(* cmd/metalsim/main.go:130-139 runAll *)
Definition summary_row (sc : Scenario) (r : Result) : scenarioRow :=
  let m := default newMetrics (r_Metrics r) in
  mkScenarioRow (sc_Name sc) (r_InvariantsHeld r) (len (r_PacketLoss r)) (m_CommitMsgs m) (m_CommitBytes m)
    (m_DataDecryptable m) (m_MaxOverlap m) (m_MaxSendLag m).

Section metalsim.
Context {C : StdCrypto} {R : Type} `{!RandSource R}.
Context (commitRand : nat -> CommitRand) (kpRand : nat -> Rand * Rand) (signers : nat -> Signer) (source : Z -> R).
Local Abbreviation run fuel sc seed := (Run commitRand kpRand signers source fuel sc seed).

Section flags.
Context (clients vnis seed rounds : Z) (drop : Q).

(* cmd/metalsim/main.go:126-143 runAll *)
Fixpoint run_scenarios (fuel : nat) (scs : list Scenario) (rows : list scenarioRow) (allPass : bool)
  : option (outcome (list scenarioRow * bool)) :=
  match scs with
  | [] => Some (Ok (rows, allPass))
  | sc :: scs =>
      let sc := applyOverrides clients vnis rounds drop sc in
      match run fuel sc seed with
      | Some (Ok (r, _)) => run_scenarios fuel scs (rows ++ [summary_row sc r]) (if r_InvariantsHeld r then allPass else false)
      | Some (Err e) => Some (Err e)
      | Some Panic => Some Panic
      | Some Diverge => Some Diverge
      | None => None
      end
  end.

(** The rows and the exit code. *)
(* cmd/metalsim/main.go:121-143 runAll *)
Definition runAll (fuel : nat) : option (outcome (list scenarioRow * Z)) :=
  match run_scenarios fuel All [] true with
  | Some o => Some (let! (rows, allPass) := o in Ok (rows, if allPass : bool then 0 else 1))
  | None => None
  end.

(** The exit code. *)
(* cmd/metalsim/main.go:33-51 main *)
Definition main (fuel : nat) (scenario : string) : option (outcome Z) :=
  if decide (scenario = "all") then
    match runAll fuel with Some o => Some (let! (_, code) := o in Ok code) | None => None end
  else
  match ByName scenario with
  | None => Some (Ok 2)
  | Some sc =>
      match run fuel (applyOverrides clients vnis rounds drop sc) seed with
      | Some o => Some (let! (r, _) := o in Ok (if r_InvariantsHeld r then 0 else 1))
      | None => None
      end
  end.

(** * Lemmas *)

(** The run of a scenario with the overrides, which holds. *)
Definition passes (fuel : nat) (sc : Scenario) : Prop :=
  exists r tr, run fuel (applyOverrides clients vnis rounds drop sc) seed = Some (Ok (r, tr)) /\ r_InvariantsHeld r = true.

Lemma overrides_rounds sc : 0 <= rounds < 2 ^ 62 -> 0 <= sc_SettleRounds sc < 2 ^ 62 ->
  0 <= sc_SettleRounds (applyOverrides clients vnis rounds drop sc) < 2 ^ 62.
Proof. intros Hr Hs. cbn [applyOverrides sc_SettleRounds]. destruct (0 <? rounds); lia. Qed.

Lemma scenarios_rounds name sc : sc ∈ All \/ ByName name = Some sc -> sc_SettleRounds sc = 300.
Proof.
  assert (Forall (fun sc => sc_SettleRounds sc = 300) (All ++ [NegativeControl; MigrationChurn; SharedSPIReplayControl])) as Hall
    by (repeat constructor).
  rewrite Forall_forall in Hall. intros [Hin|Hb]; apply Hall; [apply elem_of_app; by left|].
  unfold ByName in Hb. apply find_some in Hb as [Hin _]. by apply list_elem_of_In.
Qed.

Lemma run_scenarios_spec fuel scs : forall rows0 ap rows ap', run_scenarios fuel scs rows0 ap = Some (Ok (rows, ap')) ->
  row_Scenario <$> rows = (row_Scenario <$> rows0) ++ (sc_Name <$> scs) /\ (ap' = true <-> ap = true /\ Forall (passes fuel) scs).
Proof.
  induction scs as [|sc scs IH]; intros rows0 ap rows ap' H; cbn [run_scenarios] in H.
  { injection H as <- <-. rewrite app_nil_r. split; [done|]. split; [by split|by intros [? _]]. }
  cbv zeta in H. destruct (run fuel _ seed) as [[[r tr]| | |]|] eqn:Er; try done. apply IH in H as [H1 H2]. split.
  - rewrite H1, fmap_app, <- app_assoc. done.
  - assert (passes fuel sc <-> r_InvariantsHeld r = true) as Hp.
    { unfold passes. rewrite Er. split; [by intros (r' & tr' & [= <- <-] & Hh)|]. by exists r, tr. }
    rewrite H2, Forall_cons, Hp. destruct (r_InvariantsHeld r); naive_solver.
Qed.

Lemma run_scenarios_ends scs : (forall sc, sc ∈ scs -> ends (fun fuel => run fuel (applyOverrides clients vnis rounds drop sc) seed)) ->
  forall rows ap, ends (fun fuel => run_scenarios fuel scs rows ap).
Proof.
  induction scs as [|sc scs IH]; intros He rows ap; [by exists 0%nat, (Ok (rows, ap))|].
  destruct (He sc) as (n & o & Hn); [left|]. destruct o as [[r tr]| | |]; cbn [run_scenarios].
  - destruct (IH ltac:(intros; apply He; by right) (rows ++ [summary_row (applyOverrides clients vnis rounds drop sc) r])
      (if r_InvariantsHeld r then ap else false)) as (m & o & Hm).
    exists (Nat.max n m), o. intros fuel Hf. rewrite Hn by lia. apply Hm. lia.
  - eexists n, _. intros fuel Hf. by rewrite Hn.
  - eexists n, _. intros fuel Hf. by rewrite Hn.
  - eexists n, _. intros fuel Hf. by rewrite Hn.
Qed.
End flags.
End metalsim.

(** * Property *)

(** The command is a gate: it ends; with all scenarios it exits with code 0
    exactly when every scenario, with the overrides of the command line, held
    its invariants, and with 1 otherwise, one row for each; an unknown name
    gives code 2. *)
Theorem metalsim_gate {C : StdCrypto} {R : Type} `{!RandSource R} commitRand kpRand signers (source : Z -> R) clients vnis seed rounds drop :
  0 <= rounds < 2 ^ 62 ->
  (forall name, ends (fun fuel => main commitRand kpRand signers source clients vnis seed rounds drop fuel name)) /\
  (forall fuel rows code, runAll commitRand kpRand signers source clients vnis seed rounds drop fuel = Some (Ok (rows, code)) ->
     row_Scenario <$> rows = sc_Name <$> All /\ (code = 0 \/ code = 1) /\
     (code = 0 <-> Forall (passes commitRand kpRand signers source clients vnis seed rounds drop fuel) All)) /\
  (forall fuel name, name <> "all" -> ByName name = None ->
     main commitRand kpRand signers source clients vnis seed rounds drop fuel name = Some (Ok 2)).
Proof.
  intros Hr. split_and!.
  - assert (forall name sc, sc ∈ All \/ ByName name = Some sc ->
      ends (fun fuel => Run commitRand kpRand signers source fuel (applyOverrides clients vnis rounds drop sc) seed)) as He.
    { intros name sc Hin. apply Run_ends, overrides_rounds; [done|]. rewrite (scenarios_rounds name sc Hin). lia. }
    intros name. unfold main, runAll. case_decide.
    + destruct (run_scenarios_ends commitRand kpRand signers source clients vnis seed rounds drop All
        ltac:(intros sc Hsc; apply (He ""); by left) [] true) as (n & o & Hn).
      eexists n, _. intros fuel Hf. by rewrite (Hn fuel Hf).
    + destruct (ByName name) as [sc|] eqn:Eb; [|by eexists 0%nat, _]. destruct (He name sc (or_intror Eb)) as (n & o & Hn).
      eexists n, _. intros fuel Hf. by rewrite (Hn fuel Hf).
  - intros fuel rows code H. unfold runAll in H. destruct (run_scenarios _ _ _ _ _ _ _ _ _ _ _ _ _) as [[[rs ap]| | |]|] eqn:Es; try done.
    injection H as <- <-. apply run_scenarios_spec in Es as [H1 H2]. split; [done|].
    assert (ap = true <-> Forall (passes commitRand kpRand signers source clients vnis seed rounds drop fuel) All) as Hap by naive_solver.
    rewrite <- Hap. by destruct ap; split; auto.
  - intros fuel name Hne Hb. unfold main. rewrite decide_False by done. by rewrite Hb.
Qed.

(** The command line [-scenario nosuch] exits with code 2. *)
Lemma metalsim_gate_witness :
  main (C := toy) (RandSource0 := Reflector.still)
    (fun i => mkCommitRand (C := toy) (toy_priv (Z.of_nat i)) (be_bytes 4 (Z.of_nat i)) (fun a b => a + b : Rand (StdCrypto := toy)) (fun a => a : Rand (StdCrypto := toy)))
    (fun i => (2 * Z.of_nat i : Rand (StdCrypto := toy), 2 * Z.of_nat i + 1 : Rand (StdCrypto := toy)))
    (fun i => inl (toy_priv (Z.of_nat i))) (fun _ => tt) 0 0 1 0 (-1) 0 "nosuch" = Some (Ok 2).
Proof. eapply (proj2 (proj2 (metalsim_gate _ _ _ _ 0 0 1 0 (-1) ltac:(lia)))); [discriminate|reflexivity]. Defined.
